(* ===== verification/_CoqProject ===== *)
-Q . S2P
Prelude.v
Encoding.v
Utf8.v
Checksum.v
Schema.v
Format.v
Float.v
Rows.v
Dictionary.v
Files.v
Engine.v
Stats.v
Metadata.v
Paths.v
Index.v
Segments.v
Crash.v
Reader.v
Retention.v
Recovery.v
Commit.v
Snapshot.v
Cache.v
Scan.v
Plan.v
Typing.v
Query.v
Grouping.v
Integrity.v
Database.v
Cursors.v
Writer.v
Findings.v
Auth.v
JsonMemory.v
Json.v
Feed.v
Jobs.v
Api.v
Http.v
Main.v
