(* ===== verification/Prelude.v ===== *)
(** * WebAnalyticsDB: a verification development

    WebAnalyticsDB is an append-only analytics database in C. A table is a log of
    segments, one active and the others sealed; a segment is a header and frames, and a
    frame is a batch of fixed-width rows with the new symbols of the segment's
    dictionary and a CRC-32C. Producers hand rows to one writer thread, which commits a
    group of requests as one frame; readers take a snapshot of the segment list and
    scan it, a query filters, groups and orders what it scans, retention retires whole
    segments, and opening a database replays what the metadata files describe. An HTTP
    server in front of it authenticates clients, turns JSON into calls and results into
    JSON, runs them on worker threads within memory budgets, runs background jobs and
    streams events. This library models those parts as executable definitions and proves
    what makes them correct.

    ** The files

    Each file requires the ones it builds on; the names of definitions are those of the
    C functions, and the members of a record are those of the struct with a prefix.

    - Prelude.v: statuses, the error and state monads ([result], [M]) with weakest
      preconditions ([wp]), integers at their width, byte buffers, little-endian numbers,
      binary search, and the hint databases and tactics of the rest.
    - Encoding.v, Utf8.v, Checksum.v (src/core/encoding.c): accessors, identifiers,
      checked sizes, UTF-8, CRC-32C, FNV-1a.
    - Schema.v, Float.v, Rows.v, Typing.v (src/core/schema.c): compiled schemas, IEEE-754
      conversions on bit patterns, the row codec, the types of decoded values.
    - Format.v (src/storage/format.c): segment headers and frames.
    - Dictionary.v (src/storage/dictionary.c): symbol dictionaries; it implements the
      class [SymbolTable] with [SymbolLaws] of Rows.v.
    - Files.v (src/platform/files.c): the operating system and whole-file operations.
    - Engine.v (src/core/engine.h), Stats.v (src/core/stats.c): tables, segments, options;
      histograms, notifications, statistics.
    - Metadata.v (src/storage/metadata.c): catalog, schema and manifest files.
    - Paths.v, Segments.v, Crash.v, Recovery.v, Commit.v (src/storage/segments.c): paths,
      replay of a segment, incomplete frames, recovery of a table, group commit.
    - Index.v, Reader.v (src/storage/index.c): index files and readers that repair them.
    - Retention.v (src/storage/retention.c), Integrity.v (src/storage/integrity.c).
    - Snapshot.v, Cache.v (src/query/snapshot.c, cache.c), Scan.v (src/query/scan.c),
      Plan.v (src/query/plan.c, query.h), Query.v, Grouping.v (src/query/query.c),
      Cursors.v (src/query/cursor.c).
    - Database.v (src/core/database.c), Writer.v (src/ingest/writer.c).
    - Findings.v: a behaviour of the storage code that contradicts its documentation.
    - Auth.v (src/server/auth.c): the administrator's token, logins and sessions.
    - JsonMemory.v, Json.v (src/server/json.c): the allocator of a JSON document with its
      budget; arguments, values and replies. Reading and writing of JSON text by yyjson
      are parameters.
    - Feed.v (src/server/server.c): the ring of events and the streams that follow it.
    - Jobs.v (src/server/jobs.c): generators and integrity checks in threads, as one step
      per section between two waits or locks.
    - Api.v (src/server/api.c): every endpoint, composed into [wadb_api_dispatch].
    - Http.v (src/server/server.c): what the HTTP library calls, the work queue, the
      workers, the ticker, start and stop; [http_step] lets all of them interleave, and
      [http_history] remembers how each request came in.
    - Main.v (src/main.c): the command line and the exit status of the two commands.

    ** How the program is modelled

    - A function that returns a [wadb_status] is a function into [result], or into
      [M S] when it changes a state [S]; the state survives an error. The text and errno
      of [wadb_error] and the guards against null pointers of the public functions are
      left out, as they decide nothing else.
    - Integers are in [Z]; where C wraps around or converts, [u8] to [u64] and
      [i64_of_u64] say so. Sizes are those of an LP64 platform. Buffers are lists of
      bytes in [Z], read with [rd] and [sub] and written with [put] and [wr].
    - The operating system is [Files.os]: files, directories, the temporary files of
      [wadb_atomic_file] apart from the others, and the outcomes of the coming system
      calls, allocations and clock readings as finite lists. A list that is used up stands
      for success, so every behaviour of the environment is a list, and the theorems
      quantify over all of them. What a crash leaves is the state of the disk after some
      prefix of a run.
    - A critical section of a mutex is one step. Pointers to tables are positions in the
      table list, pointers to cache entries are keys.
    - Memory is modelled where it can fail or is accounted for: an allocation takes its
      outcome from the list, and freeing has no effect. The JSON allocator and the budgets
      of the HTTP server are modelled with their blocks and counters.
    - The HTTP library is outside: which callback it calls, the headers it found, if it
      took a response and when it releases it are arguments of steps. It calls no callback
      for a suspended connection, which is what its documentation says.
    - Doubles are their bit patterns; sums and quotients go through the Standard Library's
      [SpecFloat] with the parameters of binary64.

    ** Fuel

    Loops that are not structural take fuel and have it by construction: a replay has one
    pass per 96 bytes, the size of the smallest frame ([Segments.replay_fuel]); probing a
    hash table one pass per slot ([Dictionary.probing_terminates]); a binary search 64
    passes ([bsearch_spec]); eviction one per entry; merge sort one per doubling of the
    width ([Query.order_groups_sorted]); the writer's loop one per request
    ([Writer.queue_drains]). The theorems state results, not only what holds if the loop
    returns.

    ** What the theorems show

    - Codecs: rows, frames, segment headers, metadata and index files decode to what was
      encoded, and what decodes is exactly what an encoder writes; damage of up to four
      consecutive bytes and every truncation of a frame is detected.
    - Dictionaries refine a list of strings per field, under any failure of memory.
    - Durability: a file is replaced as a whole or not at all, and a temporary file stays
      only if its removal fails; the rest of an incomplete frame is invisible after
      recovery; retention removes only files of segments that the manifest on disk retires.
    - Readers: a snapshot holds exactly the segments of its range; cache entries in use
      are never evicted; grouping computes what a fold over the matching rows defines.
    - Ingestion: batches are well formed, and every request is answered.
    - Authentication and admission: a session is accepted only for a login with the token
      that is neither expired nor logged out, and only accepted clients reach the workers.
    - Budgets: the JSON allocator and the upload and response budgets of the server count
      exactly what is held and stay within their limits; a reply fits what was reserved
      for it, so that finished work is always reported.
    - Streams deliver consecutive messages or say where they go on, and a reset is sent
      exactly when it is due; no request leaves a cursor behind that its client does not
      know, and an error reply closes the cursor it was to continue; at most two jobs run,
      and a job that is told to stop ends.
    - [Findings.empty_segment_retention_unopenable], [Feed.progressing_stream_closed] and
      [Api.jobs_unknown_argument] show behaviour that the code or its documentation does
      not intend.

    ** Not modelled

    - src/src/platform/threads.c and the scheduling of threads: condition variables only
      delay steps.
    - The constant headers of HTTP responses, the text of error messages and what the
      program prints.
    - src/tools/bench-core.c, a benchmark driver; src/tests, which the library replaces;
      src/vendor (yyjson, Unity), the web assets and the build files.
    - [wadb_close] and the [_free] functions: they release memory and descriptors, which
      the model does not have. *)

From Stdlib Require Import String Ascii.
From stdpp Require Import base numbers list list_numbers.

#[global] Open Scope Z_scope.

(** ** Status codes and fallible computations

    [wadb_status] is the enumeration of [include/wadb.h]; a C function that
    returns a status and fills an output pointer on success is a function into
    [result]. The diagnostic text and errno of [wadb_error] carry no control
    flow and are not modelled: [wadb_fail e code ...] is [Err code]. *)

Inductive wadb_status :=
  | WADB_OK | WADB_INVALID | WADB_NOMEM | WADB_IO | WADB_CORRUPT | WADB_VERSION
  | WADB_EXISTS | WADB_NOT_FOUND | WADB_LOCKED | WADB_SCHEMA_MISMATCH
  | WADB_BACKPRESSURE | WADB_LIMIT | WADB_INDETERMINATE | WADB_EXPIRED
  | WADB_READ_ONLY | WADB_CANCELLED.

#[global] Instance wadb_status_eq_dec : EqDecision wadb_status.
Proof. solve_decision. Defined.

Inductive result (A : Type) : Type :=
  | Ok (a : A)
  | Err (s : wadb_status).
Arguments Ok {A} a.
Arguments Err {A} s.

#[global] Instance result_eq_dec {A} `{EqDecision A} : EqDecision (result A).
Proof.
  intros [a|s] [b|t]; [destruct (decide (a = b))| | |destruct (decide (s = t))];
    first [left; congruence|right; congruence].
Defined.

#[global] Instance result_ret : MRet result := @Ok.
#[global] Instance result_bind : MBind result := λ A B f m,
  match m with Ok a => f a | Err s => Err s end.
#[global] Instance result_fmap : FMap result := λ A B f m,
  match m with Ok a => Ok (f a) | Err s => Err s end.

(** The status a computation leaves in the caller's hands. *)
Definition status_of {A} (r : result A) : wadb_status :=
  match r with Ok _ => WADB_OK | Err s => s end.

Lemma result_bind_ok {A B} (m : result A) (f : A → result B) b :
  m ≫= f = Ok b ↔ ∃ a, m = Ok a ∧ f a = Ok b.
Proof. destruct m; cbn; split; [eauto|intros (?&[= <-]&?)|intros [=]|intros (?&[=]&_)]; done. Qed.

(** Stateful fallible code: the state survives an error, as effects do in C. *)
Definition M (S A : Type) : Type := S → result A * S.

#[global] Instance M_ret {S} : MRet (M S) := λ A a s, (Ok a, s).
#[global] Instance M_bind {S} : MBind (M S) := λ A B f m s,
  match m s with
  | (Ok a, s') => f a s'
  | (Err e, s') => (Err e, s')
  end.
Definition mfail {S A} (e : wadb_status) : M S A := λ s, (Err e, s).
Definition mlift {S A} (r : result A) : M S A := λ s, (r, s).
(** Continuing after a call whatever it returned. *)
Definition mtry {S A} (m : M S A) : M S (result A) := λ s, let '(r, s') := m s in (Ok r, s').

(** ** Machine integers

    A [w]-bit unsigned integer is a [Z] in [0, 2^w); conversions are written out. *)

Definition UINT16_MAX : Z := 65535.
Definition UINT32_MAX : Z := 4294967295.
Definition UINT64_MAX : Z := 18446744073709551615.
Definition INT64_MAX : Z := 9223372036854775807.
Definition INT64_MIN : Z := -9223372036854775808.
Definition SIZE_MAX : Z := UINT64_MAX.

Definition u8 (z : Z) : Z := z `mod` 256.
Definition u16 (z : Z) : Z := z `mod` 65536.
Definition u32 (z : Z) : Z := z `mod` 4294967296.
Definition u64 (z : Z) : Z := z `mod` 18446744073709551616.

(** Two's-complement reading of a 64-bit pattern. *)
Definition i64_of_u64 (u : Z) : Z :=
  if u <=? INT64_MAX then u else -1 - (UINT64_MAX - u).

Definition is_u8 (z : Z) : Prop := 0 ≤ z < 256.
#[global] Instance is_u8_dec z : Decision (is_u8 z).
Proof. unfold is_u8. apply _. Defined.
Definition is_u16 (z : Z) : Prop := 0 ≤ z ≤ UINT16_MAX.
Definition is_u32 (z : Z) : Prop := 0 ≤ z ≤ UINT32_MAX.
Definition is_u64 (z : Z) : Prop := 0 ≤ z ≤ UINT64_MAX.
Definition is_i64 (z : Z) : Prop := INT64_MIN ≤ z ≤ INT64_MAX.

Ltac unfold_widths :=
  unfold is_u8, is_u16, is_u32, is_u64, is_i64, SIZE_MAX, UINT16_MAX, UINT32_MAX,
    UINT64_MAX, INT64_MAX, INT64_MIN in *.
(** Linear arithmetic over machine widths, division and remainder included. *)
Ltac mlia := unfold_widths; Z.div_mod_to_equations; lia.
(** The same with C's truncating division. *)
Ltac qlia := unfold_widths; Z.to_euclidean_division_equations; lia.

Lemma u8_range z : is_u8 (u8 z).
Proof. unfold u8. mlia. Qed.
Lemma u32_range z : is_u32 (u32 z).
Proof. unfold u32. mlia. Qed.
Lemma u64_range z : is_u64 (u64 z).
Proof. unfold u64. mlia. Qed.
Lemma u8_id z : is_u8 z → u8 z = z.
Proof. unfold u8. mlia. Qed.
Lemma u16_id z : is_u16 z → u16 z = z.
Proof. unfold u16. mlia. Qed.
Lemma u32_id z : is_u32 z → u32 z = z.
Proof. unfold u32. mlia. Qed.
Lemma u64_id z : is_u64 z → u64 z = z.
Proof. unfold u64. mlia. Qed.
Lemma i64_of_u64_range u : is_u64 u → is_i64 (i64_of_u64 u).
Proof. unfold i64_of_u64. intros H. destruct (Z.leb_spec u INT64_MAX); mlia. Qed.
Lemma i64_of_u64_u64 z : is_i64 z → i64_of_u64 (u64 z) = z.
Proof.
  unfold i64_of_u64, u64. intros H.
  destruct (Z.leb_spec (z `mod` 18446744073709551616) INT64_MAX); mlia.
Qed.
Lemma u64_i64_of_u64 u : is_u64 u → u64 (i64_of_u64 u) = u.
Proof.
  unfold i64_of_u64, u64. intros H. destruct (Z.leb_spec u INT64_MAX); mlia.
Qed.

Lemma i64_of_u64_inj u u' : is_u64 u → is_u64 u' → i64_of_u64 u = i64_of_u64 u' → u = u'.
Proof. intros Hu Hu' He. rewrite <-(u64_i64_of_u64 u), <-(u64_i64_of_u64 u') by done. by rewrite He. Qed.

(** ** Byte buffers

    A buffer is a list of bytes, each a [Z] in [0, 256); offsets and lengths are
    [Z], as they are integers in the code. [p + o] with [n] bytes read from it is
    [sub p o n]; [memcpy (p + o, bs)] is [put p o bs], which writes the bytes in
    turn and so never changes the length of the buffer. *)

Definition zlen {A} (l : list A) : Z := Z.of_nat (length l).
Definition rd (p : list Z) (i : Z) : Z := nth (Z.to_nat i) p 0.
Definition wr {A} (p : list A) (i : Z) (v : A) : list A := <[Z.to_nat i := v]> p.
Definition sub {A} (p : list A) (o n : Z) : list A := take (Z.to_nat n) (drop (Z.to_nat o) p).
Definition put {A} (p : list A) (o : Z) (bs : list A) : list A := list_inserts (Z.to_nat o) bs p.
Definition zrep {A} (n : Z) (x : A) : list A := replicate (Z.to_nat n) x.
Definition bytes (p : list Z) : Prop := Forall is_u8 p.
#[global] Instance bytes_dec p : Decision (bytes p).
Proof. unfold bytes. apply _. Defined.
(** Indexing a list of structures with a [Z]. *)
Definition znth {A} (l : list A) (i : Z) : option A := if i <? 0 then None else l !! Z.to_nat i.

Create HintDb wadb.
Create Rewrite HintDb zlen.
Create Rewrite HintDb buf.

Lemma zlen_nonneg {A} (l : list A) : 0 ≤ zlen l.
Proof. unfold zlen. lia. Qed.
Lemma zlen_nil {A} : zlen (@nil A) = 0.
Proof. done. Qed.
Lemma zlen_cons {A} (x : A) l : zlen (x :: l) = 1 + zlen l.
Proof. unfold zlen. cbn [length]. lia. Qed.
Lemma zlen_app {A} (l k : list A) : zlen (l ++ k) = zlen l + zlen k.
Proof. unfold zlen. rewrite length_app. lia. Qed.
Lemma zlen_put {A} (p : list A) o bs : zlen (put p o bs) = zlen p.
Proof. unfold zlen, put. by rewrite length_inserts. Qed.
Lemma zlen_wr {A} (p : list A) o v : zlen (wr p o v) = zlen p.
Proof. unfold zlen, wr. by rewrite length_insert. Qed.
Lemma zlen_sub {A} (p : list A) o n :
  0 ≤ o → 0 ≤ n → o + n ≤ zlen p → zlen (sub p o n) = n.
Proof. unfold zlen, sub. rewrite length_take, length_drop. lia. Qed.
Lemma zlen_sub_le {A} (p : list A) o n : 0 ≤ n → zlen (sub p o n) ≤ n.
Proof. unfold zlen, sub. rewrite length_take. lia. Qed.
Lemma zlen_zrep {A} n (x : A) : 0 ≤ n → zlen (zrep n x) = n.
Proof. unfold zlen, zrep. rewrite length_replicate. lia. Qed.
Lemma zlen_map {A B} (f : A → B) l : zlen (map f l) = zlen l.
Proof. unfold zlen. by rewrite length_map. Qed.
Lemma zlen_fmap {A B} (f : A → B) l : zlen (f <$> l) = zlen l.
Proof. unfold zlen. by rewrite length_fmap. Qed.
#[export] Hint Rewrite @zlen_nil @zlen_cons @zlen_app @zlen_put @zlen_wr @zlen_map @zlen_fmap : zlen.
#[export] Hint Rewrite @zlen_zrep @zlen_sub using lia : zlen.
#[export] Hint Resolve zlen_nonneg : wadb.

(** Goals about buffer lengths. *)
Ltac len := autorewrite with zlen in *; try lia.

Lemma put_lookup_ne {A} (p : list A) o bs i :
  (i < Z.to_nat o ∨ Z.to_nat o + length bs ≤ i)%nat → put p o bs !! i = p !! i.
Proof.
  unfold put. intros [H|H]; [by apply list_lookup_inserts_lt|by apply list_lookup_inserts_ge].
Qed.
Lemma put_lookup_eq {A} (p : list A) o bs i :
  (Z.to_nat o ≤ i < Z.to_nat o + length bs)%nat → (i < length p)%nat →
  put p o bs !! i = bs !! (i - Z.to_nat o)%nat.
Proof. unfold put. intros ??. by apply list_lookup_inserts. Qed.

Lemma sub_lookup {A} (p : list A) o n i :
  (i < Z.to_nat n)%nat → sub p o n !! i = p !! (Z.to_nat o + i)%nat.
Proof. intros. unfold sub. rewrite lookup_take_lt by done. by rewrite lookup_drop. Qed.
Lemma sub_lookup_ge {A} (p : list A) o n i :
  (Z.to_nat n ≤ i)%nat → sub p o n !! i = None.
Proof. intros. unfold sub. by rewrite lookup_take_ge. Qed.

Lemma sub_put_ne {A} (p : list A) o bs o' n :
  0 ≤ o → 0 ≤ o' → o' + n ≤ o ∨ o + zlen bs ≤ o' → sub (put p o bs) o' n = sub p o' n.
Proof.
  unfold zlen. intros ?? H. apply list_eq. intros i.
  destruct (decide (i < Z.to_nat n)%nat).
  - rewrite !sub_lookup by done. apply put_lookup_ne. lia.
  - by rewrite !sub_lookup_ge by lia.
Qed.
Lemma sub_put_eq {A} (p : list A) o bs n :
  0 ≤ o → n = zlen bs → o + n ≤ zlen p → sub (put p o bs) o n = bs.
Proof.
  unfold zlen. intros ? -> ?. apply list_eq. intros i.
  destruct (decide (i < length bs)%nat).
  - rewrite sub_lookup, put_lookup_eq by lia. f_equal. lia.
  - rewrite sub_lookup_ge by lia. by rewrite lookup_ge_None_2 by lia.
Qed.
Lemma sub_put_in {A} (p : list A) o bs o' n :
  0 ≤ o → 0 ≤ n → o ≤ o' → o' + n ≤ o + zlen bs → o + zlen bs ≤ zlen p →
  sub (put p o bs) o' n = sub bs (o' - o) n.
Proof.
  unfold zlen. intros. apply list_eq. intros i.
  destruct (decide (i < Z.to_nat n)%nat).
  - rewrite !sub_lookup, put_lookup_eq by lia. f_equal. lia.
  - by rewrite !sub_lookup_ge by lia.
Qed.
Lemma sub_sub {A} (p : list A) o n o' n' :
  0 ≤ o → 0 ≤ o' → 0 ≤ n' → o' + n' ≤ n → sub (sub p o n) o' n' = sub p (o + o') n'.
Proof.
  intros. apply list_eq. intros i. destruct (decide (i < Z.to_nat n')%nat).
  - rewrite !sub_lookup by lia. f_equal. lia.
  - by rewrite !sub_lookup_ge by lia.
Qed.
Lemma sub_sub_0 {A} (p : list A) o n n' :
  0 ≤ o → 0 ≤ n' ≤ n → sub (sub p o n) 0 n' = sub p o n'.
Proof. intros. rewrite sub_sub by lia. by rewrite Z.add_0_r. Qed.
Lemma sub_all {A} (p : list A) n : n = zlen p → sub p 0 n = p.
Proof. intros ->. unfold sub, zlen. rewrite drop_0. apply take_ge. lia. Qed.
Lemma sub_nil {A} (p : list A) o : sub p o 0 = [].
Proof. done. Qed.
Lemma sub_app {A} (p : list A) o n m :
  0 ≤ o → 0 ≤ n → 0 ≤ m → sub p o (n + m) = sub p o n ++ sub p (o + n) m.
Proof.
  intros. unfold sub. rewrite !Z2Nat.inj_add by lia.
  by rewrite <-drop_drop, take_take_drop.
Qed.
Lemma sub_join {A} (p : list A) o n o' m k :
  0 ≤ o → 0 ≤ n → 0 ≤ m → o' = o + n → k = n + m → sub p o n ++ sub p o' m = sub p o k.
Proof. intros ??? -> ->. by rewrite sub_app. Qed.
Lemma sub_app_l {A} (l k : list A) o n :
  0 ≤ o → 0 ≤ n → o + n ≤ zlen l → sub (l ++ k) o n = sub l o n.
Proof.
  unfold zlen. intros. apply list_eq. intros i. destruct (decide (i < Z.to_nat n)%nat).
  - rewrite !sub_lookup by lia. apply lookup_app_l. lia.
  - by rewrite !sub_lookup_ge by lia.
Qed.
Lemma sub_app_r {A} (l k : list A) o n :
  zlen l ≤ o → sub (l ++ k) o n = sub k (o - zlen l) n.
Proof.
  unfold zlen. intros. apply list_eq. intros i. destruct (decide (i < Z.to_nat n)%nat).
  - rewrite !sub_lookup by lia. rewrite lookup_app_r by lia. f_equal. lia.
  - by rewrite !sub_lookup_ge by lia.
Qed.
Lemma sub_mid {A} (q a b c : list A) o n :
  q = a ++ b ++ c → o = zlen a → n = zlen b → sub q o n = b.
Proof.
  intros -> -> ->. rewrite sub_app_r, Z.sub_diag, sub_app_l, sub_all by
    (try done; pose proof (zlen_nonneg b); lia). done.
Qed.
Lemma sub_zrep {A} m (x : A) o n :
  0 ≤ o → 0 ≤ n → o + n ≤ m → sub (zrep m x) o n = zrep n x.
Proof.
  intros. unfold sub, zrep. rewrite drop_replicate, take_replicate. f_equal. lia.
Qed.
#[export] Hint Rewrite @sub_put_eq @sub_put_ne @sub_zrep @sub_put_in using (len; lia) : buf.

Lemma put_app {A} (p : list A) o a b :
  0 ≤ o → put p o (a ++ b) = put (put p o a) (o + zlen a) b.
Proof.
  unfold put, zlen. intros Ho. rewrite Z2Nat.inj_add, Nat2Z.id by lia.
  generalize (Z.to_nat o). clear. induction a as [|x a IH]; intros o; cbn.
  - f_equal. lia.
  - rewrite IH. rewrite <-list_insert_inserts_lt by lia. do 2 f_equal. lia.
Qed.
Lemma put_app_l {A} (a b : list A) o bs :
  0 ≤ o → o + zlen bs ≤ zlen a → put (a ++ b) o bs = put a o bs ++ b.
Proof.
  unfold zlen. intros. apply list_eq. intros i.
  destruct (decide (i < length a)%nat).
  - rewrite (lookup_app_l (put _ _ _)) by (unfold put; by rewrite length_inserts).
    destruct (decide (Z.to_nat o ≤ i < Z.to_nat o + length bs)%nat).
    + rewrite !put_lookup_eq by (rewrite ?length_app; lia). done.
    + rewrite !put_lookup_ne by lia. by rewrite lookup_app_l by lia.
  - rewrite put_lookup_ne by lia. rewrite !lookup_app_r by (unfold put; rewrite ?length_inserts; lia).
    unfold put. by rewrite length_inserts.
Qed.
Lemma put_app_r {A} (a b : list A) o bs :
  zlen a ≤ o → put (a ++ b) o bs = a ++ put b (o - zlen a) bs.
Proof.
  intros H. pose proof (zlen_nonneg a). unfold zlen in *. apply list_eq. intros i.
  destruct (decide (i < length a)%nat).
  - rewrite put_lookup_ne by lia. by rewrite !lookup_app_l by lia.
  - rewrite (lookup_app_r a) by lia.
    destruct (decide (Z.to_nat o ≤ i < Z.to_nat o + length bs)%nat).
    + destruct (decide (i < length (a ++ b))%nat) as [Hl|Hl]; rewrite length_app in Hl.
      * rewrite !put_lookup_eq by (rewrite ?length_app; lia). f_equal. lia.
      * rewrite !lookup_ge_None_2; unfold put; rewrite ?length_inserts, ?length_app; [done|lia|lia].
    + rewrite !put_lookup_ne by lia. rewrite lookup_app_r by lia. done.
Qed.
Lemma put_all {A} (p bs : list A) : zlen p = zlen bs → put p 0 bs = bs.
Proof. intros H. rewrite <-(sub_all (put p 0 bs) (zlen bs)) by len. apply sub_put_eq; lia. Qed.
(** Writing over the zeroes that follow a prefix. *)
Lemma put_fill (a bs r : list Z) o n :
  o = zlen a → n = zlen bs → put (a ++ zrep n 0 ++ r) o bs = a ++ bs ++ r.
Proof.
  intros -> ->. pose proof (zlen_nonneg bs).
  rewrite put_app_r, Z.sub_diag, put_app_l, put_all by len. done.
Qed.
(** Writing inside of the middle part. *)
Lemma put_mid {A} (a m b bs : list A) o k :
  o = zlen a + k → 0 ≤ k → k + zlen bs ≤ zlen m → put (a ++ m ++ b) o bs = a ++ put m k bs ++ b.
Proof.
  intros -> Hk Hl. rewrite put_app_r by lia. rewrite put_app_l; [|lia|lia].
  by replace (zlen a + k - zlen a) with k by lia.
Qed.
Lemma zrep_app {A} n m (x : A) : 0 ≤ n → 0 ≤ m → zrep (n + m) x = zrep n x ++ zrep m x.
Proof. intros. unfold zrep. rewrite Z2Nat.inj_add by lia. apply replicate_add. Qed.
Lemma bytes_put p o bs : bytes p → bytes bs → bytes (put p o bs).
Proof.
  unfold bytes, put. rewrite !Forall_lookup. intros Hp Hb i x Hi.
  apply list_lookup_inserts_Some in Hi as [[? ?]|[? [? ?]]]; eauto.
Qed.
Lemma bytes_wr p o v : bytes p → is_u8 v → bytes (wr p o v).
Proof. intros. by apply Forall_insert. Qed.
Lemma bytes_sub p o n : bytes p → bytes (sub p o n).
Proof. intros. by apply Forall_take, Forall_drop. Qed.
Lemma bytes_app p q : bytes p → bytes q → bytes (p ++ q).
Proof. intros. by apply Forall_app_2. Qed.
Lemma bytes_zrep n v : is_u8 v → bytes (zrep n v).
Proof. intros. by apply Forall_replicate. Qed.
Lemma bytes_rd p i : bytes p → is_u8 (rd p i).
Proof.
  intros H. unfold rd. destruct (decide (Z.to_nat i < length p)%nat) as [Hl|Hl].
  - apply lookup_lt_is_Some in Hl as [x Hx]. erewrite nth_lookup_Some by done.
    by eapply Forall_lookup_1.
  - rewrite nth_overflow by lia. unfold is_u8. lia.
Qed.
#[export] Hint Resolve bytes_put bytes_wr bytes_sub bytes_app bytes_zrep bytes_rd : wadb.

Lemma rd_sub p o n i : 0 ≤ o → 0 ≤ i < n → rd (sub p o n) i = rd p (o + i).
Proof.
  intros. unfold rd. rewrite !nth_lookup, sub_lookup by lia. do 2 f_equal. lia.
Qed.
Lemma sub_1 p o : 0 ≤ o → o + 1 ≤ zlen p → sub p o 1 = [rd p o].
Proof.
  unfold zlen. intros. apply list_eq. intros i. destruct i as [|i].
  - rewrite sub_lookup by lia. cbn. unfold rd. rewrite nth_lookup, Nat.add_0_r.
    destruct (lookup_lt_is_Some_2 p (Z.to_nat o)) as [x Hx]; [lia|]. by rewrite Hx.
  - rewrite sub_lookup_ge by lia. done.
Qed.
Lemma rd_put_ne p o bs i : 0 ≤ o → 0 ≤ i → i < o ∨ o + zlen bs ≤ i → rd (put p o bs) i = rd p i.
Proof.
  unfold zlen. intros. unfold rd. rewrite !nth_lookup. f_equal. apply put_lookup_ne. lia.
Qed.
Lemma rd_put_eq p o bs i :
  0 ≤ o → o ≤ i < o + zlen bs → o + zlen bs ≤ zlen p → rd (put p o bs) i = rd bs (i - o).
Proof.
  unfold zlen. intros. unfold rd. rewrite !nth_lookup. f_equal.
  rewrite put_lookup_eq by lia. f_equal. lia.
Qed.
Lemma rd_zrep n j : rd (zrep n 0) j = 0.
Proof.
  unfold rd, zrep. generalize (Z.to_nat n) (Z.to_nat j). intros m. induction m; intros [|k]; cbn; auto.
Qed.
Lemma rd_wr_eq p i v : 0 ≤ i < zlen p → rd (wr p i v) i = v.
Proof.
  unfold zlen, rd, wr. intros. rewrite nth_lookup, list_lookup_insert_eq by lia. done.
Qed.
Lemma rd_wr_ne p i j v : 0 ≤ i → 0 ≤ j → i ≠ j → rd (wr p i v) j = rd p j.
Proof. unfold rd, wr. intros. rewrite !nth_lookup, list_lookup_insert_ne by lia. done. Qed.
Lemma list_eq_rd p q :
  zlen p = zlen q → (∀ i, 0 ≤ i < zlen p → rd p i = rd q i) → p = q.
Proof.
  unfold zlen. intros Hl H. apply list_eq_same_length with (length p); [lia|done|].
  intros i x y Hi Hx Hy. specialize (H (Z.of_nat i) ltac:(lia)). unfold rd in H.
  rewrite !nth_lookup, Nat2Z.id, Hx, Hy in H. done.
Qed.

(** [zeroes] of storage/format.c and storage/metadata.c. *)
Definition zeroes (p : list Z) (o n : Z) : bool := forallb (Z.eqb 0) (sub p o n).

Lemma forallb_zero_replicate l : forallb (Z.eqb 0) l = true ↔ l = replicate (length l) 0.
Proof.
  induction l as [|x l IH]; [done|]. cbn [forallb length replicate].
  rewrite andb_true_iff, IH, Z.eqb_eq. split.
  - intros [<- H]. by f_equal.
  - intros H. injection H as -> H. by split.
Qed.
Lemma zeroes_spec p o n :
  0 ≤ o → 0 ≤ n → o + n ≤ zlen p → zeroes p o n = true ↔ sub p o n = zrep n 0.
Proof.
  intros. unfold zeroes. rewrite forallb_zero_replicate.
  replace (length (sub p o n)) with (Z.to_nat n); [done|].
  pose proof (zlen_sub p o n). unfold zlen in *. lia.
Qed.

Lemma zeroes_rd p o n :
  0 ≤ o → 0 ≤ n → o + n ≤ zlen p → zeroes p o n = true ↔ ∀ j, o ≤ j < o + n → rd p j = 0.
Proof.
  intros. rewrite zeroes_spec by done. split.
  - intros Hs j Hj. replace j with (o + (j - o)) by lia. rewrite <-(rd_sub p o n) by lia.
    rewrite Hs. apply rd_zrep.
  - intros Hj. apply list_eq_rd; [rewrite zlen_sub, zlen_zrep; lia|].
    intros j Hj'. rewrite zlen_sub in Hj' by lia. rewrite rd_sub, rd_zrep by lia. apply Hj. lia.
Qed.

Lemma zeroes_rd' p o n :
  0 ≤ o → o ≤ n ≤ zlen p → zeroes p o (n - o) = true ↔ ∀ j, o ≤ j < n → rd p j = 0.
Proof. intros. rewrite zeroes_rd by lia. by rewrite Zplus_minus. Qed.

(** Byte-wise comparison of two buffers of the same length ([memcmp = 0]). *)
Definition bytes_eqb (a b : list Z) : bool := bool_decide (a = b).

(** The bytes of a C string literal, without its terminator. *)
Definition cstr (s : string) : list Z := map (λ c, Z.of_N (N_of_ascii c)) (list_ascii_of_string s).

Lemma N_of_ascii_u8 c : is_u8 (Z.of_N (N_of_ascii c)).
Proof. pose proof (N_ascii_bounded c). unfold is_u8. lia. Qed.
Lemma bytes_cstr s : bytes (cstr s).
Proof. unfold bytes, cstr. apply Forall_forall. intros x [c [-> _]]%list_elem_of_fmap. apply N_of_ascii_u8. Qed.
#[export] Hint Resolve bytes_cstr : wadb.

(** ** Little-endian integers *)

Fixpoint le_combine (l : list Z) : Z :=
  match l with [] => 0 | b :: l' => b + 256 * le_combine l' end.
Fixpoint le_split (n : nat) (z : Z) : list Z :=
  match n with O => [] | S n' => z `mod` 256 :: le_split n' (z / 256) end.

Lemma length_le_split n z : length (le_split n z) = n.
Proof. revert z. induction n; intros; cbn; auto. Qed.
Lemma zlen_le_split n z : zlen (le_split n z) = Z.of_nat n.
Proof. unfold zlen. by rewrite length_le_split. Qed.
#[export] Hint Rewrite zlen_le_split : zlen.
Lemma bytes_le_split n z : bytes (le_split n z).
Proof.
  revert z. induction n; intros; constructor; [|apply IHn].
  apply (u8_range z).
Qed.
Lemma le_combine_bound l : bytes l → 0 ≤ le_combine l < 256 ^ zlen l.
Proof.
  induction 1 as [|b l Hb Hl IH]; [done|]. rewrite zlen_cons, Z.pow_add_r by (auto with wadb || lia).
  cbn [le_combine]. unfold is_u8 in Hb. rewrite Z.pow_1_r. generalize dependent (256 ^ zlen l). lia.
Qed.
Lemma le_combine_split n z : le_combine (le_split n z) = z `mod` 256 ^ Z.of_nat n.
Proof.
  revert z. induction n; intros z.
  - cbn. by rewrite Z.mod_1_r.
  - cbn [le_split le_combine]. rewrite IHn, Nat2Z.inj_succ, Z.pow_succ_r by lia.
    rewrite Z.rem_mul_r by lia. done.
Qed.
Lemma le_split_combine l : bytes l → le_split (length l) (le_combine l) = l.
Proof.
  induction 1 as [|b l Hb Hl IH]; [done|]. cbn [length le_combine le_split].
  unfold is_u8 in Hb. f_equal.
  - rewrite Z.mul_comm, Z_mod_plus_full. mlia.
  - rewrite Z.mul_comm, Z_div_plus_full by lia. rewrite Z.div_small by lia. done.
Qed.
Lemma le_split_mod n z : le_split n (z `mod` 256 ^ Z.of_nat n) = le_split n z.
Proof.
  rewrite <-le_combine_split. rewrite <-(length_le_split n z) at 1. apply le_split_combine, bytes_le_split.
Qed.
Lemma le_combine_app l k : le_combine (l ++ k) = le_combine l + 256 ^ zlen l * le_combine k.
Proof.
  induction l as [|b l IH].
  { change (256 ^ zlen []) with 1. cbn [app le_combine]. lia. }
  rewrite zlen_cons, Z.pow_add_r by (auto with wadb || lia).
  cbn [app le_combine]. rewrite IH, Z.pow_1_r. ring.
Qed.
#[export] Hint Resolve bytes_le_split : wadb.

(** ** Binary search

    The loop [while (lo < hi) { mid = lo + (hi - lo) / 2; if (go_right) lo = mid + 1;
    else hi = mid; }] that the index, the snapshots, the scanner and the segment
    listing share. 64 iterations are enough for any [size_t] interval. *)

Fixpoint bsearch_loop (fuel : nat) (right : Z → bool) (lo hi : Z) : Z :=
  match fuel with
  | O => lo
  | S fuel' =>
      if lo <? hi then
        let mid := lo + (hi - lo) / 2 in
        if right mid then bsearch_loop fuel' right (mid + 1) hi
        else bsearch_loop fuel' right lo mid
      else lo
  end.
Definition bsearch (right : Z → bool) (lo hi : Z) : Z := bsearch_loop 64 right lo hi.

(** [right] holds on a prefix of the interval. *)
Definition partitioned (right : Z → bool) (lo hi : Z) : Prop :=
  ∀ i j, lo ≤ i → i ≤ j → j < hi → right j = true → right i = true.

Lemma bsearch_loop_spec fuel right lo hi :
  lo ≤ hi → hi - lo < 2 ^ Z.of_nat fuel → partitioned right lo hi →
  let r := bsearch_loop fuel right lo hi in
  lo ≤ r ≤ hi ∧ (∀ i, lo ≤ i < r → right i = true) ∧ (∀ i, r ≤ i < hi → right i = false).
Proof.
  revert lo hi. induction fuel as [|fuel IH]; intros lo hi Hle Hf Hp; cbn [bsearch_loop].
  { cbn in Hf. split_and!; [lia|lia|lia..]. }
  rewrite Nat2Z.inj_succ, Z.pow_succ_r in Hf by lia.
  destruct (Z.ltb_spec lo hi); [|split_and!; lia].
  assert (Hmid : 2 * ((hi - lo) / 2) ≤ hi - lo < 2 * ((hi - lo) / 2) + 2) by mlia.
  generalize dependent ((hi - lo) / 2). intros half Hmid.
  generalize dependent (2 ^ Z.of_nat fuel). intros size IH Hf.
  cbv zeta. set (mid := lo + half).
  destruct (right mid) eqn:Hm.
  - destruct (IH (mid + 1) hi) as (?&Ht&Hff); [lia|lia|intros ?????; apply Hp; lia|].
    split_and!; [lia|lia| |done].
    intros i Hi. destruct (decide (mid + 1 ≤ i)); [apply Ht; lia|].
    apply (Hp i mid); lia || done.
  - destruct (IH lo mid) as (?&Ht&Hff); [lia|lia|intros ?????; apply Hp; lia|].
    split_and!; [lia|lia|done|].
    intros i Hi. destruct (decide (i < mid)); [apply Hff; lia|].
    destruct (right i) eqn:Hr; [|done].
    rewrite (Hp mid i) in Hm by (lia || done). done.
Qed.
Lemma bsearch_spec right lo hi :
  lo ≤ hi → hi - lo ≤ SIZE_MAX → partitioned right lo hi →
  let r := bsearch right lo hi in
  lo ≤ r ≤ hi ∧ (∀ i, lo ≤ i < r → right i = true) ∧ (∀ i, r ≤ i < hi → right i = false).
Proof. intros ???. apply bsearch_loop_spec; [done| |done]. change (2 ^ Z.of_nat 64) with (UINT64_MAX + 1). unfold SIZE_MAX in *. lia. Qed.

(** Filtering a list that the property cuts in two. *)
Lemma filter_all {A} (P : A → Prop) `{!∀ x, Decision (P x)} l : Forall P l → filter P l = l.
Proof. induction 1 as [|x l Hx _ IH]; [done|]. by rewrite filter_cons, decide_True, IH. Qed.
Lemma filter_none {A} (P : A → Prop) `{!∀ x, Decision (P x)} l : Forall (λ x, ¬ P x) l → filter P l = [].
Proof. induction 1 as [|x l Hx _ IH]; [done|]. by rewrite filter_cons, decide_False, IH. Qed.
Lemma filter_drop {A} (P : A → Prop) `{!∀ x, Decision (P x)} l k :
  (∀ i x, l !! i = Some x → (i < k)%nat → ¬ P x) → (∀ i x, l !! i = Some x → (k ≤ i)%nat → P x) →
  filter P l = drop k l.
Proof.
  intros Hn Hp. rewrite <-(take_drop k l) at 1. rewrite filter_app, filter_none, filter_all; [done| |].
  - apply Forall_lookup. intros i x Hi. rewrite lookup_drop in Hi. eapply Hp; [exact Hi|lia].
  - apply Forall_lookup. intros i x Hi. destruct (decide (i < k)%nat); [|rewrite lookup_take_ge in Hi by lia; done].
    rewrite lookup_take_lt in Hi by lia. eauto.
Qed.
Lemma filter_take {A} (P : A → Prop) `{!∀ x, Decision (P x)} l k :
  (∀ i x, l !! i = Some x → (i < k)%nat → P x) → (∀ i x, l !! i = Some x → (k ≤ i)%nat → ¬ P x) →
  filter P l = take k l.
Proof.
  intros Hp Hn. rewrite <-(take_drop k l) at 1. rewrite filter_app, filter_all, filter_none; [by rewrite app_nil_r| |].
  - apply Forall_lookup. intros i x Hi. rewrite lookup_drop in Hi. eapply Hn; [exact Hi|lia].
  - apply Forall_lookup. intros i x Hi. destruct (decide (i < k)%nat); [|rewrite lookup_take_ge in Hi by lia; done].
    rewrite lookup_take_lt in Hi by lia. eauto.
Qed.

(** Computing the value of a test by proving it. *)
Lemma if_decide_intro {A} (P : Prop) `{!Decision P} (r a b : A) :
  (P → r = a) ∧ (¬ P → r = b) → r = if decide P then a else b.
Proof. intros [??]. case_decide; auto. Qed.

(** ** Folds with an invariant *)

Section folds.
Context {A B : Type} (I : A → Prop) (P : B → Prop) (f g : A → B → A).
Hypothesis f_inv : ∀ a b, I a → P b → I (f a b).

Lemma fold_left_inv l a : Forall P l → I a → I (fold_left f l a).
Proof using f_inv. intros Hl. revert a. induction Hl; intros; [done|]. cbn [fold_left]. auto. Qed.

Lemma fold_left_ext_inv l a :
  (∀ a b, I a → P b → f a b = g a b) → Forall P l → I a → fold_left f l a = fold_left g l a.
Proof using f_inv.
  intros Hfg Hl. revert a. induction Hl as [|b l Hb Hl IH]; intros a Ha; [done|].
  cbn [fold_left]. rewrite <-Hfg by done. auto.
Qed.

Lemma fold_left_inj_inv l a a' :
  (∀ a a' b, I a → I a' → P b → f a b = f a' b → a = a') →
  Forall P l → I a → I a' → fold_left f l a = fold_left f l a' → a = a'.
Proof using f_inv.
  intros Hinj Hl. revert a a'. induction Hl as [|b l Hb Hl IH]; intros a a' Ha Ha'; [done|].
  cbn [fold_left]. intros H. apply IH in H; [|auto..]. by apply Hinj in H.
Qed.
End folds.

(** ** Postconditions of stateful computations

    [wp m Q s]: from [s], the result and final state of [m] satisfy [Q]. *)

Definition wp {S A} (m : M S A) (Q : result A → S → Prop) (s : S) : Prop :=
  Q (fst (m s)) (snd (m s)).

Section wp.
Context {S A B : Type}.
Implicit Types (m : M S A) (f : A → M S B) (Q : result A → S → Prop).

Lemma wp_mono m Q (Q' : result A → S → Prop) s :
  wp m Q s → (∀ r s', Q r s' → Q' r s') → wp m Q' s.
Proof. unfold wp. auto. Qed.
Lemma wp_ret a Q s : Q (Ok a) s → wp (mret a : M S A) Q s.
Proof. done. Qed.
Lemma wp_fail e Q s : Q (Err e) s → wp (mfail e : M S A) Q s.
Proof. done. Qed.
Lemma wp_bind m f (Q : result B → S → Prop) s :
  wp m (λ r s', match r with Ok a => wp (f a) Q s' | Err e => Q (Err e) s' end) s →
  wp (m ≫= f) Q s.
Proof. unfold wp, mbind, M_bind. destruct (m s) as [[a|e] s'] eqn:E; done. Qed.
Lemma wp_bind_inv m f (Q : result B → S → Prop) s :
  wp (m ≫= f) Q s →
  wp m (λ r s', match r with Ok a => wp (f a) Q s' | Err e => Q (Err e) s' end) s.
Proof. unfold wp, mbind, M_bind. destruct (m s) as [[a|e] s'] eqn:E; done. Qed.
Lemma wp_try m (Q : result (result A) → S → Prop) s :
  wp m (λ r s', Q (Ok r) s') s → wp (mtry m) Q s.
Proof. unfold wp, mtry. by destruct (m s). Qed.
Lemma wp_out m Q s r s' : wp m Q s → m s = (r, s') → Q r s'.
Proof. unfold wp. intros H E. by rewrite E in H. Qed.
Lemma wp_in m Q s : (∀ r s', m s = (r, s') → Q r s') → wp m Q s.
Proof. unfold wp. intros H. destruct (m s) eqn:E. by apply H. Qed.

End wp.
