(* ===== verification/Encoding.v ===== *)
(** * Core encoding primitives (src/core/encoding.c)

    Checked size arithmetic, identifiers, little-endian integer accessors and the
    FNV-1a step; Utf8.v and Checksum.v hold the rest of that file. The pointer argument of an accessor is
    a buffer and an offset. *)

From Stdlib Require Import String.
From stdpp Require Import base numbers list list_numbers.
From S2P Require Import Prelude.

(** ** Names of status codes *)

Definition status_names : list string :=
  ["ok"; "invalid"; "out_of_memory"; "io_error"; "corrupt"; "unsupported_version";
   "already_exists"; "not_found"; "locked"; "schema_mismatch"; "backpressure";
   "resource_limit"; "indeterminate_commit"; "expired"; "read_only"; "cancelled"]%string.

(** The integer value of a status, as the C enumeration numbers it. *)
Definition status_code (s : wadb_status) : Z :=
  match s with
  | WADB_OK => 0 | WADB_INVALID => 1 | WADB_NOMEM => 2 | WADB_IO => 3
  | WADB_CORRUPT => 4 | WADB_VERSION => 5 | WADB_EXISTS => 6 | WADB_NOT_FOUND => 7
  | WADB_LOCKED => 8 | WADB_SCHEMA_MISMATCH => 9 | WADB_BACKPRESSURE => 10
  | WADB_LIMIT => 11 | WADB_INDETERMINATE => 12 | WADB_EXPIRED => 13
  | WADB_READ_ONLY => 14 | WADB_CANCELLED => 15
  end.

(** [wadb_status_name], on any integer the enumeration object can hold. *)
Definition wadb_status_name (status : Z) : string :=
  if u32 status <? zlen status_names
  then default "unknown"%string (status_names !! Z.to_nat (u32 status))
  else "unknown"%string.

(** ** Checked size arithmetic *)

Definition wadb_add_size (a b : Z) : option Z :=
  if a >? SIZE_MAX - b then None else Some (a + b).
Definition wadb_mul_size (a b : Z) : option Z :=
  if negb (b =? 0) && (a >? SIZE_MAX / b) then None else Some (a * b).

(** ** Identifiers *)

Definition WADB_NAME_CAP : Z := 64.

(** The character test of line 49; [first] is [i = 0]. *)
Definition ident_char (first : bool) (c : Z) : bool :=
  (c =? 95) || ((65 <=? c) && (c <=? 90)) || ((97 <=? c) && (c <=? 122)) ||
  (negb first && (48 <=? c) && (c <=? 57)).

(** The loop over [i < WADB_NAME_CAP]; a name is its bytes before the terminator,
    so reading past them gives the terminating zero. *)
Fixpoint identifier_loop (n : nat) (first : bool) (name : list Z) : bool :=
  match n with
  | O => false
  | S n' =>
      let c := hd 0 name in
      if c =? 0 then true
      else if negb (ident_char first c) then false
      else identifier_loop n' false (tl name)
  end.
Definition wadb_identifier (name : list Z) : bool :=
  if hd 0 name =? 0 then false
  else identifier_loop (Z.to_nat WADB_NAME_CAP) true name.

(** ** Little-endian accessors *)

Definition wadb_get_u16 (p : list Z) (o : Z) : Z :=
  u16 (Z.lor (rd p o) (Z.shiftl (rd p (o + 1)) 8)).
Definition wadb_get_u32 (p : list Z) (o : Z) : Z :=
  Z.lor (Z.lor (Z.lor (rd p o) (Z.shiftl (rd p (o + 1)) 8))
    (Z.shiftl (rd p (o + 2)) 16)) (Z.shiftl (rd p (o + 3)) 24).
Definition wadb_get_u64 (p : list Z) (o : Z) : Z :=
  Z.lor (wadb_get_u32 p o) (Z.shiftl (wadb_get_u32 p (o + 4)) 32).
Definition wadb_get_i64 (p : list Z) (o : Z) : Z :=
  let u := wadb_get_u64 p o in
  if u <=? INT64_MAX then u else -1 - (UINT64_MAX - u).

(** [for (i < n) p[i] = (unsigned char)(v >> (i * 8))] *)
Fixpoint put_le (n : nat) (i : Z) (p : list Z) (o v : Z) : list Z :=
  match n with
  | O => p
  | S n' => put_le n' (i + 1) (wr p (o + i) (u8 (Z.shiftr v (i * 8)))) o v
  end.
Definition wadb_put_u16 (p : list Z) (o v : Z) : list Z :=
  wr (wr p o (u8 v)) (o + 1) (u8 (Z.shiftr v 8)).
Definition wadb_put_u32 (p : list Z) (o v : Z) : list Z := put_le 4 0 p o v.
Definition wadb_put_u64 (p : list Z) (o v : Z) : list Z := put_le 8 0 p o v.

(** ** FNV-1a *)

Definition hash_step (hash b : Z) : Z := u64 (Z.lxor hash b * 1099511628211).
Definition wadb_hash (data : list Z) (hash : Z) : Z := fold_left hash_step data hash.
Definition FNV_BASIS : Z := 14695981039346656037.

(** ** Bit arithmetic *)

Lemma lor_shiftl a b k : 0 ≤ k → 0 ≤ a < 2 ^ k → Z.lor a (Z.shiftl b k) = a + b * 2 ^ k.
Proof.
  intros Hk Ha. rewrite <-Z.shiftl_mul_pow2 by done. symmetry. apply Z.add_nocarry_lor.
  apply Z.bits_inj'. intros n Hn. rewrite Z.land_spec, Z.bits_0.
  rewrite <-(Z.mod_small a (2 ^ k)) by done. rewrite Z.testbit_mod_pow2 by done.
  destruct (Z.ltb_spec n k); [|done]. rewrite Z.shiftl_spec by done.
  rewrite (Z.testbit_neg_r b) by lia. apply andb_false_r.
Qed.

Lemma lor_range a b n : 0 ≤ n → 0 ≤ a < 2 ^ n → 0 ≤ b < 2 ^ n → 0 ≤ Z.lor a b < 2 ^ n.
Proof.
  intros Hn Ha Hb. assert (0 ≤ Z.lor a b) by (apply Z.lor_nonneg; lia). split; [done|].
  apply Z.bounded_iff_bits_nonneg; [done|done|]. intros l Hl. rewrite Z.lor_spec.
  rewrite (proj1 (Z.bounded_iff_bits_nonneg n a ltac:(lia) ltac:(lia)) ltac:(lia) l Hl).
  by rewrite (proj1 (Z.bounded_iff_bits_nonneg n b ltac:(lia) ltac:(lia)) ltac:(lia) l Hl).
Qed.
(** Clearing the low three bits. *)
Lemma round_down8 x k : 0 ≤ k → 0 ≤ x < 2 ^ (k + 3) → Z.land x (Z.shiftl (Z.ones k) 3) = 8 * (x / 8).
Proof.
  intros Hk Hx. transitivity (Z.shiftl (Z.shiftr x 3) 3).
  2: { rewrite Z.shiftl_mul_pow2, Z.shiftr_div_pow2 by lia. change (2 ^ 3) with 8. lia. }
  apply Z.bits_inj'. intros n Hn. rewrite Z.land_spec, !Z.shiftl_spec by done.
  destruct (decide (n < 3)); [rewrite !(Z.testbit_neg_r _ (n - 3)) by lia; by rewrite andb_false_r|].
  rewrite Z.shiftr_spec, Z.ones_spec by lia. replace (n - 3 + 3) with n by lia.
  destruct (bool_decide_reflect (n - 3 < k)); [by rewrite andb_true_r|]. rewrite andb_false_r.
  symmetry. apply (proj1 (Z.bounded_iff_bits_nonneg (k + 3) x ltac:(lia) ltac:(lia))); lia.
Qed.
Lemma sub_2 p o : 0 ≤ o → o + 2 ≤ zlen p → sub p o 2 = [rd p o; rd p (o + 1)].
Proof. intros. change 2 with (1 + 1). rewrite sub_app, !sub_1 by lia. done. Qed.
Lemma sub_4 p o : 0 ≤ o → o + 4 ≤ zlen p →
  sub p o 4 = [rd p o; rd p (o + 1); rd p (o + 2); rd p (o + 3)].
Proof.
  intros. change 4 with (2 + 2). rewrite sub_app, !sub_2 by lia.
  by replace (o + 2 + 1) with (o + 3) by lia.
Qed.

(** The accessors read the little-endian value of the bytes at the offset. *)
Lemma get_u16_le p o : bytes p → 0 ≤ o → o + 2 ≤ zlen p →
  wadb_get_u16 p o = le_combine (sub p o 2).
Proof.
  intros Hp ??. rewrite sub_2 by lia. cbn [le_combine]. unfold wadb_get_u16.
  pose proof (bytes_rd p o Hp). pose proof (bytes_rd p (o + 1) Hp). unfold is_u8 in *.
  rewrite lor_shiftl by lia. rewrite u16_id; [lia|]. unfold is_u16, UINT16_MAX. lia.
Qed.
Lemma get_u32_le p o : bytes p → 0 ≤ o → o + 4 ≤ zlen p →
  wadb_get_u32 p o = le_combine (sub p o 4).
Proof.
  intros Hp ??. rewrite sub_4 by lia. cbn [le_combine]. unfold wadb_get_u32.
  pose proof (bytes_rd p o Hp). pose proof (bytes_rd p (o + 1) Hp).
  pose proof (bytes_rd p (o + 2) Hp). unfold is_u8 in *.
  rewrite (lor_shiftl _ _ 8), (lor_shiftl _ _ 16), (lor_shiftl _ _ 24) by lia. lia.
Qed.
Lemma get_u64_le p o : bytes p → 0 ≤ o → o + 8 ≤ zlen p →
  wadb_get_u64 p o = le_combine (sub p o 8).
Proof.
  intros Hp ??. unfold wadb_get_u64. rewrite !get_u32_le by (lia || done).
  change 8 with (4 + 4). rewrite (sub_app p o 4 4), le_combine_app by lia.
  rewrite zlen_sub by lia. pose proof (le_combine_bound (sub p o 4)) as Hb.
  rewrite zlen_sub in Hb by lia. rewrite lor_shiftl by (lia || apply Hb; auto with wadb).
  change (256 ^ 4) with (2 ^ 32). lia.
Qed.

Lemma put_le_spec n i p o v :
  0 ≤ i → 0 ≤ o → put_le n i p o v = put p (o + i) (le_split n (Z.shiftr v (i * 8))).
Proof.
  revert i p. induction n as [|n IH]; intros i p Hi Ho; [done|].
  cbn [put_le le_split]. rewrite IH by lia. unfold put, wr.
  replace (Z.to_nat (o + (i + 1))) with (S (Z.to_nat (o + i))) by lia.
  cbn [list_inserts]. rewrite list_insert_inserts_lt by lia. f_equal.
  rewrite !Z.shiftr_div_pow2 by lia.
  replace ((i + 1) * 8) with (i * 8 + 8) by lia. rewrite Z.pow_add_r by lia.
  by rewrite <-Z.div_div by lia.
Qed.
Lemma put_u16_spec p o v : 0 ≤ o → wadb_put_u16 p o v = put p o (le_split 2 v).
Proof.
  intros Ho. unfold wadb_put_u16. rewrite <-(Z.add_0_r o) at 3. change v with (Z.shiftr v (0 * 8)) at 3.
  rewrite <-put_le_spec by lia. cbn [put_le]. rewrite Z.add_0_r. done.
Qed.
Lemma put_u32_spec p o v : 0 ≤ o → wadb_put_u32 p o v = put p o (le_split 4 v).
Proof. intros Ho. unfold wadb_put_u32. rewrite put_le_spec, Z.add_0_r by lia. done. Qed.
Lemma put_u64_spec p o v : 0 ≤ o → wadb_put_u64 p o v = put p o (le_split 8 v).
Proof. intros Ho. unfold wadb_put_u64. rewrite put_le_spec, Z.add_0_r by lia. done. Qed.

Lemma le_u16 v : le_combine (le_split 2 v) = u16 v.
Proof. apply le_combine_split. Qed.
Lemma le_u32 v : le_combine (le_split 4 v) = u32 v.
Proof. apply le_combine_split. Qed.
Lemma le_u64 v : le_combine (le_split 8 v) = u64 v.
Proof. apply le_combine_split. Qed.
Lemma get_u16_range p o : bytes p → 0 ≤ o → o + 2 ≤ zlen p → is_u16 (wadb_get_u16 p o).
Proof.
  intros. rewrite get_u16_le by done. pose proof (le_combine_bound (sub p o 2)) as Hb.
  rewrite zlen_sub in Hb by lia. specialize (Hb ltac:(auto with wadb)).
  unfold is_u16, UINT16_MAX. change (256 ^ 2) with 65536 in Hb. lia.
Qed.
Lemma get_u32_range p o : bytes p → 0 ≤ o → o + 4 ≤ zlen p → is_u32 (wadb_get_u32 p o).
Proof.
  intros. rewrite get_u32_le by done. pose proof (le_combine_bound (sub p o 4)) as Hb.
  rewrite zlen_sub in Hb by lia. specialize (Hb ltac:(auto with wadb)).
  unfold is_u32, UINT32_MAX. change (256 ^ 4) with 4294967296 in Hb. lia.
Qed.
Lemma get_u64_range p o : bytes p → 0 ≤ o → o + 8 ≤ zlen p → is_u64 (wadb_get_u64 p o).
Proof.
  intros. rewrite get_u64_le by done. pose proof (le_combine_bound (sub p o 8)) as Hb.
  rewrite zlen_sub in Hb by lia. specialize (Hb ltac:(auto with wadb)).
  unfold is_u64, UINT64_MAX. change (256 ^ 8) with 18446744073709551616 in Hb. lia.
Qed.
Lemma get_i64_u64 p o : wadb_get_i64 p o = i64_of_u64 (wadb_get_u64 p o).
Proof. done. Qed.
Lemma get_i64_range p o : bytes p → 0 ≤ o → o + 8 ≤ zlen p → is_i64 (wadb_get_i64 p o).
Proof. intros. rewrite get_i64_u64. by apply i64_of_u64_range, get_u64_range. Qed.

(** Reading back a field whose bytes are known, and the bytes of a field that was read. *)
Lemma get_u16_at p o v : 0 ≤ o → sub p o 2 = le_split 2 v → wadb_get_u16 p o = u16 v.
Proof.
  intros Ho Hs. rewrite <-le_u16, <-Hs. unfold wadb_get_u16.
  rewrite <-(Z.add_0_r o) at 1. rewrite <-!(rd_sub p o 2), Hs by lia.
  symmetry. change (le_combine (le_split 2 v)) with (le_combine (sub (le_split 2 v) 0 2)).
  rewrite <-get_u16_le by (auto with wadb || len). done.
Qed.
Lemma get_u32_at p o v : 0 ≤ o → sub p o 4 = le_split 4 v → wadb_get_u32 p o = u32 v.
Proof.
  intros Ho Hs. rewrite <-le_u32, <-Hs. unfold wadb_get_u32.
  rewrite <-(Z.add_0_r o) at 1. rewrite <-!(rd_sub p o 4), Hs by lia.
  symmetry. change (le_combine (le_split 4 v)) with (le_combine (sub (le_split 4 v) 0 4)).
  rewrite <-get_u32_le by (auto with wadb || len). done.
Qed.
Lemma get_u64_at p o v : 0 ≤ o → sub p o 8 = le_split 8 v → wadb_get_u64 p o = u64 v.
Proof.
  intros Ho Hs. rewrite <-le_u64, <-Hs. unfold wadb_get_u64, wadb_get_u32.
  rewrite <-(Z.add_0_r o) at 1. rewrite <-!(Z.add_assoc o 4). rewrite <-!(rd_sub p o 8), Hs by lia.
  symmetry. change (le_combine (le_split 8 v)) with (le_combine (sub (le_split 8 v) 0 8)).
  rewrite <-get_u64_le by (auto with wadb || len). done.
Qed.
Lemma get_i64_at p o v : 0 ≤ o → is_i64 v → sub p o 8 = le_split 8 (u64 v) → wadb_get_i64 p o = v.
Proof.
  intros ? Hv Hs. rewrite get_i64_u64, (get_u64_at p o (u64 v)) by done.
  rewrite u64_id by apply u64_range. by apply i64_of_u64_u64.
Qed.
Lemma split_u32 p o : bytes p → 0 ≤ o → o + 4 ≤ zlen p → sub p o 4 = le_split 4 (wadb_get_u32 p o).
Proof.
  intros. rewrite get_u32_le by done. change 4%nat with (Z.to_nat 4).
  rewrite <-(zlen_sub p o 4) at 2 by lia. unfold zlen. rewrite Nat2Z.id.
  symmetry. apply le_split_combine. auto with wadb.
Qed.
Lemma split_u64 p o : bytes p → 0 ≤ o → o + 8 ≤ zlen p → sub p o 8 = le_split 8 (wadb_get_u64 p o).
Proof.
  intros. rewrite get_u64_le by done. change 8%nat with (Z.to_nat 8).
  rewrite <-(zlen_sub p o 8) at 2 by lia. unfold zlen. rewrite Nat2Z.id.
  symmetry. apply le_split_combine. auto with wadb.
Qed.
Lemma split_i64 p o : bytes p → 0 ≤ o → o + 8 ≤ zlen p → sub p o 8 = le_split 8 (u64 (wadb_get_i64 p o)).
Proof.
  intros. rewrite get_i64_u64, u64_i64_of_u64 by (by apply get_u64_range). by apply split_u64.
Qed.

(** Reading inside a piece of a buffer. *)
Lemma get_u16_sub p o n i : 0 ≤ o → 0 ≤ i → i + 2 ≤ n → wadb_get_u16 (sub p o n) i = wadb_get_u16 p (o + i).
Proof. intros. unfold wadb_get_u16. rewrite !rd_sub by lia. by rewrite !Z.add_assoc. Qed.
Lemma get_u32_sub p o n i : 0 ≤ o → 0 ≤ i → i + 4 ≤ n → wadb_get_u32 (sub p o n) i = wadb_get_u32 p (o + i).
Proof. intros. unfold wadb_get_u32. rewrite !rd_sub by lia. by rewrite !Z.add_assoc. Qed.
Lemma get_u64_sub p o n i : 0 ≤ o → 0 ≤ i → i + 8 ≤ n → wadb_get_u64 (sub p o n) i = wadb_get_u64 p (o + i).
Proof. intros. unfold wadb_get_u64. rewrite !get_u32_sub by lia. by rewrite !Z.add_assoc. Qed.
Lemma get_i64_sub p o n i : 0 ≤ o → 0 ≤ i → i + 8 ≤ n → wadb_get_i64 (sub p o n) i = wadb_get_i64 p (o + i).
Proof. intros. rewrite !get_i64_u64. by rewrite get_u64_sub by lia. Qed.

(** A boolean fact about bytes, checked on all 256 of them. *)
Lemma byte_forall (P : Z → bool) b : forallb P (seqZ 0 256) = true → is_u8 b → P b = true.
Proof.
  intros H Hb. rewrite forallb_forall in H. apply H, list_elem_of_In, elem_of_seqZ.
  unfold is_u8 in Hb. lia.
Qed.

(** Case analysis on every integer comparison of the goal. *)
Ltac bool_cases :=
  repeat match goal with
  | |- context [?a <? ?b] => destruct (Z.ltb_spec a b)
  | |- context [?a <=? ?b] => destruct (Z.leb_spec a b)
  | |- context [?a >? ?b] => rewrite (Z.gtb_ltb a b)
  | H : context [?a <? ?b] |- _ => destruct (Z.ltb_spec a b)
  | H : context [?a <=? ?b] |- _ => destruct (Z.leb_spec a b)
  | H : context [?a >? ?b] |- _ => rewrite (Z.gtb_ltb a b) in H
  end; cbn [andb orb negb] in *.


(** ** What the accessors promise *)

(** Checked addition and multiplication on [size_t] return the exact result
    when it is representable and refuse otherwise. *)
Theorem checked_sizes_exact a b :
  is_u64 a → is_u64 b →
  wadb_add_size a b = (if a + b <=? SIZE_MAX then Some (a + b) else None) ∧
  wadb_mul_size a b = (if a * b <=? SIZE_MAX then Some (a * b) else None).
Proof.
  intros Ha Hb. unfold wadb_add_size, wadb_mul_size. split.
  - bool_cases; done || mlia.
  - destruct (Z.eqb_spec b 0) as [->|Hb0]; cbn [negb andb].
    { rewrite Z.mul_0_r. done. }
    rewrite Z.gtb_ltb. destruct (Z.ltb_spec (SIZE_MAX / b) a), (Z.leb_spec (a * b) SIZE_MAX); try done.
    + exfalso. assert (a ≤ SIZE_MAX / b); [|lia]. apply Z.div_le_lower_bound; mlia.
    + exfalso. assert (a * b ≤ SIZE_MAX / b * b) by (apply Z.mul_le_mono_nonneg_r; mlia).
      pose proof (Z.mul_div_le SIZE_MAX b). mlia.
Qed.

Lemma checked_sizes_exact_witness :
  wadb_add_size SIZE_MAX 1 = None ∧ wadb_mul_size 4294967296 4294967295 = Some 18446744069414584320.
Proof.
  split.
  - rewrite (proj1 (checked_sizes_exact SIZE_MAX 1 ltac:(vm_compute; split; discriminate)
      ltac:(vm_compute; split; discriminate))). reflexivity.
  - rewrite (proj2 (checked_sizes_exact 4294967296 4294967295 ltac:(vm_compute; split; discriminate)
      ltac:(vm_compute; split; discriminate))). reflexivity.
Defined.

(** The accepted names: one letter or underscore, then letters, digits and
    underscores, 63 bytes at most; [name] holds no zero byte. *)
Definition identifier_grammar (name : list Z) : Prop :=
  match name with
  | [] => False
  | c :: rest => ident_char true c = true ∧ Forall (λ c, ident_char false c = true) rest
  end ∧ zlen name < WADB_NAME_CAP.

Lemma identifier_loop_rest n name :
  Forall (λ c, c ≠ 0) name →
  identifier_loop n false name = true ↔
  Forall (λ c, ident_char false c = true) name ∧ (length name < n)%nat.
Proof.
  intros Hz. revert n. induction Hz as [|c name Hc Hz IH]; intros n; destruct n as [|n];
    cbn [identifier_loop hd tl length].
  - split; [done|lia].
  - split; [intros _; split; [constructor|lia]|done].
  - split; [done|lia].
  - destruct (Z.eqb_spec c 0); [done|]. destruct (ident_char false c) eqn:E; cbn [negb].
    + rewrite IH, Forall_cons. split; [intros []|intros [[] ?]]; split; try done; lia.
    + split; [done|]. intros [[? _]%Forall_cons _]. congruence.
Qed.

Lemma wadb_identifier_spec name :
  Forall (λ c, c ≠ 0) name → wadb_identifier name = true ↔ identifier_grammar name.
Proof.
  intros Hz. unfold wadb_identifier, identifier_grammar, zlen, WADB_NAME_CAP.
  destruct Hz as [|c name Hc Hz]; cbn [hd]; [split; [done|tauto]|].
  destruct (Z.eqb_spec c 0); [done|].
  change (Z.to_nat 64) with (S 63). remember 63%nat as m eqn:Hm. cbn [identifier_loop hd tl length].
  destruct (Z.eqb_spec c 0); [done|]. destruct (ident_char true c); cbn [negb].
  - rewrite identifier_loop_rest by done. split; [intros []|intros [[] ?]]; repeat split; done || lia.
  - split; [done|]. intros [[? _] _]. done.
Qed.
