(* ===== verification/Utf8.v ===== *)
(** * UTF-8 validation ([wadb_utf8] of src/core/encoding.c)

    The validator, the reference encoding of Unicode scalar values, and the proof
    that the validator accepts exactly the concatenations of such encodings. *)

From stdpp Require Import base numbers list list_numbers.
From S2P Require Import Prelude Encoding.

(** ** UTF-8 validation *)

(** [while (more--)]: continuation bytes extend [cp]. *)
Fixpoint utf8_more (more : nat) (p : list Z) (cp : Z) : option (Z * list Z) :=
  match more with
  | O => Some (cp, p)
  | S more' =>
      match p with
      | [] => None
      | b :: p' =>
          if negb (Z.land b 192 =? 128) then None
          else utf8_more more' p' (Z.lor (Z.shiftl cp 6) (Z.land b 63))
      end
  end.

(** The classification of the lead byte: number of continuation bytes, smallest
    legal code point, payload bits. *)
Definition utf8_lead (cp : Z) : option (nat * Z * Z) :=
  if (194 <=? cp) && (cp <=? 223) then Some (1%nat, 128, Z.land cp 31)
  else if (224 <=? cp) && (cp <=? 239) then Some (2%nat, 2048, Z.land cp 15)
  else if (240 <=? cp) && (cp <=? 244) then Some (3%nat, 65536, Z.land cp 7)
  else None.

(** The outer loop; [p] is the unread suffix, each iteration reads at least one byte. *)
Fixpoint utf8_loop (fuel : nat) (p : list Z) : bool :=
  match fuel with
  | O => match p with [] => true | _ => false end
  | S fuel' =>
      match p with
      | [] => true
      | cp :: p' =>
          if cp <? 128 then utf8_loop fuel' p'
          else match utf8_lead cp with
               | None => false
               | Some (more, min, cp) =>
                   if Z.of_nat more >? zlen p' then false
                   else match utf8_more more p' cp with
                        | None => false
                        | Some (cp, p'') =>
                            if (cp <? min) || (cp >? 1114111) ||
                               ((55296 <=? cp) && (cp <=? 57343)) then false
                            else utf8_loop fuel' p''
                        end
               end
      end
  end.
Definition wadb_utf8 (data : list Z) : bool := utf8_loop (length data) data.

(** ** UTF-8: the reference encoding *)

Definition scalar (cp : Z) : Prop := 0 ≤ cp ≤ 1114111 ∧ ¬ (55296 ≤ cp ≤ 57343).

Definition utf8_encode (cp : Z) : list Z :=
  if cp <? 128 then [cp]
  else if cp <? 2048 then [192 + cp / 64; 128 + cp `mod` 64]
  else if cp <? 65536 then
    [224 + cp / 4096; 128 + (cp / 64) `mod` 64; 128 + cp `mod` 64]
  else [240 + cp / 262144; 128 + (cp / 4096) `mod` 64; 128 + (cp / 64) `mod` 64; 128 + cp `mod` 64].

Lemma continuation_byte b : is_u8 b → (Z.land b 192 =? 128) = (128 <=? b) && (b <? 192).
Proof.
  intros H. apply eqb_prop.
  by apply (byte_forall (λ b, Bool.eqb (Z.land b 192 =? 128) ((128 <=? b) && (b <? 192)))).
Qed.

Lemma utf8_more_step b p cp n :
  is_u8 b → 0 ≤ cp →
  utf8_more (S n) (b :: p) cp =
  if (128 <=? b) && (b <? 192) then utf8_more n p (cp * 64 + (b - 128)) else None.
Proof.
  intros Hb Hcp. cbn [utf8_more]. rewrite continuation_byte by done.
  destruct ((128 <=? b) && (b <? 192)) eqn:E; [|done]. cbn [negb]. f_equal.
  apply andb_true_iff in E as [E1%Z.leb_le E2%Z.ltb_lt].
  change 63 with (Z.ones 6). rewrite Z.land_ones, Z.lor_comm, lor_shiftl by (lia || mlia).
  change (2 ^ 6) with 64. mlia.
Qed.

(** Lead byte classes, as intervals. *)
Lemma utf8_lead_cases b : is_u8 b →
  utf8_lead b =
  if (194 <=? b) && (b <=? 223) then Some (1%nat, 128, b - 192)
  else if (224 <=? b) && (b <=? 239) then Some (2%nat, 2048, b - 224)
  else if (240 <=? b) && (b <=? 244) then Some (3%nat, 65536, b - 240)
  else None.
Proof.
  intros Hb. unfold utf8_lead.
  change 31 with (Z.ones 5). change 15 with (Z.ones 4). change 7 with (Z.ones 3).
  rewrite !Z.land_ones by lia. change (2 ^ 5) with 32. change (2 ^ 4) with 16. change (2 ^ 3) with 8.
  repeat match goal with
  | |- context [(?a <=? ?b) && (?b <=? ?c)] =>
      destruct (Z.leb_spec a b); destruct (Z.leb_spec b c); cbn [andb]
  end; try done; do 2 f_equal; mlia.
Qed.

(** What one multi-byte iteration of the loop accepts. *)
Definition utf8_one (p : list Z) : option (list Z) :=
  match p with
  | [] => None
  | b :: p' =>
      if b <? 128 then Some p'
      else match utf8_lead b with
           | None => None
           | Some (more, min, cp) =>
               if Z.of_nat more >? zlen p' then None
               else match utf8_more more p' cp with
                    | None => None
                    | Some (cp, p'') =>
                        if (cp <? min) || (cp >? 1114111) ||
                           ((55296 <=? cp) && (cp <=? 57343)) then None else Some p''
                    end
           end
  end.

Lemma utf8_loop_one fuel p : p ≠ [] →
  utf8_loop (S fuel) p = match utf8_one p with Some q => utf8_loop fuel q | None => false end.
Proof.
  destruct p as [|b p]; [done|intros _]. cbn [utf8_loop utf8_one].
  destruct (b <? 128); [done|]. destruct (utf8_lead b) as [[[more min] cp]|]; [|done].
  destruct (Z.of_nat more >? zlen p); [done|]. destruct (utf8_more more p cp) as [[cp' q]|]; [|done].
  by destruct (_ || _).
Qed.

Lemma utf8_one_complete cp q : scalar cp → utf8_one (utf8_encode cp ++ q) = Some q.
Proof.
  intros [Hr Hs]. unfold utf8_encode.
  destruct (Z.ltb_spec cp 128); [cbn [app utf8_one]; bool_cases; done || lia|].
  destruct (Z.ltb_spec cp 2048); [|destruct (Z.ltb_spec cp 65536)]; cbn [app utf8_one].
  all: rewrite utf8_lead_cases by mlia; bool_cases; try mlia; rewrite !zlen_cons;
    pose proof (zlen_nonneg q); bool_cases; [lia|]; rewrite !utf8_more_step by mlia;
    bool_cases; try mlia; cbn [utf8_more]; bool_cases; done || mlia.
Qed.

Lemma utf8_more_sound n p cp cp' q :
  bytes p → 0 ≤ cp → utf8_more n p cp = Some (cp', q) →
  ∃ bs, length bs = n ∧ p = bs ++ q ∧ Forall (λ b, 128 ≤ b < 192) bs ∧
        cp' = fold_left (λ a b, a * 64 + (b - 128)) bs cp.
Proof.
  revert p cp. induction n as [|n IH]; intros p cp Hp Hcp.
  { intros [= <- <-]. by exists []. }
  destruct p as [|b p]; [done|]. apply Forall_cons in Hp as [Hb Hp].
  rewrite utf8_more_step by done. bool_cases; try done. intros Hm.
  apply IH in Hm as (bs & <- & -> & Hbs & ->); [|done|lia].
  exists (b :: bs). split_and!; [done..|by constructor|done].
Qed.

Lemma utf8_one_sound p q :
  bytes p → utf8_one p = Some q → ∃ cp, scalar cp ∧ p = utf8_encode cp ++ q.
Proof.
  destruct p as [|b p]; [done|]. intros [Hb Hp]%Forall_cons. cbn [utf8_one].
  rewrite utf8_lead_cases by done. unfold is_u8 in Hb.
  destruct (Z.ltb_spec b 128).
  { intros [= <-]. exists b. unfold scalar, utf8_encode.
    rewrite (proj2 (Z.ltb_lt b 128)) by lia. split; [lia|done]. }
  destruct ((194 <=? b) && (b <=? 223)) eqn:E1;
    [|destruct ((224 <=? b) && (b <=? 239)) eqn:E2;
      [|destruct ((240 <=? b) && (b <=? 244)) eqn:E3; [|done]]].
  all: rewrite ?andb_true_iff, ?Z.leb_le in *.
  all: destruct (_ >? _); [done|]; destruct (utf8_more _ _ _) as [[cp q']|] eqn:Hm; [|done].
  all: apply utf8_more_sound in Hm as (bs & Hl & -> & Hc & ->); [|done|lia].
  all: destruct bs as [|c1 [|c2 [|c3 [|]]]]; try done; repeat rewrite ?Forall_cons in Hc.
  all: cbn [fold_left]; bool_cases; try done; intros [= <-].
  all: match goal with H : ?cp ≤ 1114111 |- _ => exists cp end; unfold scalar, utf8_encode.
  all: (split; [lia|]); bool_cases; try lia; cbn [app]; repeat f_equal; mlia.
Qed.

Lemma utf8_encode_cons cp : ∃ b bs, utf8_encode cp = b :: bs.
Proof. unfold utf8_encode. bool_cases; eauto. Qed.
Lemma bytes_utf8_encode cp : scalar cp → bytes (utf8_encode cp).
Proof.
  intros [Hr _]. unfold utf8_encode. bool_cases; repeat constructor; mlia.
Qed.

Lemma utf8_loop_spec fuel p :
  bytes p → (length p ≤ fuel)%nat →
  utf8_loop fuel p = true ↔ ∃ cps, Forall scalar cps ∧ p = concat (map utf8_encode cps).
Proof.
  revert p. induction fuel as [|fuel IH]; intros p Hp Hl.
  { destruct p; [|cbn in Hl; lia]. split; [by exists []|done]. }
  destruct (decide (p = [])) as [->|Hne]; [split; [by exists []|done]|].
  rewrite utf8_loop_one by done. split.
  - destruct (utf8_one p) as [q|] eqn:Hq; [|done]. intros Ht.
    apply utf8_one_sound in Hq as (cp & Hcp & ->); [|done].
    destruct (utf8_encode_cons cp) as (b & bs & Hb).
    apply Forall_app in Hp as [_ Hp]. rewrite Hb, length_app in Hl. cbn in Hl.
    apply IH in Ht as (cps & Hcps & ->); [|done|lia].
    exists (cp :: cps). split; [by constructor|done].
  - intros ([|cp cps] & Hcps & ->); [done|]. apply Forall_cons in Hcps as [Hcp Hcps].
    cbn [map concat] in *. rewrite utf8_one_complete by done.
    destruct (utf8_encode_cons cp) as (b & bs & Hb).
    apply Forall_app in Hp as [_ Hp]. rewrite Hb, length_app in Hl. cbn in Hl.
    apply IH; [done|lia|eauto].
Qed.


(** C38: [wadb_utf8] accepts a byte string exactly when it is the concatenation of
    the UTF-8 encodings of Unicode scalar values: overlong forms, surrogates,
    values past U+10FFFF and truncated sequences are all rejected, and every
    well-formed string is accepted. *)
Theorem wadb_utf8_spec data :
  bytes data →
  wadb_utf8 data = true ↔ ∃ cps, Forall scalar cps ∧ data = concat (map utf8_encode cps).
Proof. intros. by apply utf8_loop_spec. Qed.

Lemma wadb_utf8_nil : wadb_utf8 [] = true.
Proof. done. Qed.

(** U+00E9, U+20AC and U+1F600 as the bytes of one string. *)
Lemma wadb_utf8_spec_witness :
  bytes [195; 169; 226; 130; 172; 240; 159; 152; 128] ∧
  ∃ cps, Forall scalar cps ∧
    [195; 169; 226; 130; 172; 240; 159; 152; 128] = concat (map utf8_encode cps).
Proof.
  assert (H : bytes [195; 169; 226; 130; 172; 240; 159; 152; 128])
    by (repeat constructor; vm_compute; discriminate).
  split; [exact H|]. apply (proj1 (wadb_utf8_spec _ H)). vm_compute. reflexivity.
Defined.
