(* ===== verification/Checksum.v ===== *)
(** * CRC-32C ([crc_init], [wadb_crc32c] of src/core/encoding.c)

    The table-driven checksum, its equality with bitwise polynomial division, and
    what corruption it is certain to detect. *)

From Stdlib Require Import String.
From stdpp Require Import base numbers list list_numbers.
From S2P Require Import Prelude Encoding.

(** ** CRC-32C *)

(** One bit of the reflected polynomial division, line 110. *)
Definition crc_bit (x : Z) : Z :=
  Z.lxor (Z.shiftr x 1) (if Z.odd x then 2197175160 else 0).
(** [crc_init]: the table the code fills on first use. *)
Definition crc_init : list Z :=
  map (λ i, Nat.iter 8 crc_bit i) (seqZ 0 256).
Definition crc_table : list Z := Eval vm_compute in crc_init.

Definition crc_step (crc b : Z) : Z :=
  Z.lxor (rd crc_table (Z.land (Z.lxor crc b) 255)) (Z.shiftr crc 8).
Definition wadb_crc32c (data : list Z) : Z :=
  Z.lxor (fold_left crc_step data UINT32_MAX) UINT32_MAX.

(** The published check value of CRC-32C. *)
Example crc32c_check_value : wadb_crc32c (cstr "123456789") = 3808858755.
Proof. vm_compute. reflexivity. Qed.

(** ** CRC-32C: linearity of the bit step *)

Lemma lxor_range a b n : 0 ≤ n → 0 ≤ a < 2 ^ n → 0 ≤ b < 2 ^ n → 0 ≤ Z.lxor a b < 2 ^ n.
Proof.
  intros Hn Ha Hb. assert (0 ≤ Z.lxor a b) by (apply Z.lxor_nonneg; lia). split; [done|].
  apply Z.bounded_iff_bits_nonneg; [done|done|]. intros l Hl. rewrite Z.lxor_spec.
  rewrite (proj1 (Z.bounded_iff_bits_nonneg n a ltac:(lia) ltac:(lia)) ltac:(lia) l Hl).
  by rewrite (proj1 (Z.bounded_iff_bits_nonneg n b ltac:(lia) ltac:(lia)) ltac:(lia) l Hl).
Qed.

Lemma crc_bit_lxor a b : crc_bit (Z.lxor a b) = Z.lxor (crc_bit a) (crc_bit b).
Proof.
  unfold crc_bit. rewrite Z.shiftr_lxor, <-!Z.bit0_odd, Z.lxor_spec.
  apply Z.bits_inj'. intros n _.
  destruct (Z.testbit a 0), (Z.testbit b 0); cbn [xorb]; rewrite !Z.lxor_spec, ?Z.bits_0;
    repeat match goal with |- context [Z.testbit ?x n] => destruct (Z.testbit x n) end; done.
Qed.
Lemma crc_iter_lxor n a b :
  Nat.iter n crc_bit (Z.lxor a b) = Z.lxor (Nat.iter n crc_bit a) (Nat.iter n crc_bit b).
Proof. induction n as [|n IH]; [done|]. by rewrite !Nat.iter_succ, IH, crc_bit_lxor. Qed.
Lemma crc_bit_double x : crc_bit (2 * x) = x.
Proof.
  unfold crc_bit. rewrite Z.odd_mul. cbn [Z.odd andb]. rewrite Z.lxor_0_r.
  rewrite Z.shiftr_div_pow2 by lia. change (2 ^ 1) with 2. mlia.
Qed.
Lemma crc_iter_shift x : Nat.iter 8 crc_bit (256 * x) = x.
Proof.
  unfold Nat.iter, nat_rect.
  replace (256 * x) with (2 * (2 * (2 * (2 * (2 * (2 * (2 * (2 * x)))))))) by lia.
  by rewrite !crc_bit_double.
Qed.
Lemma crc_bit_range x : is_u32 x → is_u32 (crc_bit x).
Proof.
  intros Hx. enough (0 ≤ crc_bit x < 2 ^ 32) by mlia. unfold crc_bit.
  apply lxor_range; [lia| |destruct (Z.odd x); lia].
  rewrite Z.shiftr_div_pow2 by lia. change (2 ^ 1) with 2. mlia.
Qed.
Lemma crc_iter_range n x : is_u32 x → is_u32 (Nat.iter n crc_bit x).
Proof. intros Hx. induction n; [done|]. rewrite Nat.iter_succ. by apply crc_bit_range. Qed.
Lemma crc_bit_zero x : is_u32 x → crc_bit x = 0 → x = 0.
Proof.
  intros Hx. unfold crc_bit. rewrite Z.lxor_eq_0_iff, Z.shiftr_div_pow2 by lia.
  change (2 ^ 1) with 2. destruct (Z.odd x) eqn:E; intros H; [mlia|].
  rewrite <-Z.negb_even in E. apply negb_false_iff, Z.even_spec in E as [y ->]. mlia.
Qed.
Lemma crc_iter_inj n x y :
  is_u32 x → is_u32 y → Nat.iter n crc_bit x = Nat.iter n crc_bit y → x = y.
Proof.
  intros Hx Hy H. apply Z.lxor_eq_0_iff. apply Z.lxor_eq_0_iff in H. rewrite <-crc_iter_lxor in H.
  assert (Hxy : is_u32 (Z.lxor x y)).
  { enough (0 ≤ Z.lxor x y < 2 ^ 32) by mlia. apply lxor_range; mlia. }
  revert H. generalize dependent (Z.lxor x y). clear. intros z Hz.
  induction n as [|n IH]; [done|]. rewrite Nat.iter_succ. intros H.
  apply IH, crc_bit_zero; [by apply crc_iter_range|done].
Qed.

(** From here on only the lemmas above are used of the bit step. *)
Opaque crc_bit.

(** ** The checksum as polynomial division *)

(** One byte of the bit-at-a-time algorithm. *)
Definition crc_byte (crc b : Z) : Z := Nat.iter 8 crc_bit (Z.lxor crc b).
Lemma crc_byte_eq crc b : crc_byte crc b = Nat.iter 8 crc_bit (Z.lxor crc b).
Proof. reflexivity. Qed.
Opaque crc_byte.

Lemma crc_table_init : crc_table = crc_init.
Proof. vm_compute. reflexivity. Qed.
Lemma crc_table_lookup i : 0 ≤ i < 256 → rd crc_table i = Nat.iter 8 crc_bit i.
Proof.
  intros Hi. rewrite crc_table_init. unfold rd, crc_init.
  rewrite nth_lookup, list_lookup_fmap, lookup_seqZ_lt by lia.
  replace (0 + Z.of_nat (Z.to_nat i)) with i by lia. done.
Qed.

Lemma split_low_byte x : 0 ≤ x → x = Z.lxor (Z.land x 255) (256 * Z.shiftr x 8).
Proof.
  intros Hx. change 255 with (Z.ones 8). rewrite Z.land_ones, Z.shiftr_div_pow2 by lia.
  change (2 ^ 8) with 256. rewrite <-Z.add_nocarry_lxor; [mlia|].
  rewrite Z.mul_comm. change 256 with (2 ^ 8). rewrite <-Z.shiftl_mul_pow2 by lia.
  apply Z.bits_inj'. intros n Hn. rewrite Z.land_spec, Z.bits_0, Z.testbit_mod_pow2 by lia.
  destruct (Z.ltb_spec n 8); [|done]. rewrite Z.shiftl_spec by done.
  rewrite (Z.testbit_neg_r _ (n - 8)) by lia. apply andb_false_r.
Qed.

Lemma crc_step_byte crc b : is_u32 crc → is_u8 b → crc_step crc b = crc_byte crc b.
Proof.
  intros Hc Hb. rewrite crc_byte_eq. unfold crc_step.
  assert (Hx : 0 ≤ Z.lxor crc b < 2 ^ 32) by (apply lxor_range; mlia).
  rewrite crc_table_lookup.
  2:{ change 255 with (Z.ones 8). rewrite Z.land_ones by lia. mlia. }
  rewrite (split_low_byte (Z.lxor crc b)) at 2 by lia.
  rewrite crc_iter_lxor, crc_iter_shift, Z.shiftr_lxor. f_equal.
  rewrite (Z.shiftr_div_pow2 b), (Z.div_small b) by mlia. by rewrite Z.lxor_0_r.
Qed.
Lemma crc_byte_range crc b : is_u32 crc → is_u8 b → is_u32 (crc_byte crc b).
Proof.
  intros. rewrite crc_byte_eq. apply crc_iter_range. enough (0 ≤ Z.lxor crc b < 2 ^ 32) by mlia.
  apply lxor_range; mlia.
Qed.
Lemma crc_fold_range data crc :
  bytes data → is_u32 crc → is_u32 (fold_left crc_byte data crc).
Proof. apply (fold_left_inv is_u32 is_u8), crc_byte_range. Qed.
Lemma crc_fold_byte data crc :
  bytes data → is_u32 crc → fold_left crc_step data crc = fold_left crc_byte data crc.
Proof.
  apply (fold_left_ext_inv is_u32 is_u8), crc_step_byte.
  intros a b Ha Hb. rewrite crc_step_byte by done. by apply crc_byte_range.
Qed.

Lemma lxor_shift_byte s b x : 0 ≤ s → is_u8 b → 0 ≤ x →
  Z.lxor s (b + 256 * x) = Z.lxor (Z.lxor s b) (256 * x).
Proof.
  intros Hs Hb Hx. rewrite Z.lxor_assoc. f_equal.
  rewrite (split_low_byte (b + 256 * x)) at 1 by mlia. f_equal.
  - change 255 with (Z.ones 8). rewrite Z.land_ones by lia. mlia.
  - rewrite Z.shiftr_div_pow2 by lia. f_equal. mlia.
Qed.

Lemma crc_byte_closed n s b x : is_u32 s → is_u8 b → 0 ≤ x →
  Nat.iter n crc_bit (Z.lxor (crc_byte s b) x) = Nat.iter (n + 8) crc_bit (Z.lxor s (b + 256 * x)).
Proof.
  intros Hs Hb Hx. rewrite lxor_shift_byte by (done || mlia).
  by rewrite Nat.iter_add, (crc_iter_lxor 8 (Z.lxor s b) (256 * x)), crc_iter_shift, crc_byte_eq.
Qed.

(** The checksum register after some bytes is the register, with the bytes added
    to it as one little-endian number, divided by the polynomial. *)
Lemma crc_fold_closed data crc :
  bytes data → is_u32 crc →
  fold_left crc_byte data crc = Nat.iter (8 * length data) crc_bit (Z.lxor crc (le_combine data)).
Proof.
  intros Hd. revert crc. induction Hd as [|b data Hb Hd IH]; intros crc Hc.
  { change (le_combine []) with 0. by rewrite Z.lxor_0_r. }
  pose proof (le_combine_bound data Hd). cbn [fold_left le_combine].
  rewrite IH by (by apply crc_byte_range). rewrite crc_byte_closed by (done || lia).
  f_equal. cbn [length]. lia.
Qed.

Lemma lxor_inj_l a b c : Z.lxor a b = Z.lxor a c → b = c.
Proof.
  intros H. apply (f_equal (Z.lxor a)) in H.
  by rewrite <-!Z.lxor_assoc, Z.lxor_nilpotent, !Z.lxor_0_l in H.
Qed.

Lemma crc_byte_inj b c1 c2 :
  is_u32 c1 → is_u32 c2 → is_u8 b → crc_byte c1 b = crc_byte c2 b → c1 = c2.
Proof.
  intros H1 H2 Hb H.
  assert (Hr : ∀ c, is_u32 c → is_u32 (Z.lxor c b)).
  { intros c Hc. enough (0 ≤ Z.lxor c b < 2 ^ 32) by mlia. apply lxor_range; mlia. }
  rewrite !crc_byte_eq in H. apply crc_iter_inj in H; [|by apply Hr..]. rewrite !(Z.lxor_comm _ b) in H. by apply lxor_inj_l in H.
Qed.

(** Two registers that differ still differ after any common suffix. *)
Lemma crc_fold_inj data c1 c2 :
  bytes data → is_u32 c1 → is_u32 c2 →
  fold_left crc_byte data c1 = fold_left crc_byte data c2 → c1 = c2.
Proof.
  apply (fold_left_inj_inv is_u32 is_u8).
  - apply crc_byte_range.
  - intros ?????. by apply crc_byte_inj.
Qed.

Lemma crc32c_range data : bytes data → is_u32 (wadb_crc32c data).
Proof.
  intros Hd. unfold wadb_crc32c. rewrite crc_fold_byte by (done || mlia).
  pose proof (crc_fold_range data UINT32_MAX Hd ltac:(mlia)).
  enough (0 ≤ Z.lxor (fold_left crc_byte data UINT32_MAX) UINT32_MAX < 2 ^ 32) by mlia.
  apply lxor_range; mlia.
Qed.

(** C37: the table-driven checksum of the code is the bit-at-a-time division by the
    reflected Castagnoli polynomial, register complemented before and after. *)
Theorem crc32c_is_polynomial_division data :
  bytes data →
  wadb_crc32c data =
  Z.lxor (Nat.iter (8 * length data) crc_bit (Z.lxor UINT32_MAX (le_combine data))) UINT32_MAX.
Proof.
  intros Hd. unfold wadb_crc32c. rewrite crc_fold_byte by (done || mlia).
  by rewrite crc_fold_closed by (done || mlia).
Qed.

(** Two buffers that differ only inside one window of at most four bytes never
    have the same checksum, so no such corruption passes a checksum comparison. *)
Lemma crc32c_burst l a b r :
  bytes l → bytes a → bytes b → bytes r →
  length a = length b → (length a ≤ 4)%nat → a ≠ b →
  wadb_crc32c (l ++ a ++ r) ≠ wadb_crc32c (l ++ b ++ r).
Proof.
  intros Hl Ha Hb Hr Hlen H4 Hne Heq. apply Hne. clear Hne. unfold wadb_crc32c in Heq.
  rewrite !(Z.lxor_comm _ UINT32_MAX) in Heq. apply lxor_inj_l in Heq.
  rewrite !crc_fold_byte in Heq by (auto with wadb || mlia).
  rewrite !fold_left_app in Heq.
  assert (Hs : is_u32 (fold_left crc_byte l UINT32_MAX)) by (apply crc_fold_range; [done|mlia]).
  apply crc_fold_inj in Heq; [|done|by apply crc_fold_range..].
  generalize dependent (fold_left crc_byte l UINT32_MAX). intros s Heq Hs.
  rewrite !crc_fold_closed, Hlen in Heq by done.
  assert (Hrange : ∀ x, bytes x → (length x ≤ 4)%nat →
    is_u32 (Z.lxor s (le_combine x))).
  { intros x Hx Hx4. pose proof (le_combine_bound x Hx).
    assert (256 ^ zlen x ≤ 256 ^ 4) by (apply Z.pow_le_mono_r; unfold zlen; lia).
    enough (0 ≤ Z.lxor s (le_combine x) < 2 ^ 32) by mlia.
    apply lxor_range; mlia. }
  apply crc_iter_inj in Heq; [|by apply Hrange; (done || lia)..].
  apply lxor_inj_l in Heq.
  rewrite <-(le_split_combine a), <-(le_split_combine b), Hlen, Heq by done. done.
Qed.

(** A buffer followed by its own checksum has one and the same checksum, whatever
    the buffer. *)
Definition CRC_RESIDUE : Z := Z.lxor (Nat.iter 32 crc_bit UINT32_MAX) UINT32_MAX.
Lemma crc_residue body :
  bytes body → wadb_crc32c (body ++ le_split 4 (wadb_crc32c body)) = CRC_RESIDUE.
Proof.
  intros Hb. unfold wadb_crc32c at 1. rewrite crc_fold_byte by (auto with wadb || mlia).
  rewrite fold_left_app. pose proof (crc_fold_range body UINT32_MAX Hb ltac:(mlia)) as Hs.
  rewrite crc_fold_closed, length_le_split, le_u32, u32_id by (auto using crc32c_range with wadb).
  unfold wadb_crc32c. rewrite crc_fold_byte by (done || mlia). unfold CRC_RESIDUE.
  by rewrite <-Z.lxor_assoc, Z.lxor_nilpotent, Z.lxor_0_l.
Qed.

Lemma crc32c_is_polynomial_division_witness :
  bytes [1; 2; 3] ∧
  wadb_crc32c [1; 2; 3] =
  Z.lxor (Nat.iter (8 * length [1; 2; 3]) crc_bit (Z.lxor UINT32_MAX (le_combine [1; 2; 3]))) UINT32_MAX.
Proof.
  assert (H : bytes [1; 2; 3]) by (repeat constructor; vm_compute; discriminate).
  split; [exact H|]. exact (crc32c_is_polynomial_division _ H).
Defined.
