(* ===== verification/Schema.v ===== *)
(** * Table schemas (first half of src/core/schema.c)

    Field types, the row layout that [wadb_schema_build] compiles from a list of
    field definitions, and the invariant of a compiled schema. *)

From Stdlib Require Import String.
From stdpp Require Import base numbers list list_numbers.
From S2P Require Import Prelude Encoding.

Definition WADB_MAX_FIELDS : Z := 256.
Definition WADB_MAX_ROW_BYTES : Z := 16384.
Definition WADB_MAX_FRAME_BYTES : Z := 1048576.
Definition WADB_MAX_STRING_BYTES : Z := 65536.

(** ** Field types

    A C enumeration object can hold integers that are no enumerator: they are
    [WADB_TYPE_OTHER]. *)

Inductive wadb_type :=
  | WADB_I8 | WADB_U8 | WADB_I16 | WADB_U16 | WADB_I32 | WADB_U32
  | WADB_I64 | WADB_U64 | WADB_F32 | WADB_F64 | WADB_BOOL
  | WADB_TIMESTAMP_US | WADB_UUID | WADB_BYTES | WADB_TEXT | WADB_SYMBOL32
  | WADB_TYPE_OTHER (tag : Z).

#[global] Instance wadb_type_eq_dec : EqDecision wadb_type.
Proof. solve_decision. Defined.

Definition type_tag (t : wadb_type) : Z :=
  match t with
  | WADB_I8 => 1 | WADB_U8 => 2 | WADB_I16 => 3 | WADB_U16 => 4 | WADB_I32 => 5
  | WADB_U32 => 6 | WADB_I64 => 7 | WADB_U64 => 8 | WADB_F32 => 9 | WADB_F64 => 10
  | WADB_BOOL => 11 | WADB_TIMESTAMP_US => 12 | WADB_UUID => 13 | WADB_BYTES => 14
  | WADB_TEXT => 15 | WADB_SYMBOL32 => 16 | WADB_TYPE_OTHER tag => tag
  end.
Definition type_table : list wadb_type :=
  [WADB_I8; WADB_U8; WADB_I16; WADB_U16; WADB_I32; WADB_U32; WADB_I64; WADB_U64;
   WADB_F32; WADB_F64; WADB_BOOL; WADB_TIMESTAMP_US; WADB_UUID; WADB_BYTES; WADB_TEXT;
   WADB_SYMBOL32].
(** The conversion [(wadb_type)n]. *)
Definition type_of_tag (n : Z) : wadb_type :=
  if (1 <=? n) && (n <=? 16) then default (WADB_TYPE_OTHER n) (type_table !! Z.to_nat (n - 1))
  else WADB_TYPE_OTHER n.

Definition type_names : list string :=
  ["invalid"; "i8"; "u8"; "i16"; "u16"; "i32"; "u32"; "i64"; "u64"; "f32"; "f64"; "bool";
   "timestamp_us"; "uuid"; "bytes"; "text"; "symbol32"]%string.
Definition wadb_type_name (t : wadb_type) : string :=
  if u32 (type_tag t) <? zlen type_names
  then default "invalid"%string (type_names !! Z.to_nat (u32 (type_tag t)))
  else "invalid"%string.

(** The search over [i = WADB_I8 .. WADB_SYMBOL32]. *)
Definition wadb_type_parse (name : string) : wadb_type :=
  match find (λ i, String.eqb name (wadb_type_name (type_of_tag i))) (seqZ 1 16) with
  | Some i => type_of_tag i
  | None => WADB_TYPE_OTHER 0
  end.

Definition type_width (t : wadb_type) (size : Z) : Z :=
  match t with
  | WADB_I8 | WADB_U8 | WADB_BOOL => 1
  | WADB_I16 | WADB_U16 => 2
  | WADB_I32 | WADB_U32 | WADB_F32 | WADB_SYMBOL32 => 4
  | WADB_I64 | WADB_U64 | WADB_F64 | WADB_TIMESTAMP_US => 8
  | WADB_UUID => 16
  | WADB_BYTES => size
  | WADB_TEXT => u32 (size + 4)
  | WADB_TYPE_OTHER _ => 0
  end.

(** ** Definitions and compiled fields *)

Record wadb_field_def := FieldDef {
  def_name : list Z;
  def_type : wadb_type;
  def_size : Z;
  def_nullable : bool;
}.

Record wadb_field := Field {
  f_name : list Z;
  f_type : wadb_type;
  f_size : Z;
  f_nullable : bool;
  f_offset : Z;
  f_width : Z;
  f_null_bit : Z; (* UINT32_MAX if not nullable *)
}.

Record wadb_schema := Schema {
  row_width : Z;
  null_bytes : Z;
  fingerprint : Z;
  fields : list wadb_field;
}.
Definition field_count (s : wadb_schema) : Z := zlen (fields s).

Definition TIME_NAME : list Z := cstr "_time".
Definition time_field : wadb_field :=
  Field TIME_NAME WADB_TIMESTAMP_US 0 false 0 8 UINT32_MAX.

Definition sized_type (t : wadb_type) : bool :=
  match t with WADB_BYTES | WADB_TEXT => true | _ => false end.

(** The body of the validation loop, lines 46-56; [seen] is [defs[0..i)]. *)
Definition check_def (seen : list wadb_field_def) (d : wadb_field_def) : result unit :=
  if negb (wadb_identifier (def_name d)) || bytes_eqb (def_name d) TIME_NAME then Err WADB_INVALID
  else if existsb (λ e, bytes_eqb (def_name d) (def_name e)) seen then Err WADB_INVALID
  else
    let sized := sized_type (def_type d) in
    if (sized && ((def_size d =? 0) || (def_size d >? WADB_MAX_ROW_BYTES))) ||
       (negb sized && negb (def_size d =? 0)) then Err WADB_INVALID
    else if type_width (def_type d) (def_size d) =? 0 then Err WADB_INVALID
    else Ok ().

(** The validation loop; the result is the number of nullable fields. *)
Fixpoint check_defs (seen defs : list wadb_field_def) (nullable : Z) : result Z :=
  match defs with
  | [] => Ok nullable
  | d :: defs' =>
      _ ← check_def seen d;
      check_defs (seen ++ [d]) defs' (nullable + Z.b2z (def_nullable d))
  end.

(** The layout loop, lines 64-73. *)
Fixpoint layout_fields (defs : list wadb_field_def) (offset null_bit : Z)
    : result (list wadb_field * Z) :=
  match defs with
  | [] => Ok ([], offset)
  | d :: defs' =>
      let width := type_width (def_type d) (def_size d) in
      let f := Field (def_name d) (def_type d) (def_size d) (def_nullable d) offset width
                 (if def_nullable d then null_bit else UINT32_MAX) in
      if width >? u32 (WADB_MAX_ROW_BYTES - offset) then Err WADB_LIMIT
      else
        '(fs, final) ← layout_fields defs' (u32 (offset + width))
                         (null_bit + Z.b2z (def_nullable d));
        Ok (f :: fs, final)
  end.

(** [(offset + 7u) & ~7u] *)
Definition round8 (n : Z) : Z := Z.land (u32 (n + 7)) (UINT32_MAX - 7).

(** One iteration of the fingerprint loop, lines 76-84. *)
Definition hash_field (hash : Z) (f : wadb_field) : Z :=
  let spec := wadb_put_u32 (wadb_put_u32 (wadb_put_u32 (zrep 12 0) 0 (type_tag (f_type f)))
                4 (f_size f)) 8 (Z.b2z (f_nullable f)) in
  wadb_hash spec (wadb_hash (f_name f ++ [0]) hash).

Definition wadb_schema_build (defs : list wadb_field_def) : result wadb_schema :=
  if zlen defs >=? WADB_MAX_FIELDS then Err WADB_INVALID
  else
    nullable ← check_defs [] defs 0;
    let null_bytes := (nullable + 7) / 8 in
    '(fs, offset) ← layout_fields defs (8 + null_bytes) 0;
    let fs := time_field :: fs in
    Ok (Schema (round8 offset) null_bytes (fold_left hash_field fs FNV_BASIS) fs).

(** [wadb_schema_find]: position of the first field of that name, or -1. *)
Fixpoint find_field (fs : list wadb_field) (name : list Z) (i : Z) : Z :=
  match fs with
  | [] => -1
  | f :: fs' => if bytes_eqb (f_name f) name then i else find_field fs' name (i + 1)
  end.
Definition wadb_schema_find (s : wadb_schema) (name : list Z) : Z := find_field (fields s) name 0.

(** The page-view schema of docs/architecture.md. *)
Definition page_view_defs : list wadb_field_def :=
  [FieldDef (cstr "site_id") WADB_U32 0 false; FieldDef (cstr "visitor_id") WADB_BYTES 16 false;
   FieldDef (cstr "path") WADB_SYMBOL32 0 false; FieldDef (cstr "referrer") WADB_SYMBOL32 0 false;
   FieldDef (cstr "duration_ms") WADB_U32 0 false; FieldDef (cstr "status") WADB_U16 0 false;
   FieldDef (cstr "country") WADB_BYTES 2 false; FieldDef (cstr "device") WADB_U8 0 false;
   FieldDef (cstr "flags") WADB_U8 0 false].

Example page_view_width :
  row_width <$> wadb_schema_build page_view_defs = Ok 48.
Proof. vm_compute. reflexivity. Qed.

(** ** The invariant of a compiled schema *)

Definition known_type (t : wadb_type) : bool :=
  match t with WADB_TYPE_OTHER _ => false | _ => true end.
Definition valid_def (d : wadb_field_def) : Prop :=
  wadb_identifier (def_name d) = true ∧ def_name d ≠ TIME_NAME ∧
  (if sized_type (def_type d) then 0 < def_size d ≤ WADB_MAX_ROW_BYTES else def_size d = 0) ∧
  known_type (def_type d) = true.
#[global] Instance valid_def_dec d : Decision (valid_def d).
Proof. unfold valid_def. destruct (sized_type (def_type d)); apply _. Defined.

Definition def_width (d : wadb_field_def) : Z := type_width (def_type d) (def_size d).
Definition def_of (f : wadb_field) : wadb_field_def :=
  FieldDef (f_name f) (f_type f) (f_size f) (f_nullable f).
Definition nullables (defs : list wadb_field_def) : Z :=
  foldr Z.add 0 (map (λ d, Z.b2z (def_nullable d)) defs).
Definition widths (defs : list wadb_field_def) : Z := foldr Z.add 0 (map def_width defs).

(** Fields laid out from byte [o] and null bit [b], ending at [o'] and [b']. *)
Inductive packed : Z → Z → list wadb_field → Z → Z → Prop :=
  | packed_nil o b : packed o b [] o b
  | packed_cons o b f fs o' b' :
      valid_def (def_of f) →
      f_width f = type_width (f_type f) (f_size f) →
      f_offset f = o →
      f_null_bit f = (if f_nullable f then b else UINT32_MAX) →
      packed (o + f_width f) (b + Z.b2z (f_nullable f)) fs o' b' →
      packed o b (f :: fs) o' b'.

Record schema_ok (s : wadb_schema) (fs : list wadb_field) (end_ nulls : Z) : Prop := {
  ok_fields : fields s = time_field :: fs;
  ok_count : zlen fs < WADB_MAX_FIELDS;
  ok_names : NoDup (map f_name fs);
  ok_packed : packed (8 + null_bytes s) 0 fs end_ nulls;
  ok_null_bytes : null_bytes s = (nulls + 7) / 8;
  ok_end : end_ ≤ WADB_MAX_ROW_BYTES;
  ok_width : row_width s = 8 * ((end_ + 7) / 8);
  ok_fingerprint : fingerprint s = fold_left hash_field (fields s) FNV_BASIS;
}.
(** What every client of a schema may rely on. *)
Definition schema_wf (s : wadb_schema) : Prop := ∃ fs end_ nulls, schema_ok s fs end_ nulls.

(** ** Layout *)

Lemma type_width_pos t size :
  known_type t = true →
  (if sized_type t then 0 < size ≤ WADB_MAX_ROW_BYTES else size = 0) →
  0 < type_width t size ≤ WADB_MAX_ROW_BYTES + 4.
Proof.
  unfold WADB_MAX_ROW_BYTES. intros Ht Hs. destruct t; cbn in *; try lia; try done.
  rewrite u32_id by mlia. lia.
Qed.
Lemma valid_def_width d : valid_def d → 0 < def_width d ≤ WADB_MAX_ROW_BYTES + 4.
Proof. intros (_&_&Hs&Ht). by apply type_width_pos. Qed.

Lemma nullables_cons d defs : nullables (d :: defs) = Z.b2z (def_nullable d) + nullables defs.
Proof. done. Qed.
Lemma widths_cons d defs : widths (d :: defs) = def_width d + widths defs.
Proof. done. Qed.
Lemma nullables_range defs : 0 ≤ nullables defs ≤ zlen defs.
Proof.
  induction defs as [|d defs IH]; [done|]. rewrite nullables_cons, zlen_cons.
  destruct (def_nullable d); cbn [Z.b2z]; lia.
Qed.
Lemma widths_nonneg defs : Forall valid_def defs → 0 ≤ widths defs.
Proof.
  induction 1 as [|d defs Hd _ IH]; [done|]. rewrite widths_cons.
  apply valid_def_width in Hd. lia.
Qed.

(** The checks of one definition are exactly validity and freshness of the name. *)
Lemma check_def_spec seen d :
  is_u32 (def_size d) →
  check_def seen d =
    if decide (valid_def d ∧ def_name d ∉ map def_name seen) then Ok () else Err WADB_INVALID.
Proof.
  intros Hu. apply if_decide_intro. unfold check_def, valid_def, bytes_eqb.
  destruct (wadb_identifier (def_name d)) eqn:Hi; cbn [negb orb]; [|naive_solver].
  destruct (bool_decide_reflect (def_name d = TIME_NAME)) as [Ht|Ht]; [naive_solver|].
  assert (Hex : existsb (λ e, bool_decide (def_name d = def_name e)) seen = true ↔
                def_name d ∈ map def_name seen).
  { rewrite existsb_exists. setoid_rewrite bool_decide_eq_true.
    setoid_rewrite <-list_elem_of_In. split; [intros (e&?&->); by apply list_elem_of_fmap_2|].
    intros (e&?&?)%list_elem_of_fmap. eauto. }
  destruct (existsb _ seen); [naive_solver|].
  assert (Hfresh : def_name d ∉ map def_name seen) by (intros H; by apply Hex in H).
  clear Hex. pose proof (type_width_pos (def_type d) (def_size d)) as Hw.
  unfold WADB_MAX_ROW_BYTES, is_u32, UINT32_MAX in *.
  destruct (sized_type (def_type d)) eqn:Hs, (known_type (def_type d)) eqn:Hk; cbn [andb orb negb].
  - destruct (Z.eqb_spec (def_size d) 0), (Z.gtb_spec (def_size d) 16384); cbn [orb]; try (split; [lia|done]).
    destruct (Z.eqb_spec (type_width (def_type d) (def_size d)) 0); [lia|].
    split; [done|]. intros []. split_and!; done || lia.
  - by destruct (def_type d).
  - destruct (Z.eqb_spec (def_size d) 0); cbn [negb]; [|naive_solver].
    destruct (Z.eqb_spec (type_width (def_type d) (def_size d)) 0); [lia|]. naive_solver.
  - destruct (def_type d); try done. cbn. destruct (negb _); naive_solver.
Qed.

(** The validation loop accepts exactly lists of valid definitions with distinct names. *)
Lemma check_defs_spec seen defs n :
  Forall (λ d, is_u32 (def_size d)) defs →
  check_defs seen defs n =
    if decide (Forall valid_def defs ∧ NoDup (map def_name defs) ∧
               Forall (λ d, def_name d ∉ map def_name seen) defs)
    then Ok (n + nullables defs) else Err WADB_INVALID.
Proof.
  intros Hu. revert seen n. induction Hu as [|d defs Hd Hu IH]; intros seen n.
  { cbn. rewrite decide_True by (split_and!; constructor). f_equal. unfold nullables. cbn. lia. }
  apply if_decide_intro. cbn [check_defs]. rewrite check_def_spec by done.
  rewrite !Forall_cons. cbn [map]. rewrite NoDup_cons.
  destruct (decide (valid_def d ∧ _)) as [[Hv Hf]|Hn]; cbn [mbind result_bind]; [|naive_solver].
  rewrite IH, nullables_cons.
  assert (Hiff : (Forall (λ d', def_name d' ∉ map def_name (seen ++ [d])) defs) ↔
                 (def_name d ∉ map def_name defs) ∧
                 Forall (λ d', def_name d' ∉ map def_name seen) defs).
  { rewrite !Forall_forall, list_elem_of_fmap. setoid_rewrite map_app.
    setoid_rewrite elem_of_app. cbn [map]. setoid_rewrite list_elem_of_singleton. naive_solver. }
  rewrite Z.add_assoc. case_decide; naive_solver.
Qed.

(** The layout loop packs the fields when they fit and reports the limit otherwise. *)
Lemma layout_fields_ok defs o b fs o' :
  Forall valid_def defs → 0 ≤ o ≤ WADB_MAX_ROW_BYTES →
  layout_fields defs o b = Ok (fs, o') →
  map def_of fs = defs ∧ packed o b fs o' (b + nullables defs) ∧
  o' = o + widths defs ∧ o' ≤ WADB_MAX_ROW_BYTES.
Proof.
  intros Hv. revert o b fs o'. induction Hv as [|d defs Hd Hv IH]; intros o b fs o' Ho;
    cbn [layout_fields].
  { intros [= <- <-]. unfold nullables, widths. cbn. rewrite !Z.add_0_r.
    split_and!; [done|constructor|lia..]. }
  pose proof (valid_def_width d Hd) as Hw. change (type_width _ _) with (def_width d).
  unfold WADB_MAX_ROW_BYTES in *. rewrite (u32_id (_ - o)) by mlia.
  destruct (Z.gtb_spec (def_width d) (16384 - o)); [done|]. rewrite u32_id by mlia.
  destruct (layout_fields defs _ _) as [[fs' final]|] eqn:Hl; cbn [mbind result_bind]; [|done]. intros [= <- <-].
  apply IH in Hl as (Hm&Hp&He&Hle); [|lia]. rewrite nullables_cons, widths_cons.
  split_and!; [cbn; rewrite Hm; by destruct d| |lia..].
  constructor; cbn; try done. by rewrite (Z.add_assoc b).
Qed.
Lemma layout_fields_err defs o b :
  Forall valid_def defs → 0 ≤ o ≤ WADB_MAX_ROW_BYTES →
  match layout_fields defs o b with
  | Ok _ => o + widths defs ≤ WADB_MAX_ROW_BYTES
  | Err e => e = WADB_LIMIT ∧ WADB_MAX_ROW_BYTES < o + widths defs
  end.
Proof.
  intros Hv. revert o b. induction Hv as [|d defs Hd Hv IH]; intros o b Ho;
    cbn [layout_fields].
  { unfold widths. cbn. lia. }
  pose proof (valid_def_width d Hd) as Hw. pose proof (widths_nonneg defs Hv).
  change (type_width _ _) with (def_width d). rewrite widths_cons.
  unfold WADB_MAX_ROW_BYTES in *. rewrite (u32_id (_ - o)) by mlia.
  destruct (Z.gtb_spec (def_width d) (16384 - o)); [split; [done|lia]|]. rewrite u32_id by mlia.
  specialize (IH (o + def_width d) (b + Z.b2z (def_nullable d)) ltac:(lia)).
  revert IH. destruct (layout_fields defs _ _) as [[fs' final]|]; cbn [mbind result_bind];
    [lia|intros [-> ?]; split; [done|lia]].
Qed.

Lemma round8_spec n : 0 ≤ n ≤ WADB_MAX_ROW_BYTES → round8 n = 8 * ((n + 7) / 8).
Proof.
  unfold WADB_MAX_ROW_BYTES, round8. intros. rewrite u32_id by mlia.
  change (UINT32_MAX - 7) with (Z.shiftl (Z.ones 29) 3). apply (round_down8 _ 29); lia.
Qed.

(** ** What a compiled schema guarantees *)

Lemma packed_valid_width o b fs o' b' f :
  packed o b fs o' b' → f ∈ fs → valid_def (def_of f) ∧
  f_width f = type_width (f_type f) (f_size f) ∧ 0 < f_width f ≤ WADB_MAX_ROW_BYTES + 4.
Proof.
  induction 1 as [|? ? g l ? ? Hv Hw _ _ _ IH]; [by intros ?%elem_of_nil|].
  intros [->|?]%elem_of_cons; [|auto]. split_and!; [done|done|rewrite Hw; apply (valid_def_width _ Hv)..].
Qed.
Lemma packed_mono o b fs o' b' : packed o b fs o' b' → o ≤ o' ∧ b ≤ b' ≤ b + zlen fs.
Proof.
  induction 1 as [|? ? f l ? ? Hv Hw _ _ _ IH]; [rewrite zlen_nil; lia|].
  rewrite zlen_cons. apply valid_def_width in Hv. unfold def_width in Hv. cbn in Hv.
  destruct (f_nullable f); cbn [Z.b2z] in *; lia.
Qed.
(** A field lies between the ends of the layout... *)
Lemma packed_bounds o b fs o' b' f :
  packed o b fs o' b' → f ∈ fs →
  o ≤ f_offset f ∧ f_offset f + f_width f ≤ o' ∧
  f_null_bit f = (if f_nullable f then f_null_bit f else UINT32_MAX) ∧
  (f_nullable f = true → b ≤ f_null_bit f < b').
Proof.
  intros Hp. induction Hp as [|? ? g l ? ? Hv Hw Ho Hb Hp IH]; [by intros ?%elem_of_nil|].
  pose proof (packed_mono _ _ _ _ _ Hp) as [? ?]. apply valid_def_width in Hv.
  unfold def_width in Hv. cbn in Hv.
  intros [->|Hin]%elem_of_cons.
  - rewrite Hb, Ho. destruct (f_nullable g); cbn [Z.b2z] in *; split_and!; try done; lia.
  - destruct (IH Hin) as (?&?&?&Hn). split_and!; [lia..|done|]. intros Hf. specialize (Hn Hf).
    destruct (f_nullable g); cbn [Z.b2z] in *; lia.
Qed.
(** ... and two fields are in order, bytes and null bits. *)
Lemma packed_ordered o b fs o' b' i j f g :
  packed o b fs o' b' → fs !! i = Some f → fs !! j = Some g → (i < j)%nat →
  f_offset f + f_width f ≤ f_offset g ∧
  (f_nullable f = true → f_nullable g = true → f_null_bit f < f_null_bit g).
Proof.
  intros Hp. revert i j. induction Hp as [|? ? h l ? ? Hv Hw Ho Hb Hp IH]; intros i j; [done|].
  destruct j as [|j]; [lia|]. destruct i as [|i]; cbn; [|intros; eapply IH; eauto; lia].
  intros [= ->] Hg _. apply list_elem_of_lookup_2 in Hg.
  destruct (packed_bounds _ _ _ _ _ _ Hp Hg) as (?&?&_&Hn).
  split; [lia|]. intros Hf Hg'. specialize (Hn Hg'). rewrite Hf in *. cbn [Z.b2z] in Hn. lia.
Qed.

Lemma check_then_layout defs s :
  Forall (λ d, is_u32 (def_size d)) defs → wadb_schema_build defs = Ok s →
  ∃ fs, map def_of fs = defs ∧
    schema_ok s fs (8 + null_bytes s + widths defs) (nullables defs).
Proof.
  intros Hu. unfold wadb_schema_build. destruct (Z.geb_spec (zlen defs) WADB_MAX_FIELDS); [done|].
  rewrite check_defs_spec by done. case_decide as Hd; [|done]. destruct Hd as (Hv&Hn&_).
  cbn [mbind result_bind]. pose proof (nullables_range defs). rewrite Z.add_0_l.
  unfold WADB_MAX_FIELDS in *.
  assert (0 ≤ 8 + (nullables defs + 7) / 8 ≤ WADB_MAX_ROW_BYTES) by (unfold WADB_MAX_ROW_BYTES; mlia).
  destruct (layout_fields _ _ _) as [[fs o']|] eqn:Hl; cbn [mbind result_bind]; [|done].
  intros [= <-]. apply layout_fields_ok in Hl as (Hm&Hp&He&Hle); [|done..].
  exists fs. split; [done|]. rewrite Z.add_0_l in Hp. pose proof (packed_mono _ _ _ _ _ Hp) as [? _].
  assert (zlen fs = zlen defs) by (rewrite <-Hm; by rewrite zlen_map).
  split; cbn; try done; [unfold WADB_MAX_FIELDS; lia| | | |].
  - rewrite <-Hm in Hn. by rewrite map_map in Hn.
  - by rewrite He in Hp.
  - lia.
  - rewrite round8_spec by lia. by rewrite He.
Qed.

(** C32: Building a schema from any definitions either succeeds with a layout in
    which the user fields keep their definitions and order, have distinct names,
    occupy disjoint increasing byte ranges after the time stamp and the null
    bitmap, inside a row of at most 16384 bytes that is padded to a multiple of
    eight by fewer than eight bytes, and have increasing null bits inside the
    bitmap. *)
Theorem schema_build_layout defs s :
  Forall (λ d, is_u32 (def_size d)) defs → wadb_schema_build defs = Ok s →
  ∃ fs, fields s = time_field :: fs ∧ map def_of fs = defs ∧ NoDup (map f_name fs) ∧
    row_width s `mod` 8 = 0 ∧ 8 ≤ row_width s ≤ WADB_MAX_ROW_BYTES ∧
    row_width s < 8 + null_bytes s + widths defs + 8 ∧
    (∀ f, f ∈ fs → 8 + null_bytes s ≤ f_offset f ∧ f_offset f + f_width f ≤ row_width s ∧
                   f_width f = def_width (def_of f) ∧
                   if f_nullable f then 0 ≤ f_null_bit f < 8 * null_bytes s
                   else f_null_bit f = UINT32_MAX) ∧
    (∀ i j f g, fs !! i = Some f → fs !! j = Some g → (i < j)%nat →
       f_offset f + f_width f ≤ f_offset g ∧
       (f_nullable f = true → f_nullable g = true → f_null_bit f < f_null_bit g)).
Proof.
  intros Hu Hs. apply check_then_layout in Hs as (fs&Hm&[Hf _ Hn Hp Hb He Hw _]); [|done].
  exists fs. pose proof (packed_mono _ _ _ _ _ Hp). pose proof (nullables_range defs).
  unfold WADB_MAX_ROW_BYTES in *. split_and!; try done; try mlia.
  - intros f Hin. destruct (packed_bounds _ _ _ _ _ _ Hp Hin) as (?&?&Hb1&Hb2).
    destruct (packed_valid_width _ _ _ _ _ _ Hp Hin) as (_&?&_).
    split_and!; [lia|mlia|done|]. destruct (f_nullable f); [specialize (Hb2 eq_refl); mlia|done].
  - intros. eapply packed_ordered; eauto.
Qed.
Lemma schema_build_layout_witness :
  ∃ s fs, wadb_schema_build page_view_defs = Ok s ∧ fields s = time_field :: fs ∧
    row_width s `mod` 8 = 0 ∧ map def_of fs = page_view_defs.
Proof.
  destruct (wadb_schema_build page_view_defs) as [s|] eqn:Hs; [|vm_compute in Hs; congruence].
  destruct (schema_build_layout page_view_defs s) as (fs&Hf&Hm&_&Hw&_); [|exact Hs|].
  - repeat constructor; vm_compute; congruence.
  - exists s, fs. auto.
Defined.

(** A schema is built exactly when there are at most 255 definitions, each
    one valid and none repeating a name, and the row fits; definitions that are
    valid but do not fit are the only ones reported as a limit, and everything
    else is reported as invalid. *)
Theorem schema_build_status defs :
  Forall (λ d, is_u32 (def_size d)) defs →
  status_of (wadb_schema_build defs) =
    if decide (zlen defs < WADB_MAX_FIELDS ∧ Forall valid_def defs ∧ NoDup (map def_name defs))
    then if decide (8 + (nullables defs + 7) / 8 + widths defs ≤ WADB_MAX_ROW_BYTES)
         then WADB_OK else WADB_LIMIT
    else WADB_INVALID.
Proof.
  intros Hu. apply if_decide_intro. unfold wadb_schema_build.
  destruct (Z.geb_spec (zlen defs) WADB_MAX_FIELDS); [split; [lia|done]|].
  rewrite check_defs_spec by done.
  destruct (decide _) as [(Hv&Hn&Hs)|Hn]; cbn [mbind result_bind].
  2: { split; [|done]. intros (?&?&?). destruct Hn. split_and!; try done.
       apply Forall_forall. intros ? _. apply not_elem_of_nil. }
  split; [|naive_solver]. intros _. rewrite Z.add_0_l. pose proof (nullables_range defs).
  assert (0 ≤ 8 + (nullables defs + 7) / 8 ≤ WADB_MAX_ROW_BYTES)
    by (unfold WADB_MAX_ROW_BYTES, WADB_MAX_FIELDS in *; mlia).
  pose proof (layout_fields_err defs (8 + (nullables defs + 7) / 8) 0 Hv ltac:(done)) as Hl.
  destruct (layout_fields _ _ _) as [[fs o']|e]; cbn [mbind result_bind]; case_decide; cbn;
    naive_solver lia.
Qed.
Lemma schema_build_status_witness :
  status_of (wadb_schema_build [FieldDef (cstr "a") WADB_BYTES 16000 false;
                                FieldDef (cstr "b") WADB_TEXT 373 true]) = WADB_LIMIT.
Proof.
  rewrite schema_build_status; [vm_compute; reflexivity|].
  repeat constructor; vm_compute; congruence.
Defined.

(** ** Looking up a field by name *)

Lemma find_field_spec fs name i :
  0 ≤ i →
  (find_field fs name i = -1 ∧ name ∉ map f_name fs) ∨
  (∃ k f, find_field fs name i = i + Z.of_nat k ∧ fs !! k = Some f ∧ f_name f = name ∧
          ∀ j g, (j < k)%nat → fs !! j = Some g → f_name g ≠ name).
Proof.
  revert i. induction fs as [|f fs IH]; intros i Hi; cbn [find_field map].
  { left. split; [done|]. apply not_elem_of_nil. }
  unfold bytes_eqb at 1 2. case_bool_decide as Hf.
  { right. exists 0%nat, f. split_and!; [lia|done|done|]. intros j g Hj. lia. }
  destruct (IH (i + 1)) as [[-> Hn]|(k&g&->&?&?&Hlt)]; [lia| |].
  - left. split; [done|]. rewrite not_elem_of_cons. naive_solver.
  - right. exists (S k), g. split_and!; [lia|done..|].
    intros [|j] h Hj; cbn; [naive_solver|]. intros. apply (Hlt j h); [lia|done].
Qed.

(** Every field of a compiled schema is found under its own name, the time stamp
    included. *)
Lemma schema_find_field s fs e n k f :
  schema_ok s fs e n → fields s !! k = Some f → wadb_schema_find s (f_name f) = Z.of_nat k.
Proof.
  intros Hok Hk. unfold wadb_schema_find.
  assert (Hnd : NoDup (map f_name (fields s))).
  { rewrite (ok_fields _ _ _ _ Hok). cbn [map]. apply NoDup_cons. split; [|apply Hok].
    intros (g&Hg&Hin)%list_elem_of_fmap.
    apply (packed_valid_width _ _ _ _ _ _ (ok_packed _ _ _ _ Hok)) in Hin as ((_&Hne&_)&_).
    by destruct Hne. }
  destruct (find_field_spec (fields s) (f_name f) 0) as [[_ Hn]|(j&g&->&Hj&Hg&_)]; [done| |].
  - destruct Hn. apply list_elem_of_fmap_2. by eapply list_elem_of_lookup_2.
  - rewrite Z.add_0_l. f_equal. eapply NoDup_lookup; [exact Hnd| |]; rewrite list_lookup_fmap.
    + by rewrite Hj.
    + rewrite Hk. cbn. by rewrite Hg.
Qed.
