(* ===== verification/Format.v ===== *)
(** * Segment headers and frames (src/storage/format.c)

    The 128-byte header of a segment file and the self-describing, checksummed
    frame in which a batch of rows is committed. A pointer member of [wadb_frame]
    is the bytes it delimits; [wadb_frame_inspect] leaves both empty. *)

From Stdlib Require Import String.
From stdpp Require Import base numbers list list_numbers.
From S2P Require Import Prelude Encoding Utf8 Checksum Schema.

Definition WADB_SEGMENT_HEADER_BYTES : Z := 128.
Definition WADB_FRAME_HEADER_BYTES : Z := 80.
Definition WADB_FRAME_TRAILER_BYTES : Z := 16.
Definition WADB_FORMAT_VERSION : Z := 1.
Definition WADB_DAY_US : Z := 86400000000.

(** ** Segment headers *)

Record wadb_segment_header := SegmentHeader {
  h_table_id : Z;
  h_segment_id : Z;
  h_schema_hash : Z;
  h_row_width : Z;
  h_day_start : Z;
  h_first_sequence : Z;
}.

Definition SEGMENT_MAGIC : list Z := cstr "WADBSEG1".

Definition wadb_segment_encode (h : wadb_segment_header) : result (list Z) :=
  if (h_table_id h =? 0) || (h_segment_id h =? 0) || (h_first_sequence h =? 0) ||
     (h_row_width h =? 0) || (h_row_width h >? WADB_MAX_ROW_BYTES) ||
     negb (h_row_width h `mod` 8 =? 0) ||
     (h_day_start h <? 0) || negb (Z.rem (h_day_start h) WADB_DAY_US =? 0)
  then Err WADB_INVALID
  else
    let out := zrep WADB_SEGMENT_HEADER_BYTES 0 in
    let out := put out 0 SEGMENT_MAGIC in
    let out := wadb_put_u32 out 8 WADB_FORMAT_VERSION in
    let out := wadb_put_u32 out 12 WADB_SEGMENT_HEADER_BYTES in
    let out := wadb_put_u64 out 16 (h_table_id h) in
    let out := wadb_put_u64 out 24 (h_segment_id h) in
    let out := wadb_put_u64 out 32 (h_schema_hash h) in
    let out := wadb_put_u32 out 40 (h_row_width h) in
    let out := wadb_put_u64 out 48 (u64 (h_day_start h)) in
    let out := wadb_put_u64 out 56 (h_first_sequence h) in
    Ok (wadb_put_u32 out 124 (wadb_crc32c (sub out 0 124))).

Definition wadb_segment_decode (p : list Z) : result wadb_segment_header :=
  if negb (zlen p =? WADB_SEGMENT_HEADER_BYTES) || negb (bytes_eqb (sub p 0 8) SEGMENT_MAGIC)
  then Err WADB_CORRUPT
  else if negb (wadb_crc32c (sub p 0 124) =? wadb_get_u32 p 124) then Err WADB_CORRUPT
  else if negb (wadb_get_u32 p 8 =? WADB_FORMAT_VERSION) then Err WADB_VERSION
  else if negb (wadb_get_u32 p 12 =? WADB_SEGMENT_HEADER_BYTES) || negb (zeroes p 44 4) ||
          negb (zeroes p 64 60) then Err WADB_CORRUPT
  else
    let h := SegmentHeader (wadb_get_u64 p 16) (wadb_get_u64 p 24) (wadb_get_u64 p 32)
               (wadb_get_u32 p 40) (wadb_get_i64 p 48) (wadb_get_u64 p 56) in
    match wadb_segment_encode h with
    | Err _ => Err WADB_CORRUPT
    | Ok _ => Ok h
    end.

(** ** Frames *)

Record wadb_frame := Frame {
  fr_schema_hash : Z;
  fr_first_sequence : Z;
  fr_min_time : Z;
  fr_max_time : Z;
  fr_row_count : Z;
  fr_row_width : Z;
  fr_dictionary_count : Z;
  fr_dictionary_bytes : Z;
  fr_dictionary : list Z;
  fr_rows : list Z;
  fr_frame_bytes : Z;
  fr_rows_offset : Z;
}.

(** The sizes of the row area and of the frame, when its numbers are coherent. *)
Definition frame_sizes (f : wadb_frame) : option (Z * Z) :=
  if (fr_row_count f =? 0) || (fr_row_width f =? 0) || (fr_row_width f >? WADB_MAX_ROW_BYTES) ||
     negb (fr_row_width f `mod` 8 =? 0) || (fr_first_sequence f =? 0) ||
     (u32 (fr_row_count f - 1) >? UINT64_MAX - fr_first_sequence f) ||
     (fr_min_time f <? 0) || (fr_max_time f <? fr_min_time f) ||
     negb (Z.quot (fr_min_time f) WADB_DAY_US =? Z.quot (fr_max_time f) WADB_DAY_US) ||
     negb (fr_dictionary_bytes f `mod` 8 =? 0) || (fr_dictionary_bytes f >? WADB_MAX_FRAME_BYTES) ||
     (fr_dictionary_count f >? fr_dictionary_bytes f / 12) ||
     ((fr_dictionary_count f =? 0) && negb (fr_dictionary_bytes f =? 0))
  then None
  else
    row_bytes ← wadb_mul_size (fr_row_count f) (fr_row_width f);
    total ← wadb_add_size row_bytes (fr_dictionary_bytes f);
    total ← wadb_add_size total (WADB_FRAME_HEADER_BYTES + WADB_FRAME_TRAILER_BYTES);
    if total <=? WADB_MAX_FRAME_BYTES then Some (row_bytes, total) else None.

(** The loop of [dictionary_valid]: the offset after [n] symbol definitions. *)
Fixpoint dictionary_loop (n : nat) (dict : list Z) (size offset : Z) : option Z :=
  match n with
  | O => Some offset
  | S n' =>
      if size - offset <? 12 then None
      else
        let length := wadb_get_u32 dict (offset + 8) in
        if (wadb_get_u16 dict offset =? 0) || (wadb_get_u16 dict offset >=? WADB_MAX_FIELDS) ||
           negb (wadb_get_u16 dict (offset + 2) =? 0) || (wadb_get_u32 dict (offset + 4) =? 0) ||
           (length >? WADB_MAX_STRING_BYTES) || (length >? size - offset - 12) ||
           negb (wadb_utf8 (sub dict (offset + 12) length))
        then None
        else dictionary_loop n' dict size (offset + (12 + length))
  end.
Definition dictionary_valid (f : wadb_frame) : bool :=
  match dictionary_loop (Z.to_nat (fr_dictionary_count f)) (fr_dictionary f) (fr_dictionary_bytes f) 0 with
  | None => false
  | Some offset =>
      (fr_dictionary_bytes f - offset <? 8) &&
      ((fr_dictionary_bytes f =? 0) ||
       zeroes (fr_dictionary f) offset (fr_dictionary_bytes f - offset))
  end.

(** The loop of [times_valid] from row [i] on. *)
Fixpoint times_loop (n : nat) (f : wadb_frame) (i previous : Z) : bool :=
  match n with
  | O => previous =? fr_max_time f
  | S n' =>
      let time := wadb_get_i64 (fr_rows f) (i * fr_row_width f) in
      if (time <? previous) || (time >? fr_max_time f) ||
         ((i =? 0) && negb (time =? fr_min_time f))
      then false
      else times_loop n' f (i + 1) time
  end.
Definition times_valid (f : wadb_frame) : bool :=
  times_loop (Z.to_nat (fr_row_count f)) f 0 (fr_min_time f).

Definition FRAME_MAGIC : list Z := cstr "WADBBAT1".
Definition FRAME_END : list Z := cstr "WADBEND1".

(** [alloc] is the outcome of [calloc]. *)
Definition wadb_frame_encode (alloc : bool) (f : wadb_frame) : result (list Z) :=
  match frame_sizes f with
  | None => Err WADB_INVALID
  | Some (_, total) =>
      if negb (dictionary_valid f) || negb (times_valid f) then Err WADB_INVALID
      else if negb alloc then Err WADB_NOMEM
      else
        let p := zrep total 0 in
        let p := put p 0 FRAME_MAGIC in
        let p := wadb_put_u32 p 8 (u32 total) in
        let p := wadb_put_u32 p 12 WADB_FRAME_HEADER_BYTES in
        let p := wadb_put_u32 p 16 (fr_row_count f) in
        let p := wadb_put_u32 p 20 (fr_row_width f) in
        let p := wadb_put_u64 p 24 (fr_first_sequence f) in
        let p := wadb_put_u64 p 32 (u64 (fr_min_time f)) in
        let p := wadb_put_u64 p 40 (u64 (fr_max_time f)) in
        let p := wadb_put_u32 p 48 (fr_dictionary_bytes f) in
        let p := wadb_put_u32 p 52 (fr_dictionary_count f) in
        let p := wadb_put_u32 p 56 (u32 (WADB_FRAME_HEADER_BYTES + fr_dictionary_bytes f)) in
        let p := wadb_put_u64 p 64 (fr_schema_hash f) in
        let p := wadb_put_u32 p 72 (wadb_crc32c (sub p 0 72)) in
        let p := put p WADB_FRAME_HEADER_BYTES (fr_dictionary f) in
        let p := put p (WADB_FRAME_HEADER_BYTES + fr_dictionary_bytes f) (fr_rows f) in
        let p := put p (total - WADB_FRAME_TRAILER_BYTES) FRAME_END in
        let p := wadb_put_u32 p (total - 8) (u32 total) in
        Ok (wadb_put_u32 p (total - 4) (wadb_crc32c (sub p 0 (total - 4))))
  end.

Definition wadb_frame_inspect (p : list Z) : result wadb_frame :=
  if (zlen p <? WADB_FRAME_HEADER_BYTES) || negb (bytes_eqb (sub p 0 8) FRAME_MAGIC) ||
     negb (wadb_get_u32 p 12 =? WADB_FRAME_HEADER_BYTES) ||
     negb (wadb_crc32c (sub p 0 72) =? wadb_get_u32 p 72) ||
     negb (zeroes p 60 4) || negb (zeroes p 76 4)
  then Err WADB_CORRUPT
  else
    let f := Frame (wadb_get_u64 p 64) (wadb_get_u64 p 24) (wadb_get_i64 p 32) (wadb_get_i64 p 40)
               (wadb_get_u32 p 16) (wadb_get_u32 p 20) (wadb_get_u32 p 52) (wadb_get_u32 p 48)
               [] [] (wadb_get_u32 p 8) (wadb_get_u32 p 56) in
    match frame_sizes f with
    | None => Err WADB_CORRUPT
    | Some (_, total) =>
        if negb (total =? fr_frame_bytes f) ||
           negb (fr_rows_offset f =? WADB_FRAME_HEADER_BYTES + fr_dictionary_bytes f)
        then Err WADB_CORRUPT else Ok f
    end.

(** Setting the two pointers of a frame. *)
Definition with_body (f : wadb_frame) (dict rows : list Z) : wadb_frame :=
  Frame (fr_schema_hash f) (fr_first_sequence f) (fr_min_time f) (fr_max_time f) (fr_row_count f)
    (fr_row_width f) (fr_dictionary_count f) (fr_dictionary_bytes f) dict rows
    (fr_frame_bytes f) (fr_rows_offset f).

Definition wadb_frame_decode (p : list Z) : result wadb_frame :=
  let n := zlen p in
  f ← wadb_frame_inspect p;
  if negb (n =? fr_frame_bytes f) ||
     negb (bytes_eqb (sub p (n - WADB_FRAME_TRAILER_BYTES) 8) FRAME_END) ||
     negb (wadb_get_u32 p (n - 8) =? n) ||
     negb (wadb_crc32c (sub p 0 (n - 4)) =? wadb_get_u32 p (n - 4))
  then Err WADB_CORRUPT
  else
    let f := with_body f (sub p WADB_FRAME_HEADER_BYTES (fr_dictionary_bytes f))
               (sub p (fr_rows_offset f) (fr_row_count f * fr_row_width f)) in
    if negb (dictionary_valid f) || negb (times_valid f) then Err WADB_CORRUPT else Ok f.

(** ** The byte layout of a segment header *)

Definition header_valid (h : wadb_segment_header) : Prop :=
  h_table_id h ≠ 0 ∧ h_segment_id h ≠ 0 ∧ h_first_sequence h ≠ 0 ∧
  0 < h_row_width h ≤ WADB_MAX_ROW_BYTES ∧ h_row_width h `mod` 8 = 0 ∧
  0 ≤ h_day_start h ∧ h_day_start h `mod` WADB_DAY_US = 0.
(** The members are within the width of their C types. *)
Definition header_ranges (h : wadb_segment_header) : Prop :=
  is_u64 (h_table_id h) ∧ is_u64 (h_segment_id h) ∧ is_u64 (h_schema_hash h) ∧
  is_u32 (h_row_width h) ∧ is_i64 (h_day_start h) ∧ is_u64 (h_first_sequence h).

Definition segment_body (h : wadb_segment_header) : list Z :=
  SEGMENT_MAGIC ++ le_split 4 WADB_FORMAT_VERSION ++ le_split 4 WADB_SEGMENT_HEADER_BYTES ++
  le_split 8 (h_table_id h) ++ le_split 8 (h_segment_id h) ++ le_split 8 (h_schema_hash h) ++
  le_split 4 (h_row_width h) ++ zrep 4 0 ++ le_split 8 (u64 (h_day_start h)) ++
  le_split 8 (h_first_sequence h) ++ zrep 60 0.
Definition segment_image (h : wadb_segment_header) : list Z :=
  segment_body h ++ le_split 4 (wadb_crc32c (segment_body h)).

Lemma zlen_segment_body h : zlen (segment_body h) = 124.
Proof. done. Qed.
Lemma bytes_segment_body h : bytes (segment_body h).
Proof. unfold segment_body. repeat apply bytes_app; unfold SEGMENT_MAGIC; auto with wadb; apply bytes_zrep; done. Qed.

Lemma segment_encode_iff h p :
  header_ranges h → wadb_segment_encode h = Ok p ↔ header_valid h ∧ p = segment_image h.
Proof.
  intros (?&?&?&?&?&?). unfold wadb_segment_encode, header_valid, WADB_MAX_ROW_BYTES, WADB_DAY_US.
  destruct (_ || _) eqn:Hc; [split; [done|]; intros [? _]; qlia|].
  rewrite !put_u32_spec, !put_u64_spec by lia.
  set (out := put _ 56 _). assert (Hout : out = segment_body h ++ zrep 4 0) by reflexivity.
  rewrite Hout, sub_app_l, sub_all, put_app_r, put_all by (rewrite ?zlen_segment_body; done || lia).
  split; [|by intros [_ ->]]. intros [= <-]. split; [|done]. qlia.
Qed.

(** The cut of a buffer into consecutive pieces. *)
Fixpoint pieces (p : list Z) (o : Z) (ns : list Z) : list Z :=
  match ns with [] => [] | n :: ns' => sub p o n ++ pieces p (o + n) ns' end.
Lemma pieces_all p o ns :
  0 ≤ o → Forall (λ n, 0 ≤ n) ns → pieces p o ns = sub p o (foldr Z.add 0 ns).
Proof.
  intros Ho Hns. revert o Ho. induction Hns as [|n ns Hn Hns IH]; intros o Ho; [done|].
  cbn [pieces foldr]. rewrite IH by lia. rewrite sub_app; [done|lia|lia|].
  clear -Hns. induction Hns; cbn; lia.
Qed.

Lemma segment_decode_iff p h :
  bytes p → wadb_segment_decode p = Ok h ↔ header_ranges h ∧ wadb_segment_encode h = Ok p.
Proof.
  intros Hp. split.
  - unfold wadb_segment_decode. destruct (Z.eqb_spec (zlen p) WADB_SEGMENT_HEADER_BYTES) as [Hl|]; [|done].
    unfold WADB_SEGMENT_HEADER_BYTES in Hl. cbn [negb orb].
    destruct (bytes_eqb _ _) eqn:Hm; [|done]. apply bool_decide_eq_true in Hm. cbn [negb].
    destruct (Z.eqb_spec (wadb_crc32c (sub p 0 124)) (wadb_get_u32 p 124)) as [Hcrc|]; [|done].
    destruct (Z.eqb_spec (wadb_get_u32 p 8) WADB_FORMAT_VERSION) as [Hver|]; [|done]. cbn [negb].
    destruct (Z.eqb_spec (wadb_get_u32 p 12) WADB_SEGMENT_HEADER_BYTES) as [Hsz|]; [|done].
    destruct (zeroes p 44 4) eqn:Hz1; [|done]. destruct (zeroes p 64 60) eqn:Hz2; [|done].
    apply zeroes_spec in Hz1, Hz2; [|lia..]. cbn [negb orb].
    set (g := SegmentHeader _ _ _ _ _ _). destruct (wadb_segment_encode g) as [q|] eqn:He; [|done].
    intros [= <-].
    assert (Hr : header_ranges g) by (unfold g; split_and!; cbn;
      first [apply get_u64_range|apply get_u32_range|apply get_i64_range]; done || lia).
    split; [done|]. rewrite He. apply (segment_encode_iff _ _ Hr) in He as [_ ->]. f_equal. unfold segment_image.
    assert (Hb : segment_body g = sub p 0 124).
    { transitivity (pieces p 0 [8;4;4;8;8;8;4;4;8;8;60]);
        [|apply (pieces_all p 0); [lia|repeat constructor; lia]].
      change (segment_body g = sub p 0 8 ++ sub p 8 4 ++ sub p 12 4 ++ sub p 16 8 ++ sub p 24 8 ++
        sub p 32 8 ++ sub p 40 4 ++ sub p 44 4 ++ sub p 48 8 ++ sub p 56 8 ++ sub p 64 60 ++ []).
      rewrite Hm, Hz1, Hz2, !split_u32, (split_i64 p 48), !split_u64, Hver, Hsz, app_nil_r
        by (done || lia). done. }
    rewrite Hb, Hcrc, <-split_u32 by (done || lia). rewrite <-(sub_all p 128) at 3 by lia.
    symmetry. apply (sub_app p 0 124 4); lia.
  - intros [Hr He]. pose proof (proj1 (segment_encode_iff _ _ Hr) He) as [_ ->].
    destruct Hr as (?&?&?&?&?&?).
    unfold wadb_segment_decode. set (q := segment_image h) in *.
    assert (Hq : sub q 0 124 = segment_body h) by (unfold q, segment_image; by rewrite sub_app_l, sub_all).
    assert (Hcrc : wadb_get_u32 q 124 = wadb_crc32c (segment_body h)).
    { rewrite (get_u32_at q 124 (wadb_crc32c (segment_body h))) by (lia || unfold q, segment_image;
        by rewrite sub_app_r, zlen_segment_body, sub_all by (rewrite ?zlen_segment_body; done || lia)).
      apply u32_id, crc32c_range, bytes_segment_body. }
    rewrite Hq, Hcrc, (Z.eqb_refl (wadb_crc32c (segment_body h))).
    change (zlen q =? WADB_SEGMENT_HEADER_BYTES) with true.
    change (bytes_eqb (sub q 0 8) SEGMENT_MAGIC) with true.
    change (zeroes q 44 4) with true. change (zeroes q 64 60) with true.
    rewrite (get_u32_at q 8 WADB_FORMAT_VERSION), (get_u32_at q 12 WADB_SEGMENT_HEADER_BYTES),
      (get_u64_at q 16 (h_table_id h)), (get_u64_at q 24 (h_segment_id h)),
      (get_u64_at q 32 (h_schema_hash h)), (get_u32_at q 40 (h_row_width h)),
      (get_i64_at q 48 (h_day_start h)), (get_u64_at q 56 (h_first_sequence h)) by (done || lia).
    rewrite !u64_id, (u32_id (h_row_width h)) by done.
    change (u32 WADB_FORMAT_VERSION =? WADB_FORMAT_VERSION) with true.
    change (u32 WADB_SEGMENT_HEADER_BYTES =? WADB_SEGMENT_HEADER_BYTES) with true.
    cbn [negb orb]. destruct h as [t i hash w d fs].
    cbn [h_table_id h_segment_id h_schema_hash h_row_width h_day_start h_first_sequence].
    clearbody q. rewrite He. reflexivity.
Qed.

(** ** The byte layout of a frame *)

Definition frame_ranges (f : wadb_frame) : Prop :=
  is_u64 (fr_schema_hash f) ∧ is_u64 (fr_first_sequence f) ∧ is_i64 (fr_min_time f) ∧
  is_i64 (fr_max_time f) ∧ is_u32 (fr_row_count f) ∧ is_u32 (fr_row_width f) ∧
  is_u32 (fr_dictionary_count f) ∧ is_u32 (fr_dictionary_bytes f).
(** The two pointers delimit what the lengths say. *)
Definition frame_body (f : wadb_frame) : Prop :=
  bytes (fr_dictionary f) ∧ bytes (fr_rows f) ∧ zlen (fr_dictionary f) = fr_dictionary_bytes f ∧
  zlen (fr_rows f) = fr_row_count f * fr_row_width f.

Definition frame_head (f : wadb_frame) (total : Z) : list Z :=
  FRAME_MAGIC ++ le_split 4 total ++ le_split 4 WADB_FRAME_HEADER_BYTES ++
  le_split 4 (fr_row_count f) ++ le_split 4 (fr_row_width f) ++
  le_split 8 (fr_first_sequence f) ++ le_split 8 (u64 (fr_min_time f)) ++
  le_split 8 (u64 (fr_max_time f)) ++ le_split 4 (fr_dictionary_bytes f) ++
  le_split 4 (fr_dictionary_count f) ++
  le_split 4 (WADB_FRAME_HEADER_BYTES + fr_dictionary_bytes f) ++ zrep 4 0 ++
  le_split 8 (fr_schema_hash f).
Definition frame_header (f : wadb_frame) (total : Z) : list Z :=
  frame_head f total ++ le_split 4 (wadb_crc32c (frame_head f total)) ++ zrep 4 0.
Definition frame_payload (f : wadb_frame) (total : Z) : list Z :=
  frame_header f total ++ fr_dictionary f ++ fr_rows f ++ FRAME_END ++ le_split 4 total.
Definition frame_image (f : wadb_frame) (total : Z) : list Z :=
  frame_payload f total ++ le_split 4 (wadb_crc32c (frame_payload f total)).

Lemma zlen_frame_head f n : zlen (frame_head f n) = 72.
Proof. done. Qed.
Lemma zlen_frame_header f n : zlen (frame_header f n) = 80.
Proof. done. Qed.
Lemma zlen_frame_magic : zlen FRAME_MAGIC = 8.
Proof. done. Qed.
Lemma zlen_frame_end : zlen FRAME_END = 8.
Proof. done. Qed.
#[export] Hint Rewrite zlen_frame_head zlen_frame_header zlen_frame_magic zlen_frame_end : zlen.
Lemma bytes_frame_head f n : bytes (frame_head f n).
Proof.
  unfold frame_head. repeat apply bytes_app; unfold FRAME_MAGIC; auto with wadb; by apply bytes_zrep.
Qed.
Lemma bytes_frame_payload f n : frame_body f → bytes (frame_payload f n).
Proof.
  intros (?&?&_). unfold frame_payload, frame_header.
  repeat apply bytes_app; unfold FRAME_MAGIC, FRAME_END; auto with wadb; by apply bytes_zrep.
Qed.

(** The arithmetic [frame_sizes] accepts. *)
Lemma frame_sizes_ok f rb total :
  frame_ranges f → frame_sizes f = Some (rb, total) →
  rb = fr_row_count f * fr_row_width f ∧ total = rb + fr_dictionary_bytes f + 96 ∧
  total ≤ WADB_MAX_FRAME_BYTES ∧ 0 < fr_row_count f ∧
  8 ≤ fr_row_width f ≤ WADB_MAX_ROW_BYTES ∧ fr_row_width f `mod` 8 = 0 ∧
  0 < fr_first_sequence f ∧ fr_first_sequence f + fr_row_count f - 1 ≤ UINT64_MAX ∧
  0 ≤ fr_min_time f ≤ fr_max_time f ∧
  fr_min_time f / WADB_DAY_US = fr_max_time f / WADB_DAY_US ∧
  fr_dictionary_bytes f `mod` 8 = 0 ∧ 12 * fr_dictionary_count f ≤ fr_dictionary_bytes f ∧
  (fr_dictionary_count f = 0 → fr_dictionary_bytes f = 0).
Proof.
  intros (?&?&?&?&?&?&?&?). unfold frame_sizes, wadb_mul_size, wadb_add_size.
  unfold WADB_MAX_ROW_BYTES, WADB_MAX_FRAME_BYTES, WADB_DAY_US, u32.
  match goal with |- (if ?c then _ else _) = _ → _ => destruct c eqn:Hc end; [done|].
  destruct (negb (fr_row_width f =? 0) && _); cbn [mbind option_bind]; [done|].
  do 2 (match goal with |- context [if ?a >? ?b then _ else _] => destruct (Z.gtb_spec a b) end;
    cbn [mbind option_bind]; [done|]).
  destruct (Z.leb_spec (fr_row_count f * fr_row_width f + fr_dictionary_bytes f +
    (WADB_FRAME_HEADER_BYTES + WADB_FRAME_TRAILER_BYTES)) 1048576); [|done].
  unfold WADB_FRAME_HEADER_BYTES, WADB_FRAME_TRAILER_BYTES in *. intros [= <- <-].
  rewrite !Z.quot_div_nonneg in Hc by lia.
  generalize dependent (fr_row_count f * fr_row_width f). intros.
  split_and!; mlia.
Qed.

Lemma frame_encode_image f rb total :
  frame_ranges f → frame_body f → frame_sizes f = Some (rb, total) →
  dictionary_valid f = true → times_valid f = true →
  wadb_frame_encode true f = Ok (frame_image f total).
Proof.
  intros Hr (_&_&Hd&Hrw) Hs Hdv Htv. pose proof (frame_sizes_ok _ _ _ Hr Hs) as Hf.
  unfold wadb_frame_encode. rewrite Hs, Hdv, Htv. cbn [negb orb]. f_equal.
  destruct Hf as (->&Ht&Hmax&?&_&_&_&_&_&_&_&?&_). unfold WADB_MAX_FRAME_BYTES in Hmax.
  assert (0 ≤ fr_dictionary_bytes f ∧ 0 ≤ fr_row_count f * fr_row_width f)
    by (rewrite <-Hd, <-Hrw; auto with wadb).
  rewrite (u32_id total), (u32_id (WADB_FRAME_HEADER_BYTES + _)) by (unfold WADB_FRAME_HEADER_BYTES; mlia).
  unfold WADB_FRAME_TRAILER_BYTES. rewrite !put_u32_spec, !put_u64_spec by lia.
  replace (zrep total 0) with (zrep 80 0 ++ zrep (total - 80) 0)
    by (rewrite <-zrep_app by lia; f_equal; lia).
  set (R := zrep (total - 80) 0).
  do 12 (rewrite (put_app_l _ R) by len).
  set (X := put _ 64 _). assert (HX : X = frame_head f total ++ zrep 8 0) by reflexivity.
  rewrite HX, <-app_assoc, sub_app_l, sub_all by len.
  rewrite app_assoc, (put_app_l _ R) by len. rewrite (put_app_r (frame_head f total)) by len.
  rewrite zlen_frame_head, Z.sub_diag.
  replace (frame_head f total ++ put (zrep 8 0) 0 (le_split 4 (wadb_crc32c (frame_head f total))))
    with (frame_header f total) by done.
  replace R with
    (zrep (zlen (fr_dictionary f)) 0 ++ zrep (zlen (fr_rows f)) 0 ++ zrep 8 0 ++ zrep 4 0 ++ zrep 4 0)
    by (unfold R; rewrite <-!zrep_app by lia; f_equal; lia).
  unfold WADB_FRAME_HEADER_BYTES. clearbody R. clear X HX.
  rewrite put_fill, (app_assoc (frame_header f total)), put_fill, (app_assoc (_ ++ _) (fr_rows f)),
    put_fill, (app_assoc (_ ++ _) FRAME_END), put_fill by len.
  rewrite (app_assoc _ (le_split 4 total)). set (P := (_ ++ FRAME_END) ++ le_split 4 total).
  assert (HP : P = frame_payload f total) by (unfold P, frame_payload; by rewrite !app_assoc).
  assert (Hl : zlen P = total - 4) by (unfold P; len).
  rewrite sub_app_l, sub_all by lia. rewrite <-(app_nil_r (zrep 4 0)), put_fill, app_nil_r by len.
  by rewrite HP.
Qed.

Lemma frame_sizes_body f a b : frame_sizes (with_body f a b) = frame_sizes f.
Proof. done. Qed.

(** The numbers [wadb_frame_inspect] reads. *)
Definition read_frame (p : list Z) : wadb_frame :=
  Frame (wadb_get_u64 p 64) (wadb_get_u64 p 24) (wadb_get_i64 p 32) (wadb_get_i64 p 40)
    (wadb_get_u32 p 16) (wadb_get_u32 p 20) (wadb_get_u32 p 52) (wadb_get_u32 p 48)
    [] [] (wadb_get_u32 p 8) (wadb_get_u32 p 56).

Lemma read_frame_ranges p : bytes p → 80 ≤ zlen p → frame_ranges (read_frame p).
Proof.
  intros. split_and!; first [apply get_u64_range|apply get_u32_range|apply get_i64_range]; done || lia.
Qed.

(** What the header inspection establishes. *)
Lemma frame_inspect_ok p f :
  bytes p → wadb_frame_inspect p = Ok f →
  f = read_frame p ∧ 80 ≤ zlen p ∧
  (∃ rb total, frame_sizes f = Some (rb, total) ∧ fr_frame_bytes f = total) ∧
  fr_rows_offset f = WADB_FRAME_HEADER_BYTES + fr_dictionary_bytes f ∧
  sub p 0 80 = frame_header f (fr_frame_bytes f).
Proof.
  intros Hp. unfold wadb_frame_inspect. fold (read_frame p).
  destruct (Z.ltb_spec (zlen p) WADB_FRAME_HEADER_BYTES) as [|Hl]; [done|].
  unfold WADB_FRAME_HEADER_BYTES in Hl. cbn [orb].
  destruct (bytes_eqb _ _) eqn:Hm; [|done]. apply bool_decide_eq_true in Hm. cbn [negb orb].
  destruct (Z.eqb_spec (wadb_get_u32 p 12) WADB_FRAME_HEADER_BYTES) as [H12|]; [|done]. cbn [negb orb].
  destruct (Z.eqb_spec (wadb_crc32c (sub p 0 72)) (wadb_get_u32 p 72)) as [Hcrc|]; [|done]. cbn [negb orb].
  destruct (zeroes p 60 4) eqn:Hz1; [|done]. destruct (zeroes p 76 4) eqn:Hz2; [|done].
  apply zeroes_spec in Hz1, Hz2; [|lia..]. cbn [negb orb].
  destruct (frame_sizes (read_frame p)) as [[rb total]|] eqn:Hs; [|done].
  destruct (Z.eqb_spec total (fr_frame_bytes (read_frame p))) as [Ht|]; [|done]. cbn [negb orb].
  destruct (Z.eqb_spec (fr_rows_offset (read_frame p))
    (WADB_FRAME_HEADER_BYTES + fr_dictionary_bytes (read_frame p))) as [Ho|]; [|done].
  intros [= <-]. split_and!; [done|done|by exists rb, total|done|].
  assert (Hhead : frame_head (read_frame p) (wadb_get_u32 p 8) = sub p 0 72).
  { transitivity (pieces p 0 [8;4;4;4;4;8;8;8;4;4;4;4;8]);
      [|apply (pieces_all p 0); [lia|repeat constructor; lia]].
    change (frame_head (read_frame p) (wadb_get_u32 p 8) = sub p 0 8 ++ sub p 8 4 ++ sub p 12 4 ++
      sub p 16 4 ++ sub p 20 4 ++ sub p 24 8 ++ sub p 32 8 ++ sub p 40 8 ++ sub p 48 4 ++
      sub p 52 4 ++ sub p 56 4 ++ sub p 60 4 ++ sub p 64 8 ++ []).
    rewrite Hm, Hz1, !split_u32, (split_i64 p 32), (split_i64 p 40), !split_u64, H12, app_nil_r
      by (done || lia). cbn in Ho. rewrite Ho. done. }
  cbn [fr_frame_bytes read_frame]. unfold frame_header. rewrite Hhead, Hcrc, <-split_u32, <-Hz2 by (done || lia).
  rewrite (sub_join p 72 4 76 4 8), (sub_join p 0 72 72 8 80) by lia. done.
Qed.

Definition frame_located (f : wadb_frame) (n : Z) : Prop :=
  fr_frame_bytes f = n ∧ fr_rows_offset f = WADB_FRAME_HEADER_BYTES + fr_dictionary_bytes f.

Lemma frame_decode_sound p f :
  bytes p → wadb_frame_decode p = Ok f →
  frame_ranges f ∧ frame_body f ∧ frame_located f (zlen p) ∧ wadb_frame_encode true f = Ok p.
Proof.
  intros Hp. unfold wadb_frame_decode. intros (g&Hi&Hd)%result_bind_ok.
  apply frame_inspect_ok in Hi as (Hg&Hl&(rb&total&Hs&Hfb)&Hro&Hh); [|done].
  assert (Hr : frame_ranges g) by (subst g; by apply read_frame_ranges).
  pose proof (frame_sizes_ok _ _ _ Hr Hs) as (Hrb&Ht&Hmax&?&_&_&_&_&_&_&_&?&_).
  assert (Hdb : 0 ≤ fr_dictionary_bytes g) by (destruct Hr as (_&_&_&_&_&_&_&?); mlia).
  assert (Hrw : 0 ≤ rb) by (destruct Hr as (_&_&_&_&?&?&_); subst rb; apply Z.mul_nonneg_nonneg; mlia).
  destruct (Z.eqb_spec (zlen p) (fr_frame_bytes g)) as [Hn|]; [|done]. rewrite Hfb in Hn.
  unfold WADB_FRAME_TRAILER_BYTES in Hd. cbn [negb orb] in Hd.
  destruct (bytes_eqb _ _) eqn:Hm; [|done]. apply bool_decide_eq_true in Hm. cbn [negb orb] in Hd.
  destruct (Z.eqb_spec (wadb_get_u32 p (zlen p - 8)) (zlen p)) as [Hn8|]; [|done]. cbn [negb orb] in Hd.
  destruct (Z.eqb_spec (wadb_crc32c (sub p 0 (zlen p - 4))) (wadb_get_u32 p (zlen p - 4))) as [Hcrc|]; [|done].
  cbn [negb] in Hd. set (h := with_body g _ _) in Hd.
  destruct (dictionary_valid h) eqn:Hdv; [|done]. destruct (times_valid h) eqn:Htv; [|done].
  cbn [negb orb] in Hd. injection Hd as <-. unfold WADB_FRAME_HEADER_BYTES in *.
  assert (Hb : frame_body h).
  { split_and!; cbn; auto with wadb; rewrite zlen_sub; lia. }
  split; [exact Hr|]. split; [done|]. split; [split; [cbn; lia|done]|].
  rewrite (frame_encode_image h rb total) by done. f_equal. unfold frame_image.
  assert (Hpay : frame_payload h total = sub p 0 (zlen p - 4)).
  { unfold frame_payload. rewrite <-Hfb. change (frame_header h _) with (frame_header g (fr_frame_bytes g)).
    rewrite <-Hh, <-Hm, Hfb, <-Hn. rewrite <-Hn8 at 2. rewrite <-split_u32 by (done || lia).
    cbn [fr_dictionary fr_rows h with_body].
    rewrite (sub_join p (zlen p - 16) 8 (zlen p - 8) 4 12), (sub_join p (fr_rows_offset g) _ _ 12 (rb + 12)),
      (sub_join p 80 _ _ _ (fr_dictionary_bytes g + rb + 12)), (sub_join p 0 80 80 _ (zlen p - 4)) by lia.
    done. }
  rewrite Hpay, Hcrc, <-split_u32, (sub_join p 0 _ _ 4 (zlen p)) by (done || lia). by apply sub_all.
Qed.

(** What a successful encoding says about the frame. *)
Lemma frame_encode_inv alloc f p :
  frame_ranges f → frame_body f → wadb_frame_encode alloc f = Ok p →
  ∃ rb total, frame_sizes f = Some (rb, total) ∧ dictionary_valid f = true ∧
    times_valid f = true ∧ p = frame_image f total.
Proof.
  intros Hr Hb He. pose proof He as He'. unfold wadb_frame_encode in He'.
  destruct (frame_sizes f) as [[rb total]|] eqn:Hs; [|done].
  destruct (dictionary_valid f) eqn:Hdv; [|done]. destruct (times_valid f) eqn:Htv; [|done].
  destruct alloc; [|done]. clear He'. exists rb, total. split_and!; try done.
  rewrite (frame_encode_image f rb total) in He by done. by injection He.
Qed.

Lemma zlen_frame_image f rb total :
  frame_ranges f → frame_body f → frame_sizes f = Some (rb, total) → zlen (frame_image f total) = total.
Proof.
  intros Hr (_&_&Hd&Hrw) Hs. pose proof (frame_sizes_ok _ _ _ Hr Hs) as (->&Ht&_).
  unfold frame_image, frame_payload. len.
Qed.

Lemma times_valid_ext f g :
  fr_row_count f = fr_row_count g → fr_row_width f = fr_row_width g → fr_rows f = fr_rows g →
  fr_min_time f = fr_min_time g → fr_max_time f = fr_max_time g → times_valid f = times_valid g.
Proof.
  intros Hc Hw Hr Hmin Hmax. unfold times_valid. rewrite Hc, Hmin. generalize 0 (fr_min_time g).
  induction (Z.to_nat (fr_row_count g)) as [|n IH]; intros i prev; cbn [times_loop]; rewrite ?Hmax; [done|].
  rewrite Hw, Hr, Hmin. by destruct (_ || _).
Qed.

Section decode_image.
Context (f : wadb_frame) (rb total : Z).
Hypothesis (Hr : frame_ranges f) (Hb : frame_body f) (Hs : frame_sizes f = Some (rb, total)).
Let q := frame_image f total.

Lemma image_header_sub o k : 0 ≤ o → 0 ≤ k → o + k ≤ 80 → sub q o k = sub (frame_header f total) o k.
Proof using. intros. unfold q, frame_image, frame_payload. rewrite <-app_assoc, sub_app_l by len. done. Qed.

(** A header inspection of an encoded frame, or of any file that starts with one. *)
Lemma frame_inspect_image rest :
  bytes rest →
  wadb_frame_inspect (q ++ rest) = Ok (Frame (fr_schema_hash f) (fr_first_sequence f)
    (fr_min_time f) (fr_max_time f) (fr_row_count f) (fr_row_width f) (fr_dictionary_count f)
    (fr_dictionary_bytes f) [] [] total (WADB_FRAME_HEADER_BYTES + fr_dictionary_bytes f)).
Proof using Hr Hb Hs.
  intros Hrest. pose proof (zlen_frame_image f rb total Hr Hb Hs) as Hl. fold q in Hl.
  pose proof (frame_sizes_ok _ _ _ Hr Hs) as (Hrb&Ht&Hmax&?&_&_&_&_&_&_&_&?&_).
  unfold WADB_MAX_FRAME_BYTES in Hmax.
  assert (0 ≤ fr_dictionary_bytes f ∧ 0 ≤ rb)
    by (destruct Hb as (_&_&<-&Hz); rewrite Hrb, <-Hz; auto with wadb).
  assert (Hsub : ∀ o k, 0 ≤ o → 0 ≤ k → o + k ≤ 80 →
    sub (q ++ rest) o k = sub (frame_header f total) o k).
  { intros. rewrite sub_app_l by lia. by apply image_header_sub. }
  destruct Hr as (?&?&?&?&?&?&?&?). unfold wadb_frame_inspect.
  rewrite zlen_app, Hl. pose proof (zlen_nonneg rest).
  destruct (Z.ltb_spec (total + zlen rest) WADB_FRAME_HEADER_BYTES) as [Hlt|_];
    [unfold WADB_FRAME_HEADER_BYTES in Hlt; lia|].
  rewrite (Hsub 0 8), (Hsub 0 72) by lia.
  change (bytes_eqb (sub (frame_header f total) 0 8) FRAME_MAGIC) with true.
  change (sub (frame_header f total) 0 72) with (frame_head f total).
  rewrite (get_u32_at _ 12 WADB_FRAME_HEADER_BYTES), (get_u32_at _ 72 (wadb_crc32c (frame_head f total)))
    by (lia || rewrite Hsub by lia; reflexivity).
  rewrite (u32_id (wadb_crc32c _)) by apply crc32c_range, bytes_frame_head.
  rewrite (Z.eqb_refl (wadb_crc32c _)).
  change (u32 WADB_FRAME_HEADER_BYTES =? WADB_FRAME_HEADER_BYTES) with true.
  unfold zeroes. rewrite (Hsub 60 4), (Hsub 76 4) by lia.
  change (forallb _ (sub (frame_header f total) 60 4)) with true.
  change (forallb _ (sub (frame_header f total) 76 4)) with true. cbn [negb orb].
  rewrite (get_u64_at _ 64 (fr_schema_hash f)), (get_u64_at _ 24 (fr_first_sequence f)),
    (get_i64_at _ 32 (fr_min_time f)), (get_i64_at _ 40 (fr_max_time f)),
    (get_u32_at _ 16 (fr_row_count f)), (get_u32_at _ 20 (fr_row_width f)),
    (get_u32_at _ 52 (fr_dictionary_count f)), (get_u32_at _ 48 (fr_dictionary_bytes f)),
    (get_u32_at _ 8 total), (get_u32_at _ 56 (WADB_FRAME_HEADER_BYTES + fr_dictionary_bytes f))
    by first [lia|done|rewrite Hsub by lia; reflexivity].
  rewrite !u64_id, !u32_id by first [done|unfold WADB_FRAME_HEADER_BYTES; mlia].
  cbn [fr_frame_bytes fr_rows_offset fr_dictionary_bytes].
  change (frame_sizes _) with (frame_sizes f). rewrite Hs, !Z.eqb_refl. done.
Qed.

Lemma frame_decode_image :
  dictionary_valid f = true → times_valid f = true →
  wadb_frame_decode q = Ok (Frame (fr_schema_hash f) (fr_first_sequence f) (fr_min_time f)
    (fr_max_time f) (fr_row_count f) (fr_row_width f) (fr_dictionary_count f)
    (fr_dictionary_bytes f) (fr_dictionary f) (fr_rows f) total
    (WADB_FRAME_HEADER_BYTES + fr_dictionary_bytes f)).
Proof using Hr Hb Hs.
  intros Hdv Htv. pose proof (zlen_frame_image f rb total Hr Hb Hs) as Hl. fold q in Hl.
  pose proof (frame_sizes_ok _ _ _ Hr Hs) as (Hrb&Ht&Hmax&?&_&_&_&_&_&_&_&?&_).
  pose proof (frame_inspect_image [] ltac:(constructor)) as Hi. rewrite app_nil_r in Hi.
  pose proof (bytes_frame_payload f total Hb) as Hbp.
  unfold wadb_frame_decode. rewrite Hi, Hl. cbn [mbind result_bind fr_frame_bytes].
  rewrite Z.eqb_refl. destruct Hb as (Hb1&Hb2&Hd&Hrw). unfold WADB_MAX_FRAME_BYTES, WADB_FRAME_TRAILER_BYTES in *.
  pose proof (zlen_nonneg (fr_rows f)). pose proof (zlen_nonneg (fr_dictionary f)).
  assert (Hlp : zlen (frame_payload f total) = total - 4) by (unfold frame_payload; len).
  assert (Hq : q = frame_header f total ++ fr_dictionary f ++ fr_rows f ++ FRAME_END ++
                   le_split 4 total ++ le_split 4 (wadb_crc32c (frame_payload f total)))
    by (unfold q, frame_image, frame_payload; by rewrite <-!app_assoc).
  assert (Hm : sub q (total - 16) 8 = FRAME_END).
  { eapply (sub_mid _ (frame_header f total ++ fr_dictionary f ++ fr_rows f));
      [rewrite Hq, <-!app_assoc; done|len|done]. }
  assert (H8 : sub q (total - 8) 4 = le_split 4 total).
  { eapply (sub_mid _ (frame_header f total ++ fr_dictionary f ++ fr_rows f ++ FRAME_END));
      [rewrite Hq, <-!app_assoc; done|len|done]. }
  assert (H4 : sub q (total - 4) 4 = le_split 4 (wadb_crc32c (frame_payload f total))).
  { apply (sub_mid _ (frame_payload f total) _ []); [by rewrite app_nil_r|lia|done]. }
  assert (Hpay : sub q 0 (total - 4) = frame_payload f total) by (eapply (sub_mid _ []); done || lia).
  rewrite Hm, Hpay, (get_u32_at q _ total), (get_u32_at q _ (wadb_crc32c (frame_payload f total)))
    by (lia || done).
  rewrite (u32_id total) by mlia. rewrite u32_id by (by apply crc32c_range).
  rewrite !Z.eqb_refl. change (bytes_eqb FRAME_END FRAME_END) with true. cbn [negb orb].
  cbn [fr_dictionary_bytes fr_rows_offset fr_row_count fr_row_width].
  assert (HD : sub q WADB_FRAME_HEADER_BYTES (fr_dictionary_bytes f) = fr_dictionary f).
  { eapply (sub_mid _ (frame_header f total)); [exact Hq|done|done]. }
  assert (HR : sub q (WADB_FRAME_HEADER_BYTES + fr_dictionary_bytes f) (fr_row_count f * fr_row_width f) = fr_rows f).
  { eapply (sub_mid _ (frame_header f total ++ fr_dictionary f));
      [rewrite Hq, <-!app_assoc; done|unfold WADB_FRAME_HEADER_BYTES; len|done]. }
  rewrite HD, HR. unfold with_body. cbn.
  change (dictionary_valid _) with (dictionary_valid f). rewrite (times_valid_ext _ f) by done.
  by rewrite Hdv, Htv.
Qed.
End decode_image.

(** C17: Frames round-trip and are canonical: a byte string decodes to a frame
    exactly when that frame's fields are within their types, its dictionary and
    rows have the announced lengths, its offsets are the actual ones, and encoding
    it gives back the same bytes. *)
Theorem frame_codec p f :
  bytes p →
  wadb_frame_decode p = Ok f ↔
  frame_ranges f ∧ frame_body f ∧ frame_located f (zlen p) ∧ wadb_frame_encode true f = Ok p.
Proof.
  intros Hp. split; [by apply frame_decode_sound|]. intros (Hr&Hb&[Hfb Hro]&He).
  apply frame_encode_inv in He as (rb&total&Hs&Hdv&Htv&->); [|done..].
  rewrite (frame_decode_image f rb total) by done. f_equal.
  rewrite (zlen_frame_image f rb total) in Hfb by done.
  destruct f; cbn in *. by subst.
Qed.

(** Segment headers round-trip and are canonical, in the same sense. *)
Theorem segment_header_codec p h :
  bytes p → wadb_segment_decode p = Ok h ↔ header_ranges h ∧ wadb_segment_encode h = Ok p.
Proof. apply segment_decode_iff. Qed.

(** ** Corruption *)

(** A decoder that fails reports corruption. *)
Lemma frame_inspect_err p e : wadb_frame_inspect p = Err e → e = WADB_CORRUPT.
Proof.
  unfold wadb_frame_inspect. destruct (_ || _); [by intros [= <-]|].
  destruct (frame_sizes _) as [[? ?]|]; [|by intros [= <-]]. destruct (_ || _); by intros [= <-].
Qed.
Lemma frame_decode_err p e : wadb_frame_decode p = Err e → e = WADB_CORRUPT.
Proof.
  unfold wadb_frame_decode. destruct (wadb_frame_inspect p) eqn:Hi; cbn [mbind result_bind];
    [|intros [= <-]; by eapply frame_inspect_err].
  destruct (_ || _); [by intros [= <-]|]. destruct (_ || _); by intros [= <-].
Qed.
Lemma frame_decode_residue p f :
  bytes p → wadb_frame_decode p = Ok f → wadb_crc32c p = CRC_RESIDUE.
Proof.
  intros Hp (Hr&Hb&_&He)%frame_decode_sound; [|done].
  apply frame_encode_inv in He as (rb&total&_&_&_&->); [|done..].
  by apply crc_residue, bytes_frame_payload.
Qed.

(** C23: Overwriting up to four consecutive bytes of a valid frame with different
    ones, anywhere in the frame and its checksum included, is always reported as
    corruption. *)
Theorem frame_burst_rejected l a b r f :
  bytes (l ++ a ++ r) → bytes b → length b = length a → (length a ≤ 4)%nat → b ≠ a →
  wadb_frame_decode (l ++ a ++ r) = Ok f → wadb_frame_decode (l ++ b ++ r) = Err WADB_CORRUPT.
Proof.
  intros Hp Hb Hl H4 Hne Hd. pose proof (frame_decode_residue _ _ Hp Hd) as Hres.
  apply Forall_app in Hp as [Hbl [Hba Hbr]%Forall_app].
  destruct (wadb_frame_decode (l ++ b ++ r)) as [g|e] eqn:Hg; [|by apply frame_decode_err in Hg as ->].
  exfalso. apply frame_decode_residue in Hg; [|repeat apply bytes_app; done].
  apply (crc32c_burst l a b r Hbl Hba Hb Hbr (eq_sym Hl) H4 (λ H, Hne (eq_sym H))).
  rewrite Hres, Hg. reflexivity.
Qed.

(** The inspection of a header looks at its 80 bytes only. *)
Lemma frame_inspect_header p :
  80 ≤ zlen p → wadb_frame_inspect p = wadb_frame_inspect (sub p 0 80).
Proof.
  intros Hl. unfold wadb_frame_inspect, zeroes. rewrite zlen_sub by lia.
  destruct (Z.ltb_spec (zlen p) WADB_FRAME_HEADER_BYTES) as [Hlt|_];
    [unfold WADB_FRAME_HEADER_BYTES in Hlt; lia|].
  change (80 <? WADB_FRAME_HEADER_BYTES) with false.
  rewrite !get_u32_sub, !get_u64_sub, !get_i64_sub, !sub_sub by lia. done.
Qed.

(** A frame that was only partly written is never accepted: every strict prefix
    of a valid frame is reported as corruption. *)
Theorem frame_prefix_rejected p f n :
  bytes p → wadb_frame_decode p = Ok f → 0 ≤ n < zlen p →
  wadb_frame_decode (sub p 0 n) = Err WADB_CORRUPT.
Proof.
  intros Hp Hd Hn. destruct (wadb_frame_decode (sub p 0 n)) as [g|e] eqn:Hg;
    [|by apply frame_decode_err in Hg as ->].
  exfalso. unfold wadb_frame_decode in Hd, Hg.
  apply result_bind_ok in Hd as (f'&Hi&Hd). apply result_bind_ok in Hg as (g'&Hj&Hg).
  assert (80 ≤ n).
  { pose proof (frame_inspect_ok (sub p 0 n) g' ltac:(auto with wadb) Hj) as (_&Hlen&_).
    rewrite zlen_sub in Hlen by lia. done. }
  rewrite frame_inspect_header in Hi by lia. rewrite frame_inspect_header in Hj by (rewrite zlen_sub; lia).
  rewrite sub_sub_0 in Hj by lia. rewrite Hi in Hj. injection Hj as <-.
  rewrite zlen_sub in Hg by lia.
  destruct (Z.eqb_spec (zlen p) (fr_frame_bytes f')); [|done].
  destruct (Z.eqb_spec n (fr_frame_bytes f')); [lia|done].
Qed.

(** ** What an accepted frame contains *)

Definition row_time (f : wadb_frame) (i : Z) : Z := wadb_get_i64 (fr_rows f) (i * fr_row_width f).

Lemma times_loop_spec n f i prev :
  0 ≤ i → times_loop n f i prev = true →
  (∀ k, i ≤ k < i + Z.of_nat n → prev ≤ row_time f k ≤ fr_max_time f) ∧
  (∀ k l, i ≤ k → k ≤ l → l < i + Z.of_nat n → row_time f k ≤ row_time f l) ∧
  (n = 0%nat → prev = fr_max_time f) ∧
  (n ≠ 0%nat → row_time f (i + Z.of_nat n - 1) = fr_max_time f ∧
               (i = 0 → row_time f 0 = fr_min_time f)).
Proof.
  revert i prev. induction n as [|n IH]; intros i prev Hi; cbn [times_loop].
  { intros ?%Z.eqb_eq. split_and!; [lia..|done|done]. }
  fold (row_time f i). destruct (_ || _) eqn:Hc; [done|]. intros Hrec.
  assert (prev ≤ row_time f i ≤ fr_max_time f ∧ (i = 0 → row_time f i = fr_min_time f)) as [Ht H0] by lia.
  destruct (IH (i + 1) (row_time f i)) as (Hb&Hs&Hz&Hl); [lia|done|].
  split_and!.
  - intros k Hk. destruct (decide (k = i)) as [->|]; [done|]. specialize (Hb k). lia.
  - intros k l Hk Hkl Hl'. destruct (decide (k = i)) as [->|]; [|apply Hs; lia].
    destruct (decide (l = i)) as [->|]; [lia|]. apply Hb. lia.
  - done.
  - intros _. split; [|intros ->; by apply H0]. destruct n as [|n'].
    + replace (i + Z.of_nat 1 - 1) with i by lia. by apply Hz.
    + replace (i + Z.of_nat (S (S n')) - 1) with (i + 1 + Z.of_nat (S n') - 1) by lia. by apply Hl.
Qed.

(** Every frame the encoder writes is at most 1 MiB long, its length is a
    multiple of eight fixed by its counts, its sequence numbers do not overflow,
    and its rows are in time order inside one UTC day, with the announced first and
    last time stamps. *)
Theorem frame_encode_bounds alloc f p :
  frame_ranges f → frame_body f → wadb_frame_encode alloc f = Ok p →
  zlen p = WADB_FRAME_HEADER_BYTES + fr_dictionary_bytes f + fr_row_count f * fr_row_width f +
           WADB_FRAME_TRAILER_BYTES ∧
  zlen p ≤ WADB_MAX_FRAME_BYTES ∧ zlen p `mod` 8 = 0 ∧
  1 ≤ fr_first_sequence f ∧ fr_first_sequence f + (fr_row_count f - 1) ≤ UINT64_MAX ∧
  row_time f 0 = fr_min_time f ∧ row_time f (fr_row_count f - 1) = fr_max_time f ∧
  (∀ i j, 0 ≤ i → i ≤ j → j < fr_row_count f →
     row_time f i ≤ row_time f j ∧ row_time f i / WADB_DAY_US = row_time f j / WADB_DAY_US).
Proof.
  intros Hr Hb He. apply frame_encode_inv in He as (rb&total&Hs&_&Htv&->); [|done..].
  rewrite (zlen_frame_image f rb total) by done.
  apply frame_sizes_ok in Hs as (Hrb&Ht&Hmax&Hc&_&Hw8&?&?&Hmin&Hday&Hd8&_); [|done].
  apply times_loop_spec in Htv as (Hbd&Hsort&_&Hends); [|lia]. rewrite Z.add_0_l, Z2Nat.id in * by lia.
  destruct Hends as [Hlast Hfirst]; [lia|].
  assert (Hrb8 : rb `mod` 8 = 0) by (rewrite Hrb, Z.mul_mod, Hw8, Z.mul_0_r by lia; done).
  unfold WADB_FRAME_HEADER_BYTES, WADB_FRAME_TRAILER_BYTES.
  split_and!; [lia|lia|subst total; clear -Hrb8 Hd8; mlia|lia|lia|by apply Hfirst|done|].
  intros i j Hi Hij Hj. split; [by apply Hsort|].
  assert (Hone : ∀ k, 0 ≤ k < fr_row_count f → row_time f k / WADB_DAY_US = fr_min_time f / WADB_DAY_US).
  { intros k Hk. specialize (Hbd k Hk). unfold WADB_DAY_US in *.
    clear -Hbd Hday Hmin. mlia. }
  by rewrite !Hone by lia.
Qed.

(** ** Witnesses: a frame of two rows of a schema without user fields *)

Definition demo_frame : wadb_frame :=
  Frame 7 1 5 9 2 8 0 0 [] (le_split 8 5 ++ le_split 8 9) 112 80.
Definition demo_bytes : list Z := Eval vm_compute in frame_image demo_frame 112.

Lemma demo_ranges : frame_ranges demo_frame ∧ frame_body demo_frame.
Proof. split; split_and!; try done; apply (bool_decide_unpack _); vm_compute; exact I. Qed.
Lemma demo_encode : wadb_frame_encode true demo_frame = Ok demo_bytes.
Proof. vm_compute. reflexivity. Qed.
Lemma demo_bytes_ok : bytes demo_bytes.
Proof. apply (bool_decide_unpack _). vm_compute. exact I. Qed.

Lemma frame_codec_witness : wadb_frame_decode demo_bytes = Ok demo_frame.
Proof.
  apply (frame_codec demo_bytes demo_frame demo_bytes_ok).
  destruct demo_ranges as [Hr Hb]. split; [exact Hr|]. split; [exact Hb|].
  split; [split; reflexivity|]. exact demo_encode.
Defined.
Lemma demo_decode : wadb_frame_decode demo_bytes = Ok demo_frame.
Proof. vm_compute. reflexivity. Qed.
Lemma segment_header_codec_witness :
  ∃ p, wadb_segment_encode (SegmentHeader 1 2 3 48 WADB_DAY_US 1) = Ok p ∧
       wadb_segment_decode p = Ok (SegmentHeader 1 2 3 48 WADB_DAY_US 1).
Proof.
  destruct (wadb_segment_encode (SegmentHeader 1 2 3 48 WADB_DAY_US 1)) as [p|] eqn:He;
    [|vm_compute in He; congruence].
  exists p. split; [reflexivity|]. apply segment_header_codec.
  - vm_compute in He. injection He as <-. apply (bool_decide_unpack _). vm_compute. exact I.
  - split; [|exact He]. split_and!; vm_compute; split; discriminate.
Defined.
Lemma frame_burst_rejected_witness :
  wadb_frame_decode (sub demo_bytes 0 80 ++ [6; 1] ++ sub demo_bytes 82 30) = Err WADB_CORRUPT.
Proof.
  apply (frame_burst_rejected (sub demo_bytes 0 80) (sub demo_bytes 80 2) [6; 1]
    (sub demo_bytes 82 30) demo_frame).
  - exact demo_bytes_ok.
  - apply (bool_decide_unpack _). vm_compute. exact I.
  - reflexivity.
  - vm_compute. lia.
  - discriminate.
  - exact demo_decode.
Defined.
Lemma frame_prefix_rejected_witness : wadb_frame_decode (sub demo_bytes 0 100) = Err WADB_CORRUPT.
Proof.
  apply (frame_prefix_rejected demo_bytes demo_frame 100 demo_bytes_ok demo_decode).
  split; vm_compute; congruence.
Defined.
Lemma frame_encode_bounds_witness : zlen demo_bytes = 112 ∧ row_time demo_frame 1 = 9.
Proof.
  destruct demo_ranges as [Hr Hb].
  destruct (frame_encode_bounds true demo_frame demo_bytes Hr Hb demo_encode) as (Hl&_&_&_&_&_&Ht&_).
  split; [exact Hl|exact Ht].
Defined.
