(* ===== verification/Float.v ===== *)
(** * Binary floating point as the row codec uses it

    core/schema.c requires IEEE-754 binary32 and binary64 and touches floating
    values only through [isfinite], [fabs], a comparison with [FLT_MAX], the
    conversions between [float] and [double] and [memcpy] of their
    representations. A double is therefore its 64-bit pattern and a float its
    32-bit pattern, and the conversions are written out on the patterns, with
    the default rounding to nearest, ties to even. *)

From stdpp Require Import base numbers list.
From S2P Require Import Prelude.

(** ** Fields of a pattern *)

Definition f64_sign (b : Z) : Z := b / 2 ^ 63.
Definition f64_exp (b : Z) : Z := (b / 2 ^ 52) `mod` 2048.
Definition f64_frac (b : Z) : Z := b `mod` 2 ^ 52.
Definition f64_bits (sign exp frac : Z) : Z := sign * 2 ^ 63 + exp * 2 ^ 52 + frac.
Definition f32_sign (b : Z) : Z := b / 2 ^ 31.
Definition f32_exp (b : Z) : Z := (b / 2 ^ 23) `mod` 256.
Definition f32_frac (b : Z) : Z := b `mod` 2 ^ 23.
Definition f32_bits (sign exp frac : Z) : Z := sign * 2 ^ 31 + exp * 2 ^ 23 + frac.

Definition isfinite64 (b : Z) : bool := negb (f64_exp b =? 2047).
Definition isfinite32 (b : Z) : bool := negb (f32_exp b =? 255).
Definition fabs (b : Z) : Z := b `mod` 2 ^ 63.
(** [FLT_MAX] as a double: [(2 - 2^-23) * 2^127]. The patterns of nonnegative
    doubles are ordered as their values. *)
Definition FLT_MAX : Z := f64_bits 0 (127 + 1023) (2 ^ 52 - 2 ^ 29).

(** ** Conversions *)

(** [m / 2^s] rounded to nearest, ties to even. *)
Definition rne (m s : Z) : Z :=
  let q := m / 2 ^ s in
  let r := m `mod` 2 ^ s in
  match r ?= 2 ^ (s - 1) with
  | Lt => q
  | Gt => q + 1
  | Eq => if Z.even q then q else q + 1
  end.

(** [(float)x] for a finite double. The significand is an integer of 53 bits;
    29 of them are dropped, and one more for every power of two below the
    smallest normal float. A carry out of the fraction moves into the exponent. *)
Definition f64_to_f32 (b : Z) : Z :=
  let sign := f64_sign b in
  let e := f64_exp b - 1023 in
  let m := 2 ^ 52 + f64_frac b in
  if f64_exp b =? 0 then f32_bits sign 0 0
  else if e <? -126 then
    if e <? -151 then f32_bits sign 0 0 else f32_bits sign 0 (rne m (29 + (-126 - e)))
  else f32_bits sign (e + 127 - 1) (rne m 29).

(** [(double)x], exact. *)
Definition f32_to_f64 (b : Z) : Z :=
  let sign := f32_sign b in
  let f := f32_frac b in
  if f32_exp b =? 255 then f64_bits sign 2047 (f * 2 ^ 29)
  else if f32_exp b =? 0 then
    if f =? 0 then f64_bits sign 0 0
    else let k := Z.log2 f in f64_bits sign (k - 149 + 1023) ((f - 2 ^ k) * 2 ^ (52 - k))
  else f64_bits sign (f32_exp b - 127 + 1023) (f * 2 ^ 29).

Example f64_to_f32_one : f64_to_f32 0x3FF0000000000000 = 0x3F800000.
Proof. reflexivity. Qed.
Example f64_to_f32_tenth : f64_to_f32 0x3FB999999999999A = 0x3DCCCCCD.
Proof. reflexivity. Qed.
Example f64_to_f32_max : f64_to_f32 FLT_MAX = 0x7F7FFFFF.
Proof. reflexivity. Qed.
Example f64_to_f32_min : f64_to_f32 0x36A0000000000000 = 1 ∧ f64_to_f32 0x3690000000000000 = 0 ∧
  f64_to_f32 0x3690000000000001 = 1.
Proof. repeat split; reflexivity. Qed.

(** ** Facts *)

Lemma f64_bits_fields s e f :
  0 ≤ e < 2048 → 0 ≤ f < 2 ^ 52 →
  f64_sign (f64_bits s e f) = s ∧ f64_exp (f64_bits s e f) = e ∧ f64_frac (f64_bits s e f) = f.
Proof. unfold f64_sign, f64_exp, f64_frac, f64_bits. intros. split_and!; mlia. Qed.
Lemma f32_bits_fields b : is_u32 b →
  0 ≤ f32_sign b < 2 ∧ 0 ≤ f32_exp b < 256 ∧ 0 ≤ f32_frac b < 2 ^ 23 ∧
  b = f32_bits (f32_sign b) (f32_exp b) (f32_frac b).
Proof. unfold f32_sign, f32_exp, f32_frac, f32_bits. intros. split_and!; mlia. Qed.

(** Rounding is exact on multiples and off by at most half a unit otherwise. *)
Lemma rne_exact q s : 1 ≤ s → rne (q * 2 ^ s) s = q.
Proof.
  intros. unfold rne. rewrite Z.mod_mul, Z.div_mul by lia.
  pose proof (Z.pow_pos_nonneg 2 (s - 1)). destruct (Z.compare_spec 0 (2 ^ (s - 1))); lia.
Qed.
Lemma rne_nearest m s : 1 ≤ s → 2 * Z.abs (rne m s * 2 ^ s - m) ≤ 2 ^ s.
Proof.
  intros Hs. unfold rne. pose proof (Z.div_mod m (2 ^ s) ltac:(lia)) as Hm.
  pose proof (Z.mod_pos_bound m (2 ^ s) ltac:(lia)) as Hr.
  assert (Hp : 2 ^ s = 2 * 2 ^ (s - 1)) by (rewrite <-Z.pow_succ_r by lia; f_equal; lia).
  revert Hm Hr. generalize (m / 2 ^ s) (m `mod` 2 ^ s). rewrite Hp. generalize (2 ^ (s - 1)).
  intros h q r -> ?.
  destruct (Z.compare_spec r h); [destruct (Z.even _)|..]; lia.
Qed.
Lemma rne_mono_bound m s lo hi : 1 ≤ s → lo * 2 ^ s ≤ m ≤ hi * 2 ^ s → lo ≤ rne m s ≤ hi.
Proof. intros Hs H. pose proof (rne_nearest m s Hs). pose proof (Z.pow_pos_nonneg 2 s). nia. Qed.

(** Widening a finite float gives a finite double of at most [FLT_MAX] that
    narrows back to the float. *)
Lemma f32_to_f64_finite b : is_u32 b → isfinite32 b = true →
  is_u64 (f32_to_f64 b) ∧ isfinite64 (f32_to_f64 b) = true ∧ fabs (f32_to_f64 b) ≤ FLT_MAX.
Proof.
  intros Hb. destruct (f32_bits_fields b Hb) as (Hs&He&Hf&_).
  unfold isfinite32, f32_to_f64, isfinite64. destruct (Z.eqb_spec (f32_exp b) 255); [done|]. intros _.
  assert (Hgen : ∀ e f, 0 ≤ e ≤ 1150 → 0 ≤ f ≤ 2 ^ 52 - 2 ^ 29 →
    is_u64 (f64_bits (f32_sign b) e f) ∧
    negb (f64_exp (f64_bits (f32_sign b) e f) =? 2047) = true ∧
    fabs (f64_bits (f32_sign b) e f) ≤ FLT_MAX).
  { intros e f ??. destruct (f64_bits_fields (f32_sign b) e f) as (_&->&_); [lia..|].
    split_and!; [unfold f64_bits; mlia| |]; [destruct (Z.eqb_spec e 2047); [lia|done]|].
    unfold fabs, FLT_MAX, f64_bits. mlia. }
  destruct (Z.eqb_spec (f32_exp b) 0); [destruct (Z.eqb_spec (f32_frac b) 0)|]; apply Hgen; try lia.
  - destruct (Z.log2_spec (f32_frac b)) as [Hl Hu]; [lia|].
    assert (Z.log2 (f32_frac b) < 23) by (apply Z.log2_lt_pow2; lia).
    pose proof (Z.log2_nonneg (f32_frac b)). lia.
  - destruct (Z.log2_spec (f32_frac b)) as [Hl Hu]; [lia|].
    assert (Hk : Z.log2 (f32_frac b) < 23) by (apply Z.log2_lt_pow2; lia).
    pose proof (Z.log2_nonneg (f32_frac b)). rewrite Z.pow_succ_r in Hu by lia.
    set (k := Z.log2 (f32_frac b)) in *.
    assert (Hpk : 2 ^ (52 - k) * 2 ^ k = 2 ^ 52) by (rewrite <-Z.pow_add_r by lia; f_equal; lia).
    assert (2 ^ 29 ≤ 2 ^ (52 - k)) by (apply Z.pow_le_mono_r; lia). nia.
Qed.
Lemma f32_round_trip b : is_u32 b → isfinite32 b = true → f64_to_f32 (f32_to_f64 b) = b.
Proof.
  intros Hb. destruct (f32_bits_fields b Hb) as (Hs&He&Hf&Heq).
  unfold isfinite32, f32_to_f64. destruct (Z.eqb_spec (f32_exp b) 255); [done|]. intros _.
  destruct (Z.eqb_spec (f32_exp b) 0) as [H0|H0]; [destruct (Z.eqb_spec (f32_frac b) 0) as [Hz|Hz]|].
  - unfold f64_to_f32. destruct (f64_bits_fields (f32_sign b) 0 0) as (->&->&_); [lia..|].
    rewrite Z.eqb_refl. by rewrite H0, Hz in Heq.
  - destruct (Z.log2_spec (f32_frac b)) as [Hl Hu]; [lia|].
    assert (Hk : Z.log2 (f32_frac b) < 23) by (apply Z.log2_lt_pow2; lia).
    pose proof (Z.log2_nonneg (f32_frac b)). rewrite Z.pow_succ_r in Hu by lia.
    set (k := Z.log2 (f32_frac b)) in *.
    assert (Hpk : 2 ^ (52 - k) * 2 ^ k = 2 ^ 52) by (rewrite <-Z.pow_add_r by lia; f_equal; lia).
    unfold f64_to_f32.
    destruct (f64_bits_fields (f32_sign b) (k - 149 + 1023) ((f32_frac b - 2 ^ k) * 2 ^ (52 - k)))
      as (->&->&->); [lia|nia|].
    destruct (Z.eqb_spec (k - 149 + 1023) 0); [lia|].
    destruct (Z.ltb_spec (k - 149 + 1023 - 1023) (-126)); [|lia].
    destruct (Z.ltb_spec (k - 149 + 1023 - 1023) (-151)); [lia|].
    replace (2 ^ 52 + _) with (f32_frac b * 2 ^ (52 - k)) by lia.
    replace (29 + _) with (52 - k) by lia. rewrite rne_exact by lia.
    by rewrite H0 in Heq.
  - unfold f64_to_f32.
    destruct (f64_bits_fields (f32_sign b) (f32_exp b - 127 + 1023) (f32_frac b * 2 ^ 29))
      as (->&->&->); [lia..|].
    destruct (Z.eqb_spec (f32_exp b - 127 + 1023) 0); [lia|].
    destruct (Z.ltb_spec (f32_exp b - 127 + 1023 - 1023) (-126)); [lia|].
    replace (2 ^ 52 + _) with ((2 ^ 23 + f32_frac b) * 2 ^ 29) by lia. rewrite rne_exact by lia.
    etransitivity; [|symmetry; exact Heq]. unfold f32_bits. lia.
Qed.

(** A finite double of at most [FLT_MAX] narrows to a finite float. *)
Lemma f64_to_f32_finite b : is_u64 b → isfinite64 b = true → fabs b ≤ FLT_MAX →
  is_u32 (f64_to_f32 b) ∧ isfinite32 (f64_to_f32 b) = true.
Proof.
  intros Hb Hf Ha. assert (Hs : 0 ≤ f64_sign b < 2) by (unfold f64_sign; mlia).
  assert (Hgen : ∀ m, 0 ≤ m < 255 * 2 ^ 23 →
    is_u32 (f64_sign b * 2 ^ 31 + m) ∧ isfinite32 (f64_sign b * 2 ^ 31 + m) = true).
  { intros m Hm. split; [mlia|]. unfold isfinite32, f32_exp.
    destruct (Z.eqb_spec (((f64_sign b * 2 ^ 31 + m) / 2 ^ 23) `mod` 256) 255); [mlia|done]. }
  assert (Hfr : 0 ≤ f64_frac b < 2 ^ 52) by (unfold f64_frac; mlia).
  unfold f64_to_f32, f32_bits. rewrite !Z.mul_0_l.
  destruct (Z.eqb_spec (f64_exp b) 0); [rewrite <-Z.add_assoc; apply Hgen; lia|].
  destruct (Z.ltb_spec (f64_exp b - 1023) (-126)).
  - destruct (Z.ltb_spec (f64_exp b - 1023) (-151)); rewrite <-Z.add_assoc; apply Hgen; [lia|].
    pose proof (rne_mono_bound (2 ^ 52 + f64_frac b) (29 + (-126 - (f64_exp b - 1023))) 0 (2 ^ 23)) as Hr.
    assert (2 ^ 30 ≤ 2 ^ (29 + (-126 - (f64_exp b - 1023)))) by (apply Z.pow_le_mono_r; lia). lia.
  - assert (Hx : f64_exp b * 2 ^ 52 + f64_frac b ≤ FLT_MAX)
      by (revert Ha; unfold fabs, f64_exp, f64_frac; mlia).
    unfold FLT_MAX, f64_bits in Hx. rewrite <-Z.add_assoc. apply Hgen.
    pose proof (rne_mono_bound (2 ^ 52 + f64_frac b) 29 (2 ^ 23) (2 ^ 24)) as Hr1.
    pose proof (rne_mono_bound (2 ^ 52 + f64_frac b) 29 (2 ^ 23) (2 ^ 24 - 1)) as Hr2. lia.
Qed.
