(* ===== verification/Rows.v ===== *)
(** * Encoded rows (second half of src/core/schema.c)

    Values, the encoder and decoder of one field, [wadb_encode_row],
    [wadb_decode_value] and [wadb_validate_row]. Strings of SYMBOL32 fields are
    replaced by the identifiers of a symbol table, reached through the callbacks
    [wadb_symbol_encode_fn] and [wadb_symbol_decode_fn]; what the row codec needs
    of such a table is the class [SymbolLaws], which Dictionary.v implements. *)

From Stdlib Require Import String.
From stdpp Require Import base numbers list list_numbers sets.
From S2P Require Import Prelude Encoding Utf8 Float Schema.

(** ** Values

    The union member of a [wadb_value] is determined by the field it is for
    (include/wadb.h): it is the constructor here. The three 64-bit members share
    their representation, so reading one through another reinterprets it. The
    [bytes] member is the bytes its pointer and length delimit; mixing it with a
    scalar member breaks the documented contract and reads nothing here. *)

Inductive wadb_value :=
  | VNull
  | VI64 (z : Z)
  | VU64 (z : Z)
  | VF64 (bits : Z)
  | VBytes (data : list Z).

#[global] Instance wadb_value_eq_dec : EqDecision wadb_value.
Proof. solve_decision. Defined.

Definition as_u64 (v : wadb_value) : Z :=
  match v with VI64 z => u64 z | VU64 z => z | VF64 b => b | VNull | VBytes _ => 0 end.
Definition as_i64 (v : wadb_value) : Z :=
  match v with VI64 z => z | _ => i64_of_u64 (as_u64 v) end.
Definition as_f64 (v : wadb_value) : Z := as_u64 v.
Definition as_bytes (v : wadb_value) : list Z := match v with VBytes bs => bs | _ => [] end.

(** ** Symbol tables *)

Definition symbol_encode_fn (S : Type) : Type := Z → list Z → M S Z.
Definition symbol_decode_fn : Type := Z → Z → result (list Z).

Class SymbolTable (S : Type) := {
  sym_intern : symbol_encode_fn S;
  sym_resolve : S → symbol_decode_fn;
}.
(** What a table promises to the row codec: it hands out identifiers that resolve
    to the interned string, and what has resolved keeps resolving. *)
Class SymbolLaws (S : Type) `{!SymbolTable S} (inv : S → Prop) := {
  sym_intern_inv st field s r st' : inv st → sym_intern field s st = (r, st') → inv st';
  sym_intern_ok st field s id st' : inv st → sym_intern field s st = (Ok id, st') →
    is_u32 id ∧ sym_resolve st' field id = Ok s;
  sym_grows st field s r st' f i s' : inv st → sym_intern field s st = (r, st') → is_u32 i →
    sym_resolve st f i = Ok s' → sym_resolve st' f i = Ok s';
}.

(** ** Encoding *)

(** The loop [p[j] = (unsigned char)(u >> (j * 8))] over the width of the field. *)
Definition put_scalar (f : wadb_field) (p : list Z) (o u : Z) : list Z :=
  put_le (Z.to_nat (f_width f)) 0 p o u.

Definition wadb_encode_field {S} (f : wadb_field) (v : wadb_value) (p : list Z) (o : Z)
    (field : Z) (resolve : option (symbol_encode_fn S)) : M S (list Z) :=
  match f_type f with
  | WADB_I8 | WADB_I16 | WADB_I32 | WADB_I64 | WADB_TIMESTAMP_US =>
      let bits := f_width f * 8 in
      let bound := Z.shiftl 1 (bits - 1) in
      if (bits <? 64) && ((as_i64 v <? - bound) || (as_i64 v >=? bound)) then mfail WADB_INVALID
      else mret (put_scalar f p o (u64 (as_i64 v)))
  | WADB_U8 | WADB_U16 | WADB_U32 | WADB_U64 | WADB_BOOL =>
      let u := as_u64 v in
      if ((f_width f <? 8) && (u >=? Z.shiftl 1 (f_width f * 8))) ||
         (bool_decide (f_type f = WADB_BOOL) && (u >? 1)) then mfail WADB_INVALID
      else mret (put_scalar f p o u)
  | WADB_F32 =>
      if negb (isfinite64 (as_f64 v)) || (fabs (as_f64 v) >? FLT_MAX) then mfail WADB_INVALID
      else mret (put_scalar f p o (f64_to_f32 (as_f64 v)))
  | WADB_F64 =>
      if negb (isfinite64 (as_f64 v)) then mfail WADB_INVALID
      else mret (put_scalar f p o (as_f64 v))
  | WADB_UUID | WADB_BYTES =>
      if negb (zlen (as_bytes v) =? f_width f) then mfail WADB_INVALID
      else mret (put p o (as_bytes v))
  | WADB_TEXT =>
      if (zlen (as_bytes v) >? f_size f) || negb (wadb_utf8 (as_bytes v)) then mfail WADB_INVALID
      else mret (put (wadb_put_u32 p o (u32 (zlen (as_bytes v)))) (o + 4) (as_bytes v))
  | WADB_SYMBOL32 =>
      if (zlen (as_bytes v) >? WADB_MAX_STRING_BYTES) || negb (wadb_utf8 (as_bytes v))
      then mfail WADB_INVALID
      else match resolve with
           | None => mfail WADB_INVALID
           | Some resolve =>
               id ← resolve field (as_bytes v);
               if id =? 0 then mfail WADB_INVALID else mret (wadb_put_u32 p o id)
           end
  | WADB_TYPE_OTHER _ => mfail WADB_INVALID
  end.

(** [p[8 + f->null_bit / 8] |= (unsigned char)(1u << (f->null_bit % 8))] *)
Definition set_null (p : list Z) (f : wadb_field) : list Z :=
  let i := 8 + f_null_bit f / 8 in
  wr p i (Z.lor (rd p i) (u8 (Z.shiftl 1 (f_null_bit f `mod` 8)))).

(** The body of the loop of [wadb_encode_row]. *)
Definition encode_value {S} (resolve : option (symbol_encode_fn S)) (f : wadb_field) (i : Z)
    (v : wadb_value) (p : list Z) : M S (list Z) :=
  match v with
  | VNull => if f_nullable f then mret (set_null p f) else mfail WADB_INVALID
  | v => wadb_encode_field f v p (f_offset f) i resolve
  end.

(** The loop over fields [i..] with their values. *)
Fixpoint encode_fields {S} (resolve : option (symbol_encode_fn S)) (fs : list wadb_field) (i : Z)
    (values : list wadb_value) (p : list Z) : M S (list Z) :=
  match fs with
  | [] => mret p
  | f :: fs' =>
      p' ← encode_value resolve f i (hd VNull values) p;
      encode_fields resolve fs' (i + 1) (tl values) p'
  end.

Definition wadb_encode_row {S} (s : wadb_schema) (values : list wadb_value) (time : Z)
    (resolve : option (symbol_encode_fn S)) (row : list Z) : M S (list Z) :=
  if zlen row <? row_width s then mfail WADB_INVALID
  else
    let p := put row 0 (zrep (row_width s) 0) in
    let p := wadb_put_u64 p 0 (u64 time) in
    encode_fields resolve (tl (fields s)) 1 values p.

(** ** Decoding *)

(** [u |= (uint64_t)p[i] << (i * 8)] for [i < n]. *)
Fixpoint get_le (n : nat) (i : Z) (p : list Z) (o u : Z) : Z :=
  match n with
  | O => u
  | S n' => get_le n' (i + 1) p o (Z.lor u (Z.shiftl (rd p (o + i)) (i * 8)))
  end.

Definition null_flag (p : list Z) (f : wadb_field) : bool :=
  negb (Z.land (rd p (8 + f_null_bit f / 8)) (Z.shiftl 1 (f_null_bit f `mod` 8)) =? 0).

(** The switch of [wadb_decode_value] on the bytes at [p + o]. *)
Definition decode_payload (f : wadb_field) (index : Z) (p : list Z) (o : Z)
    (resolve : option symbol_decode_fn) : result wadb_value :=
  let u := if f_width f <=? 8 then get_le (Z.to_nat (f_width f)) 0 p o 0 else 0 in
  match f_type f with
  | WADB_I8 | WADB_I16 | WADB_I32 =>
      let bits := f_width f * 8 in
      Ok (VI64 (if negb (Z.land u (Z.shiftl 1 (bits - 1)) =? 0)
                then -1 - ((Z.shiftl 1 bits - 1) - u) else u))
  | WADB_I64 | WADB_TIMESTAMP_US => Ok (VI64 (wadb_get_i64 p o))
  | WADB_U8 | WADB_U16 | WADB_U32 | WADB_U64 => Ok (VU64 u)
  | WADB_BOOL => if u >? 1 then Err WADB_CORRUPT else Ok (VU64 u)
  | WADB_F32 =>
      if negb (isfinite32 (u32 u)) then Err WADB_CORRUPT else Ok (VF64 (f32_to_f64 (u32 u)))
  | WADB_F64 => if negb (isfinite64 u) then Err WADB_CORRUPT else Ok (VF64 u)
  | WADB_UUID | WADB_BYTES => Ok (VBytes (sub p o (f_width f)))
  | WADB_TEXT =>
      let length := wadb_get_u32 p o in
      if (length >? f_size f) || negb (wadb_utf8 (sub p (o + 4) length)) then Err WADB_CORRUPT
      else Ok (VBytes (sub p (o + 4) length))
  | WADB_SYMBOL32 =>
      match resolve with
      | None => Err WADB_CORRUPT
      | Some resolve => if u =? 0 then Err WADB_CORRUPT else VBytes <$> resolve index (u32 u)
      end
  | WADB_TYPE_OTHER _ => Err WADB_CORRUPT
  end.

Definition wadb_decode_value (s : wadb_schema) (index : Z) (row : list Z)
    (resolve : option symbol_decode_fn) : result wadb_value :=
  match znth (fields s) index with
  | None => Err WADB_INVALID
  | Some f =>
      if (if f_nullable f then null_flag row f else false) then Ok VNull
      else decode_payload f index row (f_offset f) resolve
  end.

(** ** Validation *)

(** Where the bytes of a decoded field that must be zero begin. *)
Definition padding_start (f : wadb_field) (v : wadb_value) : Z :=
  match v with
  | VNull => 0
  | _ => if bool_decide (f_type f = WADB_TEXT) then u32 (4 + u32 (zlen (as_bytes v)))
         else f_width f
  end.

(** The loop of [wadb_validate_row]; the result is the number of nullable fields. *)
Fixpoint validate_fields (s : wadb_schema) (fs : list wadb_field) (i : Z) (p : list Z)
    (resolve : option symbol_decode_fn) (nullable : Z) : result Z :=
  match fs with
  | [] => Ok nullable
  | f :: fs' =>
      v ← wadb_decode_value s i p resolve;
      let start := padding_start f v in
      if negb (zeroes p (f_offset f + start) (f_width f - start)) then Err WADB_CORRUPT
      else validate_fields s fs' (i + 1) p resolve (nullable + Z.b2z (f_nullable f))
  end.

Definition wadb_validate_row (s : wadb_schema) (p : list Z) (resolve : option symbol_decode_fn)
    : result unit :=
  nullable ← validate_fields s (fields s) 0 p resolve 0;
  if negb (nullable `mod` 8 =? 0) &&
     negb (Z.land (rd p (8 + null_bytes s - 1)) (u8 (Z.shiftl 255 (nullable `mod` 8))) =? 0)
  then Err WADB_CORRUPT
  else
    match last (fields s) with
    | None => Ok () (* a schema has at least the time stamp *)
    | Some f =>
        let end_ := u32 (f_offset f + f_width f) in
        if negb (zeroes p end_ (row_width s - end_)) then Err WADB_CORRUPT else Ok ()
    end.

(** ** The bytes of one field *)

Lemma get_le_spec n i p o u :
  bytes p → 0 ≤ i → 0 ≤ o → o + i + Z.of_nat n ≤ zlen p → 0 ≤ u < 2 ^ (i * 8) →
  get_le n i p o u = u + 2 ^ (i * 8) * le_combine (sub p (o + i) (Z.of_nat n)).
Proof.
  intros Hp. revert i u. induction n as [|n IH]; intros i u Hi Ho Hl Hu; cbn [get_le].
  { change (Z.of_nat 0) with 0. rewrite sub_nil. cbn [le_combine]. lia. }
  rewrite lor_shiftl by lia. pose proof (bytes_rd p (o + i) Hp) as Hb. unfold is_u8 in Hb.
  assert (H8 : 2 ^ ((i + 1) * 8) = 2 ^ (i * 8) * 256)
    by (replace ((i + 1) * 8) with (i * 8 + 8) by lia; by rewrite Z.pow_add_r by lia).
  rewrite IH, H8 by (rewrite ?H8; nia).
  replace (Z.of_nat (S n)) with (1 + Z.of_nat n) by lia.
  rewrite (sub_app p (o + i) 1), sub_1 by lia. cbn [app le_combine].
  rewrite Z.add_assoc. ring.
Qed.
Lemma get_le_0 w p o :
  bytes p → 0 ≤ o → 0 ≤ w → o + w ≤ zlen p → get_le (Z.to_nat w) 0 p o 0 = le_combine (sub p o w).
Proof. intros. rewrite get_le_spec by (lia || done). rewrite Z2Nat.id, Z.add_0_r by lia. lia. Qed.

Lemma sign_bit k u : 0 ≤ k → 0 ≤ u < 2 ^ (k + 1) → (Z.land u (Z.shiftl 1 k) =? 0) = (u <? 2 ^ k).
Proof.
  intros Hk Hu. rewrite Z.pow_add_r in Hu by lia. change (2 ^ 1) with 2 in Hu.
  assert (Hone : ∀ x b, 0 ≤ x < 2 ^ k → Z.land (x + Z.b2z b * 2 ^ k) (Z.shiftl 1 k) = Z.b2z b * 2 ^ k).
  { intros x b Hx. rewrite <-lor_shiftl by done. apply Z.bits_inj'. intros n Hn.
    rewrite Z.land_spec, Z.lor_spec, !Z.shiftl_spec, <-Z.shiftl_mul_pow2, Z.shiftl_spec by done.
    destruct (decide (n = k)) as [->|].
    - rewrite Z.sub_diag. rewrite <-(Z.mod_small x (2 ^ k)), Z.testbit_mod_pow2 by done.
      rewrite Z.ltb_irrefl. by destruct b.
    - destruct (decide (n < k)); [rewrite !(Z.testbit_neg_r _ (n - k)) by lia; apply andb_false_r|].
      assert (∀ c : bool, Z.testbit (Z.b2z c) (n - k) = false) as Hc.
      { intros c. rewrite Z.bits_above_log2; [done|destruct c; cbn; lia|destruct c; cbn; lia]. }
      rewrite (Hc true : Z.testbit 1 (n - k) = false), (Hc b). apply andb_false_r. }
  destruct (Z.ltb_spec u (2 ^ k)).
  - specialize (Hone u false ltac:(lia)). cbn [Z.b2z] in Hone. rewrite Z.mul_0_l, Z.add_0_r in Hone.
    by rewrite Hone.
  - specialize (Hone (u - 2 ^ k) true ltac:(lia)). cbn [Z.b2z] in Hone.
    replace (u - 2 ^ k + 1 * 2 ^ k) with u in Hone by lia. rewrite Hone.
    destruct (Z.eqb_spec (1 * 2 ^ k) 0); [lia|done].
Qed.

(** The two's-complement reading of [bits] bits, as [wadb_decode_value] computes it. *)
Definition sign_extend (bits u : Z) : Z :=
  if negb (Z.land u (Z.shiftl 1 (bits - 1)) =? 0) then -1 - ((Z.shiftl 1 bits - 1) - u) else u.
Lemma sign_extend_eq bits u : 1 ≤ bits → 0 ≤ u < 2 ^ bits →
  sign_extend bits u = if u <? 2 ^ (bits - 1) then u else u - 2 ^ bits.
Proof.
  intros. unfold sign_extend. rewrite sign_bit by (rewrite ?Z.sub_add; lia).
  rewrite Z.shiftl_mul_pow2 by lia. destruct (u <? _); cbn [negb]; lia.
Qed.
Lemma pow_split bits : 1 ≤ bits → 2 ^ bits = 2 * 2 ^ (bits - 1).
Proof. intros. rewrite <-Z.pow_succ_r by lia. f_equal. lia. Qed.
Lemma sign_extend_mod bits z : 1 ≤ bits → - 2 ^ (bits - 1) ≤ z < 2 ^ (bits - 1) →
  sign_extend bits (z `mod` 2 ^ bits) = z.
Proof.
  intros Hb Hz. rewrite sign_extend_eq by (try apply Z.mod_pos_bound; lia).
  rewrite (pow_split bits) in * by done.
  destruct (decide (0 ≤ z)).
  - rewrite Z.mod_small by lia. destruct (Z.ltb_spec z (2 ^ (bits - 1))); lia.
  - replace (z `mod` (2 * 2 ^ (bits - 1))) with (z + 2 * 2 ^ (bits - 1)).
    + destruct (Z.ltb_spec (z + 2 * 2 ^ (bits - 1)) (2 ^ (bits - 1))); lia.
    + apply (Z.mod_unique_pos _ _ (-1)); lia.
Qed.
Lemma sign_extend_inj bits u u' : 1 ≤ bits → 0 ≤ u < 2 ^ bits → 0 ≤ u' < 2 ^ bits →
  sign_extend bits u = sign_extend bits u' → u = u'.
Proof.
  intros ???. rewrite !sign_extend_eq by done.
  destruct (Z.ltb_spec u (2 ^ (bits - 1))), (Z.ltb_spec u' (2 ^ (bits - 1))); lia.
Qed.

(** The contract of include/wadb.h on the union member of a value. *)
Definition signed_type (t : wadb_type) : bool :=
  match t with WADB_I8 | WADB_I16 | WADB_I32 | WADB_I64 | WADB_TIMESTAMP_US => true | _ => false end.
Definition unsigned_type (t : wadb_type) : bool :=
  match t with WADB_U8 | WADB_U16 | WADB_U32 | WADB_U64 | WADB_BOOL => true | _ => false end.
Definition float_type (t : wadb_type) : bool :=
  match t with WADB_F32 | WADB_F64 => true | _ => false end.
Definition bytes_type (t : wadb_type) : bool :=
  match t with WADB_UUID | WADB_BYTES | WADB_TEXT | WADB_SYMBOL32 => true | _ => false end.
Definition value_for (f : wadb_field) (v : wadb_value) : Prop :=
  match v with
  | VNull => True
  | VI64 z => signed_type (f_type f) = true ∧ is_i64 z
  | VU64 z => unsigned_type (f_type f) = true ∧ is_u64 z
  | VF64 b => float_type (f_type f) = true ∧ is_u64 b
  | VBytes bs => bytes_type (f_type f) = true ∧ bytes bs
  end.

(** What a field stores of a value: 32-bit floats round it, everything else keeps it. *)
Definition stored (f : wadb_field) (v : wadb_value) : wadb_value :=
  match f_type f, v with
  | WADB_F32, VF64 b => VF64 (f32_to_f64 (f64_to_f32 b))
  | _, _ => v
  end.

Definition field_wf (f : wadb_field) : Prop :=
  known_type (f_type f) = true ∧
  (if sized_type (f_type f) then 0 < f_size f ≤ WADB_MAX_ROW_BYTES else f_size f = 0) ∧
  f_width f = type_width (f_type f) (f_size f).
Lemma field_wf_valid f :
  valid_def (def_of f) → f_width f = type_width (f_type f) (f_size f) → field_wf f.
Proof. by intros (_&_&?&?) ?. Qed.
Lemma field_wf_width f : field_wf f → 0 < f_width f ≤ WADB_MAX_ROW_BYTES + 4.
Proof. intros (?&?&->). by apply type_width_pos. Qed.
Lemma time_field_wf : field_wf time_field.
Proof. done. Qed.

(** The bytes [b] of a field that is not null hold [v], the padding included. *)
Definition field_holds (f : wadb_field) (i : Z) (b : list Z) (resolve : option symbol_decode_fn)
    (v : wadb_value) : Prop :=
  zlen b = f_width f ∧ bytes b ∧ v ≠ VNull ∧ decode_payload f i b 0 resolve = Ok v ∧
  sub b (padding_start f v) (f_width f - padding_start f v) = zrep (f_width f - padding_start f v) 0.

Definition padded (f : wadb_field) (bs : list Z) : list Z := bs ++ zrep (f_width f - zlen bs) 0.

Lemma bytes_0 n : bytes (zrep n 0).
Proof. apply bytes_zrep. unfold is_u8. lia. Qed.
#[export] Hint Resolve bytes_0 : wadb.
Lemma padded_full f bs : zlen bs = f_width f → padded f bs = bs.
Proof. intros H. unfold padded. rewrite H, Z.sub_diag. apply app_nil_r. Qed.

(** A field whose bytes are all significant. *)
Lemma field_holds_full f i bs resolve v :
  zlen bs = f_width f → bytes bs → f_type f ≠ WADB_TEXT → v ≠ VNull →
  decode_payload f i bs 0 resolve = Ok v → field_holds f i (padded f bs) resolve v.
Proof.
  intros Hl Hb Ht Hn Hd. rewrite padded_full by done. split_and!; try done.
  unfold padding_start. destruct v; [done|..]; rewrite bool_decide_eq_false_2 by done;
    rewrite Z.sub_diag; done.
Qed.

Lemma put_scalar_spec f p o u : 0 ≤ o → put_scalar f p o u = put p o (le_split (Z.to_nat (f_width f)) u).
Proof. intros. unfold put_scalar. rewrite put_le_spec, Z.add_0_r by lia. done. Qed.
Lemma get_le_split n u : get_le n 0 (le_split n u) 0 0 = u `mod` 256 ^ Z.of_nat n.
Proof.
  rewrite <-(Nat2Z.id n) at 1. rewrite get_le_0 by (auto with wadb || len).
  rewrite sub_all by len. apply le_combine_split.
Qed.

(** A signed integer inside the range test of a [w]-byte field survives the field. *)
Lemma signed_word w z : 1 ≤ w < 8 →
  (w * 8 <? 64) && ((z <? - Z.shiftl 1 (w * 8 - 1)) || (z >=? Z.shiftl 1 (w * 8 - 1))) = false →
  sign_extend (w * 8) (u64 z `mod` 256 ^ w) = z.
Proof.
  intros Hw. destruct (Z.ltb_spec (w * 8) 64); [|lia]. cbn [andb].
  rewrite Z.geb_leb, orb_false_iff, Z.ltb_ge, Z.leb_gt, Z.shiftl_mul_pow2, Z.mul_1_l by lia. intros ?.
  change 256 with (2 ^ 8). rewrite <-Z.pow_mul_r, (Z.mul_comm 8) by lia.
  unfold u64. change 18446744073709551616 with (2 ^ 64). rewrite Z.mod_mod_divide.
  - apply sign_extend_mod; lia.
  - exists (2 ^ (64 - w * 8)). rewrite <-Z.pow_add_r by lia. f_equal. lia.
Qed.
(** An unsigned integer inside the range test of a [w]-byte field does not wrap. *)
Lemma unsigned_word w u : 1 ≤ w ≤ 8 → is_u64 u → (w <? 8) && (u >=? Z.shiftl 1 (w * 8)) = false →
  u `mod` 256 ^ w = u.
Proof.
  intros Hw Hu. rewrite Z.shiftl_mul_pow2, Z.mul_1_l, Z.geb_leb, andb_false_iff, Z.ltb_ge, Z.leb_gt by lia.
  change 256 with (2 ^ 8). rewrite <-Z.pow_mul_r, (Z.mul_comm 8) by lia. intros Hr.
  apply Z.mod_small. split; [mlia|]. destruct Hr as [Hr|Hr]; [|done].
  replace w with 8 by lia. mlia.
Qed.

Section encode_field.
Context {S : Type} `{!SymbolTable S} {inv : S → Prop} `{!SymbolLaws S inv}.
Context (f : wadb_field) (i : Z) (Hwf : field_wf f).

(** A scalar field whose little-endian image [u] decodes to [v]. *)
Lemma encode_scalar p o u v resolve :
  0 ≤ o → 0 ≤ f_width f → f_type f ≠ WADB_TEXT → v ≠ VNull →
  decode_payload f i (le_split (Z.to_nat (f_width f)) u) 0 resolve = Ok v →
  ∃ bs, put_scalar f p o u = put p o bs ∧ bytes bs ∧ zlen bs ≤ f_width f ∧
    field_holds f i (padded f bs) resolve v.
Proof using.
  intros. exists (le_split (Z.to_nat (f_width f)) u).
  assert (zlen (le_split (Z.to_nat (f_width f)) u) = f_width f) by len.
  split_and!; [by apply put_scalar_spec|auto with wadb|lia|].
  apply field_holds_full; auto with wadb.
Qed.

Lemma decode_le_split u resolve :
  0 ≤ f_width f ≤ 8 → f_type f ≠ WADB_TEXT → bytes_type (f_type f) = false →
  f_type f ≠ WADB_I64 → f_type f ≠ WADB_TIMESTAMP_US →
  decode_payload f i (le_split (Z.to_nat (f_width f)) u) 0 resolve =
  let u' := u `mod` 256 ^ f_width f in
  match f_type f with
  | WADB_I8 | WADB_I16 | WADB_I32 => Ok (VI64 (sign_extend (f_width f * 8) u'))
  | WADB_U8 | WADB_U16 | WADB_U32 | WADB_U64 => Ok (VU64 u')
  | WADB_BOOL => if u' >? 1 then Err WADB_CORRUPT else Ok (VU64 u')
  | WADB_F32 =>
      if negb (isfinite32 (u32 u')) then Err WADB_CORRUPT else Ok (VF64 (f32_to_f64 (u32 u')))
  | WADB_F64 => if negb (isfinite64 u') then Err WADB_CORRUPT else Ok (VF64 u')
  | _ => Err WADB_CORRUPT
  end.
Proof using.
  intros Hw ????. unfold decode_payload. rewrite get_le_split, Z2Nat.id by lia.
  destruct (Z.leb_spec (f_width f) 8); [|lia]. by destruct (f_type f).
Qed.

(** The result of [wadb_encode_field] on a buffer [p] at offset [o]. *)
Definition encoded (p : list Z) (o : Z) (p' : list Z) (st' : S) (v : wadb_value) : Prop :=
  ∃ bs, p' = put p o bs ∧ bytes bs ∧ zlen bs ≤ f_width f ∧
    field_holds f i (padded f bs) (Some (sym_resolve st')) (stored f v).

Lemma encode_signed v p o st p' st' :
  signed_type (f_type f) = true → value_for f v → v ≠ VNull → 0 ≤ o →
  wadb_encode_field f v p o i (Some sym_intern) st = (Ok p', st') →
  st' = st ∧ encoded p o p' st' v.
Proof using Hwf.
  destruct Hwf as (_&_&Hw). intros Ht Hv Hn Ho. unfold wadb_encode_field, mfail.
  assert (∃ z, v = VI64 z ∧ is_i64 z) as (z&->&Hz)
    by (destruct v; try done; cbn in Hv; destruct Hv, (f_type f); try done; eauto).
  cbn [as_i64]. destruct (f_type f) eqn:Hty; try done; cbn in Hw; rewrite ?Hw.
  all: destruct (_ && _) eqn:Hr; [done|]; intros [= <- <-]; split; [done|].
  all: apply encode_scalar; rewrite ?Hty; try done; [lia|unfold stored; by rewrite Hty|].
  all: unfold stored; rewrite Hty.
  1-3: rewrite decode_le_split by (rewrite ?Hty; done || lia).
  1-3: rewrite Hty, Hw; do 2 f_equal; apply signed_word; done.
  all: unfold decode_payload; rewrite Hty, Hw; do 2 f_equal.
  all: rewrite get_i64_u64, get_u64_le, sub_all, le_u64, u64_id by (auto with wadb || len; apply u64_range).
  all: by apply i64_of_u64_u64.
Qed.

Lemma encode_unsigned v p o st p' st' :
  unsigned_type (f_type f) = true → value_for f v → v ≠ VNull → 0 ≤ o →
  wadb_encode_field f v p o i (Some sym_intern) st = (Ok p', st') →
  st' = st ∧ encoded p o p' st' v.
Proof using Hwf.
  destruct Hwf as (_&_&Hw). intros Ht Hv Hn Ho. unfold wadb_encode_field, mfail.
  assert (∃ z, v = VU64 z ∧ is_u64 z) as (z&->&Hz)
    by (destruct v; try done; cbn in Hv; destruct Hv, (f_type f); try done; eauto).
  cbn [as_u64]. destruct (f_type f) eqn:Hty; try done; cbn in Hw; rewrite ?Hw.
  all: destruct (_ || _) eqn:Hr; [done|]; intros [= <- <-]; split; [done|].
  all: apply orb_false_iff in Hr as [Hr Hr2].
  all: apply encode_scalar; rewrite ?Hty; try done; [lia|unfold stored; by rewrite Hty|].
  all: unfold stored; rewrite Hty; apply unsigned_word in Hr; [|lia|done].
  all: rewrite decode_le_split, Hty, Hw by (rewrite ?Hty; done || lia); cbv zeta; rewrite Hr; try done.
  rewrite bool_decide_eq_true_2 in Hr2 by done. cbn [andb] in Hr2. by rewrite Hr2.
Qed.

Lemma encode_float v p o st p' st' :
  float_type (f_type f) = true → value_for f v → v ≠ VNull → 0 ≤ o →
  wadb_encode_field f v p o i (Some sym_intern) st = (Ok p', st') →
  st' = st ∧ encoded p o p' st' v.
Proof using Hwf.
  destruct Hwf as (_&_&Hw). intros Ht Hv Hn Ho. unfold wadb_encode_field, mfail.
  assert (∃ z, v = VF64 z ∧ is_u64 z) as (z&->&Hz)
    by (destruct v; try done; cbn in Hv; destruct Hv, (f_type f); try done; eauto).
  unfold as_f64. cbn [as_u64]. destruct (f_type f) eqn:Hty; try done; cbn in Hw.
  - destruct (isfinite64 z) eqn:Hf; [|done]. cbn [negb orb].
    destruct (Z.gtb_spec (fabs z) FLT_MAX) as [|Ha]; [done|]. intros [= <- <-]. split; [done|].
    destruct (f64_to_f32_finite z Hz Hf Ha) as [Hr Hf32].
    apply encode_scalar; rewrite ?Hty; try done; [lia|unfold stored; by rewrite Hty|].
    rewrite decode_le_split, Hty, Hw by (rewrite ?Hty; done || lia).
    cbv zeta. change (256 ^ 4) with 4294967296. fold (u32 (f64_to_f32 z)).
    rewrite !(u32_id (f64_to_f32 z)), Hf32 by done. unfold stored. by rewrite Hty.
  - destruct (isfinite64 z) eqn:Hf; [|done]. cbn [negb].
    intros [= <- <-]. split; [done|].
    apply encode_scalar; rewrite ?Hty; try done; [lia|unfold stored; by rewrite Hty|].
    rewrite decode_le_split, Hty, Hw by (rewrite ?Hty; done || lia).
    cbv zeta. change (256 ^ 8) with 18446744073709551616. fold (u64 z).
    rewrite (u64_id z), Hf by done. unfold stored. by rewrite Hty.
Qed.

Lemma encode_bytes v p o st p' st' :
  bytes_type (f_type f) = true → value_for f v → v ≠ VNull → 0 ≤ o → o + f_width f ≤ zlen p → inv st →
  wadb_encode_field f v p o i (Some sym_intern) st = (Ok p', st') →
  encoded p o p' st' v.
Proof using Hwf SymbolLaws0.
  destruct Hwf as (_&Hsz&Hw). intros Ht Hv Hn Ho Hp Hinv.
  unfold wadb_encode_field, mfail.
  assert (∃ z, v = VBytes z ∧ bytes z) as (bs&->&Hb)
    by (destruct v; try done; cbn in Hv; destruct Hv, (f_type f); try done; eauto).
  cbn [as_bytes]. pose proof (zlen_nonneg bs).
  destruct (f_type f) eqn:Hty; try done; cbn in Hw, Hsz; unfold WADB_MAX_ROW_BYTES in *.
  1,2: destruct (Z.eqb_spec (zlen bs) (f_width f)) as [Hl|]; [|done]; intros [= <- <-];
    exists bs; split_and!; [done..|lia|]; apply field_holds_full; rewrite ?Hty; try done;
    [unfold stored; by rewrite Hty|];
    unfold decode_payload, stored; rewrite Hty, sub_all by done; done.
  - rewrite u32_id in Hw by mlia.
    destruct (Z.gtb_spec (zlen bs) (f_size f)); [done|]. cbn [orb].
    destruct (wadb_utf8 bs) eqn:Hu; [|done]. intros [= <- <-]. rewrite u32_id by mlia.
    exists (le_split 4 (zlen bs) ++ bs). rewrite put_u32_spec by lia. split_and!.
    + rewrite (put_app p o) by len. by rewrite zlen_le_split.
    + auto with wadb.
    + len.
    + assert (Hzl : zlen (padded f (le_split 4 (zlen bs) ++ bs)) = f_width f)
        by (unfold padded; len; rewrite zlen_zrep; len).
      assert (Hbp : bytes (padded f (le_split 4 (zlen bs) ++ bs)))
        by (unfold padded; auto with wadb).
      unfold stored. rewrite Hty. split_and!; [done..| |].
      * unfold decode_payload. rewrite Hty, get_u32_le by (done || lia).
        unfold padded. rewrite <-app_assoc, sub_app_l, sub_all, le_u32, u32_id by (len; mlia).
        rewrite sub_app_r, zlen_le_split, sub_app_l, sub_all by (rewrite ?zlen_le_split; lia).
        rewrite Hu. destruct (Z.gtb_spec (zlen bs) (f_size f)); [lia|done].
      * unfold padding_start. rewrite bool_decide_eq_true_2 by done. cbn [as_bytes].
        rewrite (u32_id (zlen bs)), u32_id by mlia. unfold padded.
        rewrite sub_app_r, sub_zrep by len. done.
  - destruct (Z.gtb_spec (zlen bs) WADB_MAX_STRING_BYTES); [done|]. cbn [orb].
    destruct (wadb_utf8 bs) eqn:Hu; [|done]. cbn [negb mbind M_bind].
    unfold mbind, M_bind. destruct (sym_intern i bs st) as [[id|] st1] eqn:Hi; [|done].
    destruct (Z.eqb_spec id 0) as [|Hid]; [done|]. intros [= <- <-].
    destruct (sym_intern_ok _ _ _ _ _ Hinv Hi) as [Hr Hres].
    exists (le_split 4 id). rewrite put_u32_spec by lia. split_and!; [done|auto with wadb|len|].
    apply field_holds_full; [len|auto with wadb|by rewrite Hty|unfold stored; by rewrite Hty|].
    unfold decode_payload, stored. rewrite Hty, Hw. change (Z.to_nat 4) with 4%nat.
    rewrite get_le_split. change (256 ^ Z.of_nat 4) with 4294967296. fold (u32 id).
    change (4 <=? 8) with true. cbv iota zeta. rewrite !(u32_id id), (proj2 (Z.eqb_neq id 0)) by done.
    by rewrite Hres.
Qed.

Lemma encode_field_ok v p o st p' st' :
  value_for f v → v ≠ VNull → 0 ≤ o → o + f_width f ≤ zlen p → inv st →
  wadb_encode_field f v p o i (Some sym_intern) st = (Ok p', st') →
  inv st' ∧ encoded p o p' st' v.
Proof using Hwf SymbolLaws0.
  intros Hv Hn Ho Hl Hinv He.
  assert (Hk : known_type (f_type f) = true) by apply Hwf.
  destruct (bytes_type (f_type f)) eqn:Hb.
  { split; [|by eapply encode_bytes]. revert He. unfold wadb_encode_field.
    destruct (f_type f); try done; cbn [mbind M_bind mret M_ret mfail];
      repeat match goal with |- context [if ?c then _ else _] => destruct c end;
      try (intros [= <- <-]; done).
    unfold mbind, M_bind, mfail. destruct (sym_intern _ _ st) as [[id|] st1] eqn:Hi; [|done].
    destruct (id =? 0); [done|]. intros [= <- <-]. by eapply sym_intern_inv. }
  assert (st' = st ∧ encoded p o p' st' v) as [-> ?]; [|done].
  destruct (signed_type (f_type f)) eqn:?; [by eapply encode_signed|].
  destruct (unsigned_type (f_type f)) eqn:?; [by eapply encode_unsigned|].
  destruct (float_type (f_type f)) eqn:?; [by eapply encode_float|].
  by destruct (f_type f).
Qed.
End encode_field.

(** ** The null bitmap *)

Definition nullbit (p : list Z) (n : Z) : bool := Z.testbit (rd p (8 + n / 8)) (n `mod` 8).

Lemma land_bit x k : 0 ≤ k → negb (Z.land x (Z.shiftl 1 k) =? 0) = Z.testbit x k.
Proof.
  intros Hk. rewrite Z.shiftl_1_l. destruct (Z.testbit x k) eqn:Ht.
  - apply negb_true_iff, Z.eqb_neq. intros H0.
    assert (H : Z.testbit (Z.land x (2 ^ k)) k = false) by (rewrite H0; apply Z.bits_0).
    rewrite Z.land_spec, Ht, Z.pow2_bits_true in H by done. done.
  - apply negb_false_iff, Z.eqb_eq. apply Z.bits_inj'. intros n Hn.
    rewrite Z.land_spec, Z.bits_0, Z.pow2_bits_eqb by done.
    destruct (Z.eqb_spec k n) as [->|]; [by rewrite Ht|apply andb_false_r].
Qed.
Lemma null_flag_nullbit p f : null_flag p f = nullbit p (f_null_bit f).
Proof. apply land_bit. mlia. Qed.

Section set_null.
Context (p : list Z) (f : wadb_field).
Hypothesis (Hbit : 0 ≤ f_null_bit f) (Hlen : 8 + f_null_bit f / 8 < zlen p) (Hp : bytes p).

Lemma one_bit_u8 : u8 (Z.shiftl 1 (f_null_bit f `mod` 8)) = Z.shiftl 1 (f_null_bit f `mod` 8).
Proof using.
  apply u8_id. rewrite Z.shiftl_1_l. unfold is_u8.
  pose proof (Z.pow_le_mono_r 2 (f_null_bit f `mod` 8) 7). mlia.
Qed.
Lemma bytes_set_null : bytes (set_null p f).
Proof using Hp.
  apply bytes_wr; [done|]. pose proof (bytes_rd p (8 + f_null_bit f / 8) Hp) as Hb.
  pose proof (u8_range (Z.shiftl 1 (f_null_bit f `mod` 8))) as Hu.
  by apply (lor_range _ _ 8).
Qed.
Lemma zlen_set_null : zlen (set_null p f) = zlen p.
Proof using. apply zlen_wr. Qed.
Lemma rd_set_null j : 0 ≤ j → j ≠ 8 + f_null_bit f / 8 → rd (set_null p f) j = rd p j.
Proof using Hbit. intros. apply rd_wr_ne; [mlia|lia|lia]. Qed.
Lemma nullbit_set_null n : 0 ≤ n →
  nullbit (set_null p f) n = bool_decide (n = f_null_bit f) || nullbit p n.
Proof using Hbit Hlen.
  intros Hn. unfold nullbit. destruct (decide (n / 8 = f_null_bit f / 8)) as [He|He].
  - rewrite He. unfold set_null. rewrite rd_wr_eq by mlia. rewrite one_bit_u8, Z.lor_spec, Z.shiftl_1_l.
    rewrite Z.pow2_bits_eqb by mlia. rewrite orb_comm. f_equal.
    case_bool_decide as Hd; [rewrite Hd; apply Z.eqb_refl|].
    apply Z.eqb_neq. mlia.
  - rewrite rd_set_null by mlia. by rewrite bool_decide_eq_false_2 by congruence.
Qed.
End set_null.

(** ** A whole row *)

(** Bytes [b] of field [f] and its null flag hold [v]. *)
Definition row_holds (p : list Z) (f : wadb_field) (i : Z) (resolve : option symbol_decode_fn)
    (v : wadb_value) : Prop :=
  match v with
  | VNull => f_nullable f = true ∧ nullbit p (f_null_bit f) = true ∧
      sub p (f_offset f) (f_width f) = zrep (f_width f) 0
  | _ => (f_nullable f = true → nullbit p (f_null_bit f) = false) ∧
      field_holds f i (sub p (f_offset f) (f_width f)) resolve v
  end.

Definition grows (r r' : symbol_decode_fn) : Prop :=
  ∀ f i s, is_u32 i → r f i = Ok s → r' f i = Ok s.

Lemma decode_payload_grows f i b o r r' v :
  grows r r' → decode_payload f i b o (Some r) = Ok v → decode_payload f i b o (Some r') = Ok v.
Proof.
  intros Hg. unfold decode_payload. destruct (f_type f); try done. destruct (_ =? 0); [done|].
  destruct (r i _) eqn:Hr; [|done]. by rewrite (Hg _ _ _ (u32_range _) Hr).
Qed.
Lemma row_holds_grows p f i r r' v :
  grows r r' → row_holds p f i (Some r) v → row_holds p f i (Some r') v.
Proof.
  intros Hg. destruct v; [done|..]; (intros (?&?&?&?&?&?); split; [done|]; split_and!; try done;
    by eapply decode_payload_grows).
Qed.
(** [row_holds] looks at the bytes of the field and at its null bit only. *)
Lemma row_holds_agree p p' f i r v :
  0 ≤ f_offset f → 0 ≤ f_width f → f_offset f + f_width f ≤ zlen p → zlen p' = zlen p →
  (∀ j, f_offset f ≤ j < f_offset f + f_width f → rd p' j = rd p j) →
  (f_nullable f = true → nullbit p' (f_null_bit f) = nullbit p (f_null_bit f)) →
  row_holds p f i r v → row_holds p' f i r v.
Proof.
  intros Ho Hw Hl Hlen Hrd Hnb.
  assert (Hs : sub p' (f_offset f) (f_width f) = sub p (f_offset f) (f_width f)).
  { apply list_eq_rd; [by len|]. intros j Hj. rewrite zlen_sub in Hj by lia.
    rewrite !rd_sub by lia. apply Hrd. lia. }
  unfold row_holds. rewrite Hs. destruct v; intros H; destruct (f_nullable f); naive_solver congruence.
Qed.

Section encode_row.
Context {S : Type} `{!SymbolTable S} {inv : S → Prop} `{!SymbolLaws S inv}.
Context (nb : Z).

(** What the encoder of one field leaves behind. *)
Lemma encode_one f i b v p st p' st' :
  field_wf f → f_null_bit f = (if f_nullable f then b else UINT32_MAX) →
  8 + nb ≤ f_offset f → 0 ≤ b → b + Z.b2z (f_nullable f) ≤ 8 * nb → 0 < f_width f →
  f_offset f + f_width f ≤ zlen p →
  bytes p → (∀ j, f_offset f ≤ j < f_offset f + f_width f → rd p j = 0) →
  (f_nullable f = true → nullbit p b = false) → value_for f v → inv st →
  encode_value (Some sym_intern) f i v p st = (Ok p', st') →
  inv st' ∧ zlen p' = zlen p ∧ bytes p' ∧
  (∀ j, 0 ≤ j < 8 ∨ 8 + nb ≤ j < f_offset f ∨ f_offset f + f_width f ≤ j → rd p' j = rd p j) ∧
  (∀ n, 0 ≤ n < 8 * nb → (f_nullable f = true → n ≠ b) → nullbit p' n = nullbit p n) ∧
  row_holds p' f i (Some (sym_resolve st')) (stored f v).
Proof using SymbolLaws0.
  intros Hwf Hbit Ho Hb Hnb Hw Hlen Hp Hz Hfree Hv Hinv.
  assert (0 ≤ nb) by (destruct (f_nullable f); cbn [Z.b2z] in Hnb; lia).
  destruct (decide (v = VNull)) as [->|Hne].
  - cbn [encode_value]. destruct (f_nullable f) eqn:Hn; [|done]. cbn [Z.b2z] in Hnb. intros [= <- <-].
    assert (8 + f_null_bit f / 8 < zlen p) by mlia.
    rewrite zlen_set_null. split_and!; [done|done|by apply bytes_set_null| | |].
    + intros j Hj. apply rd_set_null; mlia.
    + intros n Hn' Hnb'. rewrite nullbit_set_null by lia.
      by rewrite bool_decide_eq_false_2 by (rewrite Hbit; auto).
    + unfold stored. assert (row_holds (set_null p f) f i (Some (sym_resolve st)) VNull).
      { split_and!; [done| |].
        - rewrite nullbit_set_null by lia. by rewrite bool_decide_eq_true_2.
        - apply list_eq_rd; [rewrite zlen_sub by (rewrite ?zlen_set_null; lia); len|].
          intros j Hj. rewrite zlen_sub in Hj by (rewrite ?zlen_set_null; lia).
          rewrite rd_sub, rd_set_null, Hz by mlia. by rewrite rd_zrep. }
      by destruct (f_type f).
  - intros He. assert (He' : wadb_encode_field f v p (f_offset f) i (Some sym_intern) st = (Ok p', st'))
      by (by destruct v). clear He.
    destruct (encode_field_ok f i Hwf v p (f_offset f) st p' st') as (Hi'&bs&->&Hbs&Hl&Hh); [done|done|lia|lia|done|done|].
    pose proof (zlen_nonneg bs).
    assert (Hnbit : ∀ n, 0 ≤ n < 8 * nb → nullbit (put p (f_offset f) bs) n = nullbit p n)
      by (intros n ?; unfold nullbit; rewrite rd_put_ne by mlia; done).
    split_and!; [done|by len|auto with wadb| |by intros; apply Hnbit|].
    + intros j Hj. apply rd_put_ne; lia.
    + assert (Hs : sub (put p (f_offset f) bs) (f_offset f) (f_width f) = padded f bs).
      { unfold padded. replace (f_width f) with (zlen bs + (f_width f - zlen bs)) at 1 by lia.
        rewrite sub_app by lia. f_equal; [apply sub_put_eq; lia|].
        rewrite sub_put_ne by lia. apply list_eq_rd; [rewrite zlen_sub, zlen_zrep; lia|].
        intros j Hj. rewrite zlen_sub in Hj by lia. rewrite rd_sub, Hz by lia. by rewrite rd_zrep. }
      assert (Hsv : stored f v ≠ VNull) by (unfold stored; destruct (f_type f), v; done).
      unfold row_holds. rewrite Hs. destruct (stored f v); [done|..];
        (split; [|done]; intros Hn; rewrite Hnbit; [rewrite Hbit, Hn; auto|rewrite Hbit, Hn in *; cbn in *; lia]).
Qed.

Lemma encode_one_grows f i v p st r st' : inv st →
  encode_value (Some sym_intern) f i v p st = (r, st') → grows (sym_resolve st) (sym_resolve st').
Proof using SymbolLaws0.
  intros Hinv H. assert (Hcase : st' = st ∨ ∃ s r', sym_intern i s st = (r', st')).
  { revert H. unfold encode_value. destruct v; [destruct (f_nullable f); intros [= <- <-]; eauto|..];
      unfold wadb_encode_field, mbind, M_bind, mfail, mret, M_ret; destruct (f_type f);
      repeat match goal with |- context [if ?c then _ else _] => destruct c end;
      try (intros [= <- <-]; by left).
    all: destruct (sym_intern _ _ st) as [[id|] st1] eqn:Hi; [|intros [= <- <-]; eauto].
    all: destruct (id =? 0); intros [= <- <-]; eauto. }
  destruct Hcase as [->|(s&r'&Hi)]; [by intros ????|]. intros ????. by eapply sym_grows.
Qed.

Lemma encode_fields_ok o b fs o' b' i values p st p' st' :
  packed o b fs o' b' → 8 + nb ≤ o → 0 ≤ b → b' ≤ 8 * nb → o' ≤ zlen p → bytes p →
  (∀ j, o ≤ j < o' → rd p j = 0) → (∀ n, b ≤ n < b' → nullbit p n = false) →
  Forall2 value_for fs values → inv st →
  encode_fields (Some sym_intern) fs i values p st = (Ok p', st') →
  inv st' ∧ grows (sym_resolve st) (sym_resolve st') ∧ zlen p' = zlen p ∧ bytes p' ∧
  (∀ j, 0 ≤ j < 8 ∨ 8 + nb ≤ j < o ∨ o' ≤ j → rd p' j = rd p j) ∧
  (∀ n, 0 ≤ n < 8 * nb → n < b ∨ b' ≤ n → nullbit p' n = nullbit p n) ∧
  (∀ k f v, fs !! k = Some f → values !! k = Some v →
     row_holds p' f (i + Z.of_nat k) (Some (sym_resolve st')) (stored f v)).
Proof using SymbolLaws0.
  intros Hpk. revert i values p st.
  induction Hpk as [o b|o b f fs o' b' Hv Hw Ho Hbit Hpk IH];
    intros i values p st Hnb Hb Hb' Hlen Hp Hz Hfree Hvals Hinv.
  { inversion_clear Hvals. intros [= <- <-]. split_and!; try done. by intros ????. }
  inversion_clear Hvals as [|? v ? vs Hvf Hvs]. cbn [encode_fields hd tl]. unfold mbind, M_bind.
  pose proof (packed_mono _ _ _ _ _ Hpk) as [Hoo Hbb].
  assert (0 < f_width f) by (rewrite Hw; apply (valid_def_width _ Hv)).
  assert (Hb2 : f_nullable f = true ∧ Z.b2z (f_nullable f) = 1 ∨
                f_nullable f = false ∧ Z.b2z (f_nullable f) = 0)
    by (destruct (f_nullable f); auto).
  destruct (encode_value _ f i v p st) as [[p1|] st1] eqn:He1; [|done].
  pose proof (encode_one_grows _ _ _ _ _ _ _ Hinv He1) as Hg1.
  destruct (encode_one f i b v p st p1 st1) as (Hi1&Hl1&Hp1&Hrd1&Hnb1&Hh1);
    [by apply field_wf_valid|done|lia|lia|lia|done|lia|done| | |done|done|done|].
  { intros j Hj. apply Hz. lia. }
  { intros Hn. apply Hfree. destruct Hb2 as [[? ?]|[? ?]]; [lia|congruence]. }
  intros He2.
  destruct (IH (i + 1) vs p1 st1) as (Hi2&Hg2&Hl2&Hp2&Hrd2&Hnb2&Hh2); [lia..|done| | |done|done|done|].
  { intros j Hj. rewrite Hrd1 by lia. apply Hz. lia. }
  { intros n Hn. rewrite Hnb1; [apply Hfree; lia|lia|]. destruct Hb2 as [[? ?]|[? ?]]; [lia|congruence]. }
  split_and!; [done|by intros ?????; apply Hg2, Hg1|lia|done| | |].
  - intros j Hj. rewrite Hrd2 by lia. apply Hrd1. lia.
  - intros n Hn Hnn. rewrite Hnb2 by lia. apply Hnb1; [lia|].
    destruct Hb2 as [[? ?]|[? ?]]; [lia|congruence].
  - intros [|k] g w; cbn.
    + intros [= <-] [= <-]. rewrite Z.add_0_r. eapply row_holds_grows; [exact Hg2|].
      eapply row_holds_agree; [..|exact Hh1]; [lia|lia|lia|lia| |].
      * intros j Hj. apply Hrd2. lia.
      * intros Hf. rewrite Hbit, Hf. destruct Hb2 as [[? ?]|[? ?]]; [apply Hnb2; lia|congruence].
    + intros Hg Hw'. replace (i + Z.of_nat (Datatypes.S k)) with (i + 1 + Z.of_nat k) by lia. by apply Hh2.
Qed.
End encode_row.

(** ** Decoding and validation look at the same bytes *)

Section decode.
Context (f : wadb_field) (i : Z) (p : list Z) (resolve : option symbol_decode_fn).
Hypothesis (Hwf : field_wf f) (Hp : bytes p).

Lemma decode_payload_sub o : 0 ≤ o → o + f_width f ≤ zlen p →
  decode_payload f i p o resolve = decode_payload f i (sub p o (f_width f)) 0 resolve.
Proof using Hwf Hp.
  intros Ho Hl. pose proof (field_wf_width f Hwf) as Hpos. destruct Hwf as (Hk&Hsz&Hw).
  assert (Hget : f_width f ≤ 8 → get_le (Z.to_nat (f_width f)) 0 p o 0 =
                 get_le (Z.to_nat (f_width f)) 0 (sub p o (f_width f)) 0 0).
  { intros. rewrite !get_le_0 by (auto with wadb || len). by rewrite sub_sub_0 by lia. }
  unfold decode_payload.
  destruct (f_type f) eqn:Hty; try done; cbn in Hw, Hsz; try (destruct (Z.leb_spec (f_width f) 8); [|lia];
    by rewrite Hget by lia).
  1,2: rewrite !get_i64_u64, !get_u64_le by (auto with wadb || len); by rewrite sub_sub_0 by lia.
  1,2: by rewrite sub_sub_0 by lia.
  unfold WADB_MAX_ROW_BYTES in *. rewrite u32_id in Hw by mlia.
  rewrite !get_u32_le by (auto with wadb || len). rewrite (sub_sub_0 p o (f_width f) 4) by lia.
  pose proof (le_combine_bound (sub p o 4) ltac:(auto with wadb)) as Hb.
  destruct (Z.gtb_spec (le_combine (sub p o 4)) (f_size f)); [done|].
  by rewrite (sub_sub p o (f_width f) (0 + 4)) by lia.
Qed.

Lemma decode_payload_start o v : 0 ≤ o → o + f_width f ≤ zlen p →
  decode_payload f i p o resolve = Ok v → v ≠ VNull ∧ 0 ≤ padding_start f v ≤ f_width f.
Proof using Hwf Hp.
  intros Ho Hl. pose proof (field_wf_width f Hwf) as Hpos. destruct Hwf as (Hk&Hsz&Hw).
  assert (Hfull : ∀ v, f_type f ≠ WADB_TEXT → v ≠ VNull →
    v ≠ VNull ∧ 0 ≤ padding_start f v ≤ f_width f).
  { intros w Ht Hn. split; [done|]. unfold padding_start.
    destruct w; [done|..]; rewrite bool_decide_eq_false_2 by done; lia. }
  unfold decode_payload. destruct (f_type f) eqn:Hty; try done; cbn in Hw, Hsz;
    repeat match goal with |- context [if ?c then Err _ else _] => destruct c eqn:? end;
    try (intros [= <-]); try (by apply Hfull); try done.
  - unfold WADB_MAX_ROW_BYTES in *. rewrite u32_id in Hw by mlia.
    rewrite Z.gtb_ltb in Heqb. apply orb_false_iff in Heqb as [Hlen%Z.ltb_ge _].
    pose proof (get_u32_range p o Hp Ho ltac:(lia)) as Hr.
    split; [done|]. unfold padding_start. rewrite Hty, bool_decide_eq_true_2 by done. cbn [as_bytes].
    rewrite zlen_sub by mlia. rewrite (u32_id (wadb_get_u32 p o)), u32_id by mlia. mlia.
  - destruct resolve as [r|]; [|done]. destruct (_ =? 0); [done|].
    destruct (r i _); [|done]. intros [= <-]. by apply Hfull.
Qed.
End decode.

(** ** Valid rows *)

(** A field of a row that decodes to [v] with zero padding. *)
Lemma field_valid_iff s i p resolve f v :
  field_wf f → bytes p → 0 ≤ f_offset f → f_offset f + f_width f ≤ zlen p → 0 ≤ i →
  znth (fields s) i = Some f →
  (wadb_decode_value s i p resolve = Ok v ∧
   zeroes p (f_offset f + padding_start f v) (f_width f - padding_start f v) = true) ↔
  row_holds p f i resolve v.
Proof.
  intros Hwf Hp Ho Hl Hi Hz. unfold wadb_decode_value. rewrite Hz, null_flag_nullbit.
  pose proof (field_wf_width f Hwf).
  assert (Hnn : (decode_payload f i p (f_offset f) resolve = Ok v ∧
     zeroes p (f_offset f + padding_start f v) (f_width f - padding_start f v) = true) ↔
     field_holds f i (sub p (f_offset f) (f_width f)) resolve v).
  { unfold field_holds. rewrite <-decode_payload_sub by done. split.
    - intros [Hd Hpad]. destruct (decode_payload_start _ _ _ _ Hwf Hp _ _ Ho Hl Hd) as [Hn Hs].
      rewrite zeroes_spec in Hpad by lia. split_and!; auto with wadb; [len|].
      by rewrite sub_sub by lia.
    - intros (_&_&Hn&Hd&Hpad). destruct (decode_payload_start _ _ _ _ Hwf Hp _ _ Ho Hl Hd) as [_ Hs].
      split; [done|]. rewrite zeroes_spec by lia. by rewrite sub_sub in Hpad by lia. }
  destruct (decide (v = VNull)) as [->|Hn].
  - cbn [row_holds padding_start]. rewrite Z.add_0_r, Z.sub_0_r, zeroes_spec by lia.
    destruct (f_nullable f), (nullbit p (f_null_bit f)); cbn [andb]; try tauto.
    all: split; [|intros (?&?&?); congruence]; intros [Hd _].
    all: by destruct (decode_payload_start _ _ _ _ Hwf Hp _ _ Ho Hl Hd).
  - transitivity ((f_nullable f = true → nullbit p (f_null_bit f) = false) ∧
      field_holds f i (sub p (f_offset f) (f_width f)) resolve v).
    + rewrite <-Hnn. destruct (f_nullable f), (nullbit p (f_null_bit f)); cbn [andb].
      1: split; [intros [[= <-] _]; done|intros [Hf _]; by specialize (Hf eq_refl)].
      all: split; [intros ?; split; [done|tauto]|tauto].
    + by destruct v.
Qed.

(** The bytes between the fields: unused null bits and trailing padding. *)
Definition slack_zero (s : wadb_schema) (end_ nulls : Z) (p : list Z) : Prop :=
  (∀ n, nulls ≤ n < 8 * null_bytes s → nullbit p n = false) ∧
  (∀ j, end_ ≤ j < row_width s → rd p j = 0).

Definition fields_hold (fs : list wadb_field) (i : Z) (p : list Z)
    (resolve : option symbol_decode_fn) (vs : list wadb_value) : Prop :=
  length vs = length fs ∧
  ∀ k f v, fs !! k = Some f → vs !! k = Some v → row_holds p f (i + Z.of_nat k) resolve v.

Definition fields_fit (fs : list wadb_field) (p : list Z) : Prop :=
  ∀ f, f ∈ fs → field_wf f ∧ 0 ≤ f_offset f ∧ f_offset f + f_width f ≤ zlen p.

Lemma fields_hold_nil i p r : fields_hold [] i p r [].
Proof. by split. Qed.
Lemma fields_hold_cons f fs i p r v vs :
  fields_hold (f :: fs) i p r (v :: vs) ↔ row_holds p f i r v ∧ fields_hold fs (i + 1) p r vs.
Proof.
  unfold fields_hold. split.
  - intros [Hl Hk]. split_and!; [|by injection Hl|].
    + specialize (Hk 0%nat f v eq_refl eq_refl). by rewrite Z.add_0_r in Hk.
    + intros k g w Hg Hw. specialize (Hk (S k) g w Hg Hw).
      by replace (i + 1 + Z.of_nat k) with (i + Z.of_nat (S k)) by lia.
  - intros (H0&Hl&Hk). split; [by f_equal/=; f_equal|]. intros [|k] g w; cbn.
    + intros [= <-] [= <-]. by rewrite Z.add_0_r.
    + intros Hg Hw. replace (i + Z.of_nat (S k)) with (i + 1 + Z.of_nat k) by lia. by apply Hk.
Qed.

Lemma validate_fields_iff s fs i p resolve n m :
  bytes p → fields_fit fs p → 0 ≤ i →
  (∀ k f, fs !! k = Some f → znth (fields s) (i + Z.of_nat k) = Some f) →
  validate_fields s fs i p resolve n = Ok m ↔
  m = n + nullables (map def_of fs) ∧ ∃ vs, fields_hold fs i p resolve vs.
Proof.
  intros Hp. revert i n. induction fs as [|f fs IH]; intros i n Hfit Hi Hz; cbn [validate_fields].
  { unfold nullables. cbn. rewrite Z.add_0_r. split; [intros [= <-]; eauto using fields_hold_nil|].
    by intros [-> _]. }
  destruct (Hfit f) as (Hwf&Ho&Hl); [set_solver|].
  pose proof (Hz 0%nat f eq_refl) as Hz0. rewrite Z.add_0_r in Hz0.
  pose proof (λ v, field_valid_iff s i p resolve f v Hwf Hp Ho Hl Hi Hz0) as Hv.
  assert (IH' := IH (i + 1) (n + Z.b2z (f_nullable f)) ltac:(intros ??; apply Hfit; set_solver)
    ltac:(lia) ltac:(intros k g Hg; rewrite <-(Hz (S k) g Hg); f_equal; lia)). clear IH.
  cbn [map]. rewrite nullables_cons, Z.add_assoc. cbn [def_nullable def_of]. rewrite result_bind_ok. split.
  - intros (v&Hd&Hrest). destruct (zeroes _ _ _) eqn:Hpad; [|done]. cbn [negb] in Hrest.
    apply IH' in Hrest as [-> [vs Hvs]]. split; [done|]. exists (v :: vs).
    apply fields_hold_cons. split; [|done]. by apply Hv.
  - intros [-> [[|v vs] Hvs]]; [by destruct Hvs|]. apply fields_hold_cons in Hvs as [Hf Hvs].
    apply Hv in Hf as [Hd Hpad]. exists v. rewrite Hpad. split; [done|]. apply IH'. eauto.
Qed.

(** The row of a compiled schema is made of its fields and the slack. *)
Lemma schema_fields_fit s fs e n p :
  schema_ok s fs e n → row_width s ≤ zlen p → fields_fit (fields s) p.
Proof.
  intros Hok Hl f. rewrite (ok_fields _ _ _ _ Hok). pose proof (ok_packed _ _ _ _ Hok) as Hpk.
  pose proof (ok_null_bytes _ _ _ _ Hok). pose proof (ok_width _ _ _ _ Hok).
  pose proof (packed_mono _ _ _ _ _ Hpk).
  intros [->|Hin]%elem_of_cons; [split; [apply time_field_wf|cbn; mlia]|].
  destruct (packed_bounds _ _ _ _ _ _ Hpk Hin) as (?&?&_).
  destruct (packed_valid_width _ _ _ _ _ _ Hpk Hin) as (?&?&_).
  split; [by apply field_wf_valid|mlia].
Qed.
Lemma packed_nullables o b fs o' b' : packed o b fs o' b' → b' = b + nullables (map def_of fs).
Proof.
  induction 1 as [|? ? f ? ? ? _ _ _ _ _ IH]; cbn [map]; [unfold nullables; cbn; lia|].
  rewrite nullables_cons. cbn [def_nullable def_of]. lia.
Qed.
Lemma packed_last o b fs o' b' : packed o b fs o' b' →
  o' = match last fs with Some f => f_offset f + f_width f | None => o end.
Proof.
  induction 1 as [|? ? f fs ? ? _ _ Ho _ Hp IH]; [done|]. rewrite last_cons.
  destruct (last fs); [done|]. lia.
Qed.

(** The mask [0xff << r] selects the bits from [r] on. *)
Lemma high_mask x r : is_u8 x → 0 ≤ r < 8 →
  Z.land x (u8 (Z.shiftl 255 r)) = 0 ↔ ∀ k, r ≤ k < 8 → Z.testbit x k = false.
Proof.
  intros Hx Hr.
  assert (Hm : ∀ k, 0 ≤ k → Z.testbit (u8 (Z.shiftl 255 r)) k = (r <=? k) && (k <? 8)).
  { intros k Hk. unfold u8. change 256 with (2 ^ 8). change 255 with (Z.ones 8).
    rewrite Z.testbit_mod_pow2, Z.shiftl_spec by lia. rewrite andb_comm. destruct (Z.ltb_spec k 8).
    - destruct (Z.leb_spec r k); [rewrite Z.ones_spec_low by lia; done|].
      by rewrite Z.testbit_neg_r by lia.
    - by rewrite !andb_false_r. }
  split.
  - intros H0 k Hk. assert (H : Z.testbit (Z.land x (u8 (Z.shiftl 255 r))) k = false)
      by (rewrite H0; apply Z.bits_0).
    rewrite Z.land_spec, Hm in H by lia.
    destruct (Z.leb_spec r k), (Z.ltb_spec k 8); try lia. by rewrite andb_true_r in H.
  - intros H. apply Z.bits_inj'. intros k Hk. rewrite Z.land_spec, Z.bits_0, Hm by done.
    destruct (Z.leb_spec r k), (Z.ltb_spec k 8); cbn; rewrite ?andb_false_r; try done.
    by rewrite H by lia.
Qed.

Lemma null_tail_iff p nulls nb :
  bytes p → 0 ≤ nulls → nb = (nulls + 7) / 8 →
  negb (nulls `mod` 8 =? 0) &&
  negb (Z.land (rd p (8 + nb - 1)) (u8 (Z.shiftl 255 (nulls `mod` 8))) =? 0) = false ↔
  ∀ n, nulls ≤ n < 8 * nb → nullbit p n = false.
Proof.
  intros Hp Hn ->. destruct (Z.eqb_spec (nulls `mod` 8) 0) as [He|He]; cbn [negb andb].
  { split; [|done]. intros _ n Hn'. exfalso. mlia. }
  rewrite negb_false_iff, Z.eqb_eq, high_mask by (auto with wadb || mlia). unfold nullbit. split.
  - intros H n Hn'. replace (n / 8) with ((nulls + 7) / 8 - 1) by mlia.
    rewrite Z.add_sub_assoc. apply H. mlia.
  - intros H k Hk. specialize (H (8 * ((nulls + 7) / 8 - 1) + k) ltac:(mlia)).
    replace ((8 * ((nulls + 7) / 8 - 1) + k) / 8) with ((nulls + 7) / 8 - 1) in H by mlia.
    replace ((8 * ((nulls + 7) / 8 - 1) + k) `mod` 8) with k in H by mlia.
    by rewrite Z.add_sub_assoc in H.
Qed.

(** [wadb_validate_row] accepts exactly the rows whose fields hold values and
    whose slack is zero. *)
Lemma validate_row_iff s fs e n p resolve :
  schema_ok s fs e n → bytes p → row_width s ≤ zlen p →
  wadb_validate_row s p resolve = Ok () ↔
  (∃ vs, fields_hold (fields s) 0 p resolve vs) ∧ slack_zero s e n p.
Proof.
  intros Hok Hp Hl. unfold wadb_validate_row. rewrite result_bind_ok.
  pose proof (schema_fields_fit _ _ _ _ _ Hok Hl) as Hfit.
  pose proof (packed_nullables _ _ _ _ _ (ok_packed _ _ _ _ Hok)) as Hn. rewrite Z.add_0_l in Hn.
  pose proof (packed_mono _ _ _ _ _ (ok_packed _ _ _ _ Hok)) as [Hm1 Hm2].
  pose proof (packed_last _ _ _ _ _ (ok_packed _ _ _ _ Hok)) as Hlast.
  pose proof (ok_null_bytes _ _ _ _ Hok) as Hnb. pose proof (ok_width _ _ _ _ Hok) as Hw.
  pose proof (ok_end _ _ _ _ Hok) as Hend. unfold WADB_MAX_ROW_BYTES in Hend.
  assert (Hvf : ∀ m, validate_fields s (fields s) 0 p resolve 0 = Ok m ↔
    m = n ∧ ∃ vs, fields_hold (fields s) 0 p resolve vs).
  { intros m. rewrite validate_fields_iff; [|done..|].
    - rewrite (ok_fields _ _ _ _ Hok) at 1. cbn [map]. rewrite nullables_cons. cbn. by rewrite Hn.
    - intros k f Hk. unfold znth. destruct (Z.ltb_spec (0 + Z.of_nat k) 0); [lia|].
      by rewrite Z.add_0_l, Nat2Z.id. }
  assert (Hle : ∃ f, last (fields s) = Some f ∧ f_offset f + f_width f = e).
  { rewrite (ok_fields _ _ _ _ Hok), last_cons. destruct (last fs) eqn:Hlf; [eauto|].
    exists time_field. split; [done|]. apply last_None in Hlf as ->. cbn in Hn. cbn. mlia. }
  destruct Hle as (f&->&He). rewrite He, u32_id by mlia. unfold slack_zero.
  rewrite <-(null_tail_iff p n) by (done || mlia). 
  rewrite <-(zeroes_rd' p e (row_width s)) by mlia.
  split.
  - intros (m&[-> Hvs]%Hvf&Hrest). split; [done|].
    destruct (_ && _); [done|]. by destruct (zeroes _ _ _).
  - intros [Hvs [Hnt Hz]]. exists n. split; [by apply Hvf|]. by rewrite Hnt, Hz.
Qed.

(** ** What the row codec promises *)

Section row_theorems.
Context {S : Type} `{!SymbolTable S} {inv : S → Prop} `{!SymbolLaws S inv}.
Context (s : wadb_schema) (values : list wadb_value) (time : Z) (st : S) (row0 row : list Z) (st' : S).

Lemma encode_row_holds fs e n :
  schema_ok s fs e n → Forall2 value_for fs values → is_i64 time → inv st → bytes row0 →
  wadb_encode_row s values time (Some sym_intern) row0 st = (Ok row, st') →
  inv st' ∧ grows (sym_resolve st) (sym_resolve st') ∧ zlen row = zlen row0 ∧ bytes row ∧
  row_width s ≤ zlen row ∧
  fields_hold (fields s) 0 row (Some (sym_resolve st')) (VI64 time :: zip_with stored fs values) ∧
  slack_zero s e n row.
Proof using SymbolLaws0.
  intros Hok Hv Ht Hinv Hb. pose proof (ok_packed _ _ _ _ Hok) as Hpk.
  pose proof (packed_mono _ _ _ _ _ Hpk) as [Hm1 Hm2].
  pose proof (ok_null_bytes _ _ _ _ Hok) as Hnb. pose proof (ok_width _ _ _ _ Hok) as Hw.
  assert (8 ≤ row_width s) by mlia.
  unfold wadb_encode_row. destruct (Z.ltb_spec (zlen row0) (row_width s)); [done|].
  rewrite (ok_fields _ _ _ _ Hok). cbn [tl]. rewrite put_u64_spec by lia.
  set (p0 := put row0 0 (zrep (row_width s) 0)). set (p := put p0 0 (le_split 8 (u64 time))).
  assert (Hz0 : ∀ j, 0 ≤ j < row_width s → rd p0 j = 0).
  { intros j Hj. unfold p0. rewrite rd_put_eq by (rewrite ?zlen_zrep; mlia). apply rd_zrep. }
  assert (Hz : ∀ j, 8 ≤ j < row_width s → rd p j = 0).
  { intros j Hj. unfold p. rewrite rd_put_ne by len. apply Hz0. lia. }
  assert (Hlp : zlen p = zlen row0) by (unfold p, p0; by len).
  assert (Hbp : bytes p) by (unfold p, p0; auto with wadb).
  intros He.
  destruct (encode_fields_ok (null_bytes s) _ _ _ _ _ 1 values p st row st' Hpk)
    as (Hi&Hg&Hl&Hbr&Hrd&Hnbit&Hh); [lia|lia|mlia|mlia|done| | |done|done|done|].
  { intros j Hj. apply Hz. mlia. }
  { intros m Hm. unfold nullbit. rewrite Hz by mlia. apply Z.bits_0. }
  split_and!; [done|done|lia|done|lia| |].
  - apply fields_hold_cons. split.
    + split; [done|]. split_and!.
      * cbn. len.
      * auto with wadb.
      * done.
      * unfold decode_payload. cbn. rewrite get_i64_u64, get_u64_le by (auto with wadb || len).
        rewrite sub_sub_0 by lia.
        assert (Hs : sub row 0 8 = le_split 8 (u64 time)).
        { transitivity (sub p 0 8); [|apply sub_put_eq; [lia|done|unfold p0; len]].
          apply list_eq_rd; [by rewrite !zlen_sub by lia|]. intros j Hj. rewrite zlen_sub in Hj by lia.
          rewrite !rd_sub by lia. apply Hrd. lia. }
        rewrite Hs, le_u64, u64_id by apply u64_range. by rewrite i64_of_u64_u64.
      * done.
    + split; [rewrite length_zip_with; apply Forall2_length in Hv; lia|].
      intros k f v Hf Hv'. rewrite lookup_zip_with, Hf in Hv'. cbn in Hv'.
      destruct (values !! k) as [w|] eqn:Hw'; [|done]. injection Hv' as <-. by apply Hh.
  - split.
    + intros m Hm. rewrite Hnbit by lia. unfold nullbit. rewrite Hz by mlia. apply Z.bits_0.
    + intros j Hj. rewrite Hrd by lia. apply Hz. mlia.
Qed.

Lemma fields_hold_decode fs e n p resolve vs k v :
  schema_ok s fs e n → bytes p → row_width s ≤ zlen p → fields_hold (fields s) 0 p resolve vs →
  vs !! k = Some v → wadb_decode_value s (Z.of_nat k) p resolve = Ok v.
Proof using.
  intros Hok Hp Hl [Hlen Hh] Hk. assert (is_Some (fields s !! k)) as [f Hf].
  { apply lookup_lt_is_Some. rewrite <-Hlen. apply lookup_lt_is_Some. eauto. }
  destruct (schema_fields_fit _ _ _ _ _ Hok Hl f) as (Hwf&Ho&Hfl); [by eapply list_elem_of_lookup_2|].
  specialize (Hh k f v Hf Hk). rewrite Z.add_0_l in Hh.
  apply (field_valid_iff s) in Hh as [? _]; try done; [lia|].
  unfold znth. destruct (Z.ltb_spec (Z.of_nat k) 0); [lia|]. by rewrite Nat2Z.id.
Qed.

(** C3: Encoding a row and decoding it back with the symbol table the encoder
    leaves behind gives the time stamp and every value, nulls included; a
    32-bit float comes back rounded to the nearest float and every other value
    unchanged. *)
Theorem row_round_trip :
  schema_wf s → Forall2 value_for (tl (fields s)) values → is_i64 time → inv st → bytes row0 →
  wadb_encode_row s values time (Some sym_intern) row0 st = (Ok row, st') →
  inv st' ∧
  wadb_decode_value s 0 row (Some (sym_resolve st')) = Ok (VI64 time) ∧
  ∀ k f v, tl (fields s) !! k = Some f → values !! k = Some v →
    wadb_decode_value s (Z.of_nat k + 1) row (Some (sym_resolve st')) = Ok (stored f v).
Proof using SymbolLaws0.
  intros (fs&e&n&Hok). rewrite (ok_fields _ _ _ _ Hok). cbn [tl]. intros Hv Ht Hinv Hb He.
  destruct (encode_row_holds _ _ _ Hok Hv Ht Hinv Hb He) as (Hi&_&_&Hbr&Hl&Hh&_).
  split_and!; [done|by eapply (fields_hold_decode _ _ _ _ _ _ 0%nat)|].
  intros k f v Hf Hk. replace (Z.of_nat k + 1) with (Z.of_nat (Datatypes.S k)) by lia.
  eapply fields_hold_decode; [done|done|done|exact Hh|].
  change (zip_with stored fs values !! k = Some (stored f v)). by rewrite lookup_zip_with, Hf, Hk.
Qed.

(** Every row the encoder produces passes validation against the symbol
    table the encoder leaves behind. *)
Theorem encoded_row_valid :
  schema_wf s → Forall2 value_for (tl (fields s)) values → is_i64 time → inv st → bytes row0 →
  wadb_encode_row s values time (Some sym_intern) row0 st = (Ok row, st') →
  wadb_validate_row s row (Some (sym_resolve st')) = Ok ().
Proof using SymbolLaws0.
  intros (fs&e&n&Hok). rewrite (ok_fields _ _ _ _ Hok). cbn [tl]. intros Hv Ht Hinv Hb He.
  destruct (encode_row_holds _ _ _ Hok Hv Ht Hinv Hb He) as (_&_&_&Hbr&Hl&Hh&Hs).
  apply (validate_row_iff _ _ _ _ _ _ Hok); eauto.
Qed.
End row_theorems.

(** ** Canonicity *)

Section canonical.
Context (f : wadb_field) (i : Z) (resolve : symbol_decode_fn).
Hypothesis (Hwf : field_wf f) (Hinj : ∀ a b x, is_u32 a → is_u32 b →
  resolve i a = Ok x → resolve i b = Ok x → a = b).

Lemma le_combine_inj a b : bytes a → bytes b → length a = length b →
  le_combine a = le_combine b → a = b.
Proof using.
  intros Ha Hb Hl He. rewrite <-(le_split_combine a), <-(le_split_combine b) by done. by rewrite Hl, He.
Qed.

(** Two images of the same value are the same bytes. *)
Lemma field_holds_inj b b' v :
  field_holds f i b (Some resolve) v → field_holds f i b' (Some resolve) v → b = b'.
Proof using Hwf Hinj.
  intros (Hl&Hb&Hn&Hd&Hpad) (Hl'&Hb'&_&Hd'&Hpad').
  pose proof (field_wf_width f Hwf) as Hpos. destruct Hwf as (Hk&Hsz&Hw).
  assert (Hlen : length b = length b') by (unfold zlen in *; lia).
  assert (Hle : ∀ c, zlen c = f_width f → bytes c → f_width f ≤ 8 →
    (if f_width f <=? 8 then get_le (Z.to_nat (f_width f)) 0 c 0 0 else 0) = le_combine c ∧
    0 ≤ le_combine c < 2 ^ (f_width f * 8)).
  { intros c Hc Hbc H8. destruct (Z.leb_spec (f_width f) 8); [|lia].
    rewrite get_le_0, sub_all by (done || lia). split; [done|].
    pose proof (le_combine_bound c Hbc) as Hbd. rewrite Hc in Hbd. change 256 with (2 ^ 8) in Hbd.
    rewrite <-Z.pow_mul_r, Z.mul_comm in Hbd by lia. done. }
  destruct (decide (f_width f ≤ 8 ∧ sized_type (f_type f) = false)) as [[H8 Hns]|Hbig].
  - destruct (Hle b Hl Hb H8) as [E R], (Hle b' Hl' Hb' H8) as [E' R']. clear Hle.
    apply le_combine_inj; [done..|]. revert Hd Hd'. unfold decode_payload. rewrite E, E'. clear E E'.
    destruct (f_type f) eqn:Hty; try done; cbn in Hw; rewrite ?Hw in *; try lia.
    all: rewrite ?get_i64_u64, ?get_u64_le, ?sub_all by (done || lia).
    1,3,5: intros [= <-] [= He]; symmetry; apply sign_extend_inj in He; done || lia.
    1-3,5: by intros [= <-] [= ->].
    1,5: intros [= <-] [= He]; symmetry; apply i64_of_u64_inj; [mlia..|done].
    + unfold u32. rewrite !Z.mod_small by lia.
      destruct (isfinite32 (le_combine b)) eqn:F1; [|done]. cbn [negb].
      destruct (isfinite32 (le_combine b')) eqn:F2; [|done]. intros [= <-] [= He].
      rewrite <-(f32_round_trip (le_combine b)), <-(f32_round_trip (le_combine b')) by (done || mlia).
      by rewrite He.
    + do 2 (destruct (isfinite64 _); [|done]). by intros [= <-] [= ->].
    + do 2 (destruct (_ >? 1); [done|]). by intros [= <-] [= ->].
    + rewrite !u32_id by mlia.
      destruct (Z.eqb_spec (le_combine b) 0), (Z.eqb_spec (le_combine b') 0); try done.
      destruct (resolve i (le_combine b)) eqn:R1; [|done].
      destruct (resolve i (le_combine b')) eqn:R2; [|done].
      intros [= <-] [= ->]. by eapply Hinj; [mlia|mlia|..].
  - clear Hle. revert Hd Hd'. unfold decode_payload.
    destruct (f_type f) eqn:Hty; try done; cbn in Hw; try (exfalso; apply Hbig; split; [lia|done]).
    1,2: rewrite !sub_all by done; by intros [= <-] [= ->].
    cbn in Hsz. unfold WADB_MAX_ROW_BYTES in *. rewrite u32_id in Hw by mlia.
    rewrite !get_u32_le by (done || lia).
    pose proof (le_combine_bound (sub b 0 4) ltac:(auto with wadb)) as B1.
    pose proof (le_combine_bound (sub b' 0 4) ltac:(auto with wadb)) as B2.
    set (n := le_combine (sub b 0 4)) in *. set (n' := le_combine (sub b' 0 4)) in *.
    destruct (Z.gtb_spec n (f_size f)); [done|]. destruct (Z.gtb_spec n' (f_size f)); [done|].
    cbn [orb]. do 2 (destruct (wadb_utf8 _); [|done]). cbn [negb]. intros [= <-] [= He].
    assert (Hnn : n = n').
    { apply (f_equal zlen) in He. rewrite !zlen_sub in He by lia. done. }
    assert (Hps : padding_start f (VBytes (sub b (0 + 4) n)) = 4 + n).
    { unfold padding_start. rewrite Hty, bool_decide_eq_true_2 by done. cbn [as_bytes].
      rewrite zlen_sub by lia. rewrite (u32_id n), u32_id by mlia. done. }
    rewrite Hps in Hpad, Hpad'.
    assert (Hsplit : ∀ c : list Z, zlen c = f_width f →
      c = sub c 0 4 ++ sub c 4 n ++ sub c (4 + n) (f_width f - (4 + n))).
    { intros c Hc. rewrite <-(sub_app c 4) by lia. rewrite <-(sub_app c 0 4) by lia.
      by rewrite sub_all by lia. }
    rewrite (Hsplit b), (Hsplit b'), Hpad, Hpad' by done. change (0 + 4) with 4 in He.
    rewrite <-Hnn in He. rewrite He. f_equal.
    apply le_combine_inj; auto with wadb. apply Nat2Z.inj. fold (zlen (sub b 0 4)). fold (zlen (sub b' 0 4)).
    by rewrite !zlen_sub by lia.
Qed.
End canonical.

Lemma row_holds_inj p p' f i resolve v :
  field_wf f → (∀ a b x, is_u32 a → is_u32 b → resolve i a = Ok x → resolve i b = Ok x → a = b) →
  row_holds p f i (Some resolve) v → row_holds p' f i (Some resolve) v →
  sub p (f_offset f) (f_width f) = sub p' (f_offset f) (f_width f) ∧
  (f_nullable f = true → nullbit p (f_null_bit f) = nullbit p' (f_null_bit f)).
Proof.
  intros Hwf Hinj. destruct v; cbn [row_holds].
  { intros (?&->&->) (?&->&->). done. }
  all: intros [H1 H2] [H3 H4]; split; [by eapply field_holds_inj|].
  all: intros Hn; by rewrite H1, H3.
Qed.

Lemma packed_bit_cover o b fs o' b' m :
  packed o b fs o' b' → b ≤ m < b' → ∃ k f, fs !! k = Some f ∧ f_nullable f = true ∧ f_null_bit f = m.
Proof.
  induction 1 as [|o b f fs o' b' _ _ _ Hbit _ IH]; [lia|]. intros Hm.
  destruct (f_nullable f) eqn:Hn; cbn [Z.b2z] in *.
  - destruct (decide (m = b)) as [->|]; [by exists 0%nat, f|].
    destruct IH as (k&g&?&?&?); [lia|]. by exists (S k), g.
  - destruct IH as (k&g&?&?&?); [lia|]. by exists (S k), g.
Qed.
Lemma packed_byte_cover o b fs o' b' j :
  packed o b fs o' b' → o ≤ j < o' →
  ∃ k f, fs !! k = Some f ∧ f_offset f ≤ j < f_offset f + f_width f.
Proof.
  induction 1 as [|o b f fs o' b' _ _ Ho _ _ IH]; [lia|]. intros Hj.
  destruct (decide (j < o + f_width f)) as [|]; [exists 0%nat, f; split; [done|lia]|].
  destruct IH as (k&g&?&?); [lia|]. by exists (S k), g.
Qed.

(** C24: The row format is canonical: under a symbol table that never gives two
    identifiers of a field to one string, two valid rows that decode to the same
    values are the same bytes. *)
Theorem valid_rows_canonical s resolve p p' :
  schema_wf s →
  (∀ i a b x, is_u32 a → is_u32 b → resolve i a = Ok x → resolve i b = Ok x → a = b) →
  bytes p → bytes p' → zlen p = row_width s → zlen p' = row_width s →
  wadb_validate_row s p (Some resolve) = Ok () → wadb_validate_row s p' (Some resolve) = Ok () →
  (∀ i, 0 ≤ i < field_count s →
     wadb_decode_value s i p (Some resolve) = wadb_decode_value s i p' (Some resolve)) →
  p = p'.
Proof.
  intros (fs&e&n&Hok) Hinj Hp Hp' Hl Hl' Hv Hv' Heq.
  apply (validate_row_iff _ _ _ _ _ _ Hok) in Hv as [[vs [Hlen Hh]] [Hsb Hsp]]; [|done|lia].
  apply (validate_row_iff _ _ _ _ _ _ Hok) in Hv' as [[vs' [Hlen' Hh']] [Hsb' Hsp']]; [|done|lia].
  pose proof (schema_fields_fit _ _ _ _ p Hok ltac:(lia)) as Hfit.
  assert (Hfields : ∀ k f, fields s !! k = Some f →
    sub p (f_offset f) (f_width f) = sub p' (f_offset f) (f_width f) ∧
    (f_nullable f = true → nullbit p (f_null_bit f) = nullbit p' (f_null_bit f))).
  { intros k f Hf. pose proof (lookup_lt_Some _ _ _ Hf) as Hlt.
    destruct (lookup_lt_is_Some_2 vs k) as [v Hvk]; [lia|].
    destruct (lookup_lt_is_Some_2 vs' k) as [v' Hvk']; [lia|].
    assert (v' = v) as ->.
    { specialize (Heq (Z.of_nat k) ltac:(unfold field_count, zlen; lia)).
      rewrite (fields_hold_decode s fs e n p (Some resolve) vs k v) in Heq by (done || lia).
      rewrite (fields_hold_decode s fs e n p' (Some resolve) vs' k v') in Heq by (done || lia).
      by injection Heq. }
    eapply (row_holds_inj p p' f); [apply Hfit; by eapply list_elem_of_lookup_2|eauto|by eapply Hh|by eapply Hh']. }
  rewrite (ok_fields _ _ _ _ Hok) in Hfields, Hfit.
  pose proof (ok_packed _ _ _ _ Hok) as Hpk. pose proof (packed_mono _ _ _ _ _ Hpk).
  pose proof (ok_null_bytes _ _ _ _ Hok) as Hnb. pose proof (ok_width _ _ _ _ Hok).
  assert (Hrd : ∀ k f j, (time_field :: fs) !! k = Some f →
    f_offset f ≤ j < f_offset f + f_width f → rd p j = rd p' j).
  { intros k f j Hf Hj. destruct (Hfields k f Hf) as [Hs _].
    destruct (Hfit f) as (_&?&_); [by eapply list_elem_of_lookup_2|].
    replace j with (f_offset f + (j - f_offset f)) by lia.
    rewrite <-(rd_sub p _ (f_width f)), <-(rd_sub p' _ (f_width f)) by lia. by rewrite Hs. }
  assert (Hbits : ∀ m, 0 ≤ m < 8 * null_bytes s → nullbit p m = nullbit p' m).
  { intros m Hm. destruct (decide (m < n)) as [Hlt|]; [|rewrite Hsb, Hsb' by lia; done].
    destruct (packed_bit_cover _ _ _ _ _ m Hpk) as (k&f&Hf&Hn&<-); [lia|].
    by apply (Hfields (S k) f Hf). }
  apply list_eq_rd; [lia|]. intros j Hj.
  destruct (decide (j < 8)); [apply (Hrd 0%nat time_field); [done|cbn; lia]|].
  destruct (decide (j < 8 + null_bytes s)).
  - apply Z.bits_inj'. intros k Hk. destruct (decide (k < 8)).
    + specialize (Hbits (8 * (j - 8) + k) ltac:(lia)). unfold nullbit in Hbits.
      replace ((8 * (j - 8) + k) / 8) with (j - 8) in Hbits by mlia.
      replace ((8 * (j - 8) + k) `mod` 8) with k in Hbits by mlia.
      by replace (8 + (j - 8)) with j in Hbits by lia.
    + assert (Hhi : ∀ x, is_u8 x → Z.testbit x k = false).
      { intros x Hx. unfold is_u8 in Hx.
        apply (proj1 (Z.bounded_iff_bits_nonneg 8 x ltac:(lia) ltac:(lia))); lia. }
      by rewrite !Hhi by auto with wadb.
  - destruct (decide (j < e)); [|rewrite Hsp, Hsp' by lia; done].
    destruct (packed_byte_cover _ _ _ _ _ j Hpk) as (k&f&Hf&Hj'); [lia|].
    by apply (Hrd (S k) f).
Qed.
