(* ===== verification/Dictionary.v ===== *)
(** * Symbol dictionaries (src/storage/dictionary.c)

    The append-only table of strings of a segment: an array of symbols in order of
    definition, an open-addressing hash table over it, and one array of symbol
    positions per field. An array is a list of its used entries next to its
    allocated capacity. Allocations take their outcome from a list that runs along
    with the dictionary; a list that is used up stands for successful allocations. *)

From Stdlib Require Import String.
From stdpp Require Import base numbers list list_numbers sets.
From S2P Require Import Prelude Encoding Utf8 Checksum Schema Format Float Rows.

Record wadb_symbol := Symbol {
  s_field : Z;
  s_id : Z;
  s_hash : Z;
  s_data : list Z;
}.
Definition s_length (s : wadb_symbol) : Z := zlen (s_data s).

Record wadb_symbol_column := Column {
  c_indices : list Z;
  c_capacity : Z;
}.
Definition c_count (c : wadb_symbol_column) : Z := zlen (c_indices c).
#[global] Instance column_inhabited : Inhabited wadb_symbol_column := populate (Column [] 0).
#[global] Instance symbol_inhabited : Inhabited wadb_symbol := populate (Symbol 0 0 0 []).

Record wadb_dictionary := Dictionary {
  d_schema : wadb_schema;
  d_symbols : list wadb_symbol;
  d_capacity : Z;
  d_slots : list Z;
  d_columns : list wadb_symbol_column;
  d_allocated : Z;
  d_limit : Z;
}.
Definition d_count (d : wadb_dictionary) : Z := zlen (d_symbols d).
Definition d_slot_count (d : wadb_dictionary) : Z := zlen (d_slots d).
Definition d_column (d : wadb_dictionary) (field : Z) : wadb_symbol_column :=
  d_columns d !!! Z.to_nat field.

(** [sizeof] of the structures on an LP64 platform. *)
Definition SIZEOF_SYMBOL : Z := 32.
Definition SIZEOF_COLUMN : Z := 24.
Definition SIZEOF_DICTIONARY : Z := 72.

(** ** State: a dictionary and the outcomes of the coming allocations *)

Definition dict_state : Type := wadb_dictionary * list bool.
Definition malloc : M dict_state bool := λ '(d, h), (Ok (hd true h), (d, tl h)).
Definition modify (f : wadb_dictionary → wadb_dictionary) : M dict_state unit :=
  λ '(d, h), (Ok (), (f d, h)).
Definition dget : M dict_state wadb_dictionary := λ '(d, h), (Ok d, (d, h)).

Definition with_slots (slots : list Z) (d : wadb_dictionary) : wadb_dictionary :=
  Dictionary (d_schema d) (d_symbols d) (d_capacity d) slots (d_columns d) (d_allocated d) (d_limit d).

(** ** The hash table *)

Definition home (n hash : Z) : Z := Z.land hash (n - 1).
Definition next (n slot : Z) : Z := Z.land (slot + 1) (n - 1).

(** [while (slots[slot]) slot = (slot + 1) & (slot_count - 1)]; a table of [n] slots
    that is not full stops it within [n] steps. *)
Fixpoint probe_free (fuel : nat) (slots : list Z) (slot : Z) : Z :=
  match fuel with
  | O => slot
  | S fuel' => if rd slots slot =? 0 then slot else probe_free fuel' slots (next (zlen slots) slot)
  end.
Definition free_slot (slots : list Z) (hash : Z) : Z :=
  probe_free (length slots) slots (home (zlen slots) hash).

(** The loop of [rehash] over the symbols from position [i]. *)
Fixpoint rehash_loop (symbols : list wadb_symbol) (i : Z) (slots : list Z) : list Z :=
  match symbols with
  | [] => slots
  | s :: symbols' =>
      rehash_loop symbols' (i + 1) (wr slots (free_slot slots (s_hash s)) (u32 i + 1))
  end.
Definition rehash (d : wadb_dictionary) : wadb_dictionary :=
  if d_slot_count d =? 0 then d
  else with_slots (rehash_loop (d_symbols d) 0 (zrep (d_slot_count d) 0)) d.

(** The hash of a symbol: its field number, then its bytes. *)
Definition hash_symbol (field : Z) (data : list Z) : Z :=
  wadb_hash data (wadb_hash (wadb_put_u32 (zrep 4 0) 0 field) FNV_BASIS).

Definition symbol_matches (s : wadb_symbol) (hash field : Z) (data : list Z) : bool :=
  (s_hash s =? hash) && (s_field s =? field) && (s_length s =? zlen data) && bytes_eqb (s_data s) data.

(** The search of [wadb_dictionary_intern]: the identifier of the symbol, if defined. *)
Fixpoint find_symbol (fuel : nat) (d : wadb_dictionary) (hash field : Z) (data : list Z) (slot : Z)
    : option Z :=
  match fuel with
  | O => None
  | S fuel' =>
      let v := rd (d_slots d) slot in
      if v =? 0 then None
      else
        let s := d_symbols d !!! Z.to_nat (v - 1) in
        if symbol_matches s hash field data then Some (s_id s)
        else find_symbol fuel' d hash field data (next (d_slot_count d) slot)
  end.

(** ** Construction and rollback *)

Definition symbol_field (s : wadb_schema) (field : Z) : bool :=
  match znth (fields s) field with
  | Some f => negb (field =? 0) && bool_decide (f_type f = WADB_SYMBOL32)
  | None => false
  end.

Definition wadb_dictionary_new (s : wadb_schema) (limit : Z) (alloc1 alloc2 : bool)
    : result wadb_dictionary :=
  let base := SIZEOF_DICTIONARY + field_count s * SIZEOF_COLUMN in
  if base >? limit then Err WADB_LIMIT
  else if negb alloc1 then Err WADB_NOMEM
  else if negb alloc2 then Err WADB_NOMEM
  else Ok (Dictionary s [] 0 [] (replicate (Z.to_nat (field_count s)) (Column [] 0)) base limit).

Definition drop_last_index (c : wadb_symbol_column) : wadb_symbol_column :=
  Column (take (length (c_indices c) - 1) (c_indices c)) (c_capacity c).
(** Removing the last symbol, the body of the loop of [wadb_dictionary_rollback]. *)
Definition pop_symbol (d : wadb_dictionary) : wadb_dictionary :=
  match last (d_symbols d) with
  | None => d
  | Some s =>
      Dictionary (d_schema d) (take (length (d_symbols d) - 1) (d_symbols d)) (d_capacity d)
        (d_slots d) (alter drop_last_index (Z.to_nat (s_field s)) (d_columns d))
        (d_allocated d - (s_length s + 1)) (d_limit d)
  end.
Definition wadb_dictionary_rollback (d : wadb_dictionary) (mark : Z) : wadb_dictionary :=
  if mark >=? d_count d then d
  else rehash (Nat.iter (Z.to_nat (d_count d - mark)) pop_symbol d).

(** ** Interning *)

(** The three arrays grow one after the other; an allocation that fails leaves the
    growth that came before it in place. *)
Definition grow_symbols (capacity : Z) : M dict_state unit :=
  d ← dget;
  if capacity =? d_capacity d then mret ()
  else
    p ← malloc;
    if negb p then mfail WADB_NOMEM
    else modify (λ d, Dictionary (d_schema d) (d_symbols d) capacity (d_slots d) (d_columns d)
           (d_allocated d + (capacity - d_capacity d) * SIZEOF_SYMBOL) (d_limit d)).
Definition grow_slots (slots : Z) : M dict_state unit :=
  d ← dget;
  if slots =? d_slot_count d then mret ()
  else
    p ← malloc;
    if negb p then mfail WADB_NOMEM
    else modify (λ d, rehash (Dictionary (d_schema d) (d_symbols d) (d_capacity d) (zrep slots 0)
           (d_columns d) (d_allocated d + (slots - d_slot_count d) * 4) (d_limit d))).
Definition grow_column (field capacity : Z) : M dict_state unit :=
  d ← dget;
  if capacity =? c_capacity (d_column d field) then mret ()
  else
    p ← malloc;
    if negb p then mfail WADB_NOMEM
    else modify (λ d, Dictionary (d_schema d) (d_symbols d) (d_capacity d) (d_slots d)
           (alter (λ c, Column (c_indices c) capacity) (Z.to_nat field) (d_columns d))
           (d_allocated d + (capacity - c_capacity (d_column d field)) * 4) (d_limit d)).
(** The assignments after the last allocation. *)
Definition append_symbol (field id hash : Z) (data : list Z) (d : wadb_dictionary) : wadb_dictionary :=
  Dictionary (d_schema d) (d_symbols d ++ [Symbol field id hash data]) (d_capacity d)
    (wr (d_slots d) (free_slot (d_slots d) hash) (u32 (d_count d + 1)))
    (alter (λ c, Column (c_indices c ++ [u32 (d_count d)]) (c_capacity c)) (Z.to_nat field) (d_columns d))
    (d_allocated d + (zlen data + 1)) (d_limit d).

(** The part of [wadb_dictionary_intern] after the budget check. *)
Definition define_symbol (field hash : Z) (data : list Z) (capacity slots column_capacity id : Z)
    : M dict_state Z :=
  _ ← grow_symbols capacity;
  _ ← grow_slots slots;
  _ ← grow_column field column_capacity;
  copy ← malloc;
  if negb copy then mfail WADB_NOMEM
  else
    _ ← modify (append_symbol field id hash data);
    mret id.

Definition grown (full : bool) (capacity initial : Z) : Z :=
  if full then (if capacity =? 0 then initial else u64 (capacity * 2)) else capacity.

Definition wadb_dictionary_intern (field : Z) (data : list Z) : M dict_state Z :=
  d ← dget;
  if negb (symbol_field (d_schema d) field) || (zlen data >? WADB_MAX_STRING_BYTES) ||
     negb (wadb_utf8 data)
  then mfail WADB_INVALID
  else
    let hash := hash_symbol field data in
    match (if d_slot_count d =? 0 then None
           else find_symbol (length (d_slots d)) d hash field data (home (d_slot_count d) hash)) with
    | Some id => mret id
    | None =>
        let column := d_column d field in
        if (d_count d =? UINT32_MAX) || (c_count column =? UINT32_MAX) then mfail WADB_LIMIT
        else
          let capacity := grown (d_count d =? d_capacity d) (d_capacity d) 16 in
          let slots := grown (d_slot_count d <? (d_count d + 1) * 2) (d_slot_count d) 32 in
          let column_capacity := grown (c_count column =? c_capacity column) (c_capacity column) 8 in
          let extra := u64 ((capacity - d_capacity d) * SIZEOF_SYMBOL + (slots - d_slot_count d) * 4 +
                            (column_capacity - c_capacity column) * 4 + zlen data + 1) in
          if extra >? u64 (d_limit d - d_allocated d) then mfail WADB_LIMIT
          else
            define_symbol field hash data capacity slots column_capacity (u32 (c_count column) + 1)
    end.

Definition wadb_dictionary_resolve (d : wadb_dictionary) (field id : Z) : result (list Z) :=
  if negb (symbol_field (d_schema d) field) || (id =? 0) || (id >? c_count (d_column d field))
  then Err WADB_CORRUPT
  else Ok (s_data (d_symbols d !!! Z.to_nat (rd (c_indices (d_column d field)) (id - 1)))).

(** ** Linear probing

    [table_ok slots hashes]: the table of a power of two of slots holds every
    position of [hashes] once, as its successor, on the probe path of its hash. *)

Definition pow2 (n : Z) : Prop := ∃ k, 0 ≤ k ∧ n = 2 ^ k.
Definition nonzeros (l : list Z) : nat := length (filter (λ v, v ≠ 0) l).

Record table_ok (slots hashes : list Z) : Prop := {
  t_pow2 : pow2 (zlen slots);
  t_count : nonzeros slots = length hashes;
  t_values : ∀ v, v ∈ slots → v ≠ 0 → 1 ≤ v ≤ zlen hashes;
  t_paths : ∀ i h, hashes !! i = Some h → ∃ k, 0 ≤ k < zlen slots ∧
    rd slots ((h + k) `mod` zlen slots) = Z.of_nat i + 1 ∧
    ∀ j, 0 ≤ j < k → rd slots ((h + j) `mod` zlen slots) ≠ 0;
}.

Lemma pow2_pos n : pow2 n → 0 < n.
Proof. intros (k&?&->). lia. Qed.
Lemma land_pow2 n x : pow2 n → Z.land x (n - 1) = x `mod` n.
Proof.
  intros (k&?&->). rewrite <-Z.land_ones by done. f_equal. rewrite Z.ones_equiv. lia.
Qed.
Lemma home_mod n h : pow2 n → home n h = h `mod` n.
Proof. intros. by apply land_pow2. Qed.
Lemma next_mod n x : pow2 n → next n x = (x + 1) `mod` n.
Proof. intros. by apply land_pow2. Qed.

Lemma mod_step n slot k : ((slot + 1) `mod` n + (k - 1)) `mod` n = (slot + k) `mod` n.
Proof. rewrite Zplus_mod_idemp_l. f_equal. lia. Qed.

(** A zero slot ahead stops the search for a free slot. *)
Lemma probe_free_spec fuel slots slot k :
  pow2 (zlen slots) → 0 ≤ slot < zlen slots → 0 ≤ k < Z.of_nat fuel →
  rd slots ((slot + k) `mod` zlen slots) = 0 →
  ∃ k', 0 ≤ k' ≤ k ∧ probe_free fuel slots slot = (slot + k') `mod` zlen slots ∧
    rd slots ((slot + k') `mod` zlen slots) = 0 ∧
    ∀ j, 0 ≤ j < k' → rd slots ((slot + j) `mod` zlen slots) ≠ 0.
Proof.
  intros Hn. pose proof (pow2_pos _ Hn). revert slot k.
  induction fuel as [|fuel IH]; intros slot k Hs Hk Hz; [lia|]. cbn [probe_free].
  destruct (Z.eqb_spec (rd slots slot) 0) as [H0|H0].
  { exists 0. rewrite Z.add_0_r, Z.mod_small by lia. split_and!; try done; lia. }
  assert (k ≠ 0) by (intros ->; rewrite Z.add_0_r, Z.mod_small in Hz by lia; done).
  rewrite next_mod by done.
  destruct (IH ((slot + 1) `mod` zlen slots) (k - 1)) as (k'&Hk'&Hp&Hz'&Hnz);
    [apply Z.mod_pos_bound; lia|lia|by rewrite mod_step|].
  exists (k' + 1). replace k' with (k' + 1 - 1) in Hp, Hz' by lia. rewrite mod_step in Hp, Hz'.
  split_and!; [lia|lia|done|done|]. intros j Hj. destruct (decide (j = 0)) as [->|].
  - rewrite Z.add_0_r, Z.mod_small by lia. done.
  - rewrite <-mod_step. apply Hnz. lia.
Qed.

Lemma nonzeros_zero slots :
  (nonzeros slots < length slots)%nat → ∃ i, 0 ≤ i < zlen slots ∧ rd slots i = 0.
Proof.
  induction slots as [|v slots IH]; cbn [length]; [lia|]. unfold nonzeros. rewrite filter_cons. intros H.
  destruct (decide (v = 0)) as [->|Hv].
  - exists 0. split; [rewrite zlen_cons; pose proof (zlen_nonneg slots); lia|done].
  - rewrite decide_True in H by done. cbn [length] in H. destruct IH as (i&Hi&Hz); [unfold nonzeros; lia|].
    exists (i + 1). rewrite zlen_cons. split; [lia|]. unfold rd in *.
    by replace (Z.to_nat (i + 1)) with (S (Z.to_nat i)) by lia.
Qed.
Lemma nonzeros_wr slots i v :
  0 ≤ i < zlen slots → rd slots i = 0 → v ≠ 0 → nonzeros (wr slots i v) = S (nonzeros slots).
Proof.
  unfold rd, wr, zlen, nonzeros. intros Hi Hz Hv. assert (Hlt : (Z.to_nat i < length slots)%nat) by lia.
  clear Hi. revert Hlt Hz. generalize (Z.to_nat i). clear i. induction slots as [|w slots IH]; intros k Hlt Hz;
    cbn [length] in Hlt; [lia|].
  destruct k as [|k]; cbn in Hz.
  - subst w. change (<[0%nat:=v]> (0 :: slots)) with (v :: slots). rewrite !filter_cons.
    rewrite decide_True by done. by rewrite decide_False by naive_solver.
  - change (<[S k:=v]> (w :: slots)) with (w :: <[k:=v]> slots). rewrite !filter_cons.
    case_decide; cbn [length]; rewrite IH by (done || lia); done.
Qed.

Section table.
Context (slots hashes : list Z) (Ht : table_ok slots hashes).

(** There is room as long as there are fewer symbols than slots. *)
Lemma free_slot_spec h : (length hashes < length slots)%nat →
  ∃ k, 0 ≤ k < zlen slots ∧ free_slot slots h = (h + k) `mod` zlen slots ∧
    rd slots ((h + k) `mod` zlen slots) = 0 ∧
    ∀ j, 0 ≤ j < k → rd slots ((h + j) `mod` zlen slots) ≠ 0.
Proof using Ht.
  intros Hroom. pose proof (t_pow2 _ _ Ht) as Hn. pose proof (pow2_pos _ Hn).
  destruct (nonzeros_zero slots) as (z&Hz&H0); [by rewrite (t_count _ _ Ht)|].
  unfold free_slot. rewrite home_mod by done.
  pose proof (Z.mod_pos_bound h (zlen slots) ltac:(lia)) as Hh.
  pose proof (Z.mod_pos_bound (z - h) (zlen slots) ltac:(lia)) as Hd.
  assert (Hat : (h `mod` zlen slots + (z - h) `mod` zlen slots) `mod` zlen slots = z).
  { rewrite <-Z.add_mod by lia. replace (h + (z - h)) with z by lia. by apply Z.mod_small. }
  destruct (probe_free_spec (length slots) slots (h `mod` zlen slots) ((z - h) `mod` zlen slots))
    as (k&Hk&->&Hz'&Hnz); [done|done|done|by rewrite Hat|].
  exists k. rewrite !Zplus_mod_idemp_l in *. split_and!; try done; [lia..|].
  intros j Hj. specialize (Hnz j Hj). by rewrite Zplus_mod_idemp_l in Hnz.
Qed.

(** Entering the next position at the free slot. *)
Lemma table_insert h : (length hashes < length slots)%nat →
  table_ok (wr slots (free_slot slots h) (zlen hashes + 1)) (hashes ++ [h]).
Proof using Ht.
  intros Hroom. destruct (free_slot_spec h Hroom) as (k&Hk&->&Hz&Hnz).
  pose proof (pow2_pos _ (t_pow2 _ _ Ht)) as Hpos. pose proof (zlen_nonneg hashes).
  pose proof (Z.mod_pos_bound (h + k) (zlen slots) Hpos) as Hb.
  set (e := (h + k) `mod` zlen slots) in *.
  split; rewrite ?zlen_wr.
  - apply Ht.
  - rewrite nonzeros_wr by lia. rewrite (t_count _ _ Ht), length_app. cbn. lia.
  - intros v Hv Hv0. rewrite zlen_app. change (zlen [h]) with 1.
    apply list_elem_of_lookup in Hv as [i Hi]. unfold wr in Hi.
    apply list_lookup_insert_Some in Hi as [(_&<-&_)|(_&Hi)]; [lia|].
    apply list_elem_of_lookup_2 in Hi. pose proof (t_values _ _ Ht v Hi Hv0). lia.
  - assert (Hkeep : ∀ x, rd slots x ≠ 0 → 0 ≤ x → rd (wr slots e (zlen hashes + 1)) x = rd slots x).
    { intros x Hx Hx0. apply rd_wr_ne; [lia|lia|]. intros ->. done. }
    intros i g Hi. apply lookup_app_Some in Hi as [Hi|[Hi1 Hi]].
    + destruct (t_paths _ _ Ht i g Hi) as (k'&Hk'&Hv&Hnz'). exists k'.
      assert (∀ x, 0 ≤ (g + x) `mod` zlen slots) by (intros; apply Z.mod_pos_bound; lia).
      split; [done|]. split; [rewrite Hkeep; auto; rewrite Hv; lia|].
      intros j Hj. rewrite Hkeep; auto.
    + destruct (i - length hashes)%nat eqn:Hi0; [|done]. cbn in Hi. injection Hi as <-.
      exists k. split; [done|]. split; [fold e; rewrite rd_wr_eq by lia; unfold zlen; lia|].
      intros j Hj. rewrite Hkeep; [by apply Hnz|by apply Hnz|apply Z.mod_pos_bound; lia].
Qed.
End table.

Lemma table_zero n : pow2 n → table_ok (zrep n 0) [].
Proof.
  intros Hn. pose proof (pow2_pos _ Hn). split; rewrite ?zlen_zrep by lia; try done.
  - unfold nonzeros, zrep. induction (Z.to_nat n); [done|]. cbn [replicate]. rewrite filter_cons.
    by rewrite decide_False by naive_solver.
  - intros v Hv. unfold zrep in Hv. apply elem_of_replicate in Hv as [-> _]. done.
Qed.

(** ** The abstract dictionary

    A dictionary stands for the sequence of (field, string) pairs in order of
    definition; the identifier of a string is its position among the strings of its
    field, counted from one. *)

Definition pair_of (s : wadb_symbol) : Z * list Z := (s_field s, s_data s).
Definition contents (d : wadb_dictionary) : list (Z * list Z) := map pair_of (d_symbols d).
Definition strings_of (l : list (Z * list Z)) (field : Z) : list (list Z) :=
  snd <$> filter (λ x, x.1 = field) l.

Fixpoint positions (i : Z) (l : list wadb_symbol) (field : Z) : list Z :=
  match l with
  | [] => []
  | s :: l' => (if s_field s =? field then [i] else []) ++ positions (i + 1) l' field
  end.

Definition symbol_ok (sch : wadb_schema) (s : wadb_symbol) : Prop :=
  symbol_field sch (s_field s) = true ∧ wadb_utf8 (s_data s) = true ∧
  zlen (s_data s) ≤ WADB_MAX_STRING_BYTES ∧ s_hash s = hash_symbol (s_field s) (s_data s).

(** The bytes the dictionary has allocated. *)
Definition string_bytes (l : list wadb_symbol) : Z := foldr (λ s n, s_length s + 1 + n) 0 l.
Definition column_bytes (l : list wadb_symbol_column) : Z := foldr (λ c n, c_capacity c * 4 + n) 0 l.
Definition memory_of (d : wadb_dictionary) : Z :=
  SIZEOF_DICTIONARY + field_count (d_schema d) * SIZEOF_COLUMN + d_capacity d * SIZEOF_SYMBOL +
  d_slot_count d * 4 + column_bytes (d_columns d) + string_bytes (d_symbols d).

Record dict_ok (d : wadb_dictionary) : Prop := {
  dk_columns_length : length (d_columns d) = length (fields (d_schema d));
  dk_symbols : Forall (symbol_ok (d_schema d)) (d_symbols d);
  dk_ids : ∀ i s, d_symbols d !! i = Some s →
    s_id s = zlen (positions 0 (take i (d_symbols d)) (s_field s)) + 1;
  dk_nodup : NoDup (contents d);
  dk_columns : ∀ f, 0 ≤ f < field_count (d_schema d) →
    c_indices (d_column d f) = positions 0 (d_symbols d) f ∧
    c_count (d_column d f) ≤ c_capacity (d_column d f) ≤ 2 ^ 33;
  dk_count : d_count d ≤ UINT32_MAX;
  dk_table : d_slots d = [] ∧ d_symbols d = [] ∨ table_ok (d_slots d) (map s_hash (d_symbols d));
  dk_load : 2 * d_count d ≤ d_slot_count d ≤ 2 ^ 34;
  dk_capacity : d_count d ≤ d_capacity d ≤ 2 ^ 33;
  dk_memory : d_allocated d = memory_of d;
  dk_limit : memory_of d ≤ d_limit d ≤ SIZE_MAX;
}.

Lemma positions_app i l k f : positions i (l ++ k) f = positions i l f ++ positions (i + zlen l) k f.
Proof.
  revert i. induction l as [|s l IH]; intros i; cbn [app positions].
  { change (zlen []) with 0. by rewrite Z.add_0_r. }
  rewrite IH, zlen_cons, app_assoc. do 2 f_equal. lia.
Qed.
Lemma positions_length_le i l f : zlen (positions i l f) ≤ zlen l.
Proof.
  revert i. induction l as [|s l IH]; intros i; cbn [positions]; [done|].
  specialize (IH (i + 1)). rewrite zlen_app, zlen_cons. destruct (_ =? _); rewrite ?zlen_cons, ?zlen_nil; lia.
Qed.
(** Reading the strings through the positions. *)
Lemma positions_strings_at l f k :
  (λ i, s_data (l !!! Z.to_nat i)) <$> positions 0 l f !! k = strings_of (map pair_of l) f !! k.
Proof.
  rewrite <-list_lookup_fmap. f_equal. unfold strings_of.
  assert (H : ∀ pre, (λ i, s_data ((pre ++ l) !!! Z.to_nat i)) <$> positions (zlen pre) l f =
    snd <$> filter (λ x : Z * list Z, x.1 = f) (map pair_of l)); [|exact (H [])].
  induction l as [|s l IH]; intros pre; [done|]. cbn [positions map]. rewrite filter_cons. cbn [pair_of fst].
  specialize (IH (pre ++ [s])). rewrite zlen_app in IH. change (zlen [s]) with 1 in IH.
  rewrite fmap_app, <-app_assoc in *. cbn [app] in IH. rewrite IH.
  destruct (Z.eqb_spec (s_field s) f) as [->|Hf].
  - rewrite decide_True by done. cbn. f_equal. unfold zlen. rewrite Nat2Z.id.
    by rewrite list_lookup_total_middle.
  - by rewrite decide_False by done.
Qed.
Lemma positions_strings_length i l f : length (positions i l f) = length (strings_of (map pair_of l) f).
Proof.
  revert i. unfold strings_of. induction l as [|s l IH]; intros i; [done|]. cbn [positions map].
  rewrite filter_cons, length_app, IH. cbn [pair_of fst].
  destruct (Z.eqb_spec (s_field s) f); [by rewrite decide_True|by rewrite decide_False].
Qed.
Lemma strings_of_app l k f : strings_of (l ++ k) f = strings_of l f ++ strings_of k f.
Proof. unfold strings_of. by rewrite filter_app, fmap_app. Qed.

Lemma symbol_field_range sch f : symbol_field sch f = true → 0 < f < field_count sch.
Proof.
  unfold symbol_field, znth, field_count, zlen. destruct (Z.ltb_spec f 0); [done|].
  destruct (fields sch !! Z.to_nat f) eqn:Hf; [|done]. apply lookup_lt_Some in Hf.
  destruct (Z.eqb_spec f 0); [done|]. lia.
Qed.

(** Resolution reads the abstract sequence. *)
Lemma resolve_spec d field id :
  dict_ok d → 0 ≤ id → symbol_field (d_schema d) field = true →
  wadb_dictionary_resolve d field id =
    match (if id =? 0 then None else strings_of (contents d) field !! Z.to_nat (id - 1)) with
    | Some s => Ok s
    | None => Err WADB_CORRUPT
    end.
Proof.
  intros Hok Hid Hf. unfold wadb_dictionary_resolve. rewrite Hf. cbn [negb orb].
  destruct (Z.eqb_spec id 0); [done|]. cbn [orb].
  pose proof (symbol_field_range _ _ Hf) as Hr.
  destruct (dk_columns _ Hok field) as [Hc _]; [lia|].
  unfold contents, c_count. rewrite Hc, <-positions_strings_at.
  destruct (Z.gtb_spec id (zlen (positions 0 (d_symbols d) field))) as [Hgt|Hle].
  - rewrite lookup_ge_None_2 by (unfold zlen in Hgt; lia). done.
  - destruct (lookup_lt_is_Some_2 (positions 0 (d_symbols d) field) (Z.to_nat (id - 1))) as [v Hv];
      [unfold zlen in Hle; lia|].
    rewrite Hv. cbn. unfold rd. by erewrite nth_lookup_Some by done.
Qed.
Lemma resolve_not_symbol d field id :
  symbol_field (d_schema d) field = false → wadb_dictionary_resolve d field id = Err WADB_CORRUPT.
Proof. intros Hf. unfold wadb_dictionary_resolve. by rewrite Hf. Qed.

(** ** Searching *)

Section search.
Context (d : wadb_dictionary) (Hok : dict_ok d) (field : Z) (data : list Z).
Let hash := hash_symbol field data.

Lemma matches_iff s : symbol_ok (d_schema d) s →
  symbol_matches s hash field data = true ↔ pair_of s = (field, data).
Proof.
  intros (_&_&_&Hh). unfold symbol_matches, bytes_eqb, pair_of, s_length.
  rewrite !andb_true_iff, !Z.eqb_eq, bool_decide_eq_true. split; [naive_solver|].
  intros [= <- <-]. unfold hash. by rewrite Hh.
Qed.

Lemma slot_symbol v : v ∈ d_slots d → v ≠ 0 →
  ∃ s, d_symbols d !! Z.to_nat (v - 1) = Some s ∧ d_symbols d !!! Z.to_nat (v - 1) = s.
Proof.
  intros Hv Hv0. destruct (dk_table _ Hok) as [[Hs _]|Ht]; [by rewrite Hs in Hv; apply elem_of_nil in Hv|].
  pose proof (t_values _ _ Ht v Hv Hv0) as Hr. rewrite zlen_map in Hr. unfold zlen in Hr.
  destruct (lookup_lt_is_Some_2 (d_symbols d) (Z.to_nat (v - 1))) as [s Hs]; [lia|].
  exists s. split; [done|]. by apply list_lookup_total_correct.
Qed.
Lemma rd_elem (l : list Z) i : rd l i ≠ 0 → rd l i ∈ l.
Proof.
  unfold rd. intros H. rewrite nth_lookup in *. destruct (l !! Z.to_nat i) eqn:Hl; [|done].
  by eapply list_elem_of_lookup_2.
Qed.

Lemma find_symbol_sound fuel slot id :
  find_symbol fuel d hash field data slot = Some id →
  ∃ i s, d_symbols d !! i = Some s ∧ pair_of s = (field, data) ∧ s_id s = id.
Proof.
  revert slot. induction fuel as [|fuel IH]; intros slot; [done|]. cbn [find_symbol].
  destruct (Z.eqb_spec (rd (d_slots d) slot) 0) as [|Hv]; [done|].
  destruct (slot_symbol _ (rd_elem _ _ Hv) Hv) as (s&Hs&->).
  destruct (symbol_matches s hash field data) eqn:Hm; [|apply IH]. intros [= <-].
  exists (Z.to_nat (rd (d_slots d) slot - 1)), s. split_and!; [done| |done].
  apply matches_iff; [|done]. by eapply Forall_lookup_1; [apply Hok|].
Qed.

(** A defined symbol is found before the first free slot of its path. *)
Lemma find_symbol_path fuel slot k i s :
  table_ok (d_slots d) (map s_hash (d_symbols d)) →
  d_symbols d !! i = Some s → pair_of s = (field, data) →
  0 ≤ slot < d_slot_count d → 0 ≤ k < Z.of_nat fuel →
  rd (d_slots d) ((slot + k) `mod` d_slot_count d) = Z.of_nat i + 1 →
  (∀ j, 0 ≤ j < k → rd (d_slots d) ((slot + j) `mod` d_slot_count d) ≠ 0) →
  ∃ id, find_symbol fuel d hash field data slot = Some id.
Proof.
  intros Ht Hi Hs. pose proof (pow2_pos _ (t_pow2 _ _ Ht)) as Hpos. fold (d_slot_count d) in Hpos.
  revert slot k. induction fuel as [|fuel IH]; intros slot k Hslot Hk Hv Hnz; [lia|].
  cbn [find_symbol].
  destruct (decide (k = 0)) as [->|Hk0].
  - rewrite Z.add_0_r, Z.mod_small in Hv by done. rewrite Hv.
    destruct (Z.eqb_spec (Z.of_nat i + 1) 0); [lia|].
    replace (Z.to_nat (Z.of_nat i + 1 - 1)) with i by lia.
    rewrite (list_lookup_total_correct _ _ _ Hi).
    rewrite (proj2 (matches_iff s ltac:(by eapply Forall_lookup_1; [apply Hok|]))) by done. eauto.
  - pose proof (Hnz 0 ltac:(lia)) as H0. rewrite Z.add_0_r, Z.mod_small in H0 by done.
    destruct (Z.eqb_spec (rd (d_slots d) slot) 0); [done|].
    destruct (symbol_matches _ _ _ _); [eauto|].
    rewrite next_mod by apply (t_pow2 _ _ Ht).
    apply (IH _ (k - 1)); [by apply Z.mod_pos_bound|lia|by rewrite mod_step|].
    intros j Hj. replace j with (j + 1 - 1) by lia. rewrite mod_step. apply Hnz. lia.
Qed.

Definition search : option Z :=
  if d_slot_count d =? 0 then None
  else find_symbol (length (d_slots d)) d hash field data (home (d_slot_count d) hash).

Lemma search_spec :
  match search with
  | Some id => ∃ i s, d_symbols d !! i = Some s ∧ pair_of s = (field, data) ∧ s_id s = id
  | None => (field, data) ∉ contents d
  end.
Proof.
  destruct search as [id|] eqn:Hsearch; unfold search in Hsearch.
  { destruct (_ =? 0); [done|]. by apply find_symbol_sound in Hsearch. }
  intros (s&Hs&Hin)%list_elem_of_fmap. apply list_elem_of_lookup in Hin as [i Hi].
  destruct (dk_table _ Hok) as [[_ Hnil]|Ht]; [by rewrite Hnil in Hi|].
  pose proof (pow2_pos _ (t_pow2 _ _ Ht)) as Hpos. fold (d_slot_count d) in Hpos.
  destruct (Z.eqb_spec (d_slot_count d) 0); [lia|].
  destruct (t_paths _ _ Ht i (s_hash s)) as (k&Hk&Hv&Hnz); [by rewrite list_lookup_fmap, Hi|].
  fold (d_slot_count d) in Hk, Hv, Hnz.
  assert (Hh : s_hash s = hash).
  { assert (Hso : symbol_ok (d_schema d) s) by (by eapply Forall_lookup_1; [apply Hok|]).
    destruct Hso as (_&_&_&->). unfold pair_of in Hs. injection Hs as -> ->. done. }
  destruct (find_symbol_path (length (d_slots d)) (home (d_slot_count d) hash) k i s) as [id Hid];
    try done; rewrite ?home_mod by apply (t_pow2 _ _ Ht).
  - by apply Z.mod_pos_bound.
  - by rewrite Zplus_mod_idemp_l, <-Hh.
  - intros j Hj. rewrite Zplus_mod_idemp_l, <-Hh. by apply Hnz.
  - by rewrite Hid in Hsearch.
Qed.
End search.

(** ** Growing and appending keep the invariant *)

Lemma lookup_total_alter_column g l i j :
  (i < length l)%nat →
  (alter g i l : list wadb_symbol_column) !!! j = if decide (i = j) then g (l !!! j) else l !!! j.
Proof.
  intros Hi. rewrite !list_lookup_total_alt. case_decide as Hij.
  - subst j. rewrite list_lookup_alter_eq. destruct (lookup_lt_is_Some_2 l i Hi) as [c ->]. done.
  - by rewrite list_lookup_alter_ne.
Qed.
Lemma column_bytes_cons c l : column_bytes (c :: l) = c_capacity c * 4 + column_bytes l.
Proof. done. Qed.
Lemma column_bytes_alter g l i :
  (i < length l)%nat →
  column_bytes (alter g i l) = column_bytes l + (c_capacity (g (l !!! i)) - c_capacity (l !!! i)) * 4.
Proof.
  revert i. induction l as [|c l IH]; intros i Hi; [cbn in Hi; lia|]. destruct i as [|i].
  - change (alter g 0%nat (c :: l)) with (g c :: l). rewrite !column_bytes_cons. cbn. lia.
  - change (alter g (S i) (c :: l)) with (c :: alter g i l). rewrite !column_bytes_cons.
    change ((c :: l) !!! S i) with (l !!! i). rewrite IH by (cbn in Hi; lia). lia.
Qed.
Lemma string_bytes_app l k : string_bytes (l ++ k) = string_bytes l + string_bytes k.
Proof. induction l as [|s l IH]; [done|]. cbn. fold (string_bytes (l ++ k)) (string_bytes l). lia. Qed.

Definition set_capacity (c : Z) (d : wadb_dictionary) : wadb_dictionary :=
  Dictionary (d_schema d) (d_symbols d) c (d_slots d) (d_columns d)
    (d_allocated d + (c - d_capacity d) * SIZEOF_SYMBOL) (d_limit d).
Definition set_slots (n : Z) (d : wadb_dictionary) : wadb_dictionary :=
  rehash (Dictionary (d_schema d) (d_symbols d) (d_capacity d) (zrep n 0)
    (d_columns d) (d_allocated d + (n - d_slot_count d) * 4) (d_limit d)).
Definition set_column (field c : Z) (d : wadb_dictionary) : wadb_dictionary :=
  Dictionary (d_schema d) (d_symbols d) (d_capacity d) (d_slots d)
    (alter (λ x, Column (c_indices x) c) (Z.to_nat field) (d_columns d))
    (d_allocated d + (c - c_capacity (d_column d field)) * 4) (d_limit d).

Ltac dict_simpl :=
  unfold set_capacity, set_column, with_slots, memory_of, d_count, d_slot_count in *;
  cbn [d_schema d_symbols d_capacity d_slots d_columns d_allocated d_limit] in *;
  unfold SIZEOF_SYMBOL in *.

Lemma set_capacity_ok c d : dict_ok d → d_count d ≤ c ≤ 2 ^ 33 →
  d_allocated d + (c - d_capacity d) * SIZEOF_SYMBOL ≤ d_limit d → dict_ok (set_capacity c d).
Proof.
  intros [] Hc Hl. split; try done; dict_simpl; lia.
Qed.

(** [rehash] rebuilds a table over a zeroed array. *)
Lemma rehash_loop_ok symbols pre slots :
  table_ok slots (map s_hash pre) → (length pre + length symbols ≤ length slots)%nat →
  zlen pre + zlen symbols ≤ UINT32_MAX →
  let slots' := rehash_loop symbols (zlen pre) slots in
  zlen slots' = zlen slots ∧ table_ok slots' (map s_hash (pre ++ symbols)).
Proof.
  revert pre slots. induction symbols as [|s symbols IH]; intros pre slots Ht Hroom Hu; cbn [rehash_loop].
  { by rewrite app_nil_r. }
  cbn [length] in Hroom. rewrite zlen_cons in Hu. pose proof (zlen_nonneg symbols). pose proof (zlen_nonneg pre).
  rewrite u32_id by mlia.
  assert (Ht' : table_ok (wr slots (free_slot slots (s_hash s)) (zlen pre + 1)) (map s_hash (pre ++ [s]))).
  { rewrite map_app. rewrite <-(zlen_map s_hash pre). apply table_insert; [done|].
    rewrite length_map. lia. }
  destruct (IH (pre ++ [s]) (wr slots (free_slot slots (s_hash s)) (zlen pre + 1))) as [Hl Hok].
  - done.
  - rewrite length_app. unfold wr. rewrite length_insert. cbn. lia.
  - rewrite zlen_app. change (zlen [s]) with 1. lia.
  - rewrite zlen_app in Hl, Hok. change (zlen [s]) with 1 in Hl, Hok.
    rewrite zlen_wr in Hl. split; [done|]. by rewrite <-app_assoc in Hok.
Qed.
Lemma rehash_ok d : pow2 (d_slot_count d) → d_count d ≤ d_slot_count d → d_count d ≤ UINT32_MAX →
  ∃ slots, rehash d = with_slots slots d ∧ zlen slots = d_slot_count d ∧
    table_ok slots (map s_hash (d_symbols d)).
Proof.
  intros Hn Hc Hu. pose proof (pow2_pos _ Hn). unfold rehash. destruct (Z.eqb_spec (d_slot_count d) 0); [lia|].
  destruct (rehash_loop_ok (d_symbols d) [] (zrep (d_slot_count d) 0)) as [Hl Ht].
  - by apply table_zero.
  - cbn [length]. unfold d_count, zlen in Hc. unfold zrep. rewrite length_replicate. lia.
  - rewrite zlen_nil. unfold d_count in Hu. lia.
  - rewrite zlen_nil in *. rewrite zlen_zrep in Hl by lia. eauto.
Qed.

Lemma set_slots_ok n d : dict_ok d → pow2 n → 2 * d_count d ≤ n ≤ 2 ^ 34 →
  d_allocated d + (n - d_slot_count d) * 4 ≤ d_limit d → dict_ok (set_slots n d).
Proof.
  intros [] Hp Hn Hl. pose proof (pow2_pos _ Hp). pose proof (zlen_nonneg (d_symbols d)).
  unfold d_count in *.
  destruct (rehash_ok (Dictionary (d_schema d) (d_symbols d) (d_capacity d) (zrep n 0)
    (d_columns d) (d_allocated d + (n - d_slot_count d) * 4) (d_limit d))) as (slots&He&Hlen&Ht);
    unfold d_slot_count, d_count in *; cbn [d_symbols d_slots] in *; rewrite ?zlen_zrep in * by lia; try done; try lia.
  unfold set_slots, d_slot_count. rewrite He.
  split; try done; dict_simpl; auto; lia.
Qed.

Lemma set_column_ok field c d : dict_ok d → 0 ≤ field < field_count (d_schema d) →
  c_count (d_column d field) ≤ c ≤ 2 ^ 33 →
  d_allocated d + (c - c_capacity (d_column d field)) * 4 ≤ d_limit d → dict_ok (set_column field c d).
Proof.
  intros [] Hf Hc Hl.
  assert (Hlt : (Z.to_nat field < length (d_columns d))%nat) by (unfold field_count, zlen in Hf; lia).
  pose proof (column_bytes_alter (λ x, Column (c_indices x) c) (d_columns d) (Z.to_nat field) Hlt) as Hcb.
  cbn in Hcb. fold (d_column d field) in Hcb.
  split; try done; dict_simpl; try lia.
  - by rewrite length_alter.
  - intros f Hf'. unfold d_column, c_count. cbn. rewrite lookup_total_alter_column by done.
    destruct (dk_columns0 f Hf') as [Hi Hcap]. fold (d_column d f).
    case_decide as Hd; [|by split].
    assert (field = f) as <- by lia. by split.
Qed.

Lemma append_symbol_ok field data d :
  let id := c_count (d_column d field) + 1 in
  dict_ok d → symbol_ok (d_schema d) (Symbol field id (hash_symbol field data) data) →
  (field, data) ∉ contents d → d_count d < UINT32_MAX → 2 * (d_count d + 1) ≤ d_slot_count d →
  d_count d < d_capacity d → c_count (d_column d field) < c_capacity (d_column d field) →
  d_allocated d + (zlen data + 1) ≤ d_limit d →
  dict_ok (append_symbol field id (hash_symbol field data) data d).
Proof.
  intros id Hok Hs Hnew Hcnt Hload Hcap Hccap Hlim.
  pose proof (symbol_field_range _ _ (proj1 Hs)) as Hf. cbn in Hf.
  destruct (dk_columns _ Hok field ltac:(lia)) as [Hcol _]. destruct Hok.
  assert (Hlt : (Z.to_nat field < length (d_columns d))%nat) by (unfold field_count, zlen in Hf; lia).
  pose proof (column_bytes_alter (λ c, Column (c_indices c ++ [u32 (d_count d)]) (c_capacity c))
    (d_columns d) (Z.to_nat field) Hlt) as Hcb. cbn in Hcb.
  pose proof (zlen_nonneg (d_symbols d)) as Hnn. fold (d_count d) in Hnn.
  assert (Hcnt' : d_count (append_symbol field id (hash_symbol field data) data d) = d_count d + 1)
    by (unfold d_count; cbn; rewrite zlen_app; done).
  split; rewrite ?Hcnt'.
  - cbn. by rewrite length_alter.
  - cbn. apply Forall_app. split; [done|]. by constructor.
  - cbn. intros i s. intros [Hi|[Hge Hi]]%lookup_app_Some.
    + rewrite take_app_le by (apply lookup_lt_Some in Hi; lia). auto.
    + destruct (i - length (d_symbols d))%nat as [|k] eqn:E; [|by destruct k]. injection Hi as <-. cbn.
      assert (i = length (d_symbols d)) as -> by lia. rewrite take_app_length.
      unfold id, c_count. by rewrite Hcol.
  - unfold contents. cbn. rewrite map_app. apply NoDup_app. split_and!; [done| |apply NoDup_singleton].
    intros x Hx Hx'. apply list_elem_of_singleton in Hx' as ->. done.
  - intros f Hf'. unfold d_column, c_count. cbn. rewrite lookup_total_alter_column by done.
    destruct (dk_columns0 f Hf') as [Hi Hcap']. fold (d_column d f).
    rewrite positions_app, Z.add_0_l. cbn [positions s_field]. rewrite app_nil_r. fold (d_count d).
    destruct (Z.eqb_spec field f) as [<-|Hne].
    + rewrite decide_True by done. cbn. rewrite u32_id by mlia. fold (d_count d). split; [by rewrite Hi|].
      fold (d_column d field). unfold c_count in *. rewrite zlen_app. change (zlen [_]) with 1. lia.
    + rewrite decide_False by lia. by rewrite app_nil_r.
  - lia.
  - right. destruct dk_table0 as [[Hs0 _]|Ht]; [unfold d_slot_count in Hload; rewrite Hs0, zlen_nil in Hload; lia|].
    cbn. rewrite map_app, u32_id by mlia. unfold d_count. rewrite <-(zlen_map s_hash (d_symbols d)).
    apply table_insert; [done|]. rewrite length_map. unfold d_count, d_slot_count, zlen in *. lia.
  - unfold d_slot_count in *. cbn. rewrite zlen_wr. lia.
  - cbn. lia.
  - unfold append_symbol. dict_simpl. rewrite zlen_wr, string_bytes_app, Hcb.
    change (string_bytes [_]) with (zlen data + 1 + 0). lia.
  - unfold append_symbol. dict_simpl. rewrite zlen_wr, string_bytes_app, Hcb.
    change (string_bytes [_]) with (zlen data + 1 + 0). lia.
Qed.

(** ** Interning *)

Lemma grown_eq full capacity initial : 0 ≤ capacity ≤ 2 ^ 34 →
  grown full capacity initial =
  if full then (if capacity =? 0 then initial else capacity * 2) else capacity.
Proof. intros. unfold grown. by rewrite u64_id by mlia. Qed.

Definition opt_set {A} `{EqDecision A} (f : A → wadb_dictionary → wadb_dictionary) (new old : A)
    (d : wadb_dictionary) : wadb_dictionary := if decide (new = old) then d else f new d.

Lemma grow_symbols_cases c d h : ∃ h',
  grow_symbols c (d, h) = (Err WADB_NOMEM, (d, h')) ∨
  grow_symbols c (d, h) = (Ok (), (opt_set set_capacity c (d_capacity d) d, h')).
Proof.
  unfold grow_symbols, mbind, M_bind, dget, malloc, modify, mfail, opt_set.
  destruct (Z.eqb_spec c (d_capacity d)); [exists h; right; by rewrite decide_True|].
  rewrite decide_False by done. exists (tl h). destruct (hd true h); [by right|by left].
Qed.
Lemma grow_slots_cases c d h : ∃ h',
  grow_slots c (d, h) = (Err WADB_NOMEM, (d, h')) ∨
  grow_slots c (d, h) = (Ok (), (opt_set set_slots c (d_slot_count d) d, h')).
Proof.
  unfold grow_slots, mbind, M_bind, dget, malloc, modify, mfail, opt_set.
  destruct (Z.eqb_spec c (d_slot_count d)); [exists h; right; by rewrite decide_True|].
  rewrite decide_False by done. exists (tl h). destruct (hd true h); [by right|by left].
Qed.
Lemma grow_column_cases f c d h : ∃ h',
  grow_column f c (d, h) = (Err WADB_NOMEM, (d, h')) ∨
  grow_column f c (d, h) = (Ok (), (opt_set (set_column f) c (c_capacity (d_column d f)) d, h')).
Proof.
  unfold grow_column, mbind, M_bind, dget, malloc, modify, mfail, opt_set.
  destruct (Z.eqb_spec c (c_capacity (d_column d f))); [exists h; right; by rewrite decide_True|].
  rewrite decide_False by done. exists (tl h). destruct (hd true h); [by right|by left].
Qed.

(** What growing leaves alone. *)
Definition same_symbols (d d' : wadb_dictionary) : Prop :=
  d_symbols d' = d_symbols d ∧ d_schema d' = d_schema d ∧ d_limit d' = d_limit d.

Lemma opt_capacity d c :
  let d' := opt_set set_capacity c (d_capacity d) d in
  dict_ok d → d_count d ≤ c ≤ 2 ^ 33 → d_allocated d + (c - d_capacity d) * SIZEOF_SYMBOL ≤ d_limit d →
  dict_ok d' ∧ same_symbols d d' ∧ d_capacity d' = c ∧ d_slots d' = d_slots d ∧
  d_columns d' = d_columns d ∧ d_allocated d' = d_allocated d + (c - d_capacity d) * SIZEOF_SYMBOL.
Proof.
  intros d' Hok Hc Hl. unfold d', opt_set. case_decide as E.
  - split_and!; try done. rewrite E. lia.
  - split; [by apply set_capacity_ok|]. by split_and!.
Qed.
Lemma opt_slots d n :
  let d' := opt_set set_slots n (d_slot_count d) d in
  dict_ok d → pow2 n ∨ n = d_slot_count d → 2 * d_count d ≤ n ≤ 2 ^ 34 →
  d_allocated d + (n - d_slot_count d) * 4 ≤ d_limit d →
  dict_ok d' ∧ same_symbols d d' ∧ d_capacity d' = d_capacity d ∧ d_slot_count d' = n ∧
  d_columns d' = d_columns d ∧ d_allocated d' = d_allocated d + (n - d_slot_count d) * 4.
Proof.
  intros d' Hok Hp Hc Hl. unfold d', opt_set. case_decide as E.
  - split_and!; try done. rewrite E. lia.
  - destruct Hp as [Hp|]; [|done]. split; [by apply set_slots_ok|]. unfold set_slots.
    pose proof (pow2_pos _ Hp). pose proof (dk_count _ Hok).
    pose proof (zlen_nonneg (d_symbols d)). unfold d_count in *.
    destruct (rehash_ok (Dictionary (d_schema d) (d_symbols d) (d_capacity d) (zrep n 0)
      (d_columns d) (d_allocated d + (n - d_slot_count d) * 4) (d_limit d))) as (slots&->&Hlen&_);
      unfold d_slot_count, d_count in *; cbn [d_symbols d_slots] in *; rewrite ?zlen_zrep in * by lia;
      try done; try lia; by split_and!.
Qed.
Lemma opt_column d f c :
  let d' := opt_set (set_column f) c (c_capacity (d_column d f)) d in
  dict_ok d → 0 ≤ f < field_count (d_schema d) → c_count (d_column d f) ≤ c ≤ 2 ^ 33 →
  d_allocated d + (c - c_capacity (d_column d f)) * 4 ≤ d_limit d →
  dict_ok d' ∧ same_symbols d d' ∧ d_capacity d' = d_capacity d ∧ d_slots d' = d_slots d ∧
  c_capacity (d_column d' f) = c ∧ c_indices (d_column d' f) = c_indices (d_column d f) ∧
  d_allocated d' = d_allocated d + (c - c_capacity (d_column d f)) * 4.
Proof.
  intros d' Hok Hf Hc Hl. unfold d', opt_set. case_decide as E.
  - split_and!; try done. rewrite E. lia.
  - split; [by apply set_column_ok|]. split; [by split_and!|].
    assert (Hlt : (Z.to_nat f < length (d_columns d))%nat)
      by (rewrite (dk_columns_length _ Hok); unfold field_count, zlen in Hf; lia).
    unfold d_column, set_column. cbn. rewrite lookup_total_alter_column, decide_True by done. by split_and!.
Qed.

(** Strings a symbol field accepts. *)
Definition valid_symbol (sch : wadb_schema) (field : Z) (data : list Z) : bool :=
  symbol_field sch field && (zlen data <=? WADB_MAX_STRING_BYTES) && wadb_utf8 data.
Lemma valid_symbol_true sch field data :
  valid_symbol sch field data = true ↔
  symbol_field sch field = true ∧ zlen data ≤ WADB_MAX_STRING_BYTES ∧ wadb_utf8 data = true.
Proof. unfold valid_symbol. rewrite !andb_true_iff, Z.leb_le. tauto. Qed.

(** The abstract effect of interning. *)
Definition intern_effect (d : wadb_dictionary) (field : Z) (data : list Z) (r : result Z)
    (d' : wadb_dictionary) : Prop :=
  d_schema d' = d_schema d ∧
  match r with
  | Ok id =>
      is_u32 id ∧ id ≠ 0 ∧ symbol_field (d_schema d) field = true ∧
      contents d' = (if decide ((field, data) ∈ contents d) then contents d
                     else contents d ++ [(field, data)]) ∧
      strings_of (contents d') field !! Z.to_nat (id - 1) = Some data
  | Err e => contents d' = contents d ∧
      if valid_symbol (d_schema d) field data then e = WADB_LIMIT ∨ e = WADB_NOMEM
      else e = WADB_INVALID
  end.

Lemma same_symbols_contents d d' : same_symbols d d' → contents d' = contents d.
Proof. intros [H _]. unfold contents. by rewrite H. Qed.

Lemma strings_of_position d i s :
  dict_ok d → d_symbols d !! i = Some s →
  strings_of (contents d) (s_field s) !! Z.to_nat (s_id s - 1) = Some (s_data s) ∧ 1 ≤ s_id s ≤ d_count d.
Proof.
  intros Hok Hi. rewrite (dk_ids _ Hok i s Hi). pose proof (lookup_lt_Some _ _ _ Hi) as Hlt.
  split.
  - unfold contents. rewrite <-positions_strings_at.
    assert (Hpos : positions 0 (d_symbols d) (s_field s) = positions 0 (take i (d_symbols d)) (s_field s) ++
      zlen (take i (d_symbols d)) :: positions (zlen (take i (d_symbols d)) + 1) (drop (S i) (d_symbols d)) (s_field s)).
    { rewrite <-(take_drop_middle _ _ _ Hi) at 1. rewrite positions_app, Z.add_0_l.
      cbn [positions]. by rewrite Z.eqb_refl. }
    rewrite Hpos.
    replace (Z.to_nat (zlen (positions 0 (take i (d_symbols d)) (s_field s)) + 1 - 1))
      with (length (positions 0 (take i (d_symbols d)) (s_field s))) by (unfold zlen; lia).
    rewrite list_lookup_middle by done. cbn. f_equal. f_equal. unfold zlen.
    rewrite Nat2Z.id, length_take, Nat.min_l by lia. by apply list_lookup_total_correct.
  - pose proof (positions_length_le 0 (take i (d_symbols d)) (s_field s)) as Hl.
    pose proof (zlen_nonneg (positions 0 (take i (d_symbols d)) (s_field s))).
    unfold d_count, zlen in *. rewrite length_take in Hl. lia.
Qed.

Lemma pow2_double n : pow2 n → pow2 (n * 2).
Proof. intros (k&?&->). exists (k + 1). split; [lia|]. rewrite Z.pow_add_r by lia. lia. Qed.
Lemma slots_pow2 d : dict_ok d → d_slot_count d ≠ 0 → pow2 (d_slot_count d).
Proof.
  intros Hok Hn. destruct (dk_table _ Hok) as [[Hs _]|Ht]; [|apply Ht].
  destruct Hn. unfold d_slot_count. by rewrite Hs.
Qed.

(** Once the budget is checked, the new symbol is defined or an allocation fails. *)
Lemma define_symbol_spec field data d h capacity slots ccap r d' h' :
  dict_ok d → symbol_field (d_schema d) field = true → wadb_utf8 data = true →
  zlen data ≤ WADB_MAX_STRING_BYTES → (field, data) ∉ contents d → d_count d < UINT32_MAX →
  d_count d < capacity ≤ 2 ^ 33 → d_capacity d ≤ capacity →
  2 * (d_count d + 1) ≤ slots ≤ 2 ^ 34 → d_slot_count d ≤ slots → pow2 slots ∨ slots = d_slot_count d →
  c_count (d_column d field) < ccap ≤ 2 ^ 33 → c_capacity (d_column d field) ≤ ccap →
  (capacity - d_capacity d) * SIZEOF_SYMBOL + (slots - d_slot_count d) * 4 +
    (ccap - c_capacity (d_column d field)) * 4 + zlen data + 1 ≤ d_limit d - d_allocated d →
  define_symbol field (hash_symbol field data) data capacity slots ccap
    (c_count (d_column d field) + 1) (d, h) = (r, (d', h')) →
  dict_ok d' ∧ intern_effect d field data r d'.
Proof.
  intros Hok Hsf Hutf Hlen Hnew Hcnt Hcap1 Hcap2 Hsl1 Hsl2 Hsl3 Hcc1 Hcc2 Hbudget.
  pose proof (symbol_field_range _ _ Hsf) as Hfr. unfold SIZEOF_SYMBOL in Hbudget.
  pose proof (zlen_nonneg data).
  assert (Herr : ∀ dx hx, dict_ok dx → same_symbols d dx →
    (Err WADB_NOMEM, (dx, hx)) = (r, (d', h')) → dict_ok d' ∧ intern_effect d field data r d').
  { intros dx hx Hx Hsame [= <- <- <-]. split; [done|]. split; [apply Hsame|].
    split; [by apply same_symbols_contents|].
    rewrite (proj2 (valid_symbol_true _ _ _)) by done. auto. }
  unfold define_symbol, mbind, M_bind.
  destruct (grow_symbols_cases capacity d h) as (h1&[->| ->]); [by apply Herr|].
  destruct (opt_capacity d capacity) as (Hok1&(E1&E2&E3)&Hc1&Hs1&Hco1&Ha1);
    [done|lia|unfold SIZEOF_SYMBOL; lia|].
  set (d1 := opt_set set_capacity _ _ _) in *. unfold SIZEOF_SYMBOL in Ha1.
  assert (Hn1 : d_count d1 = d_count d) by (unfold d_count; by rewrite E1).
  assert (Hq1 : d_slot_count d1 = d_slot_count d) by (unfold d_slot_count; by rewrite Hs1).
  destruct (grow_slots_cases slots d1 h1) as (h2&[->| ->]); [by apply Herr|].
  destruct (opt_slots d1 slots) as (Hok2&(F1&F2&F3)&Hc2&Hs2&Hco2&Ha2);
    [done|by rewrite Hq1|lia|lia|].
  set (d2 := opt_set set_slots _ _ _) in *.
  assert (Hd2 : d_column d2 field = d_column d field) by (unfold d_column; by rewrite Hco2, Hco1).
  destruct (grow_column_cases field ccap d2 h2) as (h3&[->| ->]); [apply Herr; [done|split_and!; congruence]|].
  destruct (opt_column d2 field ccap) as (Hok3&(G1&G2&G3)&Hc3&Hs3&Hcc3&Hi3&Ha3);
    [done|by rewrite F2, E2; lia|by rewrite Hd2; lia|rewrite Hd2; lia|].
  set (d3 := opt_set (set_column field) _ _ _) in *. rewrite Hd2 in Hi3, Ha3.
  assert (Hsame : same_symbols d d3) by (split_and!; congruence). clearbody d3.
  unfold malloc, mfail, modify, mret, M_ret. destruct (hd true h3); cbn [negb]; [|by apply Herr].
  intros [= <- <- <-].
  assert (Hcc : c_count (d_column d3 field) = c_count (d_column d field)) by (unfold c_count; by rewrite Hi3).
  assert (Hn3 : d_count d3 = d_count d) by (unfold d_count; destruct Hsame as [-> _]; done).
  assert (Hcon : contents d3 = contents d) by (by apply same_symbols_contents).
  rewrite <-Hcc. pose proof (append_symbol_ok field data d3) as Happ. cbv zeta in Happ.
  pose proof (zlen_nonneg (c_indices (d_column d field))) as Hnc. fold (c_count (d_column d field)) in Hnc.
  assert (Hccnt : c_count (d_column d field) ≤ d_count d).
  { unfold c_count. rewrite (proj1 (dk_columns _ Hok field ltac:(lia))). apply positions_length_le. }
  split.
  - apply Happ; [done| | |lia| |lia|lia|].
    + split_and!; cbn; try done. by destruct Hsame as (_&->&_).
    + by rewrite Hcon.
    + unfold d_slot_count in *. rewrite Hs3. lia.
    + destruct Hsame as (_&_&->). lia.
  - split; [apply Hsame|]. split; [mlia|]. split; [lia|]. split; [done|].
    assert (Hc' : contents (append_symbol field (c_count (d_column d3 field) + 1) (hash_symbol field data) data d3) =
      contents d ++ [(field, data)]) by (rewrite <-Hcon; unfold contents; cbn; by rewrite map_app).
    rewrite Hc'. split; [by rewrite decide_False|].
    rewrite strings_of_app, Z.add_simpl_r, Hcc.
    assert (Hsl : c_count (d_column d field) = zlen (strings_of (contents d) field)).
    { unfold c_count, zlen, contents. by rewrite (proj1 (dk_columns _ Hok field ltac:(lia))), (positions_strings_length 0). }
    rewrite Hsl. unfold zlen. rewrite Nat2Z.id, lookup_app_r, Nat.sub_diag by lia.
    unfold strings_of. by rewrite filter_cons, decide_True.
Qed.

Lemma column_bytes_nonneg l : Forall (λ c, 0 ≤ c_capacity c) l → 0 ≤ column_bytes l.
Proof. induction 1; [done|]. rewrite column_bytes_cons. lia. Qed.
Lemma string_bytes_nonneg l : 0 ≤ string_bytes l.
Proof.
  induction l as [|s l IH]; [done|]. change (0 ≤ s_length s + 1 + string_bytes l).
  pose proof (zlen_nonneg (s_data s)). unfold s_length. lia.
Qed.
Lemma allocated_nonneg d : dict_ok d → 0 ≤ d_allocated d.
Proof.
  intros Hok. rewrite (dk_memory _ Hok). unfold memory_of, SIZEOF_DICTIONARY, SIZEOF_COLUMN, SIZEOF_SYMBOL.
  pose proof (string_bytes_nonneg (d_symbols d)). pose proof (zlen_nonneg (d_symbols d)).
  pose proof (dk_capacity _ Hok). pose proof (zlen_nonneg (d_slots d)).
  pose proof (zlen_nonneg (fields (d_schema d))).
  assert (0 ≤ column_bytes (d_columns d)).
  { apply column_bytes_nonneg, Forall_lookup. intros i c Hi.
    pose proof (lookup_lt_Some _ _ _ Hi) as Hlt. rewrite (dk_columns_length _ Hok) in Hlt.
    destruct (dk_columns _ Hok (Z.of_nat i)) as [_ Hc]; [unfold field_count, zlen; lia|].
    unfold d_column in Hc. rewrite Nat2Z.id, (list_lookup_total_correct _ _ _ Hi) in Hc.
    pose proof (zlen_nonneg (c_indices c)). unfold c_count in Hc. lia. }
  unfold d_count, d_slot_count, field_count in *. lia.
Qed.

(** Interning keeps the invariant and has the abstract effect, whatever the
    allocations do. *)
Lemma intern_spec field data d h r d' h' :
  dict_ok d → wadb_dictionary_intern field data (d, h) = (r, (d', h')) →
  dict_ok d' ∧ intern_effect d field data r d'.
Proof.
  intros Hok. unfold wadb_dictionary_intern, mbind at 1, M_bind at 1, dget at 1.
  replace (_ || _) with (negb (valid_symbol (d_schema d) field data))
    by (unfold valid_symbol; rewrite !negb_andb, Z.gtb_ltb, Z.ltb_antisym; done).
  destruct (valid_symbol (d_schema d) field data) eqn:Hv; cbn [negb].
  2: { intros [= <- <- <-]. split; [done|]. split; [done|]. split; [done|]. by rewrite Hv. }
  pose proof (proj1 (valid_symbol_true _ _ _) Hv) as Hsf.
  assert (Hlimit : ∀ hx, (Err WADB_LIMIT, (d, hx)) = (r, (d', h')) →
    dict_ok d' ∧ intern_effect d field data r d').
  { intros hx [= <- <- <-]. split; [done|]. split; [done|]. split; [done|]. rewrite Hv. auto. }
  destruct Hsf as (Hsf&Hlen&Hutf). pose proof (symbol_field_range _ _ Hsf) as Hfr.
  pose proof (search_spec d Hok field data) as Hs. unfold search in Hs.
  destruct (if d_slot_count d =? 0 then None else _) as [id|].
  { intros [= <- <- <-]. destruct Hs as (i&s&Hi&Hp&<-). unfold pair_of in Hp. injection Hp as Hf Hd.
    destruct (strings_of_position d i s Hok Hi) as [Hst Hid]. pose proof (dk_count _ Hok).
    split; [done|]. split; [done|]. rewrite Hf, Hd in Hst.
    split; [mlia|]. split; [lia|]. split; [done|]. split; [|done].
    rewrite decide_True; [done|]. apply list_elem_of_fmap. exists s. split; [by rewrite <-Hf, <-Hd|].
    by eapply list_elem_of_lookup_2. }
  destruct (_ || _) eqn:Hu; [by apply Hlimit|].
  pose proof (dk_count _ Hok) as Hcnt. pose proof (zlen_nonneg (d_symbols d)) as Hnn. fold (d_count d) in Hnn.
  pose proof (dk_capacity _ Hok) as Hcap. pose proof (dk_load _ Hok) as Hload.
  destruct (dk_columns _ Hok field ltac:(lia)) as [Hcol Hccap].
  pose proof (zlen_nonneg (c_indices (d_column d field))) as Hnc. fold (c_count (d_column d field)) in Hnc.
  assert (Hccnt : c_count (d_column d field) ≤ d_count d).
  { unfold c_count. rewrite Hcol. apply positions_length_le. }
  pose proof (dk_memory _ Hok) as Hmem. pose proof (dk_limit _ Hok) as Hlim. rewrite <-Hmem in Hlim.
  pose proof (zlen_nonneg data) as Hnd. unfold WADB_MAX_STRING_BYTES in Hlen.
  rewrite !grown_eq by lia.
  set (capacity := if d_count d =? d_capacity d then _ else _).
  set (slots := if d_slot_count d <? _ then _ else _).
  set (ccap := if c_count (d_column d field) =? _ then _ else _).
  assert (Hcapacity : d_count d < capacity ≤ 2 ^ 33 ∧ d_capacity d ≤ capacity)
    by (unfold capacity, UINT32_MAX in *; destruct (Z.eqb_spec (d_count d) (d_capacity d)),
      (Z.eqb_spec (d_capacity d) 0); lia).
  assert (Hslots : 2 * (d_count d + 1) ≤ slots ≤ 2 ^ 34 ∧ d_slot_count d ≤ slots ∧
                   (pow2 slots ∨ slots = d_slot_count d)).
  { pose proof (slots_pow2 d Hok) as Hp2.
    unfold slots, UINT32_MAX in *; destruct (Z.ltb_spec (d_slot_count d) ((d_count d + 1) * 2)),
      (Z.eqb_spec (d_slot_count d) 0); split_and!; try lia; try (by right); left;
      [by exists 5|by apply pow2_double, Hp2]. }
  assert (Hcolcap : c_count (d_column d field) < ccap ≤ 2 ^ 33 ∧ c_capacity (d_column d field) ≤ ccap)
    by (unfold ccap, UINT32_MAX in *; destruct (Z.eqb_spec (c_count (d_column d field)) (c_capacity (d_column d field))),
      (Z.eqb_spec (c_capacity (d_column d field)) 0); lia).
  clearbody capacity slots ccap. pose proof (allocated_nonneg d Hok).
  rewrite !u64_id by (unfold SIZE_MAX, SIZEOF_SYMBOL in *; mlia).
  match goal with |- context [?a >? d_limit d - d_allocated d] =>
    destruct (Z.gtb_spec a (d_limit d - d_allocated d)) as [_|Hbudget] end; [by apply Hlimit|].
  rewrite u32_id by mlia. apply define_symbol_spec; try done; try apply Hslots; unfold WADB_MAX_STRING_BYTES; lia.
Qed.

(** ** The dictionary implements the interface of the row codec *)

#[global] Instance dictionary_table : SymbolTable dict_state := {
  sym_intern := wadb_dictionary_intern;
  sym_resolve st := wadb_dictionary_resolve (fst st);
}.
Definition dict_inv (st : dict_state) : Prop := dict_ok (fst st).

Lemma intern_effect_prefix d field data r d' :
  intern_effect d field data r d' → ∃ more, contents d' = contents d ++ more.
Proof.
  intros [_ He]. destruct r as [id|e].
  - destruct He as (_&_&_&->&_). case_decide; [exists []; by rewrite app_nil_r|by eexists].
  - destruct He as [-> _]. exists []. by rewrite app_nil_r.
Qed.
(** A resolution survives as long as symbols are only added. *)
Lemma resolve_prefix d d' more field id s :
  dict_ok d → dict_ok d' → d_schema d' = d_schema d → contents d' = contents d ++ more → is_u32 id →
  wadb_dictionary_resolve d field id = Ok s → wadb_dictionary_resolve d' field id = Ok s.
Proof.
  intros Hok Hok' Hsch Hc Hid. destruct (symbol_field (d_schema d) field) eqn:Hf;
    [|by rewrite resolve_not_symbol by done].
  rewrite !resolve_spec by (rewrite ?Hsch; done || mlia). destruct (id =? 0); [done|].
  rewrite Hc, strings_of_app. destruct (strings_of (contents d) field !! _) eqn:Hl; [|done].
  by rewrite (lookup_app_l_Some _ _ _ _ Hl).
Qed.

#[global] Instance dictionary_laws : SymbolLaws dict_state dict_inv.
Proof.
  split.
  - intros [d h] field s r [d' h'] Hok Hi. by eapply intern_spec.
  - intros [d h] field s id [d' h'] Hok Hi.
    destruct (intern_spec _ _ _ _ _ _ _ Hok Hi) as [Hok' (Hsch&Hid&Hid0&Hsf&_&Hl)].
    split; [done|]. cbn [sym_resolve dictionary_table fst].
    rewrite resolve_spec by (rewrite ?Hsch; done || mlia).
    destruct (Z.eqb_spec id 0); [done|]. by rewrite Hl.
  - intros [d h] field s r [d' h'] f i s' Hok Hi Hu.
    destruct (intern_spec _ _ _ _ _ _ _ Hok Hi) as [Hok' He].
    destruct (intern_effect_prefix _ _ _ _ _ He) as [more Hm].
    eapply resolve_prefix; [done..|apply He|done|done].
Qed.

(** Identifiers of a field are never shared. *)
Lemma resolve_inj d field a b s :
  dict_ok d → is_u32 a → is_u32 b →
  wadb_dictionary_resolve d field a = Ok s → wadb_dictionary_resolve d field b = Ok s → a = b.
Proof.
  intros Hok Ha Hb. destruct (symbol_field (d_schema d) field) eqn:Hf;
    [|by rewrite resolve_not_symbol by done].
  rewrite !resolve_spec by (done || mlia).
  destruct (Z.eqb_spec a 0), (Z.eqb_spec b 0); try done.
  destruct (strings_of (contents d) field !! Z.to_nat (a - 1)) as [x|] eqn:Hx; [|done].
  destruct (strings_of (contents d) field !! Z.to_nat (b - 1)) as [y|] eqn:Hy; [|done].
  intros [= ->] [= ->].
  assert (Hnd : NoDup (strings_of (contents d) field)).
  { unfold strings_of. apply NoDup_fmap_2_strong; [|apply NoDup_filter, Hok].
    intros [f1 s1] [f2 s2]. rewrite !list_elem_of_filter. cbn. naive_solver. }
  pose proof (NoDup_lookup _ _ _ _ Hnd Hx Hy). mlia.
Qed.

(** ** Rollback *)

(** The invariant apart from the hash table, which is stale while symbols are removed. *)
Record dict_core (d : wadb_dictionary) : Prop := {
  ck_columns_length : length (d_columns d) = length (fields (d_schema d));
  ck_symbols : Forall (symbol_ok (d_schema d)) (d_symbols d);
  ck_ids : ∀ i s, d_symbols d !! i = Some s →
    s_id s = zlen (positions 0 (take i (d_symbols d)) (s_field s)) + 1;
  ck_nodup : NoDup (contents d);
  ck_columns : ∀ f, 0 ≤ f < field_count (d_schema d) →
    c_indices (d_column d f) = positions 0 (d_symbols d) f ∧
    c_count (d_column d f) ≤ c_capacity (d_column d f) ≤ 2 ^ 33;
  ck_count : d_count d ≤ UINT32_MAX;
  ck_load : 2 * d_count d ≤ d_slot_count d ≤ 2 ^ 34;
  ck_capacity : d_count d ≤ d_capacity d ≤ 2 ^ 33;
  ck_memory : d_allocated d = memory_of d;
  ck_limit : memory_of d ≤ d_limit d ≤ SIZE_MAX;
}.
Lemma dict_ok_core d : dict_ok d → dict_core d.
Proof. by intros []. Qed.
Lemma core_rehash d : dict_core d → pow2 (d_slot_count d) →
  dict_ok (rehash d) ∧ contents (rehash d) = contents d ∧ d_schema (rehash d) = d_schema d.
Proof.
  intros [] Hp. pose proof (zlen_nonneg (d_symbols d)). fold (d_count d) in *.
  destruct (rehash_ok d Hp) as (slots&->&Hlen&Ht); [lia|lia|].
  split; [|done]. split; try done; dict_simpl; auto; lia.
Qed.

Lemma pop_core d s l : dict_core d → d_symbols d = l ++ [s] →
  dict_core (pop_symbol d) ∧ d_symbols (pop_symbol d) = l ∧
  d_slots (pop_symbol d) = d_slots d ∧ d_schema (pop_symbol d) = d_schema d.
Proof.
  intros [] Hl. unfold pop_symbol. rewrite Hl, last_snoc, length_app, Nat.add_sub.
  rewrite take_app_length. cbn [d_symbols d_slots d_schema]. split_and!; [|done..].
  assert (Hs : symbol_ok (d_schema d) s).
  { rewrite Hl in ck_symbols0. apply Forall_app in ck_symbols0 as [_ Hx].
    exact (proj1 (Forall_singleton _ _) Hx). }
  pose proof (symbol_field_range _ _ (proj1 Hs)) as Hf.
  assert (Hlt : (Z.to_nat (s_field s) < length (d_columns d))%nat) by (unfold field_count, zlen in Hf; lia).
  pose proof (column_bytes_alter drop_last_index (d_columns d) (Z.to_nat (s_field s)) Hlt) as Hcb.
  cbn [drop_last_index c_capacity] in Hcb. rewrite Z.sub_diag, Z.mul_0_l, Z.add_0_r in Hcb.
  assert (Hcnt : d_count d = zlen l + 1) by (unfold d_count; rewrite Hl, zlen_app; done).
  assert (Hsb : string_bytes (d_symbols d) = string_bytes l + (s_length s + 1))
    by (rewrite Hl, string_bytes_app; change (string_bytes [s]) with (s_length s + 1 + 0); lia).
  pose proof (zlen_nonneg (s_data s)). fold (s_length s) in *.
  unfold d_count in Hcnt, ck_load0, ck_capacity0, ck_count0. rewrite Hcnt in ck_load0, ck_capacity0, ck_count0.
  split; try done; dict_simpl.
  - by rewrite length_alter.
  - rewrite Hl in ck_symbols0. by apply Forall_app in ck_symbols0 as [? _].
  - intros i t Hi. pose proof (lookup_lt_Some _ _ _ Hi). rewrite Hl in ck_ids0.
    rewrite (ck_ids0 i t) by (by rewrite lookup_app_l). by rewrite take_app_le by lia.
  - unfold contents in *. cbn [d_symbols]. rewrite Hl, map_app in ck_nodup0. by apply NoDup_app in ck_nodup0 as [? _].
  - intros f Hf'. destruct (ck_columns0 f Hf') as [Hi Hc]. unfold d_column, c_count in *. cbn [d_columns].
    rewrite lookup_total_alter_column by done. rewrite Hl, positions_app in Hi. cbn [positions] in Hi.
    rewrite app_nil_r in Hi. destruct (Z.eqb_spec (s_field s) f) as [<-|Hne].
    + rewrite decide_True by done. cbn [drop_last_index c_indices c_capacity].
      rewrite Hi in *. rewrite length_app, Nat.add_sub, take_app_length. rewrite zlen_app in Hc.
      change (zlen [_]) with 1 in Hc. split; [done|lia].
    + rewrite decide_False by lia. by rewrite app_nil_r in Hi.
  - lia.
  - lia.
  - lia.
  - rewrite Hcb. rewrite Hsb in *. lia.
  - rewrite Hcb. rewrite Hsb in *. lia.
Qed.

Lemma pops_core n d : dict_core d → (n ≤ length (d_symbols d))%nat →
  let d' := Nat.iter n pop_symbol d in
  dict_core d' ∧ d_symbols d' = take (length (d_symbols d) - n) (d_symbols d) ∧
  d_slots d' = d_slots d ∧ d_schema d' = d_schema d.
Proof.
  intros Hc. induction n as [|n IH]; intros Hn.
  { cbn. rewrite Nat.sub_0_r, take_ge by lia. done. }
  destruct IH as (Hc'&Hs&Hsl&Hsch); [lia|]. rewrite Nat.iter_succ. cbv zeta.
  set (d1 := Nat.iter n pop_symbol d) in *.
  destruct (lookup_lt_is_Some_2 (d_symbols d) (length (d_symbols d) - S n)) as [s Hs']; [lia|].
  assert (Hsnoc : d_symbols d1 = take (length (d_symbols d) - S n) (d_symbols d) ++ [s]).
  { rewrite Hs. replace (length (d_symbols d) - n)%nat with (S (length (d_symbols d) - S n)) by lia.
    by rewrite (take_S_r _ _ s). }
  destruct (pop_core d1 s _ Hc' Hsnoc) as (?&?&?&?). split_and!; congruence.
Qed.

Lemma rollback_spec d mark :
  dict_ok d → 0 ≤ mark →
  let d' := wadb_dictionary_rollback d mark in
  dict_ok d' ∧ d_schema d' = d_schema d ∧ contents d' = take (Z.to_nat mark) (contents d).
Proof.
  intros Hok Hm. unfold wadb_dictionary_rollback. destruct (Z.geb_spec mark (d_count d)) as [Hge|Hlt].
  { split_and!; [done..|]. unfold contents. rewrite take_ge; [done|].
    rewrite length_map. unfold d_count, zlen in Hge. lia. }
  destruct (pops_core (Z.to_nat (d_count d - mark)) d) as (Hc&Hs&Hsl&Hsch);
    [by apply dict_ok_core|unfold d_count, zlen in *; lia|].
  set (d1 := Nat.iter _ pop_symbol d) in *. clearbody d1.
  assert (Hp : pow2 (d_slot_count d1)).
  { unfold d_slot_count. rewrite Hsl. apply slots_pow2; [done|]. pose proof (dk_load _ Hok). lia. }
  destruct (core_rehash d1 Hc Hp) as (?&Hc1&Hs1). cbv zeta. rewrite Hc1, Hs1. split_and!; [done|done|].
  unfold contents. rewrite Hs, <-fmap_take. f_equal. f_equal. unfold d_count, zlen in *. lia.
Qed.

(** ** Export and apply *)

(** The size loop of [wadb_dictionary_export_limit]. *)
Fixpoint export_size (limit : Z) (l : list wadb_symbol) (n : Z) : option Z :=
  match l with
  | [] => Some n
  | s :: l' =>
      n ← wadb_add_size n (12 + s_length s);
      if (n >? limit) || (n >? UINT32_MAX - 7) then None else export_size limit l' n
  end.
(** The copy loop. *)
Fixpoint export_copy (l : list wadb_symbol) (p : list Z) (offset : Z) : list Z :=
  match l with
  | [] => p
  | s :: l' =>
      let p := wadb_put_u16 p offset (u16 (s_field s)) in
      let p := wadb_put_u32 p (offset + 4) (s_id s) in
      let p := wadb_put_u32 p (offset + 8) (s_length s) in
      let p := put p (offset + 12) (s_data s) in
      export_copy l' p (offset + (12 + s_length s))
  end.
(** [(n + 7) & ~(size_t)7] *)
Definition align8 (n : Z) : Z := Z.land (n + 7) (UINT64_MAX - 7).

Definition wadb_dictionary_export_limit (d : wadb_dictionary) (mark limit : Z) (alloc : bool)
    : result (list Z * Z * Z) :=
  if mark >? d_count d then Err WADB_INVALID
  else
    let l := drop (Z.to_nat mark) (d_symbols d) in
    match export_size limit l 0 with
    | None => Err WADB_LIMIT
    | Some n =>
        let n := align8 n in
        if n >? limit then Err WADB_LIMIT
        else if n =? 0 then Ok ([], 0, 0)
        else if negb alloc then Err WADB_NOMEM
        else Ok (export_copy l (zrep n 0) 0, u32 n, u32 (d_count d - mark))
    end.
Definition wadb_dictionary_export (d : wadb_dictionary) (mark : Z) (alloc : bool)
    : result (list Z * Z * Z) :=
  wadb_dictionary_export_limit d mark WADB_MAX_FRAME_BYTES alloc.

(** The loop of [wadb_dictionary_apply]; the result is the final offset. *)
Fixpoint apply_loop (n : nat) (f : wadb_frame) (offset : Z) : M dict_state Z :=
  match n with
  | O => mret offset
  | S n' =>
      if (offset >? fr_dictionary_bytes f) || (fr_dictionary_bytes f - offset <? 12)
      then mfail WADB_CORRUPT
      else
        let p := fr_dictionary f in
        let field := wadb_get_u16 p offset in
        let id := wadb_get_u32 p (offset + 4) in
        let length := wadb_get_u32 p (offset + 8) in
        d ← dget;
        if negb (symbol_field (d_schema d) field) ||
           negb (id =? c_count (d_column d field) + 1) ||
           negb (wadb_get_u16 p (offset + 2) =? 0) ||
           (length >? fr_dictionary_bytes f - offset - 12)
        then mfail WADB_CORRUPT
        else λ st,
          match wadb_dictionary_intern field (sub p (offset + 12) length) st with
          | (Err e, st') => (Err (if decide (e = WADB_INVALID) then WADB_CORRUPT else e), st')
          | (Ok assigned, st') =>
              if negb (assigned =? id) || negb (d_count (fst st') =? d_count d + 1)
              then (Err WADB_CORRUPT, st')
              else apply_loop n' f (offset + (12 + length)) st'
          end
  end.
(** The checks after the loop. *)
Definition apply_padding (f : wadb_frame) (offset : Z) : bool :=
  (fr_dictionary_bytes f `mod` 8 =? 0) && negb (offset >? fr_dictionary_bytes f) &&
  (fr_dictionary_bytes f - offset <? 8) &&
  zeroes (fr_dictionary f) offset (fr_dictionary_bytes f - offset).
Definition wadb_dictionary_apply (f : wadb_frame) : M dict_state unit := λ '(d, h),
  let mark := d_count d in
  match apply_loop (Z.to_nat (fr_dictionary_count f)) f 0 (d, h) with
  | (Ok offset, (d', h')) =>
      if apply_padding f offset then (Ok (), (d', h'))
      else (Err WADB_CORRUPT, (wadb_dictionary_rollback d' mark, h'))
  | (Err e, (d', h')) => (Err e, (wadb_dictionary_rollback d' mark, h'))
  end.

(** ** Round trip through the serialized form *)

Definition symbol_image (s : wadb_symbol) : list Z :=
  le_split 2 (s_field s) ++ zrep 2 0 ++ le_split 4 (s_id s) ++ le_split 4 (s_length s) ++ s_data s.
Definition symbols_image (l : list wadb_symbol) : list Z := concat (map symbol_image l).

Lemma zlen_symbol_image s : zlen (symbol_image s) = 12 + s_length s.
Proof. unfold symbol_image, s_length. rewrite !zlen_app, !zlen_le_split, zlen_zrep by lia. lia. Qed.

Lemma export_size_spec limit l n m :
  0 ≤ n → limit ≤ SIZE_MAX → export_size limit l n = Some m →
  m = n + zlen (symbols_image l) ∧ (l ≠ [] → m ≤ limit ∧ m ≤ UINT32_MAX - 7).
Proof.
  revert n. induction l as [|s l IH]; intros n Hn Hlim; cbn [export_size].
  { intros [= <-]. change (symbols_image []) with (@nil Z). rewrite zlen_nil. split; [lia|done]. }
  unfold wadb_add_size. destruct (_ >? _); cbn [mbind option_bind]; [done|].
  pose proof (zlen_nonneg (s_data s)). fold (s_length s) in *.
  destruct (_ || _) eqn:Hc; [done|]. intros He. apply IH in He as [-> Hb]; [|lia|done].
  unfold symbols_image. cbn [map concat]. rewrite zlen_app, zlen_symbol_image.
  fold (symbols_image l). split; [lia|]. intros _. destruct l as [|t l]; [|by apply Hb].
  change (symbols_image []) with (@nil Z). rewrite zlen_nil. lia.
Qed.

Lemma export_copy_spec l pre n :
  zlen (symbols_image l) ≤ n →
  export_copy l (pre ++ zrep n 0) (zlen pre) =
  pre ++ symbols_image l ++ zrep (n - zlen (symbols_image l)) 0.
Proof.
  revert pre n. induction l as [|s l IH]; intros pre n Hn; cbn [export_copy].
  { assert (Hz : zlen (symbols_image []) = 0) by done. by rewrite Hz, Z.sub_0_r. }
  unfold symbols_image in *. cbn [map concat] in *. fold (symbols_image l) in *.
  rewrite zlen_app, zlen_symbol_image in *.
  pose proof (zlen_nonneg (s_data s)) as Hd. fold (s_length s) in Hd.
  pose proof (zlen_nonneg (symbols_image l)). pose proof (zlen_nonneg pre).
  replace (zrep n 0) with (zrep 2 0 ++ zrep 2 0 ++ zrep 4 0 ++ zrep 4 0 ++ zrep (s_length s) 0 ++
    zrep (n - (12 + s_length s)) 0) by (rewrite <-!zrep_app by lia; f_equal; lia).
  rewrite put_u16_spec, !put_u32_spec, put_fill by (rewrite ?zlen_le_split; lia).
  rewrite (app_assoc pre), (app_assoc (pre ++ _)).
  rewrite put_fill, (app_assoc _ (le_split 4 (s_id s)))
    by (rewrite ?zlen_app, ?zlen_le_split, ?zlen_zrep by lia; lia).
  rewrite put_fill, (app_assoc _ (le_split 4 (s_length s)))
    by (rewrite ?zlen_app, ?zlen_le_split, ?zlen_zrep by lia; lia).
  rewrite put_fill by (rewrite ?zlen_app, ?zlen_le_split, ?zlen_zrep by lia; unfold s_length; lia).
  change (le_split 2 (u16 (s_field s))) with (le_split 2 (s_field s `mod` 256 ^ Z.of_nat 2)).
  rewrite le_split_mod.
  assert (Hi : ∀ r, ((((pre ++ le_split 2 (s_field s)) ++ zrep 2 0) ++ le_split 4 (s_id s)) ++
    le_split 4 (s_length s)) ++ s_data s ++ r = (pre ++ symbol_image s) ++ r)
    by (intros r; unfold symbol_image; by rewrite <-!app_assoc).
  rewrite Hi. replace (zlen pre + (12 + s_length s)) with (zlen (pre ++ symbol_image s))
    by (rewrite zlen_app, zlen_symbol_image; lia).
  rewrite IH by lia. rewrite <-!app_assoc. do 4 f_equal. lia.
Qed.
Lemma align8_spec n : 0 ≤ n ≤ UINT32_MAX - 7 → align8 n = 8 * ((n + 7) / 8).
Proof.
  intros Hn. unfold align8. change (UINT64_MAX - 7) with (Z.shiftl (Z.ones 61) 3).
  apply (round_down8 _ 61); mlia.
Qed.

Lemma schema_field_count s : schema_wf s → field_count s ≤ WADB_MAX_FIELDS.
Proof.
  intros (fs&e&n&Hok). unfold field_count. rewrite (ok_fields _ _ _ _ Hok), zlen_cons.
  pose proof (ok_count _ _ _ _ Hok). lia.
Qed.

(** A column holds as many positions as its field has strings. *)
Lemma column_count d field : dict_ok d → 0 ≤ field < field_count (d_schema d) →
  c_count (d_column d field) = zlen (strings_of (contents d) field).
Proof.
  intros Hok Hf. unfold c_count, zlen, contents.
  by rewrite (proj1 (dk_columns _ Hok field Hf)), (positions_strings_length 0).
Qed.

(** Interning a new string gives it the next identifier of its field. *)
Lemma intern_effect_new d field data id d' :
  dict_ok d → dict_ok d' → (field, data) ∉ contents d → intern_effect d field data (Ok id) d' →
  contents d' = contents d ++ [(field, data)] ∧ id = zlen (strings_of (contents d) field) + 1.
Proof.
  intros Hok Hok' Hnew (Hsch&Hid&Hid0&_&Hc&Hl). rewrite decide_False in Hc by done. split; [done|].
  assert (Hnd : NoDup (strings_of (contents d') field)).
  { unfold strings_of. apply NoDup_fmap_2_strong; [|apply NoDup_filter, Hok'].
    intros [f1 s1] [f2 s2]. rewrite !list_elem_of_filter. cbn. naive_solver. }
  assert (Hs : strings_of (contents d') field = strings_of (contents d) field ++ [data]).
  { rewrite Hc, strings_of_app. f_equal. unfold strings_of. by rewrite filter_cons, decide_True. }
  assert (Hl' : strings_of (contents d') field !! length (strings_of (contents d) field) = Some data)
    by (rewrite Hs; by rewrite list_lookup_middle).
  pose proof (NoDup_lookup _ _ _ _ Hnd Hl Hl'). unfold zlen. mlia.
Qed.

Section apply_image.
Context (d : wadb_dictionary) (f : wadb_frame) (rest : list Z).
Hypothesis (Hok : dict_ok d) (Hsch : schema_wf (d_schema d)).
Hypothesis (Hsize : fr_dictionary_bytes f = zlen (fr_dictionary f)).

Lemma apply_loop_image l done_ pre d0 h r d' h' :
  d_symbols d = done_ ++ l → fr_dictionary f = pre ++ symbols_image l ++ rest →
  dict_ok d0 → d_schema d0 = d_schema d → contents d0 = map pair_of done_ →
  apply_loop (length l) f (zlen pre) (d0, h) = (r, (d', h')) →
  dict_ok d' ∧ d_schema d' = d_schema d ∧ (∃ more, contents d' = contents d0 ++ more) ∧
  match r with
  | Ok offset => contents d' = contents d ∧ offset = zlen pre + zlen (symbols_image l)
  | Err e => e = WADB_LIMIT ∨ e = WADB_NOMEM
  end.
Proof.
  revert done_ pre d0 h. induction l as [|s l IH]; intros done_ pre d0 h Hsyms Hdict Hok0 Hsch0 Hc0;
    cbn [length apply_loop].
  { intros [= <- <- <-]. split_and!; try done.
    - exists []. by rewrite app_nil_r.
    - unfold contents at 2. by rewrite Hsyms, app_nil_r.
    - change (symbols_image []) with (@nil Z). rewrite zlen_nil. lia. }
  assert (Hi : d_symbols d !! length done_ = Some s) by (rewrite Hsyms; by apply list_lookup_middle).
  assert (Hs : symbol_ok (d_schema d) s) by (by eapply Forall_lookup_1; [apply Hok|]).
  destruct Hs as (Hsf&Hutf&Hlen&Hhash). pose proof (symbol_field_range _ _ Hsf) as Hfr.
  pose proof (schema_field_count _ Hsch). unfold WADB_MAX_FIELDS, WADB_MAX_STRING_BYTES in *.
  destruct (strings_of_position d _ s Hok Hi) as [_ Hid]. pose proof (dk_count _ Hok).
  pose proof (zlen_nonneg (s_data s)) as Hnn. fold (s_length s) in *.
  change (symbols_image (s :: l)) with (symbol_image s ++ symbols_image l) in Hdict |- *.
  rewrite <-app_assoc in Hdict.
  assert (Hsz : fr_dictionary_bytes f = zlen pre + (12 + s_length s) + zlen (symbols_image l ++ rest))
    by (rewrite Hsize, Hdict, !zlen_app, zlen_symbol_image; lia).
  pose proof (zlen_nonneg (symbols_image l ++ rest)). pose proof (zlen_nonneg pre).
  assert (Hpart : ∀ a b c o, symbol_image s = a ++ b ++ c → o = zlen pre + zlen a →
    sub (fr_dictionary f) o (zlen b) = b).
  { intros a b c o He ->. eapply (sub_mid _ (pre ++ a)); [|by rewrite zlen_app|done].
    rewrite Hdict, He, <-!app_assoc. done. }
  assert (P0 : sub (fr_dictionary f) (zlen pre) 2 = le_split 2 (s_field s))
    by (apply (Hpart [] (le_split 2 (s_field s)) (zrep 2 0 ++ le_split 4 (s_id s) ++
          le_split 4 (s_length s) ++ s_data s)); [done|rewrite zlen_nil; lia]).
  assert (P2 : sub (fr_dictionary f) (zlen pre + 2) 2 = le_split 2 0)
    by (apply (Hpart (le_split 2 (s_field s)) (zrep 2 0) (le_split 4 (s_id s) ++
          le_split 4 (s_length s) ++ s_data s)); done).
  assert (P4 : sub (fr_dictionary f) (zlen pre + 4) 4 = le_split 4 (s_id s))
    by (apply (Hpart (le_split 2 (s_field s) ++ zrep 2 0) (le_split 4 (s_id s))
          (le_split 4 (s_length s) ++ s_data s)); done).
  assert (P8 : sub (fr_dictionary f) (zlen pre + 8) 4 = le_split 4 (s_length s))
    by (apply (Hpart (le_split 2 (s_field s) ++ zrep 2 0 ++ le_split 4 (s_id s)) (le_split 4 (s_length s))
          (s_data s)); done).
  assert (P12 : sub (fr_dictionary f) (zlen pre + 12) (s_length s) = s_data s)
    by (apply (Hpart (le_split 2 (s_field s) ++ zrep 2 0 ++ le_split 4 (s_id s) ++ le_split 4 (s_length s))
          (s_data s) []); [by rewrite app_nil_r|done]).
  rewrite (get_u16_at _ (zlen pre) _ ltac:(lia) P0), (get_u16_at _ (zlen pre + 2) _ ltac:(lia) P2),
    (get_u32_at _ (zlen pre + 4) _ ltac:(lia) P4), (get_u32_at _ (zlen pre + 8) _ ltac:(lia) P8).
  rewrite (u16_id (s_field s)), (u32_id (s_id s)), (u32_id (s_length s)), P12 by mlia.
  destruct (Z.gtb_spec (zlen pre) (fr_dictionary_bytes f)); [lia|]. cbn [orb].
  destruct (Z.ltb_spec (fr_dictionary_bytes f - zlen pre) 12); [lia|].
  unfold mbind, M_bind, dget. rewrite Hsch0, Hsf.
  assert (Hcol : c_count (d_column d0 (s_field s)) + 1 = s_id s).
  { rewrite column_count by (rewrite ?Hsch0; done || lia). rewrite Hc0.
    rewrite (dk_ids _ Hok _ _ Hi), Hsyms, take_app_length. unfold zlen.
    by rewrite (positions_strings_length 0). }
  rewrite Hcol, Z.eqb_refl. change (u16 0 =? 0) with true. cbn [negb orb].
  destruct (Z.gtb_spec (s_length s) (fr_dictionary_bytes f - zlen pre - 12)); [lia|].
  destruct (wadb_dictionary_intern (s_field s) (s_data s) (d0, h)) as [[id|e] [d1 h1]] eqn:Hint.
  all: destruct (intern_spec _ _ _ _ _ _ _ Hok0 Hint) as [Hok1 He].
  - assert (Hnew : (s_field s, s_data s) ∉ contents d0).
    { rewrite Hc0. pose proof (dk_nodup _ Hok) as Hnd. unfold contents in Hnd. rewrite Hsyms, map_app in Hnd.
      apply NoDup_app in Hnd as (_&Hnd&_). intros Hin. apply (Hnd _ Hin). cbn [map]. by left. }
    destruct (intern_effect_new _ _ _ _ _ Hok0 Hok1 Hnew He) as [Hc1 Hid1].
    rewrite <-(column_count d0) in Hid1 by (rewrite ?Hsch0; done || lia). rewrite Hcol in Hid1. subst id.
    assert (Hcnt : d_count d1 = d_count d0 + 1).
    { unfold d_count. rewrite <-(zlen_map pair_of (d_symbols d1)), <-(zlen_map pair_of (d_symbols d0)).
      fold (contents d0) (contents d1). by rewrite Hc1, zlen_app. }
    cbn [fst]. rewrite Hcnt, !Z.eqb_refl. cbn [negb orb]. intros Hrec.
    destruct (IH (done_ ++ [s]) (pre ++ symbol_image s) d1 h1) as (Hok'&Hsch'&[more Hm]&Hr).
    + by rewrite <-app_assoc.
    + by rewrite Hdict, <-!app_assoc.
    + done.
    + destruct He as [-> _]. done.
    + rewrite Hc1, Hc0, map_app. done.
    + by rewrite zlen_app, zlen_symbol_image.
    + split_and!; [done|done|exists ((s_field s, s_data s) :: more); by rewrite Hm, Hc1, <-app_assoc|].
      destruct r; [|done]. destruct Hr as [? ->]. split; [done|]. rewrite !zlen_app. lia.
  - intros [= <- <- <-]. split; [done|]. destruct He as [Hs1 [Hc1 Hcase]].
    split; [congruence|]. split; [exists []; by rewrite app_nil_r|].
    rewrite (proj2 (valid_symbol_true _ _ _)) in Hcase by (rewrite ?Hsch0; done).
    destruct Hcase as [->| ->]; rewrite decide_False by done; auto.
Qed.
End apply_image.

(** Applying any frame adds the symbols it defines, all or none of them. *)
Lemma apply_loop_prefix n f offset d h r d' h' :
  dict_ok d → apply_loop n f offset (d, h) = (r, (d', h')) →
  dict_ok d' ∧ d_schema d' = d_schema d ∧ ∃ more, contents d' = contents d ++ more ∧
    (∀ o, r = Ok o → length more = n).
Proof.
  revert offset d h. induction n as [|n IH]; intros offset d h Hok; cbn [apply_loop].
  { intros [= <- <- <-]. split_and!; [done..|]. exists []. rewrite app_nil_r. by split. }
  assert (Hfail : ∀ e, (Err e, (d, h)) = (r, (d', h')) → dict_ok d' ∧ d_schema d' = d_schema d ∧
    ∃ more, contents d' = contents d ++ more ∧ (∀ o, r = Ok o → length more = S n)).
  { intros e [= <- <- <-]. split_and!; [done..|]. exists []. rewrite app_nil_r. by split. }
  destruct (_ || (_ <? 12)); [by apply Hfail|]. unfold mbind, M_bind, dget.
  destruct (_ || (_ >? _)); [by apply Hfail|].
  destruct (wadb_dictionary_intern _ _ (d, h)) as [[id|e] [d1 h1]] eqn:Hint.
  all: destruct (intern_spec _ _ _ _ _ _ _ Hok Hint) as [Hok1 He].
  - destruct (intern_effect_prefix _ _ _ _ _ He) as [m1 Hm1]. cbn [fst].
    destruct (_ || _) eqn:Hc.
    { intros [= <- <- <-]. split_and!; [done|apply He|]. exists m1. by split. }
    intros Hrec. destruct (IH _ _ _ Hok1 Hrec) as (Hok'&Hsch'&more&Hm&Hlen).
    split_and!; [done|destruct He as [<- _]; done|]. exists (m1 ++ more).
    rewrite Hm, Hm1, <-app_assoc. split; [done|]. intros o Ho. rewrite length_app, (Hlen o Ho).
    apply orb_false_iff in Hc as [_ Hc%negb_false_iff%Z.eqb_eq].
    assert (Hl : length (contents d1) = (length (contents d) + length m1)%nat) by (by rewrite Hm1, length_app).
    unfold contents in Hl. rewrite !length_map in Hl. unfold d_count, zlen in Hc. lia.
  - intros [= <- <- <-]. destruct (intern_effect_prefix _ _ _ _ _ He) as [m1 Hm1].
    split_and!; [done|apply He|]. exists m1. by split.
Qed.

Lemma rollback_to_prefix d d0 more :
  dict_ok d → contents d = contents d0 ++ more →
  let d' := wadb_dictionary_rollback d (d_count d0) in
  dict_ok d' ∧ d_schema d' = d_schema d ∧ contents d' = contents d0.
Proof.
  intros Hok Hc. destruct (rollback_spec d (d_count d0)) as (?&?&Hr);
    [done|unfold d_count; auto with wadb|]. split_and!; [done..|]. rewrite Hr, Hc.
  unfold d_count, zlen. rewrite Nat2Z.id, <-(length_map pair_of). apply take_app_length.
Qed.

Lemma apply_spec f d h r d' h' :
  dict_ok d → wadb_dictionary_apply f (d, h) = (r, (d', h')) →
  dict_ok d' ∧ d_schema d' = d_schema d ∧
  match r with
  | Ok () => ∃ more, contents d' = contents d ++ more ∧ zlen more = Z.max 0 (fr_dictionary_count f)
  | Err _ => contents d' = contents d
  end.
Proof.
  intros Hok. unfold wadb_dictionary_apply.
  destruct (apply_loop _ f 0 (d, h)) as [[o|e] [d1 h1]] eqn:Hl.
  all: destruct (apply_loop_prefix _ _ _ _ _ _ _ _ Hok Hl) as (Hok1&Hs1&more&Hm&Hlen).
  all: destruct (rollback_to_prefix d1 d more Hok1 Hm) as (Hokr&Hsr&Hcr).
  - destruct (apply_padding f o); intros [= <- <- <-]; [|split_and!; [done|congruence|done]].
    split_and!; [done..|]. exists more. split; [done|]. unfold zlen. rewrite (Hlen o eq_refl). lia.
  - intros [= <- <- <-]. split_and!; [done|congruence|done].
Qed.

Lemma export_ok d mark limit alloc data nbytes count :
  dict_ok d → 0 ≤ mark → limit ≤ SIZE_MAX →
  wadb_dictionary_export_limit d mark limit alloc = Ok (data, nbytes, count) →
  let l := drop (Z.to_nat mark) (d_symbols d) in
  mark ≤ d_count d ∧ zlen data = nbytes ∧ nbytes `mod` 8 = 0 ∧ 0 ≤ nbytes ∧ (0 < nbytes → nbytes ≤ limit) ∧
  count = zlen l ∧ ∃ pad, 0 ≤ pad < 8 ∧ data = symbols_image l ++ zrep pad 0.
Proof.
  intros Hok Hm Hlim. unfold wadb_dictionary_export_limit.
  destruct (Z.gtb_spec mark (d_count d)) as [|Hmark]; [done|].
  set (l := drop (Z.to_nat mark) (d_symbols d)).
  assert (Hl : zlen l = d_count d - mark)
    by (unfold l, d_count, zlen in *; rewrite length_drop; lia).
  destruct (export_size limit l 0) as [n|] eqn:Hs; [|done].
  apply export_size_spec in Hs as [-> Hb]; [|lia|done]. rewrite Z.add_0_l in *.
  pose proof (zlen_nonneg (symbols_image l)) as Hnn. pose proof (dk_count _ Hok).
  destruct (decide (l = [])) as [Hnil|Hne].
  { replace (zlen (symbols_image l)) with 0 by (rewrite Hnil; done).
    change (align8 0) with 0. destruct (0 >? limit); [done|]. cbn [Z.eqb]. intros [= <- <- <-].
    rewrite Hnil in Hl |- *. change (zlen (@nil wadb_symbol)) with 0 in Hl. cbv zeta.
    split_and!; try done; try lia. exists 0. by split. }
  destruct (Hb Hne) as [Hb1 Hb2]. rewrite align8_spec by lia.
  set (n := 8 * ((zlen (symbols_image l) + 7) / 8)).
  assert (Hn : zlen (symbols_image l) ≤ n < zlen (symbols_image l) + 8 ∧ n `mod` 8 = 0 ∧ n ≤ UINT32_MAX)
    by (unfold n; mlia).
  assert (0 < zlen (symbols_image l)).
  { destruct l as [|s l']; [done|]. unfold symbols_image. cbn [map concat]. rewrite zlen_app, zlen_symbol_image.
    pose proof (zlen_nonneg (concat (map symbol_image l'))). pose proof (zlen_nonneg (s_data s)).
    unfold s_length. lia. }
  clearbody n. destruct (Z.gtb_spec n limit); [done|]. destruct (Z.eqb_spec n 0); [lia|].
  destruct alloc; [|done]. cbn [negb]. intros [= <- <- <-].
  rewrite !u32_id by mlia.
  pose proof (export_copy_spec l [] n ltac:(lia)) as Hcopy.
  change (zlen (@nil Z)) with 0 in Hcopy. cbn [app] in Hcopy.
  rewrite Hcopy. cbv zeta. split_and!; try done; try lia.
  - rewrite zlen_app, zlen_zrep by lia. lia.
  - exists (n - zlen (symbols_image l)). split; [lia|done].
Qed.

(** C21: The symbols a dictionary has gained since a mark survive serialization: a
    dictionary that holds what was defined before the mark and applies the exported
    bytes ends up with exactly the same symbols and identifiers, or, if its budget
    or an allocation stops it, is left as it was; the bytes are never rejected as
    corrupt. *)
Theorem export_apply_round_trip d mark limit alloc f d0 h r d' h' :
  dict_ok d → schema_wf (d_schema d) → 0 ≤ mark → limit ≤ SIZE_MAX →
  wadb_dictionary_export_limit d mark limit alloc =
    Ok (fr_dictionary f, fr_dictionary_bytes f, fr_dictionary_count f) →
  dict_ok d0 → d_schema d0 = d_schema d → contents d0 = take (Z.to_nat mark) (contents d) →
  wadb_dictionary_apply f (d0, h) = (r, (d', h')) →
  dict_ok d' ∧
  match r with
  | Ok () => contents d' = contents d
  | Err e => (e = WADB_LIMIT ∨ e = WADB_NOMEM) ∧ contents d' = contents d0
  end.
Proof.
  intros Hok Hsch Hm Hlim Hexp Hok0 Hs0 Hc0 Happ.
  apply export_ok in Hexp as (Hmark&Hlen&H8&Hnn&_&Hcnt&pad&Hpad&Hdata); [|done..]. cbv zeta in *.
  set (l := drop (Z.to_nat mark) (d_symbols d)) in *.
  pose proof (apply_spec _ _ _ _ _ _ Hok0 Happ) as (Hok'&_&Hr). split; [done|].
  unfold wadb_dictionary_apply in Happ. rewrite Hcnt in Happ. unfold zlen in Happ. rewrite Nat2Z.id in Happ.
  destruct (apply_loop (length l) f 0 (d0, h)) as [rl [d1 h1]] eqn:Hl.
  destruct (apply_loop_image d f (zrep pad 0) Hok Hsch (eq_sym Hlen) l (take (Z.to_nat mark) (d_symbols d)) []
    d0 h rl d1 h1) as (Hok1&_&_&Hrl); try done.
  { symmetry. apply take_drop. }
  { rewrite Hc0. unfold contents. by rewrite fmap_take. }
  destruct rl as [o|e].
  - destruct Hrl as [Hc1 ->]. change (zlen (@nil Z)) with 0 in Happ. rewrite Z.add_0_l in Happ.
    assert (Hp : apply_padding f (zlen (symbols_image l)) = true).
    { pose proof (zlen_nonneg (symbols_image l)).
      assert (Hsz : fr_dictionary_bytes f = zlen (symbols_image l) + pad)
        by (rewrite <-Hlen, Hdata, zlen_app, zlen_zrep by lia; done).
      unfold apply_padding. rewrite H8, Hsz, Z.eqb_refl, Z.add_simpl_l.
      destruct (Z.gtb_spec (zlen (symbols_image l)) (zlen (symbols_image l) + pad)); [lia|].
      destruct (Z.ltb_spec pad 8); [|lia]. cbn [andb negb].
      apply zeroes_spec; [lia|lia|rewrite Hdata, zlen_app, zlen_zrep by lia; lia|].
      rewrite Hdata, sub_app_r, Z.sub_diag, sub_all by (rewrite ?zlen_zrep; lia). done. }
    rewrite Hp in Happ. by injection Happ as <- <- <-.
  - injection Happ as <- <- <-. done.
Qed.

(** ** The life of a dictionary *)

Lemma new_ok s limit a1 a2 d :
  limit ≤ SIZE_MAX → wadb_dictionary_new s limit a1 a2 = Ok d →
  dict_ok d ∧ d_schema d = s ∧ contents d = [].
Proof.
  intros Hl. unfold wadb_dictionary_new.
  destruct (Z.gtb_spec (SIZEOF_DICTIONARY + field_count s * SIZEOF_COLUMN) limit); [done|].
  destruct a1, a2; try done. cbn [negb]. intros [= <-]. split; [|done].
  assert (Hc : ∀ k, (replicate k (Column [] 0)) !!! 0%nat = Column [] 0) by (by intros []).
  assert (Hcol : ∀ f, d_column (Dictionary s [] 0 [] (replicate (Z.to_nat (field_count s)) (Column [] 0))
    (SIZEOF_DICTIONARY + field_count s * SIZEOF_COLUMN) limit) f = Column [] 0).
  { intros f. unfold d_column. cbn [d_columns]. generalize (Z.to_nat (field_count s)) (Z.to_nat f).
    intros m. induction m as [|m IH]; intros [|k]; try done. apply (IH k). }
  assert (Hcb : ∀ k, column_bytes (replicate k (Column [] 0)) = 0)
    by (intros k; induction k; [done|]; cbn [replicate]; rewrite column_bytes_cons; cbn; lia).
  pose proof (zlen_nonneg (fields s)).
  split; unfold d_count, d_slot_count, memory_of; cbn [d_schema d_symbols d_capacity d_slots d_columns d_allocated d_limit].
  - rewrite length_replicate. unfold field_count, zlen. lia.
  - constructor.
  - done.
  - constructor.
  - intros f Hf. rewrite Hcol. by split.
  - done.
  - by left.
  - done.
  - done.
  - unfold d_slot_count. cbn [d_slots]. rewrite Hcb. change (zlen (@nil Z)) with 0. change (string_bytes []) with 0. lia.
  - unfold d_slot_count. cbn [d_slots]. rewrite Hcb. change (zlen (@nil Z)) with 0. change (string_bytes []) with 0. lia.
Qed.

(** The operations the storage engine performs on a dictionary, with any outcomes
    of the allocations inside them. *)
Inductive dict_step : wadb_dictionary → wadb_dictionary → Prop :=
  | step_intern d field data h r d' h' :
      wadb_dictionary_intern field data (d, h) = (r, (d', h')) → dict_step d d'
  | step_rollback d mark : 0 ≤ mark → dict_step d (wadb_dictionary_rollback d mark)
  | step_apply d f h r d' h' :
      wadb_dictionary_apply f (d, h) = (r, (d', h')) → dict_step d d'.
Inductive dict_reachable (s : wadb_schema) (limit : Z) : wadb_dictionary → Prop :=
  | reach_new a1 a2 d : wadb_dictionary_new s limit a1 a2 = Ok d → dict_reachable s limit d
  | reach_step d d' : dict_reachable s limit d → dict_step d d' → dict_reachable s limit d'.

Lemma reachable_ok s limit d :
  limit ≤ SIZE_MAX → dict_reachable s limit d → dict_ok d ∧ d_schema d = s.
Proof.
  intros Hl. induction 1 as [a1 a2 d Hn|d d' _ [Hok Hs] Hstep].
  - apply new_ok in Hn as (?&?&_); auto.
  - destruct Hstep as [d field data h r d' h' Hi|d mark Hm|d f h r d' h' Ha].
    + destruct (intern_spec _ _ _ _ _ _ _ Hok Hi) as [? [? _]]. split; [done|congruence].
    + destruct (rollback_spec d mark Hok Hm) as (?&?&_). split; [done|congruence].
    + destruct (apply_spec _ _ _ _ _ _ Hok Ha) as (?&?&_). split; [done|congruence].
Qed.

(** ** What the dictionary promises *)

(** C5: Interning refines the abstract dictionary in every reachable state. With any
    allocation outcomes the state stays well formed and inside its budget; a string
    that is defined keeps its identifier, a new one is appended under the next
    identifier of its field, and an error changes no symbol: invalid input is
    [WADB_INVALID], anything else only the budget or an allocation. *)
Theorem intern_refines s limit field data d h r d' h' :
  limit ≤ SIZE_MAX → dict_reachable s limit d →
  wadb_dictionary_intern field data (d, h) = (r, (d', h')) →
  dict_ok d' ∧ d_allocated d' = memory_of d' ∧ memory_of d' ≤ d_limit d' ∧
  match r with
  | Ok id =>
      1 ≤ id ≤ UINT32_MAX ∧
      contents d' = (if decide ((field, data) ∈ contents d) then contents d
                     else contents d ++ [(field, data)]) ∧
      strings_of (contents d') field !! Z.to_nat (id - 1) = Some data
  | Err e => contents d' = contents d ∧
      if valid_symbol s field data then e = WADB_LIMIT ∨ e = WADB_NOMEM else e = WADB_INVALID
  end.
Proof.
  intros Hl Hr Hi. destruct (reachable_ok _ _ _ Hl Hr) as [Hok <-].
  destruct (intern_spec _ _ _ _ _ _ _ Hok Hi) as [Hok' [_ He]].
  split_and!; [done|apply Hok'|apply Hok'|]. destruct r; [|done].
  destruct He as (Hu&?&_&?&?). split_and!; try done; mlia.
Qed.

(** Resolving an identifier returns the string at that position of its field, and
    reports corruption for a field that holds no symbols and for the identifiers,
    zero included, that are not defined. *)
Theorem resolve_refines s limit d field id :
  limit ≤ SIZE_MAX → dict_reachable s limit d → is_u32 id →
  wadb_dictionary_resolve d field id =
    match (if symbol_field s field && negb (id =? 0)
           then strings_of (contents d) field !! Z.to_nat (id - 1) else None) with
    | Some str => Ok str
    | None => Err WADB_CORRUPT
    end.
Proof.
  intros Hl Hr Hid. destruct (reachable_ok _ _ _ Hl Hr) as [Hok <-].
  destruct (symbol_field (d_schema d) field) eqn:Hf; [|by rewrite resolve_not_symbol].
  rewrite resolve_spec by (done || mlia). by destruct (id =? 0).
Qed.

(** C34: Rolling a dictionary back to a mark keeps exactly the symbols defined before
    the mark; the hash table, the per-field positions and the memory account are
    those of that dictionary again. *)
Theorem rollback_refines s limit d mark :
  limit ≤ SIZE_MAX → dict_reachable s limit d → 0 ≤ mark →
  let d' := wadb_dictionary_rollback d mark in
  dict_ok d' ∧ contents d' = take (Z.to_nat mark) (contents d) ∧ d_allocated d' = memory_of d'.
Proof.
  intros Hl Hr Hm. destruct (reachable_ok _ _ _ Hl Hr) as [Hok _].
  destruct (rollback_spec d mark Hok Hm) as (Hok'&_&?). split_and!; [done|done|apply Hok'].
Qed.

(** Applying the dictionary of any frame, valid or not, is atomic: it adds as many
    symbols as the frame announces, or reports an error and leaves the symbols as
    they were. *)
Theorem apply_atomic s limit f d h r d' h' :
  limit ≤ SIZE_MAX → dict_reachable s limit d → 0 ≤ fr_dictionary_count f →
  wadb_dictionary_apply f (d, h) = (r, (d', h')) →
  dict_ok d' ∧
  match r with
  | Ok () => ∃ more, contents d' = contents d ++ more ∧ zlen more = fr_dictionary_count f
  | Err _ => contents d' = contents d
  end.
Proof.
  intros Hl Hr Hc Ha. destruct (reachable_ok _ _ _ Hl Hr) as [Hok _].
  destruct (apply_spec _ _ _ _ _ _ Hok Ha) as (?&_&H). split; [done|].
  destruct r as [[]|]; [|done]. by rewrite Z.max_r in H.
Qed.

(** C36: The probe loops terminate: in every reachable state with a hash table, the
    walk from the home slot of any hash meets an empty slot within one round of the
    table, at most half of which is in use. *)
Theorem probing_terminates s limit d hash :
  limit ≤ SIZE_MAX → dict_reachable s limit d → d_slot_count d ≠ 0 →
  2 * d_count d ≤ d_slot_count d ∧
  ∃ k, 0 ≤ k < d_slot_count d ∧ rd (d_slots d) ((hash + k) `mod` d_slot_count d) = 0 ∧
    free_slot (d_slots d) hash = (hash + k) `mod` d_slot_count d ∧
    ∀ j, 0 ≤ j < k → rd (d_slots d) ((hash + j) `mod` d_slot_count d) ≠ 0.
Proof.
  intros Hl Hr Hn. destruct (reachable_ok _ _ _ Hl Hr) as [Hok _]. pose proof (dk_load _ Hok) as Hload.
  split; [lia|]. destruct (dk_table _ Hok) as [[Hs _]|Ht];
    [destruct Hn; unfold d_slot_count; by rewrite Hs|].
  destruct (free_slot_spec _ _ Ht hash) as (k&Hk&Hf&Hz&Hnz).
  { rewrite length_map. unfold d_count, d_slot_count, zlen in *. lia. }
  exists k. exact (conj Hk (conj Hz (conj Hf Hnz))).
Qed.

(** ** Witnesses: the page-view schema and a dictionary with one path *)

Definition pv_schema : wadb_schema := Eval vm_compute in
  match wadb_schema_build page_view_defs with Ok s => s | Err _ => Schema 0 0 0 [] end.
Definition pv_new : wadb_dictionary := Eval vm_compute in
  match wadb_dictionary_new pv_schema 65536 true true with
  | Ok d => d | Err _ => Dictionary pv_schema [] 0 [] [] 0 0 end.
Definition pv_dict : wadb_dictionary := Eval vm_compute in
  fst (snd (wadb_dictionary_intern 3 (cstr "/a") (pv_new, []))).

Lemma pv_schema_wf : schema_wf pv_schema.
Proof.
  destruct (check_then_layout page_view_defs pv_schema) as (fs&_&Hok).
  - repeat constructor; vm_compute; congruence.
  - vm_compute. reflexivity.
  - unfold schema_wf. eauto.
Qed.
Lemma pv_new_reachable : dict_reachable pv_schema 65536 pv_new.
Proof. apply (reach_new _ _ true true). vm_compute. reflexivity. Qed.
Lemma pv_dict_reachable : dict_reachable pv_schema 65536 pv_dict.
Proof.
  apply (reach_step _ _ _ _ pv_new_reachable).
  apply (step_intern _ 3 (cstr "/a") [] (Ok 1) _ []). vm_compute. reflexivity.
Qed.
Lemma pv_limit : 65536 ≤ SIZE_MAX.
Proof. vm_compute. congruence. Qed.
Lemma pv_dict_ok : dict_ok pv_dict ∧ d_schema pv_dict = pv_schema.
Proof. exact (reachable_ok _ _ _ pv_limit pv_dict_reachable). Qed.

Lemma intern_refines_witness : ∃ d' h',
  wadb_dictionary_intern 3 (cstr "/b") (pv_dict, []) = (Ok 2, (d', h')) ∧
  contents d' = [(3, cstr "/a"); (3, cstr "/b")].
Proof.
  destruct (wadb_dictionary_intern 3 (cstr "/b") (pv_dict, [])) as [r [d' h']] eqn:He.
  destruct (intern_refines pv_schema 65536 _ _ _ _ _ _ _ pv_limit pv_dict_reachable He) as (_&_&_&H).
  exists d', h'. vm_compute in He. injection He as <- <- <-. split; [reflexivity|].
  destruct H as (_&H&_). rewrite H. vm_compute. reflexivity.
Defined.
Lemma resolve_refines_witness :
  wadb_dictionary_resolve pv_dict 3 1 = Ok (cstr "/a") ∧
  wadb_dictionary_resolve pv_dict 3 2 = Err WADB_CORRUPT.
Proof.
  split; rewrite (resolve_refines pv_schema 65536 _ _ _ pv_limit pv_dict_reachable);
    vm_compute; first [reflexivity|split; congruence].
Defined.
Lemma rollback_refines_witness : contents (wadb_dictionary_rollback pv_dict 0) = [].
Proof.
  destruct (rollback_refines pv_schema 65536 pv_dict 0 pv_limit pv_dict_reachable) as (_&H&_);
    [vm_compute; congruence|]. rewrite H. reflexivity.
Defined.

(** The exported form of the dictionary, in a frame. *)
Definition pv_export : wadb_frame := Eval vm_compute in
  match wadb_dictionary_export pv_dict 0 true with
  | Ok (data, n, c) => Frame 0 0 0 0 0 0 c n data [] 0 0
  | Err _ => Frame 0 0 0 0 0 0 0 0 [] [] 0 0
  end.
Lemma apply_atomic_witness : ∃ d' h',
  wadb_dictionary_apply pv_export (pv_dict, []) = (Err WADB_CORRUPT, (d', h')) ∧
  contents d' = contents pv_dict.
Proof.
  destruct (wadb_dictionary_apply pv_export (pv_dict, [])) as [r [d' h']] eqn:He.
  destruct (apply_atomic pv_schema 65536 pv_export pv_dict [] r d' h' pv_limit pv_dict_reachable
    ltac:(vm_compute; congruence) He) as (_&H).
  exists d', h'. vm_compute in He. injection He as <- <- <-. split; [reflexivity|exact H].
Defined.
Lemma export_apply_round_trip_witness : ∃ d' h',
  wadb_dictionary_apply pv_export (pv_new, []) = (Ok (), (d', h')) ∧ contents d' = contents pv_dict.
Proof.
  destruct pv_dict_ok as [Hok Hs]. destruct (reachable_ok _ _ _ pv_limit pv_new_reachable) as [Hok0 Hs0].
  destruct (wadb_dictionary_apply pv_export (pv_new, [])) as [r [d' h']] eqn:He.
  destruct (export_apply_round_trip pv_dict 0 WADB_MAX_FRAME_BYTES true pv_export pv_new [] r d' h') as [_ H].
  - exact Hok.
  - exact pv_schema_wf.
  - vm_compute. congruence.
  - vm_compute. congruence.
  - vm_compute. reflexivity.
  - exact Hok0.
  - reflexivity.
  - reflexivity.
  - exact He.
  - exists d', h'. vm_compute in He. injection He as <- <- <-. split; [reflexivity|exact H].
Defined.
Lemma probing_terminates_witness :
  ∃ k, 0 ≤ k < 32 ∧ rd (d_slots pv_dict) ((hash_symbol 3 (cstr "/a") + k) `mod` 32) = 0.
Proof.
  destruct (probing_terminates pv_schema 65536 pv_dict (hash_symbol 3 (cstr "/a")) pv_limit pv_dict_reachable)
    as (_&k&Hk&Hz&_); [vm_compute; congruence|].
  exists k. split; [exact Hk|exact Hz].
Defined.

(** A page view; the path is new, the referrer not defined yet either. *)
Definition pv_values : list wadb_value :=
  [VU64 1; VBytes (zrep 16 7); VBytes (cstr "/b"); VBytes (cstr "ref"); VU64 1200; VU64 200;
   VBytes (cstr "de"); VU64 1; VU64 0].
Lemma pv_values_ok : Forall2 value_for (tl (fields pv_schema)) pv_values.
Proof. repeat constructor; try (vm_compute; congruence); apply (bool_decide_unpack _); vm_compute; exact I. Qed.
Lemma row_round_trip_witness : ∃ row st',
  wadb_encode_row pv_schema pv_values 1000 (Some sym_intern) (zrep 48 0) (pv_dict, []) = (Ok row, st') ∧
  wadb_decode_value pv_schema 3 row (Some (sym_resolve st')) = Ok (VBytes (cstr "/b")).
Proof.
  destruct (wadb_encode_row pv_schema pv_values 1000 (Some sym_intern) (zrep 48 0) (pv_dict, []))
    as [[row|e] st'] eqn:He; [|vm_compute in He; congruence].
  exists row, st'. split; [reflexivity|].
  destruct (row_round_trip pv_schema pv_values 1000 (pv_dict, []) (zrep 48 0) row st') as (_&_&H).
  - exact pv_schema_wf.
  - exact pv_values_ok.
  - vm_compute. split; congruence.
  - exact (proj1 pv_dict_ok).
  - apply bytes_0.
  - exact He.
  - exact (H 2%nat _ _ eq_refl eq_refl).
Defined.
Lemma encoded_row_valid_witness : ∃ row st',
  wadb_encode_row pv_schema pv_values 1000 (Some sym_intern) (zrep 48 0) (pv_dict, []) = (Ok row, st') ∧
  wadb_validate_row pv_schema row (Some (sym_resolve st')) = Ok ().
Proof.
  destruct (wadb_encode_row pv_schema pv_values 1000 (Some sym_intern) (zrep 48 0) (pv_dict, []))
    as [[row|e] st'] eqn:He; [|vm_compute in He; congruence].
  exists row, st'. split; [reflexivity|].
  apply (encoded_row_valid pv_schema pv_values 1000 (pv_dict, []) (zrep 48 0) row st').
  - exact pv_schema_wf.
  - exact pv_values_ok.
  - vm_compute. split; congruence.
  - exact (proj1 pv_dict_ok).
  - apply bytes_0.
  - exact He.
Defined.

Definition pv_row : list Z := Eval vm_compute in
  match wadb_encode_row pv_schema pv_values 1000 (Some sym_intern) (zrep 48 0) (pv_dict, []) with
  | (Ok row, _) => row | _ => [] end.
Definition pv_after : wadb_dictionary := Eval vm_compute in
  fst (snd (wadb_encode_row pv_schema pv_values 1000 (Some sym_intern) (zrep 48 0) (pv_dict, []))).
Definition pv_mid : wadb_dictionary := Eval vm_compute in
  fst (snd (wadb_dictionary_intern 3 (cstr "/b") (pv_dict, []))).
Lemma pv_mid_step : wadb_dictionary_intern 3 (cstr "/b") (pv_dict, []) = (Ok 2, (pv_mid, [])).
Proof. vm_compute. reflexivity. Qed.
Lemma pv_after_step : wadb_dictionary_intern 4 (cstr "ref") (pv_mid, []) = (Ok 1, (pv_after, [])).
Proof. vm_compute. reflexivity. Qed.
Lemma pv_after_ok : dict_ok pv_after.
Proof.
  apply (reachable_ok pv_schema 65536 _ pv_limit).
  eapply reach_step; [|exact (step_intern _ _ _ _ _ _ _ pv_after_step)].
  eapply reach_step; [exact pv_dict_reachable|exact (step_intern _ _ _ _ _ _ _ pv_mid_step)].
Qed.
Lemma valid_rows_canonical_witness :
  wadb_validate_row pv_schema pv_row (Some (wadb_dictionary_resolve pv_after)) = Ok () ∧ pv_row = pv_row.
Proof.
  assert (Hv : wadb_validate_row pv_schema pv_row (Some (wadb_dictionary_resolve pv_after)) = Ok ())
    by (vm_compute; reflexivity).
  assert (Hb : bytes pv_row) by (apply (bool_decide_unpack _); vm_compute; exact I).
  split; [exact Hv|].
  apply (valid_rows_canonical pv_schema (wadb_dictionary_resolve pv_after) pv_row pv_row).
  - exact pv_schema_wf.
  - intros i a b x Ha Hb'. exact (resolve_inj _ _ _ _ _ pv_after_ok Ha Hb').
  - exact Hb.
  - exact Hb.
  - reflexivity.
  - reflexivity.
  - exact Hv.
  - exact Hv.
  - reflexivity.
Defined.
