(* ===== verification/Files.v ===== *)
(** * Files and the operating system (src/platform/files.c, paths of src/core/database.c)

    The operating system the engine runs on: the contents of regular files, the
    directories that exist, and what the coming system calls, allocations and clock
    readings will do. A list of outcomes that is used up stands for calls that
    succeed, so a behaviour of the environment is a finite list of outcomes; every
    statement below holds for all of them. A retry loop on EINTR recurs on the list.

    A file descriptor is the path it was opened under, or the contents of the file
    where the code only reads. The temporary files of [wadb_atomic_file] are kept apart
    from the other files: their names end in [.tmp.XXXXXX] with characters that mkstemp
    chooses, and no operation opens such a name again. One stays on the disk when both
    the replacement and the call of [unlink] after it fail. *)

From Stdlib Require Import String.
From stdpp Require Import base numbers list list_numbers gmap sets.
From S2P Require Import Prelude Encoding.

Definition path : Type := list Z.

(** What a system call does: it succeeds, transfers [n] bytes, is interrupted by a
    signal (EINTR), or fails with another errno. *)
Inductive outcome := Success | Count (n : Z) | Interrupted | Failure.
Definition sys_ok (o : outcome) : bool :=
  match o with Success | Count _ => true | Interrupted | Failure => false end.

(** [temporaries] are the temporary files that exist, the newest first: the path that each
    was to replace, and its contents. *)
Record os := Os {
  files : gmap path (list Z);
  directories : gset path;
  calls : list outcome;
  allocs : list bool;
  clock : list Z;
  temporaries : list (path * list Z);
}.

Definition with_files (f : gmap path (list Z)) (w : os) : os :=
  Os f (directories w) (calls w) (allocs w) (clock w) (temporaries w).
Definition with_directories (d : gset path) (w : os) : os :=
  Os (files w) d (calls w) (allocs w) (clock w) (temporaries w).
Definition with_calls (c : list outcome) (w : os) : os :=
  Os (files w) (directories w) c (allocs w) (clock w) (temporaries w).
Definition with_allocs (a : list bool) (w : os) : os :=
  Os (files w) (directories w) (calls w) a (clock w) (temporaries w).
Definition with_temporaries (l : list (path * list Z)) (w : os) : os :=
  Os (files w) (directories w) (calls w) (allocs w) (clock w) l.

Definition get_os : M os os := λ w, (Ok w, w).
Definition syscall : M os bool := λ w, (Ok (sys_ok (hd Success (calls w))), with_calls (tl (calls w)) w).
Definition os_malloc : M os bool := λ w, (Ok (hd true (allocs w)), with_allocs (tl (allocs w)) w).
Definition set_file (p : path) (data : list Z) : M os unit :=
  λ w, (Ok (), with_files (<[p := data]> (files w)) w).

(** ** Clocks *)

(** [clock_gettime] yields a time stamp or fails; the monotonic clock takes the next
    reading from the environment. *)
Definition wadb_realtime_us (ts : option (Z * Z)) : Z :=
  match ts with
  | None => -1
  | Some (tv_sec, tv_nsec) =>
      if (tv_sec <? 0) || (tv_sec >? (INT64_MAX - 999999) / 1000000) then -1
      else tv_sec * 1000000 + tv_nsec / 1000
  end.
Definition wadb_monotonic_ns : M os Z := λ w,
  (Ok (hd 0 (clock w)), Os (files w) (directories w) (calls w) (allocs w) (tl (clock w)) (temporaries w)).

(** ** Whole transfers *)

(** The loop of [wadb_write_all]: what it returns, the bytes that reached the file
    and the outcomes that are left. A call that claims more than it was given fails. *)
Fixpoint write_loop (cs : list outcome) (data written : list Z) : bool * list Z * list outcome :=
  match data with
  | [] => (true, written, cs)
  | _ =>
      match cs with
      | [] => (true, written ++ data, [])
      | Success :: cs' => (true, written ++ data, cs')
      | Interrupted :: cs' => write_loop cs' data written
      | Failure :: cs' => (false, written, cs')
      | Count n :: cs' =>
          if (n <=? 0) || (n >? zlen data) then (false, written, cs')
          else write_loop cs' (drop (Z.to_nat n) data) (written ++ take (Z.to_nat n) data)
      end
  end.
(** Writing to a new file: its contents so far. *)
Definition write_buffer (data : list Z) : M os (bool * list Z) := λ w,
  let '(ok, written, cs) := write_loop (calls w) data [] in (Ok (ok, written), with_calls cs w).
(** Appending to the file at [fd] (O_APPEND). *)
Definition wadb_write_all (fd : path) (data : list Z) : M os unit := λ w,
  let '(ok, written, cs) := write_loop (calls w) data [] in
  (if ok then Ok () else Err WADB_IO,
   with_calls cs (with_files (<[fd := default [] (files w !! fd) ++ written]> (files w)) w)).

(** The loop of [wadb_pread_all] with [got] bytes read: a read returns at least one
    byte unless it is at the end of the file. *)
Fixpoint pread_loop (cs : list outcome) (content : list Z) (offset n : Z) (got : list Z)
    : result (list Z) * list outcome :=
  if zlen got >=? n then (Ok got, cs)
  else
    let rest := sub content (offset + zlen got) (n - zlen got) in
    match cs with
    | [] => (if zlen rest =? n - zlen got then Ok (got ++ rest) else Err WADB_CORRUPT, [])
    | Interrupted :: cs' => pread_loop cs' content offset n got
    | Failure :: cs' => (Err WADB_IO, cs')
    | Success :: cs' =>
        match rest with [] => (Err WADB_CORRUPT, cs') | _ => pread_loop cs' content offset n (got ++ rest) end
    | Count k :: cs' =>
        match take (Z.to_nat (Z.max 1 k)) rest with
        | [] => (Err WADB_CORRUPT, cs')
        | part => pread_loop cs' content offset n (got ++ part)
        end
    end.
Definition wadb_pread_all (content : list Z) (n offset : Z) : M os (list Z) := λ w,
  if (offset >? INT64_MAX) || (n >? INT64_MAX - offset) then (Err WADB_LIMIT, w)
  else
    let '(r, cs) := pread_loop (calls w) content offset n [] in (r, with_calls cs w).

(** ** Synchronization *)

(** A call repeated while it is interrupted. *)
Fixpoint retry_loop (cs : list outcome) : bool * list outcome :=
  match cs with
  | [] => (true, [])
  | Interrupted :: cs' => retry_loop cs'
  | o :: cs' => (sys_ok o, cs')
  end.
Definition retried_call : M os bool := λ w,
  let '(ok, cs) := retry_loop (calls w) in (Ok ok, with_calls cs w).

Definition wadb_sync_file : M os unit :=
  ok ← retried_call;
  if ok : bool then mret () else mfail WADB_IO.

Definition wadb_mkdir (p : path) : M os unit :=
  ok ← syscall;
  if negb ok then mfail WADB_IO
  else
    w ← get_os;
    if bool_decide (p ∈ directories w) then
      stat ← syscall;
      if negb stat then mfail WADB_IO else mret ()
    else if bool_decide (is_Some (files w !! p)) then
      stat ← syscall;
      mfail WADB_IO
    else λ w, (Ok (), with_directories ({[p]} ∪ directories w) w).

Definition wadb_sync_directory (p : path) : M os unit :=
  opened ← syscall;
  w ← get_os;
  if negb opened || negb (bool_decide (p ∈ directories w)) then mfail WADB_IO
  else
    ok ← retried_call;
    if ok : bool then mret () else mfail WADB_IO.

(** ** Replacing and reading whole files *)

Definition SLASH : Z := 47.
(** The directory part of a path, by [strrchr]: the reverse of the path is cut after
    its first slash. *)
Fixpoint after_slash (rev_path : list Z) : option (list Z) :=
  match rev_path with
  | [] => None
  | c :: rest => if c =? SLASH then Some rest else after_slash rest
  end.
Definition parent_directory (p : path) : path :=
  match after_slash (rev p) with
  | None => cstr "."
  | Some [] => [SLASH]
  | Some rest => rev rest
  end.

(** The newest temporary file: [mkstemp] makes it, it is written to, [rename] moves it to
    its place, [unlink] removes it if the call succeeds. *)
Definition create_temporary (p : path) : M os unit := λ w, (Ok (), with_temporaries ((p, []) :: temporaries w) w).
Definition write_temporary (data : list Z) : M os bool := λ w,
  let '(ok, written, cs) := write_loop (calls w) data [] in
  (Ok ok, with_calls cs (with_temporaries
    match temporaries w with [] => [] | (p, contents) :: l => (p, contents ++ written) :: l end w)).
Definition rename_temporary (p : path) : M os unit := λ w,
  (Ok (), match temporaries w with
          | [] => w
          | (_, contents) :: l => with_temporaries l (with_files (<[p := contents]> (files w)) w)
          end).
Definition drop_temporary : M os unit := λ w, (Ok (), with_temporaries (tl (temporaries w)) w).
Definition unlink_temporary : M os unit :=
  unlinked ← syscall;
  if unlinked : bool then drop_temporary else mret ().
(** The temporary file is written, synchronized, closed and renamed, as far as the calls
    succeed; the answer is if [rename] did. *)
Definition replace_file (data : list Z) : M os bool :=
  written ← write_temporary data;
  synced ← (if written : bool then retried_call else mret false);
  closed ← syscall;
  if synced && closed then syscall else mret false.
(** What follows the creation of the temporary file. After the rename its name is gone, and
    [unlink] finds nothing. *)
Definition install_temporary (p : path) (data : list Z) : M os unit :=
  renamed ← replace_file data;
  if negb renamed then
    _ ← unlink_temporary;
    mfail WADB_IO
  else
    _ ← rename_temporary p;
    installed ← mtry (wadb_sync_directory (parent_directory p));
    match installed with
    | Ok _ => mret ()
    | Err _ =>
        unlinked ← syscall;
        mfail WADB_INDETERMINATE
    end.
Definition wadb_atomic_file (p : path) (data : list Z) : M os unit :=
  if (zlen p =? 0) || (zlen p >? 4096) then mfail WADB_LIMIT
  else
    temp ← os_malloc;
    parent ← os_malloc;
    if negb temp || negb parent then mfail WADB_NOMEM
    else
      created ← syscall;
      w ← get_os;
      if negb created || negb (bool_decide (parent_directory p ∈ directories w)) then mfail WADB_IO
      else
        _ ← create_temporary p;
        install_temporary p data.

Definition wadb_read_file (p : path) (limit : Z) : M os (list Z) :=
  opened ← syscall;
  w ← get_os;
  if negb opened then mfail WADB_IO
  else
    match files w !! p with
    | None => if bool_decide (p ∈ directories w) then mfail WADB_LIMIT else mfail WADB_NOT_FOUND
    | Some content =>
        stat ← syscall;
        if negb stat then mfail WADB_IO
        else if zlen content >? limit then mfail WADB_LIMIT
        else
          buffer ← os_malloc;
          if negb buffer then mfail WADB_NOMEM else wadb_pread_all content (zlen content) 0
    end.

(** ** Paths *)

Definition wadb_path (base name : path) : M os (option path) :=
  match (n ← wadb_add_size (zlen base) (zlen name); wadb_add_size n 2) with
  | None => mret None
  | Some n =>
      if n >? 4096 then mret None
      else
        p ← os_malloc;
        mret (if p : bool then Some (base ++ SLASH :: name) else None)
  end.

(** ["%020" PRIu64]: twenty decimal digits, the most significant first. *)
Fixpoint decimal (n : nat) (z : Z) : list Z :=
  match n with O => [] | S n' => decimal n' (z / 10) ++ [48 + z `mod` 10] end.
Definition wadb_id_path (base : path) (id : Z) : M os (option path) :=
  wadb_path base (decimal 20 id).

(** ** What the operations do in every environment *)

(** Only outcomes are used up. *)
Definition same_disk (w w' : os) : Prop := files w' = files w ∧ directories w' = directories w.
(** Every coming call and allocation succeeds. *)
Definition quiet (w : os) : Prop := calls w = [] ∧ allocs w = [].

#[global] Instance same_disk_refl : Reflexive same_disk.
Proof. done. Qed.
#[global] Instance same_disk_trans : Transitive same_disk.
Proof. unfold same_disk. intros ??? [??] [??]. split; congruence. Qed.

Ltac wp_step :=
  lazymatch goal with
  | |- wp (mbind _ _) _ _ => apply wp_bind
  | |- wp (mret _) _ _ => apply wp_ret
  | |- wp (mfail _) _ _ => apply wp_fail
  | |- wp (mtry _) _ _ => apply wp_try
  | |- wp (if ?b then _ else _) _ _ => destruct b eqn:?
  | |- wp get_os _ _ => unfold wp, get_os; cbn [fst snd]
  end.

Definition keeps (w w' : os) : Prop := same_disk w w' ∧ (quiet w → quiet w').
#[global] Instance keeps_refl : Reflexive keeps.
Proof. done. Qed.
#[global] Instance keeps_trans : Transitive keeps.
Proof. intros ??? [??] [??]. split; [by etrans|auto]. Qed.

Lemma syscall_spec w :
  wp syscall (λ r w', ∃ ok, r = Ok ok ∧ keeps w w' ∧ (quiet w → ok = true)) w.
Proof.
  unfold wp, syscall, keeps, same_disk, quiet. cbn. eexists. split_and!; try done.
  all: by intros [-> ?].
Qed.
Lemma os_malloc_spec w :
  wp os_malloc (λ r w', ∃ ok, r = Ok ok ∧ keeps w w' ∧ (quiet w → ok = true)) w.
Proof.
  unfold wp, os_malloc, keeps, same_disk, quiet. cbn. eexists. split_and!; try done.
  all: by intros [? ->].
Qed.
Lemma retry_loop_quiet cs : cs = [] → retry_loop cs = (true, []).
Proof. by intros ->. Qed.
Lemma retried_call_spec w :
  wp retried_call (λ r w', ∃ ok, r = Ok ok ∧ keeps w w' ∧ (quiet w → ok = true)) w.
Proof.
  unfold wp, retried_call, keeps, same_disk, quiet. destruct (retry_loop (calls w)) as [ok cs] eqn:E.
  cbn. eexists. split_and!; try done; intros [H ?]; rewrite H in E; cbn in E; by simplify_eq.
Qed.

(** A write that fails half-way leaves a prefix of the data. *)
Lemma write_loop_spec cs data pre ok out cs' :
  write_loop cs data pre = (ok, out, cs') →
  ∃ done_ rest, data = done_ ++ rest ∧ out = pre ++ done_ ∧ (ok = true → rest = []) ∧
    (cs = [] → ok = true ∧ cs' = []).
Proof.
  revert data pre. induction cs as [|o cs IH]; intros data pre; destruct data as [|b data]; cbn -[Z.to_nat].
  1,3: intros [= <- <- <-]; exists [], []; rewrite ?app_nil_r; by split_and!.
  { intros [= <- <- <-]. exists (b :: data), []. rewrite ?app_nil_r; by split_and!. }
  destruct o as [|n| |].
  - intros [= <- <- <-]. exists (b :: data), []. rewrite ?app_nil_r; by split_and!.
  - destruct (_ || _) eqn:Hn; [intros [= <- <- <-]; exists [], (b :: data); rewrite ?app_nil_r; by split_and!|].
    intros (done_&rest&E&->&Hok&_)%IH. exists (take (Z.to_nat n) (b :: data) ++ done_), rest.
    rewrite <-!app_assoc, <-E, take_drop; by split_and!.
  - intros (done_&rest&?&?&?&_)%IH. by exists done_, rest.
  - intros [= <- <- <-]. exists [], (b :: data). rewrite ?app_nil_r; by split_and!.
Qed.
(** The bytes a write leaves behind, and that only [fd] changes. *)
Lemma write_all_spec fd old data w :
  files w !! fd = Some old →
  wp (wadb_write_all fd data) (λ r w', ∃ done_ rest, data = done_ ++ rest ∧
    files w' = <[fd := old ++ done_]> (files w) ∧ directories w' = directories w ∧
    (r = Ok () ∧ rest = [] ∨ r = Err WADB_IO) ∧ (quiet w → r = Ok () ∧ quiet w')) w.
Proof.
  intros Hfd. unfold wp, wadb_write_all. destruct (write_loop (calls w) data []) as [[ok out] cs] eqn:E.
  apply write_loop_spec in E as (d&rest&->&->&Hok&Hq). cbn. exists d, rest. rewrite Hfd.
  split_and!; try done.
  - destruct ok; [left; auto|by right].
  - intros [Hc Ha]. destruct (Hq Hc) as [-> ->]. done.
Qed.

Lemma sub_to_end {A} (l : list A) o n m :
  0 ≤ o → 0 ≤ n → zlen (sub l o n) < n → sub l o n = sub l o m ∨ zlen (sub l o m) < zlen (sub l o n).
Proof.
  intros Ho Hn Hl. unfold sub, zlen in *. rewrite !length_take, length_drop in *.
  destruct (decide (Z.to_nat m < length (drop (Z.to_nat o) l))%nat) as [Hm|Hm]; rewrite ?length_drop in *.
  - right. rewrite Nat2Z.inj_min in Hl. lia.
  - left. rewrite !take_ge; [done|rewrite length_drop; lia..].
Qed.

Lemma zlen_sub_iff {A} (l : list A) o n : 0 ≤ o → 0 < n → zlen (sub l o n) = n ↔ o + n ≤ zlen l.
Proof.
  intros. unfold zlen, sub. rewrite length_take, length_drop. lia.
Qed.

(** A complete read is exactly the requested range, however short the single reads. *)
Lemma pread_loop_spec cs content offset n got r cs' :
  0 ≤ offset → got = sub content offset (zlen got) → zlen got ≤ n →
  offset + zlen got ≤ zlen content →
  pread_loop cs content offset n got = (r, cs') →
  (r = Err WADB_IO ∨ offset + n ≤ zlen content ∧ r = Ok (sub content offset n) ∨
   zlen content < offset + n ∧ r = Err WADB_CORRUPT) ∧
  (cs = [] → cs' = [] ∧ r ≠ Err WADB_IO).
Proof.
  intros Ho. revert got. induction cs as [|o cs IH]; intros got Hgot Hn Hc; cbn [pread_loop];
    (destruct (Z.geb_spec (zlen got) n) as [Hge|Hge];
     [intros [= <- <-]; split; [right; left; split; [lia|]; rewrite Hgot at 1; do 2 f_equal; lia|done]|]);
    set (rest := sub content (offset + zlen got) (n - zlen got));
    pose proof (zlen_nonneg got) as Hg0;
    (assert (Hall : ∀ k, 0 ≤ k ≤ zlen rest → got ++ sub rest 0 k = sub content offset (zlen got + k) ∧
       zlen (sub rest 0 k) = k ∧ zlen got + k ≤ n ∧ offset + zlen got + k ≤ zlen content)
     by (intros k Hk; pose proof (zlen_sub_le content (offset + zlen got) (n - zlen got));
         assert (zlen rest ≤ zlen content - (offset + zlen got)) by
           (unfold rest, sub, zlen in *; rewrite length_take, length_drop; lia);
         unfold rest in *; split_and!; [|rewrite zlen_sub; lia|lia|lia];
         rewrite sub_sub by lia; rewrite Hgot at 1; rewrite Z.add_0_r;
         apply sub_join; lia)).
  { destruct (zlen_sub_iff content (offset + zlen got) (n - zlen got)) as [Hi1 Hi2]; [lia..|].
    fold rest in Hi1, Hi2.
    destruct (Z.eqb_spec (zlen rest) (n - zlen got)) as [E|E]; intros [= <- <-]; (split; [|done]).
    - right. left. split; [lia|]. destruct (Hall (n - zlen got)) as [H _]; [lia|].
      rewrite sub_all in H by lia. rewrite H. do 2 f_equal. lia.
    - right. right. split; [|done]. destruct (decide (offset + n ≤ zlen content)); lia. }
  assert (Hstep : ∀ k, 0 < k ≤ zlen rest → pread_loop cs content offset n (got ++ sub rest 0 k) = (r, cs') →
    r = Err WADB_IO ∨ offset + n ≤ zlen content ∧ r = Ok (sub content offset n) ∨
    zlen content < offset + n ∧ r = Err WADB_CORRUPT).
  { intros k Hk. destruct (Hall k) as (H1&H2&H3&H4); [lia|]. intros H. apply IH in H; [by destruct H| | |].
    - rewrite zlen_app, H2. done.
    - rewrite zlen_app. lia.
    - rewrite zlen_app. lia. }
  assert (Hend : rest = [] → zlen content < offset + n).
  { intros Hr. destruct (zlen_sub_iff content (offset + zlen got) (n - zlen got)) as [_ H]; [lia..|].
    fold rest in H. rewrite Hr, zlen_nil in H. destruct (decide (offset + n ≤ zlen content)); lia. }
  destruct o as [|k| |].
  - destruct rest as [|b rest'] eqn:Er.
    { intros [= <- <-]. split; [|done]. right. right. auto. }
    rewrite <-Er in *. intros H. split; [|done]. apply (Hstep (zlen rest)).
    { split; [|lia]. rewrite Er, zlen_cons. pose proof (zlen_nonneg rest'). lia. }
    by rewrite sub_all.
  - destruct (take _ rest) as [|b part] eqn:Et.
    { intros [= <- <-]. split; [|done]. right. right. split; [|done]. apply Hend.
      destruct rest; [done|]. destruct (Z.to_nat (Z.max 1 k)) eqn:?; [lia|done]. }
    intros H. split; [|done].
    assert (E : b :: part = sub rest 0 (Z.min (Z.max 1 k) (zlen rest))).
    { rewrite <-Et. unfold sub. rewrite drop_0. destruct (Z.min_spec (Z.max 1 k) (zlen rest)) as [[? ->]|[? ->]]; [done|].
      rewrite !take_ge; [done|unfold zlen in *; lia..]. }
    rewrite E in H. apply (Hstep _) in H; [done|]. split; [|lia].
    destruct rest; [by rewrite take_nil in Et|]. rewrite zlen_cons. pose proof (zlen_nonneg rest). lia.
  - intros H. split; [|done]. by apply IH in H as [? _].
  - intros [= <- <-]. split; [by left|done].
Qed.
Lemma pread_all_spec content n offset w :
  0 ≤ offset ≤ zlen content → 0 ≤ n →
  wp (wadb_pread_all content n offset) (λ r w', keeps w w' ∧
    (r = Err WADB_IO ∨ offset + n ≤ zlen content ∧ r = Ok (sub content offset n) ∨
     zlen content < offset + n ∧ r = Err WADB_CORRUPT ∨ INT64_MAX < offset + n ∧ r = Err WADB_LIMIT) ∧
    (quiet w → offset + n ≤ zlen content → offset + n ≤ INT64_MAX → r = Ok (sub content offset n))) w.
Proof.
  intros Ho Hn. unfold wp, wadb_pread_all. destruct (_ || _) eqn:Hb; cbn [fst snd].
  { split_and!; [done|right; right; right; split; [lia|done]|intros; exfalso; lia]. }
  destruct (pread_loop _ _ _ _ _) as [r cs] eqn:E. cbn [fst snd].
  apply pread_loop_spec in E as [H1 H2];
    [|lia|by rewrite zlen_nil, sub_nil|by rewrite zlen_nil|rewrite zlen_nil; lia].
  split_and!; [split; [done|]; intros [Hc ?]; split; [by apply H2|done]|tauto|].
  intros [Hc _] ??. destruct (H2 Hc) as [_ ?]. destruct H1 as [?|[[_ ?]|[? _]]]; [done|done|lia].
Qed.

(** Sequencing after a call that only uses up outcomes. *)
Ltac wp_call lem :=
  apply wp_bind; eapply wp_mono; [apply lem|]; cbn beta; try (intros ? ? (?ok & -> & ?Hk & ?Hq)).

Lemma sync_file_spec w :
  wp wadb_sync_file (λ r w', keeps w w' ∧ (r = Ok () ∨ r = Err WADB_IO) ∧ (quiet w → r = Ok ())) w.
Proof.
  unfold wadb_sync_file. wp_call retried_call_spec. destruct ok; [apply wp_ret|apply wp_fail];
    split_and!; auto. intros H. by specialize (Hq H).
Qed.
Lemma sync_directory_spec p w :
  wp (wadb_sync_directory p) (λ r w', keeps w w' ∧ (r = Ok () ∨ r = Err WADB_IO) ∧
    (quiet w → p ∈ directories w → r = Ok ())) w.
Proof.
  unfold wadb_sync_directory. wp_call syscall_spec. wp_step. wp_step.
  destruct (_ || _) eqn:Hb.
  - apply wp_fail. split_and!; [done|by right|]. intros Hw Hd. rewrite (Hq Hw), bool_decide_true in Hb; [done|].
    destruct Hk as [[_ ->] _]. done.
  - wp_call retried_call_spec. destruct ok0; [apply wp_ret|apply wp_fail]; split_and!; auto; try by etrans.
    intros Hw _. destruct Hk as [_ H]. by specialize (Hq0 (H Hw)).
Qed.

(** The effect of installing [data] at [p]: nothing, or the whole of it. *)
Definition installed (p : path) (data : list Z) (w : os) (r : result unit) (w' : os) : Prop :=
  directories w' = directories w ∧
  ((r = Ok () ∨ r = Err WADB_INDETERMINATE) ∧ files w' = <[p := data]> (files w) ∨
   (r = Err WADB_IO ∨ r = Err WADB_NOMEM ∨ r = Err WADB_LIMIT) ∧ files w' = files w).

(** *** The temporary file *)

(** Between [w] and [w'] some calls were made; if one of them failed, not every outcome was
    a plain success. *)
Definition spent (failed : bool) (w w' : os) : Prop :=
  ∃ used, calls w = used ++ calls w' ∧ (failed = true → ¬ Forall (eq Success) used).
Lemma spent_trans f g w1 w2 w3 : spent f w1 w2 → spent g w2 w3 → spent (f || g) w1 w3.
Proof.
  intros (u&Eu&Hu) (v&Ev&Hv). exists (u ++ v). split; [by rewrite Eu, Ev, app_assoc|].
  rewrite Forall_app. intros [H|H]%orb_prop [Hfu Hfv]; [by apply Hu|by apply Hv].
Qed.
(** A call that leaves files and temporary files alone. *)
Definition passes (failed : bool) (w w' : os) : Prop := keeps w w' ∧ temporaries w' = temporaries w ∧ spent failed w w'.
Lemma passes_refl w : passes false w w.
Proof. split; [done|]. split; [done|]. by exists []. Qed.
Lemma passes_trans f g w1 w2 w3 : passes f w1 w2 → passes g w2 w3 → passes (f || g) w1 w3.
Proof. intros (?&?&?) (?&?&?). split; [by etrans|]. split; [congruence|by eapply spent_trans]. Qed.
Lemma syscall_passes w :
  wp syscall (λ r w', ∃ ok, r = Ok ok ∧ passes (negb ok) w w' ∧ (quiet w → ok = true) ∧
    (ok = false → ∃ o, calls w = o :: calls w' ∧ sys_ok o = false)) w.
Proof.
  destruct (syscall_spec w) as (ok&E&Hk&Hq). exists ok. split; [done|]. unfold syscall in *. cbn in *. injection E as <-.
  destruct (calls w) as [|o cs] eqn:Ec; cbn in *.
  - split_and!; [|done|done]. split_and!; [done|done|]. by exists [].
  - split_and!; [|done|by exists o]. split_and!; [done|done|]. exists [o]. split; [done|]. rewrite Forall_singleton. by destruct o.
Qed.
Lemma retry_loop_spent cs ok cs' : retry_loop cs = (ok, cs') →
  ∃ used, cs = used ++ cs' ∧ (ok = false → ¬ Forall (eq Success) used).
Proof.
  revert ok cs'. induction cs as [|o cs IH]; intros ok cs'; cbn; [intros [= <- <-]; by exists []|].
  assert (Hone : (sys_ok o, cs) = (ok, cs') → ∃ used, o :: cs = used ++ cs' ∧ (ok = false → ¬ Forall (eq Success) used)).
  { intros [= <- <-]. exists [o]. split; [done|]. rewrite Forall_singleton. by destruct o. }
  destruct o; try exact Hone. intros (used&->&_)%IH. exists (Interrupted :: used). split; [done|]. by intros _ [? _]%Forall_cons.
Qed.
Lemma retried_call_passes w :
  wp retried_call (λ r w', ∃ ok, r = Ok ok ∧ passes (negb ok) w w' ∧ (quiet w → ok = true)) w.
Proof.
  destruct (retried_call_spec w) as (ok&E&Hk&Hq). exists ok. split; [done|]. unfold retried_call in *.
  destruct (retry_loop (calls w)) as [ok' cs] eqn:Er. cbn in *. injection E as ->. split; [|done]. split_and!; [done|done|].
  apply retry_loop_spent in Er as (used&?&Hu). exists used. split; [done|]. destruct ok; [done|auto].
Qed.
Lemma write_loop_spent cs data pre ok out cs' : write_loop cs data pre = (ok, out, cs') →
  ∃ used, cs = used ++ cs' ∧ (ok = false → ¬ Forall (eq Success) used).
Proof.
  revert data pre. induction cs as [|o cs IH]; intros data pre; destruct data as [|b data]; cbn -[Z.to_nat];
    try (intros [= <- <- <-]; by exists []).
  assert (Hmore : o ≠ Success → ∀ data pre, write_loop cs data pre = (ok, out, cs') →
    ∃ used, o :: cs = used ++ cs' ∧ (ok = false → ¬ Forall (eq Success) used)).
  { intros Ho data' pre' (used&->&_)%IH. exists (o :: used). split; [done|]. by intros _ [? _]%Forall_cons. }
  destruct o as [|n| |].
  - intros [= <- <- <-]. by exists [Success].
  - destruct (_ || _); [|by apply Hmore]. intros [= <- <- <-]. exists [Count n]. split; [done|]. by rewrite Forall_singleton.
  - by apply Hmore.
  - intros [= <- <- <-]. exists [Failure]. split; [done|]. by rewrite Forall_singleton.
Qed.
Lemma rename_temporary_spec p contents l q w : temporaries w = (q, contents) :: l →
  wp (rename_temporary p) (λ r w', r = Ok () ∧ files w' = <[p := contents]> (files w) ∧ directories w' = directories w ∧
    temporaries w' = l ∧ calls w' = calls w ∧ allocs w' = allocs w) w.
Proof. intros Ht. unfold wp, rename_temporary. cbn. by rewrite Ht. Qed.
(** A part of [data] is in the newest temporary file, all of it if no call failed. *)
Definition holds_part (p : path) (data : list Z) (l : list (path * list Z)) (ok : bool) (w w' : os) : Prop :=
  keeps w w' ∧ spent (negb ok) w w' ∧ (quiet w → ok = true) ∧
  ∃ out rest, data = out ++ rest ∧ temporaries w' = (p, out) :: l ∧ (ok = true → rest = []).
Lemma write_temporary_spec p data l w : temporaries w = (p, []) :: l →
  wp (write_temporary data) (λ r w', ∃ ok, r = Ok ok ∧ holds_part p data l ok w w') w.
Proof.
  intros Ht. unfold wp, write_temporary. destruct (write_loop (calls w) data []) as [[ok out] cs] eqn:E.
  pose proof E as (used&Hcs&Hused)%write_loop_spent. apply write_loop_spec in E as (d&rest&->&->&Hok&Hq). cbn. rewrite Ht.
  exists ok. split; [done|]. split_and!.
  - split; [done|]. intros [??]. split; [by apply Hq|done].
  - exists used. split; [done|]. destruct ok; [done|auto].
  - intros [??]. by apply Hq.
  - by exists d, rest.
Qed.
Lemma holds_part_passes p data l ok ok' w1 w2 w3 : holds_part p data l ok w1 w2 → passes (negb ok') w2 w3 →
  (quiet w2 → ok' = true) → holds_part p data l (ok && ok') w1 w3.
Proof.
  intros (Hk&Hs&Hq&out&rest&->&Ht&Hr) (Hk'&Ht'&Hs') Hq'. split_and!; [by etrans| | |].
  - rewrite negb_andb. by eapply spent_trans.
  - intros Hw. rewrite (Hq Hw), Hq'; [done|]. by apply Hk.
  - exists out, rest. split_and!; [done|congruence|]. intros [? _]%andb_prop. auto.
Qed.
Lemma replace_file_spec p data l w : temporaries w = (p, []) :: l →
  wp (replace_file data) (λ r w', ∃ ok, r = Ok ok ∧ holds_part p data l ok w w') w.
Proof.
  intros Ht. unfold replace_file. apply wp_bind. eapply wp_mono; [by apply (write_temporary_spec p data l)|].
  intros ? w1 (written&->&H1). apply wp_bind.
  eapply (wp_mono _ (λ r w2, ∃ synced, r = Ok synced ∧ holds_part p data l (written && synced) w w2 ∧ (synced = true → written = true))).
  { destruct written.
    - eapply wp_mono; [apply retried_call_passes|]. intros ? w2 (synced&->&Hp&Hq). exists synced. split_and!; [done|by eapply holds_part_passes|done].
    - apply wp_ret. exists false. by split_and!. }
  intros ? w2 (synced&->&H2&Hw). apply wp_bind. eapply wp_mono; [apply syscall_passes|]. intros ? w3 (closed&->&Hp&Hq&_).
  pose proof (holds_part_passes _ _ _ _ _ _ _ _ H2 Hp Hq) as H3.
  replace (written && synced) with synced in H3 by (destruct written, synced; naive_solver).
  destruct (synced && closed); [|apply wp_ret; by exists false].
  eapply wp_mono; [apply syscall_passes|]. intros ? w4 (renamed&->&Hp4&Hq4&_). exists renamed. split; [done|].
  by apply (holds_part_passes _ _ _ true renamed _ w3).
Qed.
(** The temporary files afterwards: those of before, and perhaps one that holds a part of
    the data, because [unlink] failed after a call before it had. *)
Definition cleaned (p : path) (data : list Z) (w : os) (r : result unit) (w' : os) : Prop :=
  temporaries w' = temporaries w ∨
  r = Err WADB_IO ∧ ∃ out rest used o, data = out ++ rest ∧ temporaries w' = (p, out) :: temporaries w ∧
    calls w = used ++ o :: calls w' ∧ ¬ Forall (eq Success) used ∧ sys_ok o = false.

Lemma os_malloc_passes w : wp os_malloc (λ r w', ∃ ok, r = Ok ok ∧ passes false w w' ∧ (quiet w → ok = true)) w.
Proof. destruct (os_malloc_spec w) as (ok&E&Hk&Hq). exists ok. split_and!; [done| |done]. split_and!; [done|done|by exists []]. Qed.
Lemma sync_directory_passes p w :
  wp (wadb_sync_directory p) (λ r w', keeps w w' ∧ temporaries w' = temporaries w ∧ (r = Ok () ∨ r = Err WADB_IO) ∧
    (quiet w → p ∈ directories w → r = Ok ())) w.
Proof.
  pose proof (sync_directory_spec p w) as H. unfold wp in *. destruct H as (Hk&Hr&Hq). split_and!; try done.
  unfold wadb_sync_directory, mbind, M_bind, syscall, get_os, retried_call. cbn. destruct (negb _ || _); [done|].
  destruct (retry_loop _) as [[] cs]; done.
Qed.
Lemma unlink_temporary_spec w :
  wp unlink_temporary (λ r w', r = Ok () ∧ keeps w w' ∧
    (temporaries w' = tl (temporaries w) ∨ temporaries w' = temporaries w ∧ ∃ o, calls w = o :: calls w' ∧ sys_ok o = false)) w.
Proof.
  unfold unlink_temporary. apply wp_bind. eapply wp_mono; [apply syscall_passes|]. cbn beta. intros ? w1 (ok&->&(Hk&Ht&_)&_&Hfail).
  destruct ok; [|apply wp_ret; split_and!; [done|done|right; auto]]. unfold wp. cbn. rewrite Ht. split_and!; [done| |by left].
  destruct Hk as [? Hq]. split; [done|]. intros Hw. by destruct (Hq Hw).
Qed.
Lemma install_temporary_spec p data l w : temporaries w = (p, []) :: l →
  wp (install_temporary p data) (λ r w', installed p data w r w' ∧
    (temporaries w' = l ∨ r = Err WADB_IO ∧ ∃ out rest used o, data = out ++ rest ∧ temporaries w' = (p, out) :: l ∧
      calls w = used ++ o :: calls w' ∧ ¬ Forall (eq Success) used ∧ sys_ok o = false) ∧
    (quiet w → parent_directory p ∈ directories w → r = Ok () ∧ quiet w')) w.
Proof.
  intros Ht. unfold install_temporary, installed. apply wp_bind. eapply wp_mono; [by apply (replace_file_spec p data l)|].
  intros ? w1 (renamed&->&Hk&Hs&Hq&out&rest&->&Ht1&Hall). destruct Hk as [[Hf Hd] Hqq]. destruct renamed; cbn [negb].
  - rewrite (Hall eq_refl), app_nil_r in *. apply wp_bind. eapply wp_mono; [by apply (rename_temporary_spec p out l p)|].
    intros ? w2 (->&Hf2&Hd2&Ht2&Hc2&Ha2). apply wp_bind, wp_try. eapply wp_mono; [apply sync_directory_passes|].
    intros r w3 ([[Hf3 Hd3] Hqq3]&Ht3&Hr&Hrq). assert (Hq2 : quiet w → quiet w2) by (intros Hw; unfold quiet; rewrite Hc2, Ha2; by apply Hqq).
    destruct Hr as [->| ->].
    + apply wp_ret. split_and!; [congruence|left; split; [by left|congruence]|left; congruence|]. intros Hw _. split; [done|auto].
    + apply wp_bind. eapply wp_mono; [apply syscall_passes|]. intros ? w4 (ok&->&([[Hf4 Hd4] Hqq4]&Ht4&_)&_&_). apply wp_fail.
      split_and!; [congruence|left; split; [by right|congruence]|left; congruence|]. intros Hw Hp. exfalso.
      assert (E : Err WADB_IO = Ok ()) by (apply Hrq; [by apply Hq2|by rewrite Hd2, Hd]). done.
  - apply wp_bind. eapply wp_mono; [apply unlink_temporary_spec|]. intros ? w2 (->&[[Hf2 Hd2] _]&Hgone). apply wp_fail.
    split_and!; [congruence|right; split; [by left|congruence]| |intros Hw; by specialize (Hq Hw)].
    destruct Hgone as [Hgone|(Hstay&o&Ho&Hfail)]; [left; by rewrite Hgone, Ht1|right]. split; [done|].
    destruct Hs as (used&Hu&Hbad). exists out, rest, used, o. split_and!; [done|congruence|by rewrite Hu, Ho|by apply Hbad|done].
Qed.
(** The whole of [wadb_atomic_file], with the temporary file. *)
Lemma atomic_file_full p data w :
  wp (wadb_atomic_file p data) (λ r w', installed p data w r w' ∧ cleaned p data w r w' ∧
    (quiet w → parent_directory p ∈ directories w → 0 < zlen p ≤ 4096 → r = Ok () ∧ quiet w')) w.
Proof.
  unfold wadb_atomic_file, installed, cleaned. destruct (_ || _) eqn:Hlen.
  { apply wp_fail. split_and!; [done|right; auto|by left|intros; exfalso; lia]. }
  wp_call os_malloc_passes. wp_call os_malloc_passes. pose proof (passes_trans _ _ _ _ _ Hk Hk0) as ([[Hf Hd] Hqq]&Ht&Hs).
  destruct (negb ok || negb ok0) eqn:Hb.
  { apply wp_fail. split_and!; [done|right; auto|by left|]. intros Hw. destruct Hk as [[_ H] _].
    rewrite (Hq Hw), (Hq0 (H Hw)) in Hb. done. }
  apply wp_bind. eapply wp_mono; [apply syscall_passes|]. intros ? w1 (created&->&([[Hf1 Hd1] Hqq1]&Ht1&Hs1)&Hq1&_). wp_step. wp_step.
  destruct (negb created || _) eqn:Hb1.
  { apply wp_fail. split_and!; [congruence|right; split; [by left|congruence]|left; congruence|]. intros Hw Hp.
    rewrite (Hq1 (Hqq Hw)), bool_decide_true in Hb1; [done|]. by rewrite Hd1, Hd. }
  apply wp_bind. unfold create_temporary, wp at 1. cbn [fst snd]. eapply wp_mono; [by apply (install_temporary_spec p data (temporaries w1))|].
  intros r w2 ([Hd2 Hi]&Hc&Hq2). cbn [directories files calls with_temporaries] in *. split_and!; [congruence|by rewrite Hf1, Hf in Hi| |].
  - destruct Hc as [Hc|(->&out&rest&used&o&->&Hc&Hu&Hbad&Ho)]; [left; congruence|right]. split; [done|].
    destruct (spent_trans _ _ _ _ _ Hs Hs1) as (before&Hbefore&_).
    exists out, rest, (before ++ used), o. split_and!; [done|congruence| |by rewrite Forall_app; intros [_ ?]|done].
    by rewrite Hbefore, Hu, app_assoc.
  - intros Hw Hp _. apply Hq2; [|by rewrite Hd1, Hd]. by destruct (Hqq1 (Hqq Hw)).
Qed.
Lemma atomic_file_spec p data w :
  wp (wadb_atomic_file p data) (λ r w', installed p data w r w' ∧
    (quiet w → parent_directory p ∈ directories w → 0 < zlen p ≤ 4096 → r = Ok () ∧ quiet w')) w.
Proof. eapply wp_mono; [apply atomic_file_full|]. by intros r w' (?&_&?). Qed.

(** C11: Replacing a file is all or nothing. Under any system-call and allocation
    outcomes [wadb_atomic_file] either leaves every file as it was and reports an
    I/O, memory or path-length error, or the file holds exactly the new data, no
    other file changes, and the status is WADB_OK or, when only the directory entry
    may not be durable, WADB_INDETERMINATE; when nothing fails it succeeds. The temporary
    files are those of before, with one exception: after an I/O error the temporary file of
    this call, which holds a part of the data, is still there if the call of [unlink], the
    last one made, failed too. *)
Theorem atomic_file_all_or_nothing p data w r w' :
  wadb_atomic_file p data w = (r, w') →
  installed p data w r w' ∧ cleaned p data w r w' ∧
  (quiet w → parent_directory p ∈ directories w → 0 < zlen p ≤ 4096 →
   r = Ok () ∧ files w' !! p = Some data).
Proof.
  intros H. eapply wp_out in H; [|apply atomic_file_full]. destruct H as (Hi&Hc&Hq). split_and!; [done..|].
  intros Hw Hp Hl. destruct (Hq Hw Hp Hl) as [-> _]. split; [done|].
  destruct Hi as [_ [[_ ->]|[[?|[?|?]] _]]]; [apply lookup_insert_eq|done..].
Qed.

Lemma read_file_spec p limit w :
  wp (wadb_read_file p limit) (λ r w', keeps w w' ∧
    (∀ data, r = Ok data → files w !! p = Some data ∧ zlen data ≤ limit) ∧
    (r = Err WADB_NOT_FOUND → files w !! p = None) ∧
    (quiet w → ∀ data, files w !! p = Some data → zlen data ≤ limit → zlen data ≤ INT64_MAX → r = Ok data)) w.
Proof.
  unfold wadb_read_file. wp_call syscall_spec. wp_step. wp_step. destruct (negb ok) eqn:Hb.
  { apply wp_fail. split_and!; try done. intros Hw. by rewrite (Hq Hw) in Hb. }
  pose proof Hk as [[Hf Hd] Hqq]. rewrite Hf. destruct (files w !! p) as [content|] eqn:Hp.
  2:{ destruct (bool_decide _); apply wp_fail; split_and!; try done. }
  wp_call syscall_spec. destruct (negb ok0) eqn:Hb0.
  { apply wp_fail. split_and!; try done; [by etrans|]. intros Hw. by rewrite (Hq0 (Hqq Hw)) in Hb0. }
  destruct (Z.gtb_spec (zlen content) limit).
  { apply wp_fail. split_and!; try done; [by etrans|]. intros _ d [= <-]. lia. }
  wp_call os_malloc_spec. destruct (negb ok1) eqn:Hb1.
  { apply wp_fail. split_and!; try done; [by do 2 (etrans; [done|])|].
    intros Hw. destruct Hk0 as [_ Hk0]. by rewrite (Hq1 (Hk0 (Hqq Hw))) in Hb1. }
  eapply wp_mono; [apply pread_all_spec; pose proof (zlen_nonneg content); lia|]. cbn beta.
  intros r w' (Hk2&Hr&Hrq). split_and!.
  - by do 3 (etrans; [done|]).
  - intros d ->. destruct Hr as [?|[[_ ?]|[[_ ?]|[_ ?]]]]; simplify_eq. by rewrite sub_all.
  - intros ->. destruct Hr as [?|[[_ ?]|[[_ ?]|[_ ?]]]]; simplify_eq.
  - intros Hw d [= <-] _ Hi. rewrite Hrq; [by rewrite sub_all| |lia..].
    apply Hk1, Hk0, Hqq, Hw.
Qed.

Lemma mkdir_spec p w :
  wp (wadb_mkdir p) (λ r w', files w' = files w ∧
    (r = Ok () ∧ directories w' = {[p]} ∪ directories w ∨ r = Err WADB_IO ∧ directories w' = directories w) ∧
    (quiet w → quiet w' ∧ (files w !! p = None → r = Ok ()))) w.
Proof.
  unfold wadb_mkdir. wp_call syscall_spec. destruct Hk as [[Hf Hd] Hqq]. destruct (negb ok) eqn:Hb.
  { apply wp_fail. split_and!; [done|right; done|]. intros Hw. by rewrite (Hq Hw) in Hb. }
  wp_step. wp_step. destruct (bool_decide (p ∈ directories s')) eqn:Hin.
  { apply bool_decide_eq_true in Hin. assert (Hu : {[p]} ∪ directories w = directories w) by (rewrite <-Hd; set_solver).
    wp_call syscall_spec. destruct Hk as [[Hf1 Hd1] Hqq1].
    destruct (negb ok0) eqn:Hb0; [apply wp_fail|apply wp_ret]; rewrite Hf1, Hd1, Hf, Hd, ?Hu.
    - split_and!; [done|right; done|]. intros Hw. by rewrite (Hq0 (Hqq Hw)) in Hb0.
    - split_and!; [done|left; done|]. intros Hw. by split; [apply Hqq1, Hqq|]. }
  destruct (bool_decide (is_Some _)) eqn:Hfile.
  { wp_call syscall_spec. destruct Hk as [[Hf1 Hd1] Hqq1]. apply wp_fail. rewrite Hf1, Hd1, Hf, Hd.
    split_and!; [done|right; done|]. intros Hw. split; [by apply Hqq1, Hqq|]. intros Hn.
    apply bool_decide_eq_true in Hfile as [x Hx]. rewrite Hf in Hx. congruence. }
  unfold wp. cbn. rewrite Hf, Hd. split_and!; [done|left; done|]. intros Hw. split; [|done]. by destruct (Hqq Hw).
Qed.

Lemma wadb_path_spec base name w :
  wp (wadb_path base name) (λ r w', ∃ o, r = Ok o ∧ keeps w w' ∧
    (o = None ∨ o = Some (base ++ SLASH :: name) ∧ zlen base + zlen name + 2 ≤ 4096) ∧
    (quiet w → zlen base + zlen name + 2 ≤ 4096 → o = Some (base ++ SLASH :: name))) w.
Proof.
  unfold wadb_path, wadb_add_size. pose proof (zlen_nonneg base). pose proof (zlen_nonneg name).
  destruct (Z.gtb_spec (zlen base) (SIZE_MAX - zlen name)); cbn [mbind option_bind].
  { apply wp_ret. eexists. split_and!; [done|done|by left|]. intros; mlia. }
  destruct (Z.gtb_spec (zlen base + zlen name) (SIZE_MAX - 2)); cbn [mbind option_bind].
  { apply wp_ret. eexists. split_and!; [done|done|by left|]. intros; mlia. }
  destruct (Z.gtb_spec (zlen base + zlen name + 2) 4096).
  { apply wp_ret. eexists. split_and!; [done|done|by left|]. intros; mlia. }
  wp_call os_malloc_spec. apply wp_ret. eexists. split_and!; [done|done| |].
  - destruct ok; [right; done|by left].
  - intros Hw _. by rewrite (Hq Hw).
Qed.

Lemma zlen_decimal n z : zlen (decimal n z) = Z.of_nat n.
Proof. revert z. induction n as [|n IH]; intros z; [done|]. cbn [decimal]. rewrite zlen_app, IH, zlen_cons, zlen_nil. lia. Qed.
(** Fixed-width decimal names determine their number. *)
Lemma decimal_inj n z z' : 0 ≤ z < 10 ^ Z.of_nat n → 0 ≤ z' < 10 ^ Z.of_nat n →
  decimal n z = decimal n z' → z = z'.
Proof.
  revert z z'. induction n as [|n IH]; intros z z' Hz Hz' H; [change (10 ^ Z.of_nat 0) with 1 in *; lia|].
  rewrite Nat2Z.inj_succ, Z.pow_succ_r in Hz, Hz' by lia.
  cbn [decimal] in H. apply app_inj_2 in H as [H1 [= H2]]; [|done].
  apply IH in H1; Z.div_mod_to_equations; lia.
Qed.
Lemma after_slash_app name rest :
  Forall (λ c, c ≠ SLASH) name → after_slash (name ++ SLASH :: rest) = Some rest.
Proof. induction 1 as [|c name Hc ? IH]; cbn; [done|]. by rewrite (proj2 (Z.eqb_neq c SLASH)). Qed.
Lemma parent_directory_path base name :
  base ≠ [] → Forall (λ c, c ≠ SLASH) name → parent_directory (base ++ SLASH :: name) = base.
Proof.
  intros Hb Hn. unfold parent_directory. rewrite rev_app_distr. cbn [rev]. rewrite <-app_assoc.
  cbn [app]. rewrite after_slash_app by (apply Forall_rev in Hn; by rewrite <-rev_alt in Hn || done).
  destruct (rev base) eqn:E; [by apply (f_equal (@rev Z)) in E; rewrite rev_involutive in E|].
  by rewrite <-E, rev_involutive.
Qed.
Lemma decimal_no_slash n z : Forall (λ c, c ≠ SLASH) (decimal n z).
Proof.
  revert z. induction n as [|n IH]; intros z; cbn [decimal]; [done|]. apply Forall_app. split; [done|].
  constructor; [|done]. unfold SLASH. mlia.
Qed.

Definition fs_os : os := Os ∅ {[cstr "/db"]} [Success; Count 2; Interrupted] [] [] [].
Definition fs_saved : os := snd (wadb_atomic_file (cstr "/db/catalog") [1; 2; 3] fs_os).
(** The write stops after two bytes, and the temporary file cannot be removed. *)
Definition fs_full : os := Os ∅ {[cstr "/db"]} [Success; Count 2; Failure; Success; Failure] [] [] [].
Definition fs_left : os := snd (wadb_atomic_file (cstr "/db/catalog") [1; 2; 3] fs_full).
Lemma atomic_file_all_or_nothing_witness :
  wadb_atomic_file (cstr "/db/catalog") [1; 2; 3] fs_os = (Ok (), fs_saved) ∧
  installed (cstr "/db/catalog") [1; 2; 3] fs_os (Ok ()) fs_saved ∧ temporaries fs_saved = [] ∧
  wadb_atomic_file (cstr "/db/catalog") [1; 2; 3] fs_full = (Err WADB_IO, fs_left) ∧
  cleaned (cstr "/db/catalog") [1; 2; 3] fs_full (Err WADB_IO) fs_left ∧ temporaries fs_left = [(cstr "/db/catalog", [1; 2])].
Proof.
  assert (H : wadb_atomic_file (cstr "/db/catalog") [1; 2; 3] fs_os = (Ok (), fs_saved)) by (vm_compute; reflexivity).
  assert (Hl : wadb_atomic_file (cstr "/db/catalog") [1; 2; 3] fs_full = (Err WADB_IO, fs_left)) by (vm_compute; reflexivity).
  split; [exact H|]. split; [exact (proj1 (atomic_file_all_or_nothing (cstr "/db/catalog") [1; 2; 3] fs_os (Ok ()) fs_saved H))|].
  split; [vm_compute; reflexivity|]. split; [exact Hl|].
  split; [exact (proj1 (proj2 (atomic_file_all_or_nothing (cstr "/db/catalog") [1; 2; 3] fs_full (Err WADB_IO) fs_left Hl)))|].
  vm_compute; reflexivity.
Defined.
