(* ===== verification/Engine.v ===== *)
(** * The engine's data structures (src/core/engine.h, include/wadb.h)

    Tables, segments and frame indexes. The members of [struct wadb_table] are grouped
    by the operations that own them: the identity fixed at creation, the part the
    manifest stores, the tail of the log, the directory of readable segments, and
    counters. Arrays with a capacity are the list of used entries next to the
    capacity. Back pointers ([table->db]) are arguments of the functions that use them. *)

From stdpp Require Import base numbers list list_numbers gmap.
From S2P Require Import Prelude Encoding Schema Format Dictionary Files.

Definition WADB_MAX_TABLES : Z := 1024.
Definition WADB_MAX_SEGMENTS : Z := 1000000.
Definition WADB_MAX_INDEX_ENTRIES : Z := 65536.
Definition WADB_INDEX_HEADER_BYTES : Z := 128.
Definition WADB_INDEX_ENTRY_BYTES : Z := 64.
Definition WADB_NOTIFICATION_CAPACITY : Z := 1024.

(** ** Segments *)

Inductive wadb_segment_state := WADB_SEG_ACTIVE | WADB_SEG_SEALED | WADB_SEG_RETIRED.
#[global] Instance segment_state_eq_dec : EqDecision wadb_segment_state.
Proof. solve_decision. Defined.
Definition state_code (s : wadb_segment_state) : Z :=
  match s with WADB_SEG_ACTIVE => 1 | WADB_SEG_SEALED => 2 | WADB_SEG_RETIRED => 3 end.
(** A stored state; [None] is a value outside of the enumeration. *)
Definition state_of_code (z : Z) : option wadb_segment_state :=
  if z =? 1 then Some WADB_SEG_ACTIVE
  else if z =? 2 then Some WADB_SEG_SEALED
  else if z =? 3 then Some WADB_SEG_RETIRED else None.

Record wadb_segment_meta := SegmentMeta {
  sg_id : Z;
  sg_day_start : Z;
  sg_first_sequence : Z;
  sg_last_sequence : Z;
  sg_min_time : Z;
  sg_max_time : Z;
  sg_committed_bytes : Z;
  sg_state : wadb_segment_state;
}.
#[global] Instance segment_meta_eq_dec : EqDecision wadb_segment_meta.
Proof. solve_decision. Defined.
#[global] Instance segment_meta_inhabited : Inhabited wadb_segment_meta :=
  populate (SegmentMeta 0 0 0 0 0 0 0 WADB_SEG_ACTIVE).
Definition set_state (st : wadb_segment_state) (s : wadb_segment_meta) : wadb_segment_meta :=
  SegmentMeta (sg_id s) (sg_day_start s) (sg_first_sequence s) (sg_last_sequence s)
    (sg_min_time s) (sg_max_time s) (sg_committed_bytes s) st.
Definition is_active (s : wadb_segment_meta) : bool := bool_decide (sg_state s = WADB_SEG_ACTIVE).

(** ** Frame indexes *)

Record wadb_index_entry := IndexEntry {
  ie_min_time : Z;
  ie_max_time : Z;
  ie_first_sequence : Z;
  ie_frame_offset : Z;
  ie_row_count : Z;
  ie_dictionary_count : Z;
  ie_frame_bytes : Z;
  ie_rows_offset : Z;
  ie_frame_crc : Z;
  ie_dictionary_crc : Z;
}.
#[global] Instance index_entry_eq_dec : EqDecision wadb_index_entry.
Proof. solve_decision. Defined.
#[global] Instance index_entry_inhabited : Inhabited wadb_index_entry :=
  populate (IndexEntry 0 0 0 0 0 0 0 0 0 0).

Record wadb_frame_index := FrameIndex {
  ix_entries : list wadb_index_entry;
  ix_capacity : Z;
}.
Definition ix_count (ix : wadb_frame_index) : Z := zlen (ix_entries ix).
Definition empty_index : wadb_frame_index := FrameIndex [] 0.

(** ** Tables *)

Record table_identity := Identity {
  t_id : Z;
  t_name : list Z;
  t_directory : path;
  t_schema : wadb_schema;
}.
Record table_manifest := Manifest {
  m_next_segment_id : Z;
  m_preserved_sequence : Z;
  m_preserved_time : Z;
  m_retention_us : Z;
  m_generation : Z;
  m_segments : list wadb_segment_meta;
}.
(** The end of the log: the open active segment, its dictionary and index, and the
    last assigned sequence number and time. *)
Record table_tail := Tail {
  l_active_fd : option path;
  l_dictionary : option wadb_dictionary;
  l_index : wadb_frame_index;
  l_last_sequence : Z;
  l_last_time : Z;
}.
Record table_readable := Readable {
  r_segments : list Z;
  r_capacity : Z;
}.
Record table_counters := Counters {
  k_committed_frames : Z;
  k_append_requests : Z;
  k_retained_rows : Z;
  k_retained_bytes : Z;
  k_retained_segments : Z;
  k_retired_segments : Z;
  k_published_dictionary_bytes : Z;
}.
Record wadb_table := Table {
  identity : table_identity;
  manifest : table_manifest;
  tail_ : table_tail;
  readable : table_readable;
  counters : table_counters;
  t_readers : Z;
  t_read_only : bool;
  t_pending_retention : bool;
  t_maintenance_status : wadb_status;
}.
Definition table_id (t : wadb_table) : Z := t_id (identity t).
Definition schema (t : wadb_table) : wadb_schema := t_schema (identity t).
Definition segments (t : wadb_table) : list wadb_segment_meta := m_segments (manifest t).
Definition segment_count (t : wadb_table) : Z := zlen (segments t).
Definition last_sequence (t : wadb_table) : Z := l_last_sequence (tail_ t).
Definition last_time (t : wadb_table) : Z := l_last_time (tail_ t).

Definition with_manifest (m : table_manifest) (t : wadb_table) : wadb_table :=
  Table (identity t) m (tail_ t) (readable t) (counters t) (t_readers t) (t_read_only t)
    (t_pending_retention t) (t_maintenance_status t).
Definition with_tail (l : table_tail) (t : wadb_table) : wadb_table :=
  Table (identity t) (manifest t) l (readable t) (counters t) (t_readers t) (t_read_only t)
    (t_pending_retention t) (t_maintenance_status t).
Definition with_readable (r : table_readable) (t : wadb_table) : wadb_table :=
  Table (identity t) (manifest t) (tail_ t) r (counters t) (t_readers t) (t_read_only t)
    (t_pending_retention t) (t_maintenance_status t).
Definition with_counters (k : table_counters) (t : wadb_table) : wadb_table :=
  Table (identity t) (manifest t) (tail_ t) (readable t) k (t_readers t) (t_read_only t)
    (t_pending_retention t) (t_maintenance_status t).
Definition with_read_only (b : bool) (t : wadb_table) : wadb_table :=
  Table (identity t) (manifest t) (tail_ t) (readable t) (counters t) (t_readers t) b
    (t_pending_retention t) (t_maintenance_status t).
Definition with_pending (b : bool) (t : wadb_table) : wadb_table :=
  Table (identity t) (manifest t) (tail_ t) (readable t) (counters t) (t_readers t) (t_read_only t)
    b (t_maintenance_status t).
Definition with_segments (l : list wadb_segment_meta) (m : table_manifest) : table_manifest :=
  Manifest (m_next_segment_id m) (m_preserved_sequence m) (m_preserved_time m) (m_retention_us m)
    (m_generation m) l.

(** ** Options of a database *)

Record wadb_options := Options {
  o_segment_target_bytes : Z;
  o_queue_limit_bytes : Z;
  o_dictionary_limit_bytes : Z;
  o_read_cache_bytes : Z;
  o_snapshot_limit_bytes : Z;
  o_max_readers : Z;
  o_batch_target_bytes : Z;
  o_batch_delay_ms : Z;
  o_max_tables : Z;
}.
Definition wadb_options_default : wadb_options :=
  Options (256 * 1024 * 1024) (64 * 1024 * 1024) (8 * 1024 * 1024) (64 * 1024 * 1024)
    (64 * 1024 * 1024) 32 (256 * 1024) 5 WADB_MAX_TABLES.

(** ** Databases *)

(** Latencies: [h_bins !! i] counts the samples of at most [2^i] microseconds that are
    not in an earlier bin. *)
Record wadb_histogram := Histogram {
  h_bins : list Z;
  h_count : Z;
  h_max_us : Z;
}.
Definition empty_histogram : wadb_histogram := Histogram (zrep 64 0) 0 0.

Record wadb_commit_event := CommitEvent {
  ev_id : Z;
  ev_table_id : Z;
  ev_first_sequence : Z;
  ev_last_sequence : Z;
  ev_frame_bytes : Z;
  ev_max_time : Z;
  ev_rows : Z;
}.
#[global] Instance commit_event_inhabited : Inhabited wadb_commit_event :=
  populate (CommitEvent 0 0 0 0 0 0 0).

Record wadb_cache_entry := CacheEntry {
  ce_table_id : Z;
  ce_segment_id : Z;
  ce_covered_bytes : Z;
  ce_used : Z;
  ce_dictionary_crc : Z;
  ce_references : Z;
  ce_charge : Z;
  ce_dictionary : wadb_dictionary;
}.
(** [sizeof] on the platforms the build supports (64-bit pointers and sizes). *)
Definition SIZEOF_CACHE_ENTRY : Z := 72.
Definition SIZEOF_SNAPSHOT : Z := 64.
Definition SIZEOF_SEGMENT_META : Z := 64.
Definition SIZEOF_INDEX_ENTRY : Z := 56.
Definition SIZEOF_APPEND_REQUEST : Z := 432.

(** The fields of [struct wadb_db] by the part of the program that owns them; the tables
    are kept beside it, the queue and the cursors by the components that link them. *)
Record db_ingest := Ingest {
  q_queue_bytes : Z;
  q_ready_bytes : Z;
  q_rejected_appends : Z;
  q_failed_appends : Z;
  q_clock_adjustments : Z;
}.
Record db_cache := Cache {
  c_entries : list wadb_cache_entry;
  c_bytes : Z;
  c_clock : Z;
  c_hits : Z;
  c_misses : Z;
}.
Record db_totals := Totals {
  n_committed_rows : Z;
  n_committed_bytes : Z;
  n_committed_frames : Z;
  n_append_requests : Z;
  n_queries : Z;
  n_failed_queries : Z;
  n_rows_scanned : Z;
  n_bytes_scanned : Z;
}.
Record db_latencies := Latencies {
  append_latency : wadb_histogram;
  sync_latency : wadb_histogram;
  query_latency : wadb_histogram;
}.
Record db_notifications := Notifications {
  notifications : list wadb_commit_event;
  latest_notification : Z;
}.
Record wadb_db := Db {
  db_directory : path;
  db_options : wadb_options;
  db_read_only : bool;
  db_boot_ns : Z;
  db_next_table_id : Z;
  db_snapshot_bytes : Z;
  db_reader_count : Z;
  ingest : db_ingest;
  cache : db_cache;
  totals : db_totals;
  latencies : db_latencies;
  ring : db_notifications;
}.
Definition with_db_read_only (b : bool) (d : wadb_db) : wadb_db :=
  Db (db_directory d) (db_options d) b (db_boot_ns d) (db_next_table_id d) (db_snapshot_bytes d)
    (db_reader_count d) (ingest d) (cache d) (totals d) (latencies d) (ring d).
Definition with_next_table_id (n : Z) (d : wadb_db) : wadb_db :=
  Db (db_directory d) (db_options d) (db_read_only d) (db_boot_ns d) n (db_snapshot_bytes d)
    (db_reader_count d) (ingest d) (cache d) (totals d) (latencies d) (ring d).
Definition with_snapshots (bytes readers : Z) (d : wadb_db) : wadb_db :=
  Db (db_directory d) (db_options d) (db_read_only d) (db_boot_ns d) (db_next_table_id d) bytes
    readers (ingest d) (cache d) (totals d) (latencies d) (ring d).
Definition with_ingest (q : db_ingest) (d : wadb_db) : wadb_db :=
  Db (db_directory d) (db_options d) (db_read_only d) (db_boot_ns d) (db_next_table_id d)
    (db_snapshot_bytes d) (db_reader_count d) q (cache d) (totals d) (latencies d) (ring d).
Definition with_cache (c : db_cache) (d : wadb_db) : wadb_db :=
  Db (db_directory d) (db_options d) (db_read_only d) (db_boot_ns d) (db_next_table_id d)
    (db_snapshot_bytes d) (db_reader_count d) (ingest d) c (totals d) (latencies d) (ring d).
Definition with_totals (n : db_totals) (d : wadb_db) : wadb_db :=
  Db (db_directory d) (db_options d) (db_read_only d) (db_boot_ns d) (db_next_table_id d)
    (db_snapshot_bytes d) (db_reader_count d) (ingest d) (cache d) n (latencies d) (ring d).
Definition with_latencies (l : db_latencies) (d : wadb_db) : wadb_db :=
  Db (db_directory d) (db_options d) (db_read_only d) (db_boot_ns d) (db_next_table_id d)
    (db_snapshot_bytes d) (db_reader_count d) (ingest d) (cache d) (totals d) l (ring d).
Definition with_ring (n : db_notifications) (d : wadb_db) : wadb_db :=
  Db (db_directory d) (db_options d) (db_read_only d) (db_boot_ns d) (db_next_table_id d)
    (db_snapshot_bytes d) (db_reader_count d) (ingest d) (cache d) (totals d) (latencies d) n.
Definition empty_ring : db_notifications := Notifications (zrep WADB_NOTIFICATION_CAPACITY inhabitant) 0.
(** A database record as [calloc] and [wadb_open] initialise it. *)
Definition new_db (directory : path) (options : wadb_options) (boot_ns : Z) : wadb_db :=
  Db directory options false boot_ns 1 0 0 (Ingest 0 0 0 0 0) (Cache [] 0 0 0 0)
    (Totals 0 0 0 0 0 0 0 0) (Latencies empty_histogram empty_histogram empty_histogram) empty_ring.

(** ** Operations on one table *)

(** Their state: the shared database record, the table and the environment. A critical
    section of [db->mutex] is one step; [writer_mutex] serialises the operations. *)
Record engine := Eng {
  e_db : wadb_db;
  e_table : wadb_table;
  e_os : os;
}.
Definition in_os {A} (m : M os A) : M engine A := λ g,
  let '(r, w) := m (e_os g) in (r, Eng (e_db g) (e_table g) w).
Definition get_table : M engine wadb_table := λ g, (Ok (e_table g), g).
Definition get_db : M engine wadb_db := λ g, (Ok (e_db g), g).
Definition set_table (f : wadb_table → wadb_table) : M engine unit := λ g,
  (Ok (), Eng (e_db g) (f (e_table g)) (e_os g)).
Definition set_db (f : wadb_db → wadb_db) : M engine unit := λ g,
  (Ok (), Eng (f (e_db g)) (e_table g) (e_os g)).

(** ** Reasoning about steps of the engine *)

Section engine_wp.
Context {A : Type}.
Implicit Types (Q : result A → engine → Prop).

Lemma wp_in_os (m : M os A) Q g :
  wp m (λ r w', Q r (Eng (e_db g) (e_table g) w')) (e_os g) → wp (in_os m) Q g.
Proof. unfold wp, in_os. by destruct (m (e_os g)). Qed.
Lemma wp_get_table (f : wadb_table → M engine A) Q g : wp (f (e_table g)) Q g → wp (get_table ≫= f) Q g.
Proof. done. Qed.
Lemma wp_get_db (f : wadb_db → M engine A) Q g : wp (f (e_db g)) Q g → wp (get_db ≫= f) Q g.
Proof. done. Qed.
Lemma wp_set_table h (f : unit → M engine A) Q g :
  wp (f ()) Q (Eng (e_db g) (h (e_table g)) (e_os g)) → wp (set_table h ≫= f) Q g.
Proof. done. Qed.
Lemma wp_set_db h (f : unit → M engine A) Q g :
  wp (f ()) Q (Eng (h (e_db g)) (e_table g) (e_os g)) → wp (set_db h ≫= f) Q g.
Proof. done. Qed.
End engine_wp.
