(* ===== verification/Stats.v ===== *)
(** * Statistics and monitoring (src/core/stats.c)

    Latency histograms with percentiles, counters of queries, the ring of commit
    notifications and the paged list of segments. *)

From stdpp Require Import base numbers list list_numbers gmap.
From S2P Require Import Prelude Encoding Schema Format Dictionary Files Engine.

(** ** Latency histograms *)

(** The loop that finds the bin: [bound] is halved, rounding up, until it is at most 1;
    64 rounds are enough for a 64-bit number. *)
Fixpoint bin_loop (fuel : nat) (bound bin : Z) : Z :=
  match fuel with
  | O => bin
  | S fuel' =>
      if bound >? 1 then bin_loop fuel' (bound / 2 + (if bound `mod` 2 =? 0 then 0 else 1)) (bin + 1)
      else bin
  end.
Definition microseconds (ns : Z) : Z := ns / 1000 + (if ns `mod` 1000 =? 0 then 0 else 1).
Definition wadb_histogram_record (h : wadb_histogram) (ns : Z) : wadb_histogram :=
  let us := microseconds ns in
  let bin := bin_loop 64 us 0 in
  if (h_count h =? UINT64_MAX) || (rd (h_bins h) bin =? UINT64_MAX) then h
  else Histogram (wr (h_bins h) bin (rd (h_bins h) bin + 1)) (h_count h + 1)
         (if us >? h_max_us h then us else h_max_us h).

Fixpoint percentile_loop (bins : list Z) (i seen target : Z) : Z :=
  match bins with
  | [] => UINT64_MAX
  | b :: bins' =>
      let seen := u64 (seen + b) in
      if seen >=? target then Z.shiftl 1 i else percentile_loop bins' (i + 1) seen target
  end.
Definition percentile (h : wadb_histogram) (percent : Z) : Z :=
  if h_count h =? 0 then 0
  else
    let target := u64 (u64 (h_count h / 100 * percent) + ((h_count h `mod` 100) * percent + 99) / 100) in
    percentile_loop (h_bins h) 0 0 target.
Record wadb_latency_stats := LatencyStats {
  ls_samples : Z;
  ls_p50_us : Z;
  ls_p95_us : Z;
  ls_p99_us : Z;
  ls_max_us : Z;
}.
Definition summarize (h : wadb_histogram) : wadb_latency_stats :=
  LatencyStats (h_count h) (percentile h 50) (percentile h 95) (percentile h 99) (h_max_us h).

(** ** Counters *)

Record wadb_scan_stats := ScanStats {
  ss_rows_scanned : Z;
  ss_rows_returned : Z;
  ss_bytes_scanned : Z;
  ss_snapshot_sequence : Z;
  ss_index_bytes : Z;
  ss_dictionary_bytes : Z;
  ss_frames_scanned : Z;
  ss_segments_scanned : Z;
  ss_rebuild_bytes : Z;
  ss_last_sequence : Z;
  ss_limit_reached : bool;
}.
Definition record_sync (elapsed : Z) (d : wadb_db) : wadb_db :=
  let l := latencies d in
  with_latencies (Latencies (append_latency l) (wadb_histogram_record (sync_latency l) elapsed) (query_latency l)) d.
Definition record_append (elapsed : Z) (d : wadb_db) : wadb_db :=
  let l := latencies d in
  with_latencies (Latencies (wadb_histogram_record (append_latency l) elapsed) (sync_latency l) (query_latency l)) d.
Definition record_query_latency (elapsed : Z) (d : wadb_db) : wadb_db :=
  let l := latencies d in
  with_latencies (Latencies (append_latency l) (sync_latency l) (wadb_histogram_record (query_latency l) elapsed)) d.
Definition count_query (failed : bool) (stats : option wadb_scan_stats) (d : wadb_db) : wadb_db :=
  let n := totals d in
  with_totals (Totals (n_committed_rows n) (n_committed_bytes n) (n_committed_frames n) (n_append_requests n)
    (u64 (n_queries n + 1)) (if failed then u64 (n_failed_queries n + 1) else n_failed_queries n)
    (match stats with Some s => u64 (n_rows_scanned n + ss_rows_scanned s) | None => n_rows_scanned n end)
    (match stats with Some s => u64 (n_bytes_scanned n + ss_bytes_scanned s) | None => n_bytes_scanned n end)) d.
Definition wadb_record_query (start : Z) (status : wadb_status) (stats : option wadb_scan_stats) : M engine unit :=
  now ← in_os wadb_monotonic_ns;
  set_db (λ d, record_query_latency (u64 (now - start)) (count_query (bool_decide (status ≠ WADB_OK)) stats d)).

Record wadb_table_stats := TableStats {
  ts_id : Z;
  ts_retention_us : Z;
  ts_rows : Z;
  ts_bytes : Z;
  ts_segments : Z;
  ts_retired_segments : Z;
  ts_last_sequence : Z;
  ts_dictionary_bytes : Z;
  ts_active_index_bytes : Z;
  ts_min_time : Z;
  ts_max_time : Z;
  ts_last_assigned_time : Z;
  ts_row_width : Z;
  ts_read_only : bool;
  ts_pending_retention : bool;
  ts_maintenance_status : wadb_status;
}.
Definition wadb_get_table_stats : M engine wadb_table_stats :=
  t ← get_table;
  db ← get_db;
  let k := counters t in
  let l := r_segments (readable t) in
  let '(min_time, max_time) :=
    match l with
    | [] => (0, 0)
    | _ => (sg_min_time (segments t !!! Z.to_nat (rd l 0)), sg_max_time (segments t !!! Z.to_nat (rd l (zlen l - 1))))
    end in
  mret (TableStats (table_id t) (m_retention_us (manifest t)) (k_retained_rows k) (k_retained_bytes k)
    (k_retained_segments k) (k_retired_segments k) (last_sequence t) (k_published_dictionary_bytes k)
    (ix_capacity (l_index (tail_ t)) * SIZEOF_INDEX_ENTRY) min_time max_time (last_time t)
    (row_width (schema t)) (t_read_only t || db_read_only db) (t_pending_retention t) (t_maintenance_status t)).

(** ** Commit notifications *)

(** The publication of a commit event (segments.c) and reading the ring back. *)
Definition notify (event : Z → wadb_commit_event) (n : db_notifications) : db_notifications :=
  if latest_notification n <? UINT64_MAX then
    let id := latest_notification n + 1 in
    Notifications (wr (notifications n) ((id - 1) `mod` WADB_NOTIFICATION_CAPACITY) (event id)) id
  else n.
Record notification_page := NotificationPage {
  np_events : list wadb_commit_event;
  np_latest : Z;
  np_gap : bool;
}.
Definition wadb_read_notifications (n : db_notifications) (after capacity : Z) : result notification_page :=
  if capacity >? WADB_NOTIFICATION_CAPACITY then Err WADB_INVALID
  else
    let latest := latest_notification n in
    let oldest := if latest >=? WADB_NOTIFICATION_CAPACITY then latest - WADB_NOTIFICATION_CAPACITY + 1 else 1 in
    let first := if after <? latest then after + 1 else 0 in
    let late := negb (first =? 0) && (first <? oldest) in
    let gap := (after >? latest) || late in
    let first := if late then oldest else first in
    if first =? 0 then Ok (NotificationPage [] latest gap)
    else
      let available := latest - first + 1 in
      let n_events := if available <? capacity then available else capacity in
      Ok (NotificationPage
            (map (λ i, notifications n !!! Z.to_nat ((first + i - 1) `mod` WADB_NOTIFICATION_CAPACITY))
               (seqZ 0 n_events)) latest gap).

(** ** Pages of the segment list *)

Definition wadb_list_segments (t : wadb_table) (after capacity : Z) : result (list wadb_segment_meta * bool) :=
  if (capacity =? 0) || (capacity >? 1024) then Err WADB_INVALID
  else
    let lo := bsearch (λ mid, sg_id (segments t !!! Z.to_nat mid) <=? after) 0 (segment_count t) in
    let n := segment_count t - lo in
    let more := n >? capacity in
    let n := if n >? capacity then capacity else n in
    Ok (sub (segments t) lo n, more).

(** ** Percentiles are covering powers of two *)

(** Samples in microseconds that are at most [us]. *)
Definition at_most (us : Z) (samples : list Z) : Z := zlen (filter (λ ns, microseconds ns ≤ us) samples).
Definition histogram_of (samples : list Z) : wadb_histogram := fold_left wadb_histogram_record samples empty_histogram.

Lemma bin_loop_log2 fuel bound bin :
  0 ≤ bound ≤ 2 ^ Z.of_nat fuel → bin_loop fuel bound bin = bin + Z.log2_up bound.
Proof.
  revert bound bin. induction fuel as [|fuel IH]; intros bound bin Hb; cbn [bin_loop].
  { cbn in Hb. rewrite Z.log2_up_eqn0 by lia. lia. }
  rewrite Nat2Z.inj_succ, Z.pow_succ_r in Hb by lia.
  destruct (Z.gtb_spec bound 1) as [H|H]; [|rewrite Z.log2_up_eqn0 by lia; lia].
  assert (Hhalf : bound / 2 + (if bound `mod` 2 =? 0 then 0 else 1) = (bound + 1) / 2)
    by (destruct (Z.eqb_spec (bound `mod` 2) 0); mlia).
  rewrite Hhalf, IH by mlia. clear IH Hhalf.
  assert (Hlog : Z.log2_up bound = Z.succ (Z.log2_up ((bound + 1) / 2))); [|lia].
  rewrite <-Z.log2_up_double by mlia. apply Z.le_antisymm.
  - apply Z.log2_up_le_mono. mlia.
  - destruct (decide (bound `mod` 2 = 0)); [apply Z.log2_up_le_mono; mlia|].
    apply Z.log2_up_le_pow2; [mlia|].
    pose proof (Z.log2_up_spec bound ltac:(lia)) as [Hlo Hhi].
    set (k := Z.log2_up bound) in *.
    assert (1 ≤ k) by (unfold k; apply (Z.log2_up_le_mono 2); lia).
    replace (2 ^ k) with (2 * 2 ^ (k - 1)) in * by (rewrite <-Z.pow_succ_r by lia; f_equal; lia). mlia.
Qed.

Lemma microseconds_range ns : is_u64 ns → 0 ≤ microseconds ns ≤ 2 ^ 55.
Proof. unfold microseconds. intros. change (2 ^ 55) with 36028797018963968. destruct (_ =? _); mlia. Qed.
Lemma bin_range ns : is_u64 ns → bin_loop 64 (microseconds ns) 0 = Z.log2_up (microseconds ns) ∧
  0 ≤ Z.log2_up (microseconds ns) < 64.
Proof.
  intros H%microseconds_range. rewrite bin_loop_log2; [|change (2 ^ 55) with 36028797018963968 in *; cbn; lia].
  split; [lia|]. split; [apply Z.log2_up_nonneg|].
  assert (Z.log2_up (microseconds ns) ≤ Z.log2_up (2 ^ 55)) by (apply Z.log2_up_le_mono; lia).
  rewrite Z.log2_up_pow2 in * by lia. lia.
Qed.

Definition in_bin (i ns : Z) : Prop := Z.log2_up (microseconds ns) = i.
#[global] Instance in_bin_dec i ns : Decision (in_bin i ns).
Proof. unfold in_bin. apply _. Defined.
Lemma filter_snoc_zlen {A} (P : A → Prop) `{!∀ x, Decision (P x)} l x :
  zlen (filter P (l ++ [x])) = zlen (filter P l) + (if decide (P x) then 1 else 0).
Proof. rewrite filter_app, zlen_app. cbn [filter list_filter]. by case_decide. Qed.

Lemma histogram_counts samples :
  Forall is_u64 samples → zlen samples ≤ UINT64_MAX →
  let h := histogram_of samples in
  zlen (h_bins h) = 64 ∧ h_count h = zlen samples ∧
  ∀ i, 0 ≤ i → rd (h_bins h) i = zlen (filter (in_bin i) samples).
Proof.
  intros Hs. induction samples as [|ns samples IH] using rev_ind; intros Hl; cbn zeta.
  { split_and!; [done|done|]. intros i Hi. unfold histogram_of, rd. cbn [fold_left empty_histogram h_bins].
    unfold zrep. destruct (decide (Z.to_nat i < 64)%nat).
    - rewrite nth_lookup. by rewrite lookup_replicate_2 by done.
    - rewrite nth_overflow; [done|]. rewrite length_replicate. lia. }
  apply Forall_app in Hs as [Hs [Hns _]%Forall_cons]. rewrite zlen_app in Hl.
  change (zlen [ns]) with 1 in Hl. destruct (IH Hs ltac:(lia)) as (H64&Hc&Hb). clear IH.
  unfold histogram_of in *. rewrite fold_left_app. cbn [fold_left].
  set (h := fold_left wadb_histogram_record samples empty_histogram) in *.
  destruct (bin_range ns Hns) as [Hbin Hr]. unfold wadb_histogram_record. rewrite Hbin.
  set (k := Z.log2_up (microseconds ns)) in *.
  assert (Hf : ∀ i, zlen (filter (in_bin i) samples) ≤ zlen samples)
    by (intros i; unfold zlen; pose proof (length_filter (in_bin i) samples); lia).
  destruct (Z.eqb_spec (h_count h) UINT64_MAX); [lia|].
  destruct (Z.eqb_spec (rd (h_bins h) k) UINT64_MAX) as [E|_]; [rewrite Hb in E by lia; specialize (Hf k); lia|].
  cbn [orb h_bins h_count]. rewrite zlen_wr, zlen_app. change (zlen [ns]) with 1.
  split_and!; [done|lia|]. intros i Hi. rewrite filter_snoc_zlen, <-Hb by done.
  unfold rd, wr. rewrite !nth_lookup. destruct (decide (i = k)) as [->|Hne].
  - rewrite list_lookup_insert_eq by (unfold zlen in H64; lia).
    by rewrite decide_True.
  - rewrite list_lookup_insert_ne by lia. rewrite decide_False by (unfold in_bin; fold k; lia). lia.
Qed.

(** The samples that the bins up to [i] count are those of at most [2^i] microseconds. *)
Lemma at_most_step samples i : 0 ≤ i →
  at_most (2 ^ i) samples =
  (if i =? 0 then 0 else at_most (2 ^ (i - 1)) samples) + zlen (filter (in_bin i) samples).
Proof.
  intros Hi. unfold at_most. induction samples as [|ns samples IH]; [by destruct (i =? 0)|].
  assert (Hle : ∀ j, 0 ≤ j → microseconds ns ≤ 2 ^ j ↔ Z.log2_up (microseconds ns) ≤ j).
  { intros j Hj. destruct (decide (0 < microseconds ns)) as [H|H]; [by rewrite Z.log2_up_le_pow2|].
    rewrite Z.log2_up_eqn0 by lia. pose proof (Z.pow_pos_nonneg 2 j ltac:(lia) Hj). lia. }
  pose proof (Z.log2_up_nonneg (microseconds ns)) as Hnn.
  rewrite !filter_cons. unfold in_bin at 1.
  destruct (Z.eqb_spec i 0) as [->|Hne].
  - repeat case_decide; rewrite ?zlen_cons; try lia; exfalso; rewrite Hle in *; lia.
  - repeat case_decide; rewrite ?zlen_cons; try lia; exfalso; rewrite !Hle in * by lia; lia.
Qed.
Lemma at_most_all samples : Forall is_u64 samples → at_most (2 ^ 63) samples = zlen samples.
Proof.
  intros H. unfold at_most. f_equal. induction H as [|ns l Hns _ IH]; [done|].
  rewrite filter_cons, decide_True; [by rewrite IH|]. apply microseconds_range in Hns.
  change (2 ^ 55) with 36028797018963968 in Hns. change (2 ^ 63) with 9223372036854775808. lia.
Qed.

Lemma percentile_loop_spec samples bins i seen target :
  zlen samples ≤ UINT64_MAX → 0 ≤ i → i + zlen bins = 64 →
  (∀ k, 0 ≤ k < zlen bins → rd bins k = zlen (filter (in_bin (i + k)) samples)) →
  seen = (if i =? 0 then 0 else at_most (2 ^ (i - 1)) samples) → seen < target → target ≤ at_most (2 ^ 63) samples →
  ∃ k, i ≤ k < 64 ∧ percentile_loop bins i seen target = 2 ^ k ∧ target ≤ at_most (2 ^ k) samples ∧
    (k = 0 ∨ at_most (2 ^ (k - 1)) samples < target).
Proof.
  intros Hl. revert i seen. induction bins as [|b bins IH]; intros i seen Hi H64 Hb Hseen Hlt Hall.
  { rewrite zlen_nil in H64. replace i with 64 in * by lia. cbn [Z.eqb Pos.eqb] in Hseen. subst seen.
    change (64 - 1) with 63 in Hlt. lia. }
  rewrite zlen_cons in *. pose proof (zlen_nonneg bins). cbn [percentile_loop].
  assert (Hb0 : b = zlen (filter (in_bin i) samples)) by (pose proof (Hb 0 ltac:(lia)) as Hb0; rewrite Z.add_0_r in Hb0; exact Hb0).
  assert (Hcum : seen + b = at_most (2 ^ i) samples) by (rewrite at_most_step by done; lia).
  assert (Hmax : at_most (2 ^ i) samples ≤ zlen samples)
    by (unfold at_most, zlen; pose proof (length_filter (λ ns, microseconds ns ≤ 2 ^ i) samples); lia).
  rewrite Hcum, u64_id by (pose proof (zlen_nonneg (filter (λ ns, microseconds ns ≤ 2 ^ i) samples)); unfold at_most in *; mlia).
  destruct (Z.geb_spec (at_most (2 ^ i) samples) target).
  - exists i. split_and!; [lia|lia|by rewrite Z.shiftl_1_l|lia|].
    destruct (Z.eqb_spec i 0); [by left|right; lia].
  - destruct (IH (i + 1) (at_most (2 ^ i) samples)) as (k&?&?&?&?); [lia|lia| | |lia|lia|].
    + intros k Hk. replace (i + 1 + k) with (i + (k + 1)) by lia. rewrite <-Hb by lia.
      unfold rd. replace (Z.to_nat (k + 1)) with (S (Z.to_nat k)) by lia. done.
    + destruct (Z.eqb_spec (i + 1) 0); [lia|]. by rewrite Z.add_simpl_r.
    + exists k. split_and!; [lia|lia|done..].
Qed.

(** A percentile of recorded latencies is the least power of two (in microseconds)
    that is at least as large as the asked-for share of the samples; nothing overflows as
    long as fewer than 2^64 samples were recorded. *)
Theorem percentile_least_power samples percent :
  Forall is_u64 samples → 0 < zlen samples ≤ UINT64_MAX → 0 < percent ≤ 100 →
  ∃ k, 0 ≤ k < 64 ∧ percentile (histogram_of samples) percent = 2 ^ k ∧
    percent * zlen samples ≤ 100 * at_most (2 ^ k) samples ∧
    (k = 0 ∨ 100 * at_most (2 ^ (k - 1)) samples < percent * zlen samples).
Proof.
  intros Hs Hl Hp. destruct (histogram_counts samples Hs ltac:(lia)) as (H64&Hc&Hb).
  unfold percentile. rewrite Hc. destruct (Z.eqb_spec (zlen samples) 0) as [?|_]; [lia|]. cbv zeta.
  set (n := zlen samples) in *.
  assert (Ht : n / 100 * percent + ((n `mod` 100) * percent + 99) / 100 = (n * percent + 99) / 100).
  { rewrite (Z.div_mod n 100) at 3 by lia.
    replace ((100 * (n / 100) + n `mod` 100) * percent + 99)
      with (n / 100 * percent * 100 + ((n `mod` 100) * percent + 99)) by ring.
    by rewrite Z.div_add_l. }
  assert (Hq : 0 ≤ n / 100 * percent ≤ n) by (split; [apply Z.mul_nonneg_nonneg; mlia|];
    assert (n / 100 * percent ≤ n / 100 * 100) by (apply Z.mul_le_mono_nonneg_l; mlia); mlia).
  assert (Hceil : 0 < (n * percent + 99) / 100 ≤ n) by (split; [apply Z.div_str_pos; nia|]; apply Z.lt_succ_r, Z.div_lt_upper_bound; nia).
  rewrite (u64_id (n / 100 * percent)) by mlia. rewrite Ht, u64_id by mlia.
  destruct (percentile_loop_spec samples (h_bins (histogram_of samples)) 0 0 ((n * percent + 99) / 100))
    as (k&Hk&->&Hge&Hlt); [lia|lia|lia| |done|lia|rewrite at_most_all by done; fold n; lia|].
  { intros k Hk. rewrite Hb by lia. by rewrite Z.add_0_l. }
  exists k. split_and!; [lia|lia|done|mlia|]. destruct Hlt as [?|Hlt]; [by left|right]. mlia.
Qed.

Definition st_samples : list Z := [900; 1500; 3000; 70000; 81000].
Lemma percentile_least_power_witness :
  percentile (histogram_of st_samples) 50 = 2 ^ 2 ∧
  ∃ k, 0 ≤ k < 64 ∧ percentile (histogram_of st_samples) 50 = 2 ^ k ∧
    50 * zlen st_samples ≤ 100 * at_most (2 ^ k) st_samples ∧
    (k = 0 ∨ 100 * at_most (2 ^ (k - 1)) st_samples < 50 * zlen st_samples).
Proof.
  split; [vm_compute; reflexivity|].
  apply (percentile_least_power st_samples 50); [repeat constructor; vm_compute; discriminate|split; vm_compute; [reflexivity|discriminate]|lia].
Defined.

(** ** The ring keeps the latest notifications *)

Definition published (events : list (Z → wadb_commit_event)) : db_notifications :=
  fold_left (λ n e, notify e n) events empty_ring.
(** Every event ever published, in order; the first one has identifier 1. *)
Definition event_log (events : list (Z → wadb_commit_event)) : list wadb_commit_event :=
  imap (λ i e, e (Z.of_nat i + 1)) events.

Lemma published_ring events : zlen events < UINT64_MAX →
  latest_notification (published events) = zlen events ∧
  zlen (notifications (published events)) = 1024 ∧
  ∀ i, 0 ≤ i < zlen events → zlen events - 1024 ≤ i →
    notifications (published events) !! Z.to_nat (i `mod` 1024) = event_log events !! Z.to_nat i.
Proof.
  induction events as [|e events IH] using rev_ind; intros Hl.
  { split_and!; [done|done|]. intros i Hi. unfold zlen in Hi. cbn [length] in Hi. lia. }
  rewrite zlen_app in *. change (zlen [e]) with 1 in *. destruct IH as (Hn&H1024&Hr); [lia|].
  unfold published in *. rewrite fold_left_app. cbn [fold_left].
  set (n := fold_left _ events empty_ring) in *. unfold notify. rewrite Hn.
  destruct (Z.ltb_spec (zlen events) UINT64_MAX); [|lia]. cbn [latest_notification notifications].
  rewrite zlen_wr, Z.add_simpl_r. change WADB_NOTIFICATION_CAPACITY with 1024. split_and!; [done|done|].
  intros i Hi Hold. unfold wr, event_log. rewrite imap_app. pose proof (zlen_nonneg events).
  destruct (decide (i = zlen events)) as [->|Hne].
  - rewrite list_lookup_insert_eq by (unfold zlen in *; mlia).
    rewrite lookup_app_r; rewrite length_imap; [|unfold zlen; lia].
    replace (Z.to_nat (zlen events) - length events)%nat with O by (unfold zlen; lia).
    cbn [imap lookup list_lookup]. do 2 f_equal. unfold compose, zlen. lia.
  - rewrite list_lookup_insert_ne by mlia. rewrite Hr by lia.
    by rewrite lookup_app_l by (rewrite length_imap; unfold zlen in *; lia).
Qed.

(** C39: Reading notifications after an identifier returns exactly the events published
    since then, oldest first, up to the capacity and up to the 1024 that the ring keeps;
    [gap] is reported exactly when an event after that identifier was overwritten or the
    identifier is not one of this database. *)
Theorem notifications_exact events after capacity :
  zlen events < UINT64_MAX → 0 ≤ after → 0 ≤ capacity ≤ 1024 →
  let latest := zlen events in
  let oldest := Z.max 1 (latest - 1023) in
  let first := Z.max (after + 1) oldest in
  wadb_read_notifications (published events) after capacity = Ok (NotificationPage
    (sub (event_log events) (first - 1) (Z.min capacity (latest - first + 1))) latest
    (bool_decide (latest < after ∨ after < latest ∧ after + 1 < oldest))).
Proof.
  intros Hl Ha Hcap latest oldest first. destruct (published_ring events Hl) as (Hn&H1024&Hr).
  pose proof (zlen_nonneg events). unfold wadb_read_notifications. change WADB_NOTIFICATION_CAPACITY with 1024.
  rewrite Hn. fold latest. cbv zeta. destruct (Z.gtb_spec capacity 1024); [lia|].
  assert (Hold : (if latest >=? 1024 then latest - 1024 + 1 else 1) = oldest) by (unfold oldest; destruct (Z.geb_spec latest 1024); lia).
  rewrite Hold. destruct (Z.ltb_spec after latest) as [Hlt|Hge].
  2: { cbn [negb Z.eqb andb]. rewrite orb_false_r.
       unfold sub.
       replace (Z.to_nat (Z.min capacity (latest - first + 1))) with O by (unfold first; lia). cbn [take].
       do 2 f_equal. destruct (Z.gtb_spec after latest); case_bool_decide; try done; exfalso; lia. }
  destruct (Z.eqb_spec (after + 1) 0); [lia|]. cbn [negb andb].
  assert (Hfirst : (if after + 1 <? oldest then oldest else after + 1) = first) by (unfold first; destruct (Z.ltb_spec (after + 1) oldest); lia).
  rewrite Hfirst. destruct (Z.eqb_spec first 0); [unfold first in *; lia|].
  assert (Hcount : (if latest - first + 1 <? capacity then latest - first + 1 else capacity) = Z.min capacity (latest - first + 1))
    by (destruct (Z.ltb_spec (latest - first + 1) capacity); lia).
  rewrite Hcount. do 2 f_equal.
  - apply list_eq. intros i. change (map ?f ?l) with (f <$> l). rewrite list_lookup_fmap.
    destruct (decide (Z.of_nat i < Z.min capacity (latest - first + 1))) as [Hi|Hi].
    + rewrite lookup_seqZ_lt by lia. cbn [fmap option_fmap option_map].
      rewrite sub_lookup by lia. replace (first + (0 + Z.of_nat i) - 1) with (first - 1 + Z.of_nat i) by lia.
      assert (0 ≤ first - 1 + Z.of_nat i < zlen events) by (fold latest; unfold first, oldest in *; lia).
      rewrite list_lookup_total_alt, Hr by (fold latest; unfold first, oldest in *; lia).
      replace (Z.to_nat (first - 1) + i)%nat with (Z.to_nat (first - 1 + Z.of_nat i)) by (unfold first, oldest; lia).
      destruct (event_log events !! _) eqn:E; [done|]. apply lookup_ge_None in E.
      unfold event_log in E. rewrite length_imap in E. unfold zlen in *. lia.
    + rewrite lookup_seqZ_ge by lia. by rewrite sub_lookup_ge by lia.
  - destruct (Z.gtb_spec after latest); [lia|]. cbn [orb]. destruct (Z.ltb_spec (after + 1) oldest); case_bool_decide; try done; exfalso; lia.
Qed.

Definition st_events : list (Z → wadb_commit_event) :=
  [λ id, CommitEvent id 1 1 2 304 5 2; λ id, CommitEvent id 1 3 3 152 9 1; λ id, CommitEvent id 2 1 1 152 9 1].
Lemma notifications_exact_witness :
  wadb_read_notifications (published st_events) 1 8 = Ok (NotificationPage
    [CommitEvent 2 1 3 3 152 9 1; CommitEvent 3 2 1 1 152 9 1] 3 false).
Proof. exact (notifications_exact st_events 1 8 ltac:(vm_compute; reflexivity) ltac:(lia) ltac:(lia)). Defined.

(** ** Pages of segments *)

(** Identifiers grow strictly, as the manifest requires. *)
Definition ids_sorted (l : list wadb_segment_meta) : Prop :=
  ∀ i j s s', (i < j)%nat → l !! i = Some s → l !! j = Some s' → sg_id s < sg_id s'.

(** With segments in the order of their identifiers, a page is the first [capacity]
    segments whose identifier is greater than [after], and [has_more] says if there are
    more of them than the page holds. *)
Theorem list_segments_page t after capacity :
  ids_sorted (segments t) → segment_count t ≤ SIZE_MAX → 0 < capacity ≤ 1024 →
  wadb_list_segments t after capacity =
    Ok (take (Z.to_nat capacity) (filter (λ s, after < sg_id s) (segments t)),
        bool_decide (capacity < zlen (filter (λ s, after < sg_id s) (segments t)))).
Proof.
  intros Hs Hc Hcap. unfold wadb_list_segments, segment_count in *.
  destruct (Z.eqb_spec capacity 0); [lia|]. destruct (Z.gtb_spec capacity 1024); [lia|]. cbn [orb]. cbv zeta.
  set (l := segments t) in *. pose proof (zlen_nonneg l).
  set (right := λ mid, sg_id (l !!! Z.to_nat mid) <=? after).
  assert (Hval : ∀ i s, l !! i = Some s → right (Z.of_nat i) = (sg_id s <=? after)).
  { intros i s Hi. unfold right. rewrite Nat2Z.id. by rewrite (list_lookup_total_correct _ _ _ Hi). }
  destruct (bsearch_spec right 0 (zlen l)) as (Hlo&Hl&Hr); [lia|lia| |].
  { intros i j Hi Hij Hj Hrj.
    destruct (lookup_lt_is_Some_2 l (Z.to_nat i)) as [s Hsi]; [unfold zlen in *; lia|].
    destruct (lookup_lt_is_Some_2 l (Z.to_nat j)) as [s' Hsj]; [unfold zlen in *; lia|].
    pose proof (Hval _ _ Hsi) as H1. pose proof (Hval _ _ Hsj) as H2. rewrite Z2Nat.id in H1, H2 by lia.
    rewrite H1. rewrite H2 in Hrj. destruct (decide (i = j)) as [->|]; [congruence|].
    pose proof (Hs (Z.to_nat i) (Z.to_nat j) s s' ltac:(lia) Hsi Hsj). lia. }
  change (bsearch (λ mid, sg_id (l !!! Z.to_nat mid) <=? after)) with (bsearch right).
  generalize dependent (bsearch right 0 (zlen l)). intros lo Hlo Hl Hr.
  assert (Hf : filter (λ s, after < sg_id s) l = drop (Z.to_nat lo) l).
  { apply filter_drop; intros i s Hi Hik; pose proof (Hval _ _ Hi) as Hv; apply lookup_lt_Some in Hi as Hlt.
    - rewrite Hl in Hv by (unfold zlen in *; lia). lia.
    - rewrite Hr in Hv by (unfold zlen in *; lia). lia. }
  rewrite Hf. assert (Hn : zlen (drop (Z.to_nat lo) l) = zlen l - lo) by (unfold zlen in *; rewrite length_drop; lia).
  rewrite Hn. unfold sub. do 2 f_equal.
  - destruct (Z.gtb_spec (zlen l - lo) capacity); [done|].
    rewrite (take_ge _ (Z.to_nat capacity)) by (unfold zlen in *; lia). rewrite take_ge by (unfold zlen in *; lia). done.
  - destruct (Z.gtb_spec (zlen l - lo) capacity); case_bool_decide; try done; exfalso; lia.
Qed.

Definition st_segments : list wadb_segment_meta :=
  [SegmentMeta 1 0 1 2 5 9 304 WADB_SEG_RETIRED; SegmentMeta 2 0 3 3 9 9 152 WADB_SEG_SEALED;
   SegmentMeta 5 0 4 4 9 9 152 WADB_SEG_ACTIVE].
Definition st_table : wadb_table :=
  Table (Identity 1 [] [] (Schema 0 0 0 [])) (Manifest 6 0 0 0 1 st_segments) (Tail None None empty_index 0 0)
    (Readable [] 0) (Counters 0 0 0 0 0 0 0) 0 false false WADB_OK.
Lemma list_segments_page_witness :
  wadb_list_segments st_table 1 1 = Ok ([SegmentMeta 2 0 3 3 9 9 152 WADB_SEG_SEALED], true).
Proof.
  assert (Hs : ids_sorted (segments st_table)).
  { intros i j s s' Hij Hi Hj. unfold segments, st_table, st_segments in Hi, Hj. cbn [manifest m_segments] in Hi, Hj.
    destruct i as [|[|[|i]]]; [..|discriminate Hi]; destruct j as [|[|[|j]]]; try lia; try discriminate Hj;
      injection Hi as <-; injection Hj as <-; cbn [sg_id]; lia. }
  rewrite (list_segments_page st_table 1 1 Hs ltac:(vm_compute; discriminate) ltac:(lia)). vm_compute. reflexivity.
Defined.
