(* ===== verification/Metadata.v ===== *)
(** * Catalog, schema and manifest files (src/storage/metadata.c)

    Each metadata file is one checksummed buffer: a magic, the format version, a
    header, an array of fixed-size records and a CRC-32C. An encoder fills a zeroed
    buffer the way the code does; [*_image] describes the same bytes as a
    concatenation, and the codec lemmas say that decoding accepts exactly the images
    of valid values. *)

From Stdlib Require Import String.
From stdpp Require Import base numbers list list_numbers gmap.
From S2P Require Import Prelude Encoding Utf8 Checksum Schema Format Dictionary Files Engine.

(** ** Shared parts *)

(** [stored_name (p + o)]: an identifier, zero-padded to the name capacity. *)
Definition memchr0 (p : list Z) (o n : Z) : option Z :=
  match list_find (λ c, c = 0) (sub p o n) with Some (i, _) => Some (Z.of_nat i) | None => None end.
Definition stored_name (p : list Z) (o : Z) : bool :=
  match memchr0 p o WADB_NAME_CAP with
  | None => false
  | Some e => wadb_identifier (drop (Z.to_nat o) p) && zeroes p (o + e) (WADB_NAME_CAP - e)
  end.
(** The C string at [p + o], a stored name. *)
Definition name_at (p : list Z) (o : Z) : list Z :=
  match memchr0 p o WADB_NAME_CAP with Some e => sub p o e | None => sub p o WADB_NAME_CAP end.

Definition envelope (p magic : list Z) (minimum : Z) : result unit :=
  let n := zlen p in
  if (n <? minimum) || negb (bytes_eqb (sub p 0 8) magic) ||
     negb (wadb_crc32c (sub p 0 (n - 4)) =? wadb_get_u32 p (n - 4))
  then Err WADB_CORRUPT
  else if negb (wadb_get_u32 p 8 =? WADB_FORMAT_VERSION) then Err WADB_VERSION
  else Ok ().

(** The buffer [install] writes. *)
Definition sealed (p : list Z) : list Z :=
  wadb_put_u32 p (zlen p - 4) (wadb_crc32c (sub p 0 (zlen p - 4))).
Definition install (dir name p : list Z) : M os unit :=
  q ← wadb_path dir name;
  match q with
  | None => mfail WADB_NOMEM
  | Some q => wadb_atomic_file q (sealed p)
  end.
Definition load (dir name : list Z) (limit : Z) : M os (list Z) :=
  q ← wadb_path dir name;
  match q with
  | None => mfail WADB_NOMEM
  | Some q => wadb_read_file q limit
  end.
Definition allocate {A} (k : M os A) : M os A :=
  p ← os_malloc;
  if negb p then mfail WADB_NOMEM else k.

(** ** The catalog *)

Definition CATALOG_MAGIC : list Z := cstr "WADBCAT1".

(** The loop over the table identifiers. *)
Fixpoint put_ids (p : list Z) (o : Z) (ids : list Z) : list Z :=
  match ids with [] => p | id :: ids' => put_ids (wadb_put_u64 p o id) (o + 8) ids' end.
Definition catalog_buffer (next_table_id : Z) (tables : list Z) (addition : option Z) : list Z :=
  let count := zlen tables + match addition with Some _ => 1 | None => 0 end in
  let p := zrep (32 + count * 8 + 4) 0 in
  let p := put p 0 CATALOG_MAGIC in
  let p := wadb_put_u32 p 8 WADB_FORMAT_VERSION in
  let p := wadb_put_u32 p 12 32 in
  let p := wadb_put_u32 p 16 (u32 count) in
  let p := wadb_put_u64 p 24 next_table_id in
  let p := put_ids p 32 tables in
  match addition with
  | Some id => wadb_put_u64 p (32 + zlen tables * 8) id
  | None => p
  end.
(** [tables] are the identifiers of the tables of the database. *)
Definition wadb_save_catalog (directory : path) (next_table_id : Z) (tables : list Z)
    (addition : option Z) : M os unit :=
  allocate (install directory (cstr "catalog") (catalog_buffer next_table_id tables addition)).

(** The checks of [wadb_load_catalog] before its loop: the next identifier and the
    number of tables. *)
Definition catalog_header (p : list Z) : result (Z * Z) :=
  _ ← envelope p CATALOG_MAGIC 36;
  let count := wadb_get_u32 p 16 in
  let next := wadb_get_u64 p 24 in
  if negb (wadb_get_u32 p 12 =? 32) || negb (zeroes p 20 4) || (next =? 0) ||
     (count >? WADB_MAX_TABLES) || negb (zlen p =? 36 + count * 8)
  then Err WADB_CORRUPT
  else Ok (next, count).

(** ** Schemas *)

Definition SCHEMA_MAGIC : list Z := cstr "WADBSCH1".

Definition put_field (p : list Z) (record : Z) (f : wadb_field) : list Z :=
  let p := put p record (f_name f) in
  let p := wadb_put_u32 p (record + 64) (u32 (type_tag (f_type f))) in
  let p := wadb_put_u32 p (record + 68) (f_size f) in
  wadb_put_u32 p (record + 72) (Z.b2z (f_nullable f)).
Fixpoint put_fields (p : list Z) (record : Z) (fs : list wadb_field) : list Z :=
  match fs with [] => p | f :: fs' => put_fields (put_field p record f) (record + 80) fs' end.
Definition schema_buffer (t : table_identity) : list Z :=
  let s := t_schema t in
  let count := field_count s - 1 in
  let p := zrep (132 + count * 80) 0 in
  let p := put p 0 SCHEMA_MAGIC in
  let p := wadb_put_u32 p 8 WADB_FORMAT_VERSION in
  let p := wadb_put_u32 p 12 count in
  let p := wadb_put_u64 p 16 (t_id t) in
  let p := wadb_put_u64 p 24 (fingerprint s) in
  let p := wadb_put_u32 p 32 (row_width s) in
  let p := wadb_put_u32 p 36 (null_bytes s) in
  let p := put p 40 (t_name t) in
  put_fields p 128 (tl (fields s)).
Definition wadb_save_schema (t : table_identity) : M os unit :=
  allocate (install (t_directory t) (cstr "schema") (schema_buffer t)).

(** The loop over the field records from [r] on. *)
Fixpoint load_fields (n : nat) (p : list Z) (r : Z) : option (list wadb_field_def) :=
  match n with
  | O => Some []
  | S n' =>
      if negb (stored_name p r) || (wadb_get_u32 p (r + 72) >? 1) || negb (zeroes p (r + 76) 4)
      then None
      else
        let d := FieldDef (name_at p r) (type_of_tag (wadb_get_u32 p (r + 64)))
                   (wadb_get_u32 p (r + 68)) (negb (wadb_get_u32 p (r + 72) =? 0)) in
        defs ← load_fields n' p (r + 80);
        Some (d :: defs)
  end.
(** The name and the schema stored in the buffer for table [id]. *)
Definition schema_decode (id : Z) (p : list Z) : result (list Z * wadb_schema) :=
  _ ← envelope p SCHEMA_MAGIC 132;
  let count := wadb_get_u32 p 12 in
  if (count >=? WADB_MAX_FIELDS) || negb (zlen p =? 132 + count * 80) ||
     negb (wadb_get_u64 p 16 =? id) || negb (stored_name p 40) || negb (zeroes p 104 24)
  then Err WADB_CORRUPT
  else
    match load_fields (Z.to_nat count) p 128 with
    | None => Err WADB_CORRUPT
    | Some defs =>
        match wadb_schema_build defs with
        | Err _ => Err WADB_CORRUPT
        | Ok s =>
            if negb (fingerprint s =? wadb_get_u64 p 24) || negb (row_width s =? wadb_get_u32 p 32) ||
               negb (null_bytes s =? wadb_get_u32 p 36)
            then Err WADB_CORRUPT
            else Ok (name_at p 40, s)
        end
    end.
Definition wadb_load_schema (id : Z) (directory : path) : M os table_identity :=
  p ← load directory (cstr "schema") (132 + (WADB_MAX_FIELDS - 1) * 80);
  '(name, s) ← mlift (schema_decode id p);
  mret (Identity id name directory s).

(** ** Manifests *)

Definition MANIFEST_MAGIC : list Z := cstr "WADBMAN1".

Definition put_segment (p : list Z) (r : Z) (s : wadb_segment_meta) : list Z :=
  let p := wadb_put_u64 p r (sg_id s) in
  let p := wadb_put_u64 p (r + 8) (u64 (sg_day_start s)) in
  let p := wadb_put_u64 p (r + 16) (sg_first_sequence s) in
  let p := wadb_put_u64 p (r + 24) (sg_last_sequence s) in
  let p := wadb_put_u64 p (r + 32) (u64 (sg_min_time s)) in
  let p := wadb_put_u64 p (r + 40) (u64 (sg_max_time s)) in
  let p := wadb_put_u64 p (r + 48) (sg_committed_bytes s) in
  wadb_put_u32 p (r + 56) (state_code (sg_state s)).
Fixpoint put_segments (p : list Z) (r : Z) (l : list wadb_segment_meta) : list Z :=
  match l with [] => p | s :: l' => put_segments (put_segment p r s) (r + 64) l' end.
Definition manifest_buffer (id : Z) (m : table_manifest) : list Z :=
  let p := zrep (84 + zlen (m_segments m) * 64) 0 in
  let p := put p 0 MANIFEST_MAGIC in
  let p := wadb_put_u32 p 8 WADB_FORMAT_VERSION in
  let p := wadb_put_u32 p 12 80 in
  let p := wadb_put_u64 p 16 id in
  let p := wadb_put_u64 p 24 (m_next_segment_id m) in
  let p := wadb_put_u64 p 32 (m_preserved_sequence m) in
  let p := wadb_put_u64 p 40 (u64 (m_preserved_time m)) in
  let p := wadb_put_u64 p 48 (m_retention_us m) in
  let p := wadb_put_u64 p 56 (m_generation m) in
  let p := wadb_put_u32 p 64 (u32 (zlen (m_segments m))) in
  put_segments p 80 (m_segments m).
Definition wadb_save_manifest (t : table_identity) (m : table_manifest) : M os unit :=
  if zlen (m_segments m) >? WADB_MAX_SEGMENTS then mfail WADB_LIMIT
  else allocate (install (t_directory t) (cstr "manifest") (manifest_buffer (t_id t) m)).

(** One segment record at [r]; [None] is a state outside of the enumeration. *)
Definition get_segment (p : list Z) (r : Z) : option wadb_segment_meta :=
  state ← state_of_code (wadb_get_u32 p (r + 56));
  Some (SegmentMeta (wadb_get_u64 p r) (wadb_get_i64 p (r + 8)) (wadb_get_u64 p (r + 16))
    (wadb_get_u64 p (r + 24)) (wadb_get_i64 p (r + 32)) (wadb_get_i64 p (r + 40))
    (wadb_get_u64 p (r + 48)) state).
(** The loop over the segment records: [active] counts the active ones so far. *)
Fixpoint load_segments (n : nat) (p : list Z) (r next previous active : Z)
    : option (list wadb_segment_meta) :=
  match n with
  | O => Some []
  | S n' =>
      s ← get_segment p r;
      let active' := if is_active s then active + 1 else active in
      if (sg_id s <=? previous) || (sg_id s >=? next) || (sg_day_start s <? 0) ||
         negb (Z.rem (sg_day_start s) WADB_DAY_US =? 0) || (sg_first_sequence s =? 0) ||
         (sg_committed_bytes s <? WADB_SEGMENT_HEADER_BYTES) || (sg_committed_bytes s >? INT64_MAX) ||
         negb (zeroes p (r + 60) 4) ||
         (negb (sg_last_sequence s =? 0) &&
          ((sg_last_sequence s <? sg_first_sequence s) || (sg_min_time s <? sg_day_start s) ||
           (sg_max_time s <? sg_min_time s) ||
           negb (Z.quot (sg_max_time s) WADB_DAY_US =? Z.quot (sg_day_start s) WADB_DAY_US))) ||
         ((sg_last_sequence s =? 0) &&
          (negb (sg_min_time s =? 0) || negb (sg_max_time s =? 0) ||
           negb (sg_committed_bytes s =? WADB_SEGMENT_HEADER_BYTES))) ||
         (is_active s && ((active' >? 1) || negb (Nat.eqb n' 0)))
      then None
      else
        l ← load_segments n' p (r + 64) next (sg_id s) active';
        Some (s :: l)
  end.
Definition manifest_header_valid (id : Z) (p : list Z) : bool :=
  negb ((wadb_get_u32 p 64 >? WADB_MAX_SEGMENTS) || negb (zlen p =? 84 + wadb_get_u32 p 64 * 64) ||
    negb (wadb_get_u32 p 12 =? 80) || negb (wadb_get_u64 p 16 =? id) || (wadb_get_u64 p 24 =? 0) ||
    negb (zeroes p 68 12) || (wadb_get_i64 p 40 <? 0) || (wadb_get_u64 p 48 >? INT64_MAX) ||
    (wadb_get_u64 p 56 =? 0)).
Definition wadb_load_manifest (t : table_identity) : M os table_manifest :=
  p ← load (t_directory t) (cstr "manifest") (84 + WADB_MAX_SEGMENTS * 64);
  _ ← mlift (envelope p MANIFEST_MAGIC 84);
  if negb (manifest_header_valid (t_id t) p) then mfail WADB_CORRUPT
  else
    let count := wadb_get_u32 p 64 in
    array ← (if count =? 0 then mret true else os_malloc);
    if negb array then mfail WADB_NOMEM
    else
      match load_segments (Z.to_nat count) p 80 (wadb_get_u64 p 24) 0 0 with
      | None => mfail WADB_CORRUPT
      | Some l =>
          mret (Manifest (wadb_get_u64 p 24) (wadb_get_u64 p 32) (wadb_get_i64 p 40)
                  (wadb_get_u64 p 48) (wadb_get_u64 p 56) l)
      end.

(** ** Arrays of fixed-size records *)

Section records.
Context {A : Type} (P : A → Prop) (enc : A → list Z) (w : Z) (Hw : ∀ x, P x → zlen (enc x) = w).

Definition array_image (l : list A) : list Z := concat (map enc l).

Lemma zlen_array_image l : Forall P l → zlen (array_image l) = w * zlen l.
Proof.
  unfold array_image. induction 1 as [|x l Hx Hl IH]; cbn [map concat]; [unfold zlen; cbn; lia|].
  rewrite zlen_app, Hw, IH, zlen_cons by done. ring.
Qed.
(** A loop that fills one record after the other. *)
Lemma array_fill (put_one : list Z → Z → A → list Z) (put_loop : list Z → Z → list A → list Z) l a b o :
  (∀ p o, put_loop p o [] = p) →
  (∀ p o x l, put_loop p o (x :: l) = put_loop (put_one p o x) (o + w) l) →
  (∀ a b x, P x → put_one (a ++ zrep w 0 ++ b) (zlen a) x = a ++ enc x ++ b) →
  0 ≤ w → Forall P l → o = zlen a →
  put_loop (a ++ zrep (w * zlen l) 0 ++ b) o l = a ++ array_image l ++ b.
Proof.
  intros Hnil Hcons Hone Hw0 HP. revert a o. induction HP as [|x l Hx HP IH]; intros a o ->.
  - rewrite Hnil. change (zlen (@nil A)) with 0. by rewrite Z.mul_0_r.
  - rewrite Hcons. pose proof (zlen_nonneg l). rewrite zlen_cons.
    replace (w * (1 + zlen l)) with (w + w * zlen l) by lia.
    rewrite zrep_app, <-app_assoc, Hone by (done || lia).
    rewrite app_assoc. unfold array_image. cbn [map concat].
    rewrite IH; [by rewrite <-!app_assoc|rewrite zlen_app, Hw by done; lia].
Qed.
(** The first record of an array, and the rest of it. *)
Lemma array_cons p o x l :
  0 ≤ o → 0 ≤ w → Forall P (x :: l) → sub p o (w * zlen (x :: l)) = array_image (x :: l) →
  sub p o w = enc x ∧ sub p (o + w) (w * zlen l) = array_image l.
Proof.
  intros Ho Hw0 HP H. pose proof (zlen_nonneg l). rewrite zlen_cons in H.
  replace (w * (1 + zlen l)) with (w + w * zlen l) in H by lia.
  assert (Hlen : o + (w + w * zlen l) ≤ zlen p ∨ w + w * zlen l = 0).
  { destruct (decide (w + w * zlen l = 0)); [by right|left].
    apply (f_equal zlen) in H. rewrite zlen_array_image, zlen_cons in H by done.
    apply zlen_sub_iff; lia. }
  rewrite sub_app in H by lia. unfold array_image in *. cbn [map concat] in *.
  apply app_inj_1 in H as [H1 H2]; [done|]. apply Nat2Z.inj. change (zlen (sub p o w) = zlen (enc x)).
  apply Forall_cons in HP as [HPx _]. rewrite Hw by done. destruct Hlen; [apply zlen_sub; lia|].
  assert (w = 0) as -> by lia. by rewrite sub_nil.
Qed.

End records.

(** ** The envelope *)

Definition envelope_image (body : list Z) : list Z := body ++ le_split 4 (wadb_crc32c body).

Lemma sealed_image body : sealed (body ++ zrep 4 0) = envelope_image body.
Proof.
  unfold sealed, envelope_image. change (zrep 4 0) with [0; 0; 0; 0].
  assert (H : zlen (body ++ [0; 0; 0; 0]) - 4 = zlen body) by (rewrite zlen_app; change (zlen [0; 0; 0; 0]) with 4; lia).
  rewrite H. pose proof (zlen_nonneg body). rewrite sub_app_l, sub_all by lia.
  rewrite put_u32_spec, put_app_r, Z.sub_diag, put_all by (done || lia). done.
Qed.

Definition enveloped (magic body : list Z) : Prop :=
  sub body 0 8 = magic ∧ wadb_get_u32 body 8 = WADB_FORMAT_VERSION.

Lemma envelope_iff p magic minimum :
  bytes p → 16 ≤ minimum →
  envelope p magic minimum = Ok () ↔
  minimum ≤ zlen p ∧ ∃ body, p = envelope_image body ∧ enveloped magic body.
Proof.
  intros Hp Hm. unfold envelope. split.
  - destruct (Z.ltb_spec (zlen p) minimum) as [|Hl]; [done|]. cbn [orb].
    destruct (bytes_eqb _ _) eqn:Hmg; [|done]. apply bool_decide_eq_true in Hmg. cbn [orb negb].
    destruct (Z.eqb_spec (wadb_crc32c (sub p 0 (zlen p - 4))) (wadb_get_u32 p (zlen p - 4))) as [Hc|]; [|done].
    destruct (Z.eqb_spec (wadb_get_u32 p 8) WADB_FORMAT_VERSION) as [Hv|]; [|done]. intros _.
    split; [done|]. exists (sub p 0 (zlen p - 4)). unfold envelope_image, enveloped. split_and!.
    + rewrite Hc, <-split_u32 by (done || lia). rewrite (sub_join _ _ _ _ _ (zlen p)) by lia. by rewrite sub_all by lia.
    + by rewrite sub_sub_0 by lia.
    + rewrite get_u32_sub by lia. done.
  - intros [Hl (body&->&Hmg&Hv)]. unfold envelope_image in *.
    assert (Hz : zlen (body ++ le_split 4 (wadb_crc32c body)) - 4 = zlen body)
      by (rewrite zlen_app, zlen_le_split; lia).
    apply Forall_app in Hp as [Hb _]. pose proof (zlen_nonneg body).
    rewrite Hz, (proj2 (Z.ltb_ge _ _)) by lia. rewrite !sub_app_l, Hmg, (sub_all body (zlen body)) by lia.
    unfold bytes_eqb. rewrite bool_decide_true by done.
    assert (Hc : wadb_get_u32 (body ++ le_split 4 (wadb_crc32c body)) (zlen body) = wadb_crc32c body).
    { rewrite (get_u32_at _ _ (wadb_crc32c body)); [by apply u32_id, crc32c_range|lia|].
      rewrite sub_app_r, Z.sub_diag, sub_all by (rewrite ?zlen_le_split; lia). done. }
    rewrite Hc, Z.eqb_refl.
    assert (Hv' : wadb_get_u32 (body ++ le_split 4 (wadb_crc32c body)) 8 = WADB_FORMAT_VERSION).
    { rewrite <-Hv, <-(get_u32_sub _ 0 (zlen body) 8), sub_app_l, sub_all by lia. done. }
    rewrite Hv'. done.
Qed.

(** ** The manifest *)

Definition segment_record (s : wadb_segment_meta) : list Z :=
  le_split 8 (sg_id s) ++ le_split 8 (u64 (sg_day_start s)) ++ le_split 8 (sg_first_sequence s) ++
  le_split 8 (sg_last_sequence s) ++ le_split 8 (u64 (sg_min_time s)) ++
  le_split 8 (u64 (sg_max_time s)) ++ le_split 8 (sg_committed_bytes s) ++
  le_split 4 (state_code (sg_state s)) ++ zrep 4 0.
Definition segment_ranges (s : wadb_segment_meta) : Prop :=
  is_u64 (sg_id s) ∧ is_i64 (sg_day_start s) ∧ is_u64 (sg_first_sequence s) ∧
  is_u64 (sg_last_sequence s) ∧ is_i64 (sg_min_time s) ∧ is_i64 (sg_max_time s) ∧
  is_u64 (sg_committed_bytes s).

(** One put inside of the block that follows [a]. *)
Ltac put_in a k := rewrite (put_mid a _ _ _ (zlen a + k) k) by (len; lia).

Lemma put_segment_fill a b s :
  put_segment (a ++ zrep 64 0 ++ b) (zlen a) s = a ++ segment_record s ++ b.
Proof.
  unfold put_segment. pose proof (zlen_nonneg a). rewrite !put_u64_spec, put_u32_spec by lia.
  rewrite <-(Z.add_0_r (zlen a)) at 1.
  put_in a 0. put_in a 8. put_in a 16. put_in a 24. put_in a 32. put_in a 40. put_in a 48. put_in a 56.
  reflexivity.
Qed.
Lemma zlen_segment_record s : zlen (segment_record s) = 64.
Proof. reflexivity. Qed.
Lemma bytes_segment_record s : bytes (segment_record s).
Proof. unfold segment_record. repeat apply bytes_app; auto with wadb. by apply bytes_zrep. Qed.

Lemma state_of_code_inv z s : state_of_code z = Some s ↔ z = state_code s.
Proof.
  unfold state_of_code. repeat case_match; destruct s; cbn; split; intros; simplify_eq; try done; lia.
Qed.

Lemma get_segment_iff p r s :
  bytes p → 0 ≤ r → r + 64 ≤ zlen p →
  get_segment p r = Some s ∧ zeroes p (r + 60) 4 = true ↔
  segment_ranges s ∧ sub p r 64 = segment_record s.
Proof.
  intros Hp Hr Hl. set (q := sub p r 64).
  assert (Hq : bytes q ∧ zlen q = 64) by (split; [by apply bytes_sub|by apply zlen_sub; lia]).
  destruct Hq as [Hqb Hql].
  assert (E : get_segment p r = get_segment q 0).
  { unfold get_segment, q. rewrite !get_u64_sub, !get_i64_sub, get_u32_sub by lia. by rewrite Z.add_0_r. }
  assert (Ez : zeroes p (r + 60) 4 = true ↔ sub q 60 4 = zrep 4 0).
  { rewrite zeroes_spec by lia. unfold q. by rewrite sub_sub by lia. }
  rewrite E, Ez. clearbody q. clear E Ez. unfold get_segment. split.
  - intros [H Hz]. destruct (state_of_code _) as [st|] eqn:Hst; [|done]. apply state_of_code_inv in Hst.
    cbn in H. injection H as <-. split.
    { unfold segment_ranges. cbn. split_and!; first [apply get_u64_range|apply get_i64_range]; done || lia. }
    transitivity (pieces q 0 [8;8;8;8;8;8;8;4;4]).
    { rewrite (pieces_all q 0) by first [done|lia|repeat constructor; lia]. by rewrite sub_all. }
    unfold segment_record. cbn [sg_id sg_day_start sg_first_sequence sg_last_sequence sg_min_time sg_max_time
      sg_committed_bytes sg_state]. rewrite <-Hst.
    rewrite <-!split_u64, <-!split_i64, <-split_u32, <-Hz by (done || lia). cbn [pieces]. by rewrite app_nil_r.
  - intros [(?&?&?&?&?&?&?) Hs].
    rewrite (get_u32_at q (0 + 56) (state_code (sg_state s))) by (by rewrite ?Hs).
    rewrite u32_id by (destruct (sg_state s); done).
    rewrite (proj2 (state_of_code_inv _ (sg_state s)) eq_refl).
    rewrite (get_u64_at q 0 (sg_id s)), (get_i64_at q (0 + 8) (sg_day_start s)),
      (get_u64_at q (0 + 16) (sg_first_sequence s)), (get_u64_at q (0 + 24) (sg_last_sequence s)),
      (get_i64_at q (0 + 32) (sg_min_time s)), (get_i64_at q (0 + 40) (sg_max_time s)),
      (get_u64_at q (0 + 48) (sg_committed_bytes s)) by (by rewrite ?Hs).
    rewrite !u64_id by done. split; [by destruct s|by rewrite Hs].
Qed.

(** What the manifest may say of one segment, and of the list of them: increasing
    identifiers below the next one, and at most one active segment, the last. *)
Definition segment_valid (s : wadb_segment_meta) : Prop :=
  0 ≤ sg_day_start s ∧ sg_day_start s `mod` WADB_DAY_US = 0 ∧ sg_first_sequence s ≠ 0 ∧
  WADB_SEGMENT_HEADER_BYTES ≤ sg_committed_bytes s ≤ INT64_MAX ∧
  (sg_last_sequence s ≠ 0 →
   sg_first_sequence s ≤ sg_last_sequence s ∧ sg_day_start s ≤ sg_min_time s ≤ sg_max_time s ∧
   sg_max_time s / WADB_DAY_US = sg_day_start s / WADB_DAY_US) ∧
  (sg_last_sequence s = 0 →
   sg_min_time s = 0 ∧ sg_max_time s = 0 ∧ sg_committed_bytes s = WADB_SEGMENT_HEADER_BYTES).
Fixpoint segments_valid (next previous : Z) (l : list wadb_segment_meta) : Prop :=
  match l with
  | [] => True
  | s :: l' =>
      previous < sg_id s < next ∧ segment_ranges s ∧ segment_valid s ∧
      (sg_state s = WADB_SEG_ACTIVE → l' = []) ∧ segments_valid next (sg_id s) l'
  end.

Lemma load_segments_iff n p r next previous l :
  bytes p → 0 ≤ r → r + 64 * Z.of_nat n ≤ zlen p →
  load_segments n p r next previous 0 = Some l ↔
  length l = n ∧ segments_valid next previous l ∧
  sub p r (64 * Z.of_nat n) = array_image segment_record l.
Proof.
  intros Hp. revert r previous l. induction n as [|n IH]; intros r previous l Hr Hl.
  { cbn [load_segments]. split; [intros [= <-]|]; [by rewrite sub_nil|]. by intros [->%length_zero_iff_nil _]. }
  cbn [load_segments].
  assert (Hgs := λ s, get_segment_iff p r s Hp Hr ltac:(lia)).
  split.
  - destruct (get_segment p r) as [s|] eqn:Hs; [|done]. cbn [mbind option_bind].
    destruct (_ || _) eqn:Hc; [done|]. destruct (load_segments n p (r + 64) next (sg_id s) _) as [l'|] eqn:Hl'; [|done].
    intros [= <-]. rewrite !orb_false_iff in Hc.
    destruct Hc as ((((((((((?&?)&?)&?)&?)&?)&?)&Hz)&?)&?)&Hact). apply negb_false_iff in Hz.
    destruct (proj1 (Hgs s) (conj eq_refl Hz)) as [Hrange Hrec].
    assert (Hact' : sg_state s = WADB_SEG_ACTIVE → n = 0%nat).
    { intros Ha. unfold is_active in Hact. rewrite bool_decide_true in Hact by done.
      destruct (Nat.eqb_spec n 0); [done|]. by rewrite orb_true_r in Hact. }
    assert (Hload : load_segments n p (r + 64) next (sg_id s) 0 = Some l').
    { destruct (is_active s) eqn:Ha; [|done]. apply bool_decide_eq_true in Ha. rewrite (Hact' Ha) in *. done. }
    apply IH in Hload as (Hlen&Hv&Himg); [|lia..].
    split; [cbn; lia|]. split.
    + cbn [segments_valid]. unfold segment_valid, WADB_SEGMENT_HEADER_BYTES, WADB_DAY_US in *. split_and!; try done; try qlia.
      intros Ha. apply length_zero_iff_nil. rewrite Hlen. auto.
    + replace (64 * Z.of_nat (S n)) with (64 + 64 * Z.of_nat n) by lia.
      rewrite sub_app by lia. rewrite Hrec, Himg. done.
  - intros (Hlen&Hv&Himg). destruct l as [|s l]; [done|]. cbn [length] in Hlen. injection Hlen as Hlen.
    destruct Hv as (Hid&Hrange&Hval&Hact&Hv).
    destruct (array_cons (λ _, True) segment_record 64 (λ x _, zlen_segment_record x) p r s l)
      as [Hrec Hrest]; [done|done|by apply Forall_true| |].
    { rewrite <-Himg. f_equal. unfold zlen. cbn [length]. lia. }
    destruct (proj2 (Hgs s) (conj Hrange Hrec)) as [Hs Hz]. rewrite Hs, Hz. cbn [mbind option_bind].
    assert (Ha : is_active s && (((if is_active s then 0 + 1 else 0) >? 1) || negb (Nat.eqb n 0)) = false).
    { destruct (is_active s) eqn:Ha; [|done]. apply bool_decide_eq_true in Ha.
      rewrite <-Hlen, (Hact Ha). done. }
    rewrite Ha, !orb_false_r. clear Ha. cbn [negb].
    destruct Hval as (?&?&?&?&Hl1&Hl0). unfold WADB_SEGMENT_HEADER_BYTES, WADB_DAY_US in *.
    destruct (_ || _) eqn:Hc.
    { exfalso. destruct (decide (sg_last_sequence s = 0)) as [Hz0|Hz0]; [specialize (Hl0 Hz0)|specialize (Hl1 Hz0)]; qlia. }
    assert (Hload : load_segments n p (r + 64) next (sg_id s) 0 = Some l).
    { apply IH; [lia..|]. split_and!; [done|done|]. rewrite <-Hrest. f_equal. unfold zlen. lia. }
    assert (Hload' : load_segments n p (r + 64) next (sg_id s) (if is_active s then 0 + 1 else 0) = Some l).
    { destruct (is_active s) eqn:Ha'; [|done]. apply bool_decide_eq_true in Ha'.
      rewrite <-Hlen, (Hact Ha') in *. done. }
    by rewrite Hload'.
Qed.

Definition manifest_head (id : Z) (m : table_manifest) : list Z :=
  MANIFEST_MAGIC ++ le_split 4 WADB_FORMAT_VERSION ++ le_split 4 80 ++ le_split 8 id ++
  le_split 8 (m_next_segment_id m) ++ le_split 8 (m_preserved_sequence m) ++
  le_split 8 (u64 (m_preserved_time m)) ++ le_split 8 (m_retention_us m) ++
  le_split 8 (m_generation m) ++ le_split 4 (u32 (zlen (m_segments m))) ++ zrep 12 0.
Definition manifest_body (id : Z) (m : table_manifest) : list Z :=
  manifest_head id m ++ array_image segment_record (m_segments m).
Definition manifest_image (id : Z) (m : table_manifest) : list Z := envelope_image (manifest_body id m).

Definition manifest_ok (id : Z) (m : table_manifest) : Prop :=
  is_u64 id ∧ is_u64 (m_next_segment_id m) ∧ m_next_segment_id m ≠ 0 ∧
  is_u64 (m_preserved_sequence m) ∧ 0 ≤ m_preserved_time m ≤ INT64_MAX ∧
  0 ≤ m_retention_us m ≤ INT64_MAX ∧ is_u64 (m_generation m) ∧ m_generation m ≠ 0 ∧
  zlen (m_segments m) ≤ WADB_MAX_SEGMENTS ∧ segments_valid (m_next_segment_id m) 0 (m_segments m).

Lemma zlen_manifest_head id m : zlen (manifest_head id m) = 80.
Proof. reflexivity. Qed.
Lemma bytes_array_image {A} (enc : A → list Z) l : (∀ x, bytes (enc x)) → bytes (array_image enc l).
Proof. intros H. induction l; [constructor|]. by apply bytes_app. Qed.
Lemma bytes_envelope_image b : bytes b → bytes (envelope_image b).
Proof. intros. apply bytes_app; auto with wadb. Qed.
Lemma bytes_manifest_body id m : bytes (manifest_body id m).
Proof.
  apply bytes_app; [|apply bytes_array_image, bytes_segment_record]. unfold manifest_head, MANIFEST_MAGIC.
  repeat apply bytes_app; auto with wadb. by apply bytes_zrep.
Qed.
Lemma zlen_manifest_body id m : zlen (manifest_body id m) = 80 + 64 * zlen (m_segments m).
Proof.
  unfold manifest_body. rewrite zlen_app, zlen_manifest_head.
  by rewrite (zlen_array_image (λ _, True) _ 64) by (done || by apply Forall_true).
Qed.

Lemma manifest_buffer_image id m : sealed (manifest_buffer id m) = manifest_image id m.
Proof.
  unfold manifest_image, manifest_body. rewrite <-sealed_image. f_equal. unfold manifest_buffer.
  pose proof (zlen_nonneg (m_segments m)). rewrite !put_u32_spec, !put_u64_spec by lia.
  replace (84 + zlen (m_segments m) * 64) with (80 + (64 * zlen (m_segments m) + 4)) by lia.
  rewrite (zrep_app 80), (zrep_app (64 * _)) by lia. set (r := zrep (64 * _) 0 ++ _).
  rewrite !put_app_l by (rewrite ?zlen_put, ?zlen_le_split; change (zlen (zrep 80 0)) with 80;
    try change (zlen MANIFEST_MAGIC) with 8; lia).
  set (h := put (put _ _ _) _ _). change h with (manifest_head id m). unfold r. rewrite <-app_assoc.
  apply (array_fill (λ _, True) segment_record 64 (λ x _, zlen_segment_record x) put_segment put_segments);
    try done; [|by apply Forall_true]. intros a b s _. apply put_segment_fill.
Qed.

(** What [wadb_load_manifest] computes from the bytes of the file. *)
Definition manifest_decode (id : Z) (p : list Z) : result table_manifest :=
  _ ← envelope p MANIFEST_MAGIC 84;
  if negb (manifest_header_valid id p) then Err WADB_CORRUPT
  else
    match load_segments (Z.to_nat (wadb_get_u32 p 64)) p 80 (wadb_get_u64 p 24) 0 0 with
    | None => Err WADB_CORRUPT
    | Some l =>
        Ok (Manifest (wadb_get_u64 p 24) (wadb_get_u64 p 32) (wadb_get_i64 p 40)
              (wadb_get_u64 p 48) (wadb_get_u64 p 56) l)
    end.

Lemma manifest_decode_sound id p m :
  bytes p → manifest_decode id p = Ok m → manifest_ok id m ∧ p = manifest_image id m.
Proof.
  intros Hp. unfold manifest_decode. rewrite result_bind_ok. intros ([]&Henv&H).
  apply envelope_iff in Henv as [Hlen (body&->&Hmg&Hver)]; [|done|lia].
  set (p := envelope_image body) in *.
  destruct (manifest_header_valid id p) eqn:Hh; [|done]. cbn [negb] in H.
  destruct (load_segments _ _ _ _ _ _) as [l|] eqn:Hl; [|done]. injection H as <-.
  unfold manifest_header_valid in Hh. apply negb_true_iff in Hh. rewrite !orb_false_iff in Hh.
  destruct Hh as ((((((((?&Hlen')&Hsz)&Hid)&?)&Hz)&?)&?)&?).
  apply negb_false_iff, Z.eqb_eq in Hlen', Hsz, Hid. apply negb_false_iff, zeroes_spec in Hz; [|lia..].
  pose proof (get_u32_range p 64 Hp ltac:(lia) ltac:(lia)) as Hcr.
  apply load_segments_iff in Hl as (Hln&Hv&Himg); [|done|lia|rewrite Z2Nat.id; unfold is_u32 in *; lia].
  rewrite Z2Nat.id in Himg by (unfold is_u32 in *; lia).
  assert (Hcount : zlen l = wadb_get_u32 p 64) by (unfold zlen; rewrite Hln, Z2Nat.id; unfold is_u32 in *; lia).
  pose proof (get_u64_range p 16 Hp ltac:(lia) ltac:(lia)). pose proof (get_u64_range p 24 Hp ltac:(lia) ltac:(lia)).
  pose proof (get_u64_range p 32 Hp ltac:(lia) ltac:(lia)). pose proof (get_i64_range p 40 Hp ltac:(lia) ltac:(lia)).
  pose proof (get_u64_range p 48 Hp ltac:(lia) ltac:(lia)). pose proof (get_u64_range p 56 Hp ltac:(lia) ltac:(lia)).
  assert (Hbl : zlen body = zlen p - 4) by (unfold p, envelope_image; rewrite zlen_app, zlen_le_split; lia).
  assert (Hbody : sub p 0 (zlen body) = body) by (unfold p, envelope_image; rewrite sub_app_l, sub_all; lia || done).
  assert (Hpb : p = envelope_image body) by done. clearbody p.
  split.
  - unfold manifest_ok. cbn. rewrite <-Hid, Hcount. split_and!; try done; unfold WADB_MAX_SEGMENTS in *; unfold_widths; lia.
  - rewrite Hpb at 1. unfold manifest_image. f_equal. rewrite <-Hbody at 1.
    replace (zlen body) with (80 + 64 * wadb_get_u32 p 64) by lia.
    rewrite sub_app by (unfold is_u32 in *; lia). change (0 + 80) with 80. rewrite Himg. unfold manifest_body. f_equal.
    transitivity (pieces p 0 [8;4;4;8;8;8;8;8;8;4;12]).
    { by rewrite (pieces_all p 0) by first [lia|repeat constructor; lia]. }
    assert (Hm8 : sub p 0 8 = MANIFEST_MAGIC) by (rewrite <-Hmg, <-Hbody, sub_sub_0; lia || done).
    assert (Hv8 : wadb_get_u32 p 8 = WADB_FORMAT_VERSION) by (rewrite <-Hver, <-Hbody, get_u32_sub; lia || done).
    unfold manifest_head. cbn [m_next_segment_id m_preserved_sequence m_preserved_time m_retention_us m_generation m_segments].
    rewrite Hcount, (u32_id (wadb_get_u32 p 64)), <-Hid, <-Hsz, <-Hv8, <-Hm8, <-Hz by done.
    rewrite <-!split_u64, <-!split_i64, <-!split_u32 by (done || lia). cbn [pieces]. by rewrite app_nil_r.
Qed.

Lemma manifest_decode_complete id m :
  manifest_ok id m → manifest_decode id (manifest_image id m) = Ok m.
Proof.
  intros (Hid&Hnext&Hn0&Hps&Hpt&Hret&Hgen&Hg0&Hcnt&Hv). unfold manifest_decode.
  pose proof (bytes_manifest_body id m) as Hbb. pose proof (zlen_nonneg (m_segments m)) as Hnn.
  set (b := manifest_body id m) in *. set (p := manifest_image id m).
  assert (Hp : bytes p) by (by apply bytes_envelope_image).
  assert (Hlen : zlen p = 84 + 64 * zlen (m_segments m)).
  { unfold p, manifest_image, envelope_image. rewrite zlen_app, zlen_le_split, zlen_manifest_body. lia. }
  assert (Hb : ∀ o n, 0 ≤ o → 0 ≤ n → o + n ≤ 80 → sub p o n = sub (manifest_head id m) o n).
  { intros. unfold p, manifest_image, envelope_image, manifest_body.
    rewrite !sub_app_l; [done|rewrite ?zlen_manifest_head, ?zlen_app, ?zlen_manifest_head; unfold zlen in *; lia..]. }
  assert (Henv : envelope p MANIFEST_MAGIC 84 = Ok ()).
  { apply envelope_iff; [done|lia|]. split; [lia|]. exists b. split; [done|]. unfold b, manifest_body. split.
    - by rewrite sub_app_l by (rewrite ?zlen_manifest_head; lia).
    - rewrite <-(get_u32_sub _ 0 80 8), sub_app_l by (rewrite ?zlen_manifest_head; lia). done. }
  rewrite Henv. cbn [mbind result_bind].
  assert (H12 : wadb_get_u32 p 12 = 80) by (rewrite (get_u32_at p 12 80); [done|lia|by rewrite Hb by lia]).
  assert (H16 : wadb_get_u64 p 16 = id) by (rewrite (get_u64_at p 16 id); [by apply u64_id|lia|by rewrite Hb by lia]).
  assert (H24 : wadb_get_u64 p 24 = m_next_segment_id m)
    by (rewrite (get_u64_at p 24 (m_next_segment_id m)); [by apply u64_id|lia|by rewrite Hb by lia]).
  assert (H32 : wadb_get_u64 p 32 = m_preserved_sequence m)
    by (rewrite (get_u64_at p 32 (m_preserved_sequence m)); [by apply u64_id|lia|by rewrite Hb by lia]).
  assert (H40 : wadb_get_i64 p 40 = m_preserved_time m)
    by (apply get_i64_at; [lia|unfold_widths; lia|by rewrite Hb by lia]).
  assert (H48 : wadb_get_u64 p 48 = m_retention_us m)
    by (rewrite (get_u64_at p 48 (m_retention_us m)); [apply u64_id; unfold_widths; lia|lia|by rewrite Hb by lia]).
  assert (H56 : wadb_get_u64 p 56 = m_generation m)
    by (rewrite (get_u64_at p 56 (m_generation m)); [by apply u64_id|lia|by rewrite Hb by lia]).
  assert (H64 : wadb_get_u32 p 64 = zlen (m_segments m)).
  { rewrite (get_u32_at p 64 (u32 (zlen (m_segments m)))); [|lia|by rewrite Hb by lia].
    rewrite !u32_id by (rewrite ?u32_id; unfold WADB_MAX_SEGMENTS in *; unfold_widths; lia). done. }
  assert (Hz : zeroes p 68 12 = true) by (apply zeroes_spec; [lia..|by rewrite Hb by lia]).
  unfold manifest_header_valid. rewrite H12, H16, H24, H40, H48, H56, H64, Hz, Hlen.
  destruct (negb (negb _)) eqn:Hc.
  { exfalso. rewrite negb_involutive in Hc. unfold WADB_MAX_SEGMENTS in *. unfold_widths. lia. }
  rewrite (proj2 (load_segments_iff (Z.to_nat (zlen (m_segments m))) p 80 (m_next_segment_id m) 0 (m_segments m) Hp ltac:(lia) ltac:(lia))).
  { rewrite H32. by destruct m. }
  rewrite Z2Nat.id by done. split_and!; [unfold zlen; lia|done|].
  unfold p, manifest_image, envelope_image, manifest_body.
  rewrite <-app_assoc. eapply sub_mid; [done|by rewrite zlen_manifest_head|].
  by rewrite (zlen_array_image (λ _, True) _ 64) by (done || by apply Forall_true).
Qed.

Definition metadata_path (dir name : path) : path := dir ++ SLASH :: name.
(** A restart: the next process finds the files and directories, and its calls succeed. A
    temporary file that is left over is no file of that process: nothing opens its name. *)
Definition rebooted (w : os) : os := Os (files w) (directories w) [] [] [] [].
Lemma rebooted_quiet w : quiet (rebooted w).
Proof. done. Qed.

Lemma install_spec dir name p w :
  wp (install dir name p) (λ r w', directories w' = directories w ∧
    ((r = Ok () ∨ r = Err WADB_INDETERMINATE) ∧
       zlen dir + zlen name + 2 ≤ 4096 ∧ files w' = <[metadata_path dir name := sealed p]> (files w) ∨
     (r = Err WADB_IO ∨ r = Err WADB_NOMEM ∨ r = Err WADB_LIMIT) ∧ files w' = files w) ∧
    (quiet w → dir ∈ directories w → dir ≠ [] → Forall (λ c, c ≠ SLASH) name →
     zlen dir + zlen name + 2 ≤ 4096 → r = Ok () ∧ quiet w')) w.
Proof.
  unfold install. apply wp_bind. eapply wp_mono; [apply wadb_path_spec|]. cbn beta.
  intros ? w1 (o&->&[[Hf Hd] Hqq]&Ho&Hq). destruct o as [q|].
  - destruct Ho as [|[[= ->] Hlen]]; [done|]. eapply wp_mono; [apply atomic_file_spec|]. cbn beta.
    intros r w' [[Hd' Hi] Hok]. rewrite Hf, Hd in *. split_and!; [done|naive_solver|].
    intros Hw Hdir Hne Hns Hl. apply Hok; [auto|by rewrite parent_directory_path|].
    rewrite zlen_app, zlen_cons. pose proof (zlen_nonneg dir). pose proof (zlen_nonneg name). lia.
  - apply wp_fail. split_and!; [done|right; auto|]. intros Hw _ _ _ Hl. by specialize (Hq Hw Hl).
Qed.
Lemma load_spec dir name limit w :
  wp (load dir name limit) (λ r w', keeps w w' ∧
    (∀ data, r = Ok data → files w !! metadata_path dir name = Some data) ∧
    (quiet w → ∀ data, files w !! metadata_path dir name = Some data → zlen data ≤ limit → limit ≤ INT64_MAX →
     zlen dir + zlen name + 2 ≤ 4096 → r = Ok data)) w.
Proof.
  unfold load. apply wp_bind. eapply wp_mono; [apply wadb_path_spec|]. cbn beta.
  intros ? w1 (o&->&Hk&Ho&Hq). pose proof Hk as [[Hf Hd] Hqq]. destruct o as [q|].
  - destruct Ho as [|[[= ->] Hlen]]; [done|]. eapply wp_mono; [apply read_file_spec|]. cbn beta.
    rewrite Hf. intros r w' (Hk2&Hr&_&Hrq). split_and!; [by etrans|naive_solver|].
    intros Hw data Hdata Hl Hi _. apply Hrq; auto; lia.
  - apply wp_fail. split_and!; [done|done|]. intros Hw data _ _ _ Hl. by specialize (Hq Hw Hl).
Qed.
Lemma allocate_spec {A} (k : M os A) Q w :
  (∀ w1, keeps w w1 → wp k Q w1) → (∀ w1, keeps w w1 → ¬ quiet w → Q (Err WADB_NOMEM) w1) → wp (allocate k) Q w.
Proof.
  intros Hk He. unfold allocate. apply wp_bind. eapply wp_mono; [apply os_malloc_spec|]. cbn beta.
  intros ? w1 (ok&->&Hkeep&Hq). destruct ok; cbn [negb]; [by apply Hk|]. apply wp_fail, He; [done|].
  intros Hw. by specialize (Hq Hw).
Qed.

Definition manifest_path (t : table_identity) : path := metadata_path (t_directory t) (cstr "manifest").

(** The outcome of saving a manifest: installed as a whole, or the disk is unchanged. *)
Definition manifest_saved (t : table_identity) (m : table_manifest) (w : os) (r : result unit) (w' : os) : Prop :=
  directories w' = directories w ∧
  ((r = Ok () ∨ r = Err WADB_INDETERMINATE) ∧ zlen (t_directory t) + 10 ≤ 4096 ∧
     files w' = <[manifest_path t := manifest_image (t_id t) m]> (files w) ∨
   (r = Err WADB_IO ∨ r = Err WADB_NOMEM ∨ r = Err WADB_LIMIT) ∧ files w' = files w).
(** A directory in which metadata files can be installed. *)
Definition usable_directory (dir : path) (w : os) : Prop :=
  dir ∈ directories w ∧ dir ≠ [] ∧ zlen dir + 10 ≤ 4096.

Lemma save_manifest_spec t m w :
  wp (wadb_save_manifest t m) (λ r w', manifest_saved t m w r w' ∧
    (quiet w → usable_directory (t_directory t) w → zlen (m_segments m) ≤ WADB_MAX_SEGMENTS →
     r = Ok () ∧ quiet w')) w.
Proof.
  unfold wadb_save_manifest, manifest_saved. destruct (Z.gtb_spec (zlen (m_segments m)) WADB_MAX_SEGMENTS).
  { apply wp_fail. split_and!; [done|right; auto|lia]. }
  apply allocate_spec; intros w1 [[Hf Hd] Hq].
  - eapply wp_mono; [apply install_spec|]. cbn beta. rewrite manifest_buffer_image, Hf, Hd.
    intros r w' (Hd'&Hcase&Hok). split_and!; [done| |].
    + destruct Hcase as [(?&Hl&?)|?]; [left|by right]. split_and!; [done| |done].
      change (zlen (cstr "manifest")) with 8 in Hl. lia.
    + intros Hw (Hdir&Hne&Hl) _. apply Hok; [auto|done|done| |change (zlen (cstr "manifest")) with 8; lia].
      repeat constructor; done.
  - intros Hn. split_and!; [done|right; auto|done].
Qed.

Lemma load_manifest_spec t w :
  wp (wadb_load_manifest t) (λ r w', keeps w w' ∧
    (∀ m, r = Ok m → ∃ p, files w !! manifest_path t = Some p ∧ manifest_decode (t_id t) p = Ok m) ∧
    (quiet w → ∀ p, files w !! manifest_path t = Some p → zlen p ≤ 84 + WADB_MAX_SEGMENTS * 64 →
     zlen (t_directory t) + 10 ≤ 4096 → r = manifest_decode (t_id t) p)) w.
Proof.
  unfold wadb_load_manifest. apply wp_bind. eapply wp_mono; [apply load_spec|]. cbn beta.
  intros r w1 (Hk&Hr&Hrq). fold (manifest_path t) in Hr, Hrq.
  assert (Hqr : quiet w → ∀ p, files w !! manifest_path t = Some p → zlen p ≤ 84 + WADB_MAX_SEGMENTS * 64 →
    zlen (t_directory t) + 10 ≤ 4096 → r = Ok p).
  { intros Hw p Hp Hl Hd. apply Hrq; [done..|]. change (zlen (cstr "manifest")) with 8. lia. }
  clear Hrq. destruct r as [p|e].
  2:{ split_and!; [done|done|]. intros Hw p Hp Hl Hd. by specialize (Hqr Hw p Hp Hl Hd). }
  specialize (Hr p eq_refl). apply wp_bind. unfold mlift, wp at 1. cbn [fst snd]. unfold manifest_decode.
  assert (Hpp : ∀ p', files w !! manifest_path t = Some p' → p' = p) by (intros; congruence).
  destruct (envelope p MANIFEST_MAGIC 84) as [[]|e] eqn:He; cbn [mbind result_bind].
  2:{ split_and!; [done|done|]. intros _ p' ->%Hpp _ _. by rewrite He. }
  destruct (negb (manifest_header_valid (t_id t) p)) eqn:Hh.
  { apply wp_fail. split_and!; [done|done|]. intros _ p' ->%Hpp _ _. by rewrite He, Hh. }
  apply wp_bind. eapply (wp_mono _ (λ r w', ∃ ok, r = Ok ok ∧ keeps w1 w' ∧ (quiet w1 → ok = true))).
  { destruct (_ =? 0); [apply wp_ret; by exists true|apply os_malloc_spec]. }
  intros ? w2 (ok&->&Hk2&Hq2). destruct ok; cbn [negb].
  2:{ apply wp_fail. split_and!; [by etrans|done|]. intros Hw. destruct Hk as [_ Hk]. by specialize (Hq2 (Hk Hw)). }
  destruct (load_segments _ _ _ _ _ _) eqn:Hl; [apply wp_ret|apply wp_fail]; (split_and!; [by etrans| |]);
    try (intros _ p' ->%Hpp _ _; cbn [mbind result_bind]; by rewrite He; cbn [mbind result_bind]; rewrite Hh, Hl).
  - intros m [= <-]. exists p. split; [done|]. rewrite He. cbn [mbind result_bind]. by rewrite Hh, Hl.
  - done.
Qed.

(** C14: The manifest is replaced atomically and read back exactly. Whatever the
    outcomes of the calls, after [wadb_save_manifest] of a valid manifest a restart
    loads the saved manifest when the save reported WADB_OK or WADB_INDETERMINATE,
    and what it would have loaded before when the save reported any other error. *)
Theorem manifest_round_trip t m w r w' :
  manifest_ok (t_id t) m → wadb_save_manifest t m w = (r, w') →
  (r = Ok () ∨ r = Err WADB_INDETERMINATE) ∧ fst (wadb_load_manifest t (rebooted w')) = Ok m ∨
  (r = Err WADB_IO ∨ r = Err WADB_NOMEM ∨ r = Err WADB_LIMIT) ∧ rebooted w' = rebooted w.
Proof.
  intros Hm H. eapply wp_out in H; [|apply save_manifest_spec]. destruct H as [[Hd Hcase] _].
  destruct Hcase as [(Hr&Hl&Hf)|[Hr Hf]]; [left|right]; (split; [done|]).
  - destruct (wadb_load_manifest t (rebooted w')) as [r' w''] eqn:E.
    eapply wp_out in E; [|apply load_manifest_spec]. destruct E as (_&_&E). cbn [fst].
    rewrite (E (rebooted_quiet w') (manifest_image (t_id t) m)).
    + by apply manifest_decode_complete.
    + cbn. rewrite Hf. apply lookup_insert_eq.
    + unfold manifest_image, envelope_image. rewrite zlen_app, zlen_le_split, zlen_manifest_body.
      destruct Hm as (_&_&_&_&_&_&_&_&?&_). lia.
    + done.
  - unfold rebooted. by rewrite Hf, Hd.
Qed.

(** The bytes of a manifest file determine the manifest: what loads is valid (the
    segments have increasing identifiers below the next one, at most the last is
    active, their sequence and time summaries are coherent) and the file is byte for
    byte the image that saving the loaded manifest would write. *)
Theorem manifest_canonical t w m w' p :
  files w !! manifest_path t = Some p → bytes p →
  wadb_load_manifest t w = (Ok m, w') →
  manifest_ok (t_id t) m ∧ p = manifest_image (t_id t) m.
Proof.
  intros Hf Hp H. eapply wp_out in H; [|apply load_manifest_spec]. destruct H as (_&H&_).
  destruct (H m eq_refl) as (p'&Hp'&Hdec). assert (p' = p) as -> by congruence.
  by apply manifest_decode_sound.
Qed.

(** ** Stored names *)

(** The bytes of a C string. *)
Definition cname (name : list Z) : Prop := Forall (λ c, 0 < c < 256) name.
Definition padded_name (name : list Z) : list Z := name ++ zrep (WADB_NAME_CAP - zlen name) 0.

Lemma cname_bytes name : cname name → bytes name.
Proof. intros H. eapply Forall_impl; [exact H|]. unfold is_u8. intros; cbn in *; lia. Qed.
Lemma cname_nonzero name : cname name → Forall (λ c, c ≠ 0) name.
Proof. intros H. eapply Forall_impl; [exact H|]. intros; cbn in *; lia. Qed.
Lemma identifier_terminated name rest : wadb_identifier (name ++ 0 :: rest) = wadb_identifier name.
Proof.
  assert (H : ∀ n f, identifier_loop n f (name ++ 0 :: rest) = identifier_loop n f name).
  { induction name as [|c name IH]; intros [|n] f; try done. cbn [identifier_loop hd tl app].
    by rewrite IH. }
  unfold wadb_identifier. rewrite H. by destruct name.
Qed.
Lemma identifier_length name : cname name → wadb_identifier name = true → 0 < zlen name < WADB_NAME_CAP.
Proof.
  intros Hn Hi. apply wadb_identifier_spec in Hi as [Hi Hl]; [|by apply cname_nonzero].
  destruct name; [done|]. rewrite zlen_cons in *. pose proof (zlen_nonneg name). lia.
Qed.
Lemma zlen_padded_name name : zlen name ≤ WADB_NAME_CAP → zlen (padded_name name) = 64.
Proof. intros H. unfold padded_name. rewrite zlen_app, zlen_zrep; unfold WADB_NAME_CAP in *; lia. Qed.

Lemma memchr0_padded p r name :
  cname name → zlen name < WADB_NAME_CAP → sub p r 64 = padded_name name →
  memchr0 p r WADB_NAME_CAP = Some (zlen name).
Proof.
  intros Hn Hl Hs. unfold memchr0, WADB_NAME_CAP in *. rewrite Hs. unfold padded_name, WADB_NAME_CAP.
  assert (Hf : list_find (λ c, c = 0) (name ++ zrep (64 - zlen name) 0) = Some (length name, 0)).
  { apply list_find_Some. split_and!; [|done|].
    - rewrite lookup_app_r, Nat.sub_diag by lia. unfold zrep. apply lookup_replicate. split; [done|lia].
    - intros j y Hj Hjl. rewrite lookup_app_l in Hj by done. eapply Forall_lookup_1 in Hn; [|exact Hj].
      cbn in Hn. lia. }
  by rewrite Hf.
Qed.
(** The string at [p + r] ends at the padding. *)
Lemma drop_padded p r name :
  0 ≤ r → zlen name < 64 → sub p r 64 = padded_name name → ∃ rest, drop (Z.to_nat r) p = name ++ 0 :: rest.
Proof.
  intros Hr Hl Hs. exists (zrep (63 - zlen name) 0 ++ drop (Z.to_nat r + 64) p).
  rewrite <-(take_drop 64 (drop (Z.to_nat r) p)), drop_drop.
  change (take 64 (drop (Z.to_nat r) p)) with (sub p r 64). rewrite Hs. unfold padded_name, WADB_NAME_CAP.
  replace (64 - zlen name) with (1 + (63 - zlen name)) by lia.
  rewrite zrep_app by lia. by rewrite <-!app_assoc.
Qed.
Lemma stored_name_iff p r :
  bytes p → 0 ≤ r → r + 64 ≤ zlen p →
  stored_name p r = true ↔
  ∃ name, cname name ∧ wadb_identifier name = true ∧ sub p r 64 = padded_name name ∧ name_at p r = name.
Proof.
  intros Hp Hr Hl. unfold stored_name. split.
  - destruct (memchr0 p r WADB_NAME_CAP) as [e|] eqn:He; [|done]. intros [Hi Hz]%andb_true_iff.
    unfold memchr0 in He. change WADB_NAME_CAP with 64 in *.
    destruct (list_find _ (sub p r 64)) as [[i x]|] eqn:Hf; [|done].
    injection He as <-. apply list_find_Some in Hf as (Hx&->&Hbefore).
    assert (Hi64 : Z.of_nat i < 64).
    { apply lookup_lt_Some in Hx. pose proof (zlen_sub_le p r 64). unfold zlen in *. lia. }
    apply zeroes_spec in Hz; [|lia..]. exists (sub p r (Z.of_nat i)).
    assert (Hcn : cname (sub p r (Z.of_nat i))).
    { apply Forall_lookup. intros j y Hj. assert (Hjl : (j < i)%nat).
      { apply lookup_lt_Some in Hj. pose proof (zlen_sub_le p r (Z.of_nat i)). unfold zlen in *. lia. }
      assert (Hy : sub p r 64 !! j = Some y) by (rewrite sub_lookup in Hj |- * by lia; done).
      assert (y ≠ 0) by (eapply Hbefore; eauto).
      assert (is_u8 y) by (eapply Forall_lookup_1; [by apply bytes_sub|exact Hj]). unfold is_u8 in *. lia. }
    assert (Hname : memchr0 p r 64 = Some (Z.of_nat i)).
    { unfold memchr0. rewrite (proj2 (list_find_Some _ _ i 0)); [done|]. by split_and!. }
    split_and!; [done| | |by unfold name_at; change WADB_NAME_CAP with 64; rewrite Hname].
    + rewrite <-Hi. symmetry. rewrite <-(take_drop (Z.to_nat (Z.of_nat i)) (drop (Z.to_nat r) p)).
      rewrite drop_drop. destruct (drop (Z.to_nat r + Z.to_nat (Z.of_nat i)) p) as [|c rest] eqn:Ed.
      { apply (f_equal length) in Ed. rewrite length_drop in Ed. unfold zlen in *. cbn in Ed. lia. }
      assert (c = 0) as ->.
      { rewrite sub_lookup in Hx by lia. rewrite <-(Nat.add_0_r (_ + i)), <-lookup_drop in Hx.
        replace (Z.to_nat r + i)%nat with (Z.to_nat r + Z.to_nat (Z.of_nat i))%nat in Hx by lia.
        rewrite Ed in Hx. by injection Hx. }
      apply identifier_terminated.
    + unfold padded_name, WADB_NAME_CAP. rewrite zlen_sub by lia. rewrite <-Hz. symmetry. apply sub_join; lia.
  - intros (name&Hn&Hi&Hs&_). pose proof (identifier_length name Hn Hi).
    rewrite (memchr0_padded p r name) by (done || lia). apply andb_true_iff.
    change WADB_NAME_CAP with 64 in *. split.
    + destruct (drop_padded p r name) as [rest ->]; [lia..|done|]. by rewrite identifier_terminated.
    + apply zeroes_spec; [lia..|]. rewrite <-sub_sub with (n := 64) by lia. rewrite Hs.
      unfold padded_name. change WADB_NAME_CAP with 64. rewrite sub_app_r, Z.sub_diag, sub_zrep by lia. done.
Qed.

(** ** The schema file *)

Definition field_record (d : wadb_field_def) : list Z :=
  padded_name (def_name d) ++ le_split 4 (u32 (type_tag (def_type d))) ++ le_split 4 (def_size d) ++
  le_split 4 (Z.b2z (def_nullable d)) ++ zrep 4 0.
(** A definition that a record can hold. *)
Definition def_stored (d : wadb_field_def) : Prop :=
  cname (def_name d) ∧ wadb_identifier (def_name d) = true ∧ is_u32 (def_size d) ∧
  is_u32 (type_tag (def_type d)) ∧ type_of_tag (type_tag (def_type d)) = def_type d.

Lemma type_of_tag_tag n : type_tag (type_of_tag n) = n.
Proof.
  unfold type_of_tag. destruct (_ && _) eqn:H; [|done].
  assert (Hn : n ∈ seqZ 1 16) by (apply elem_of_seqZ; lia). clear H. revert n Hn.
  apply Forall_forall. repeat constructor.
Qed.
Lemma zlen_field_record d : def_stored d → zlen (field_record d) = 80.
Proof.
  intros (Hn&Hi&_). apply identifier_length in Hi; [|done]. unfold field_record.
  rewrite !zlen_app, zlen_padded_name, !zlen_le_split by lia. done.
Qed.
Lemma bytes_padded_name name : cname name → bytes (padded_name name).
Proof. intros. apply bytes_app; [by apply cname_bytes|by apply bytes_zrep]. Qed.

Lemma put_padded name :
  zlen name < WADB_NAME_CAP → put (zrep 80 0) 0 name = padded_name name ++ zrep 16 0.
Proof.
  intros H. unfold padded_name, WADB_NAME_CAP in *. pose proof (zlen_nonneg name).
  replace 80 with (zlen name + ((64 - zlen name) + 16)) by lia.
  rewrite !zrep_app by lia. rewrite put_app_l, put_all by (rewrite ?zlen_zrep; lia). by rewrite app_assoc.
Qed.

Lemma put_field_fill a b f :
  def_stored (def_of f) →
  put_field (a ++ zrep 80 0 ++ b) (zlen a) f = a ++ field_record (def_of f) ++ b.
Proof.
  intros (Hn&Hi&_&_&_). apply identifier_length in Hi; [|done]. cbn in Hi.
  unfold put_field. pose proof (zlen_nonneg a). rewrite !put_u32_spec by lia.
  change (zlen (zrep 80 0)) with 80.
  rewrite (put_mid a _ _ _ (zlen a) 0) by (change (zlen (zrep 80 0)) with 80; unfold WADB_NAME_CAP in *; lia).
  rewrite put_padded by lia. set (q := padded_name (f_name f)).
  assert (Hq : zlen q = 64) by (apply zlen_padded_name; lia).
  assert (Hin : ∀ x k v, zlen x = 80 → 0 ≤ k → k + 4 ≤ 80 →
    put (a ++ x ++ b) (zlen a + k) (le_split 4 v) = a ++ put x k (le_split 4 v) ++ b)
    by (intros; apply put_mid; rewrite ?zlen_le_split; lia).
  rewrite !Hin by (rewrite ?zlen_put, ?zlen_app, ?Hq; done || lia). f_equal. f_equal.
  rewrite !put_app_r by (rewrite ?Hq; lia). rewrite Hq. reflexivity.
Qed.

Lemma b2z_u32 b : u32 (Z.b2z b) = Z.b2z b.
Proof. by destruct b. Qed.
Lemma pieces_sub p r n ns :
  0 ≤ r → Forall (λ k, 0 ≤ k) ns → n = foldr Z.add 0 ns → sub p r n = pieces p r ns.
Proof. intros ?? ->. by rewrite pieces_all. Qed.

(** Reading one record back. *)
Lemma field_record_reads p r d :
  bytes p → 0 ≤ r → r + 80 ≤ zlen p → def_stored d → sub p r 80 = field_record d →
  stored_name p r = true ∧ name_at p r = def_name d ∧ wadb_get_u32 p (r + 64) = type_tag (def_type d) ∧
  wadb_get_u32 p (r + 68) = def_size d ∧ wadb_get_u32 p (r + 72) = Z.b2z (def_nullable d) ∧
  zeroes p (r + 76) 4 = true.
Proof.
  intros Hp Hr Hl (Hn&Hi&Hsz&Htag&Hty) Hrec. pose proof (identifier_length _ Hn Hi) as Hnl.
  set (q := padded_name (def_name d)).
  assert (Hq : zlen q = 64) by (apply zlen_padded_name; lia).
  assert (Htail : ∀ k m, 64 ≤ k → 0 ≤ m → k + m ≤ 80 →
    sub p (r + k) m = sub (le_split 4 (u32 (type_tag (def_type d))) ++ le_split 4 (def_size d) ++
      le_split 4 (Z.b2z (def_nullable d)) ++ zrep 4 0) (k - 64) m).
  { intros. rewrite <-(sub_sub p r 80 k m), Hrec by lia. unfold field_record. fold q.
    by rewrite sub_app_r, Hq by lia. }
  assert (Hs : sub p r 64 = q).
  { rewrite <-(sub_sub_0 p r 80 64), Hrec by lia. unfold field_record. fold q. by rewrite sub_app_l, sub_all by lia. }
  assert (Hna : name_at p r = def_name d).
  { unfold name_at. rewrite (memchr0_padded p r (def_name d)) by (done || lia).
    rewrite <-(sub_sub_0 p r 64 (zlen (def_name d))) by (unfold WADB_NAME_CAP in *; lia). rewrite Hs.
    unfold q, padded_name. rewrite sub_app_l, sub_all by lia. done. }
  rewrite (get_u32_at p (r + 72) (Z.b2z (def_nullable d))), b2z_u32,
    (get_u32_at p (r + 64) (u32 (type_tag (def_type d)))), (get_u32_at p (r + 68) (def_size d))
    by (lia || by rewrite Htail by lia).
  rewrite !u32_id by first [done|apply u32_range].
  split_and!; try done; [|apply zeroes_spec; [lia..|by rewrite Htail by lia]].
  apply stored_name_iff; [done|lia|lia|]. by exists (def_name d).
Qed.

Lemma load_fields_iff n p r defs :
  bytes p → 0 ≤ r → r + 80 * Z.of_nat n ≤ zlen p →
  load_fields n p r = Some defs ↔
  length defs = n ∧ Forall def_stored defs ∧ sub p r (80 * Z.of_nat n) = array_image field_record defs.
Proof.
  intros Hp. revert r defs. induction n as [|n IH]; intros r defs Hr Hl.
  { cbn [load_fields]. split; [intros [= <-]|]; [by rewrite sub_nil|]. by intros [->%length_zero_iff_nil _]. }
  cbn [load_fields]. assert (Hsn := stored_name_iff p r Hp Hr ltac:(lia)). split.
  - destruct (stored_name p r); [|done]. destruct (proj1 Hsn eq_refl) as (name&Hn&Hi&Hs&Hna).
    destruct (Z.gtb_spec (wadb_get_u32 p (r + 72)) 1) as [|H72]; [done|].
    destruct (zeroes p (r + 76) 4) eqn:Hz; [|done]. cbn [negb orb].
    destruct (load_fields n p (r + 80)) as [defs'|] eqn:Hf; [|done]. intros [= <-].
    apply IH in Hf as (Hlen&Hst&Himg); [|lia..]. apply zeroes_spec in Hz; [|lia..].
    assert (Hb : Z.b2z (negb (wadb_get_u32 p (r + 72) =? 0)) = wadb_get_u32 p (r + 72)).
    { pose proof (get_u32_range p (r + 72) Hp ltac:(lia) ltac:(lia)) as Hrg. unfold is_u32 in Hrg.
      destruct (Z.eqb_spec (wadb_get_u32 p (r + 72)) 0); cbn; lia. }
    split; [cbn; lia|]. split.
    + constructor; [|done]. rewrite Hna. unfold def_stored. cbn. rewrite type_of_tag_tag.
      split_and!; try done; apply get_u32_range; done || lia.
    + replace (80 * Z.of_nat (S n)) with (80 + 80 * Z.of_nat n) by lia. rewrite sub_app by lia.
      rewrite Himg. unfold array_image. cbn [map concat]. f_equal.
      rewrite (pieces_sub p r 80 [64;4;4;4;4]) by first [lia|repeat constructor; lia|done].
      unfold field_record. cbn [def_name def_type def_size def_nullable]. rewrite Hna, type_of_tag_tag, Hb, <-Hs, <-Hz.
      rewrite u32_id by (apply get_u32_range; done || lia). rewrite <-!split_u32 by (done || lia).
      cbn [pieces]. rewrite app_nil_r, <-!Z.add_assoc. done.
  - intros (Hlen&Hst&Himg). destruct defs as [|d defs]; [done|]. cbn [length] in Hlen. injection Hlen as Hlen.
    destruct (array_cons def_stored field_record 80 zlen_field_record p r d defs) as [Hrec Hrest]; [done|done|done| |].
    { rewrite <-Himg. f_equal. unfold zlen. cbn [length]. lia. }
    apply Forall_cons in Hst as [Hd Hst].
    destruct (field_record_reads p r d) as (Hst1&Hna&H64&H68&H72&Hz); [done|done|lia|done|done|].
    destruct Hd as (_&_&_&_&Hty). rewrite Hst1, Hna, H64, H68, H72, Hz, Hty.
    rewrite (proj2 (IH (r + 80) defs ltac:(lia) ltac:(lia))).
    { destruct d as [? ? ? []]; done. }
    split_and!; [done|done|]. rewrite <-Hrest. f_equal. unfold zlen. lia.
Qed.

Definition schema_head (t : table_identity) : list Z :=
  SCHEMA_MAGIC ++ le_split 4 WADB_FORMAT_VERSION ++ le_split 4 (field_count (t_schema t) - 1) ++
  le_split 8 (t_id t) ++ le_split 8 (fingerprint (t_schema t)) ++ le_split 4 (row_width (t_schema t)) ++
  le_split 4 (null_bytes (t_schema t)) ++ padded_name (t_name t) ++ zrep 24 0.
Definition schema_body (t : table_identity) : list Z :=
  schema_head t ++ array_image field_record (map def_of (tl (fields (t_schema t)))).
Definition schema_image (t : table_identity) : list Z := envelope_image (schema_body t).

(** The identity of a table that was created: a valid name and a compiled schema. *)
Definition identity_ok (t : table_identity) : Prop :=
  is_u64 (t_id t) ∧ cname (t_name t) ∧ wadb_identifier (t_name t) = true ∧
  ∃ defs, Forall (λ d, cname (def_name d) ∧ is_u32 (def_size d)) defs ∧
    wadb_schema_build defs = Ok (t_schema t).

Lemma known_type_tag t : known_type t = true → is_u32 (type_tag t) ∧ type_of_tag (type_tag t) = t.
Proof. unfold is_u32, UINT32_MAX. by destruct t. Qed.
Lemma hash_u64 data h : is_u64 h → is_u64 (wadb_hash data h).
Proof.
  intros Hh. unfold wadb_hash. revert h Hh. induction data as [|b data IH]; intros h Hh; [done|].
  cbn [fold_left]. apply IH. unfold hash_step. apply u64_range.
Qed.
Lemma hash_field_u64 f h : is_u64 h → is_u64 (hash_field h f).
Proof. intros Hh. unfold hash_field. apply hash_u64, hash_u64, Hh. Qed.
Lemma fingerprint_u64 fs h : is_u64 h → is_u64 (fold_left hash_field fs h).
Proof.
  apply (fold_left_inv is_u64 (λ _, True) hash_field); [|by apply Forall_true].
  intros a f Ha _. by apply hash_field_u64.
Qed.

(** The stored definitions are those of the compiled fields. *)
Lemma build_stored defs s :
  Forall (λ d, cname (def_name d) ∧ is_u32 (def_size d)) defs → wadb_schema_build defs = Ok s →
  map def_of (tl (fields s)) = defs ∧ Forall def_stored defs ∧ zlen defs = field_count s - 1 ∧
  zlen defs < WADB_MAX_FIELDS ∧ is_u64 (fingerprint s) ∧ is_u32 (row_width s) ∧ is_u32 (null_bytes s).
Proof.
  intros Hd Hb. pose proof (check_then_layout defs s) as Hlay. unfold is_u32 in Hlay.
  destruct Hlay as (fs&Hm&Hok); [eapply Forall_impl; [exact Hd|]; by intros ? []|done|].
  destruct Hok. unfold field_count. rewrite ok_fields, zlen_cons. cbn [tl].
  pose proof (packed_mono _ _ _ _ _ ok_packed) as [Hmono Hmono'].
  assert (Hz : zlen fs = zlen defs) by (rewrite <-Hm; by rewrite zlen_map).
  split_and!; [done| |lia|lia| | |].
  - rewrite <-Hm. rewrite <-Hm in Hd. apply Forall_forall. intros d Hin.
    rewrite Forall_forall in Hd. destruct (Hd d Hin) as [? ?].
    assert (Hv : valid_def d).
    { clear -ok_packed Hin. induction ok_packed; [by apply elem_of_nil in Hin|].
      cbn in Hin. apply elem_of_cons in Hin as [->|Hin]; auto. }
    destruct Hv as (?&_&_&Hk). apply known_type_tag in Hk as [??]. unfold def_stored. by split_and!.
  - rewrite ok_fingerprint. apply fingerprint_u64. unfold FNV_BASIS. mlia.
  - rewrite ok_width. unfold WADB_MAX_ROW_BYTES, WADB_MAX_FIELDS in *. pose proof (zlen_nonneg fs). mlia.
  - rewrite ok_null_bytes. unfold WADB_MAX_FIELDS in *. mlia.
Qed.

Lemma identity_stored t : identity_ok t → ∃ defs,
  map def_of (tl (fields (t_schema t))) = defs ∧ Forall def_stored defs ∧
  zlen defs = field_count (t_schema t) - 1 ∧ zlen defs < WADB_MAX_FIELDS ∧
  wadb_schema_build defs = Ok (t_schema t) ∧ is_u64 (fingerprint (t_schema t)) ∧
  is_u32 (row_width (t_schema t)) ∧ is_u32 (null_bytes (t_schema t)).
Proof.
  intros (_&_&_&defs&Hd&Hb). destruct (build_stored defs _ Hd Hb) as (?&?&?&?&?&?&?). exists defs. by split_and!.
Qed.
Lemma zlen_schema_head t : zlen (t_name t) ≤ WADB_NAME_CAP → zlen (schema_head t) = 128.
Proof. intros. unfold schema_head. rewrite !zlen_app, zlen_padded_name, !zlen_le_split by done. done. Qed.
Lemma bytes_field_record d : cname (def_name d) → bytes (field_record d).
Proof.
  intros. unfold field_record. repeat apply bytes_app; auto using cname_bytes with wadb; by apply bytes_zrep.
Qed.
Lemma bytes_schema_body t : identity_ok t → bytes (schema_body t).
Proof.
  intros Ht. destruct (identity_stored t Ht) as (defs&Hdefs&Hst&_). destruct Ht as (_&Hn&_&_).
  unfold schema_body. rewrite Hdefs. apply bytes_app.
  - unfold schema_head, SCHEMA_MAGIC. repeat apply bytes_app; auto using cname_bytes with wadb; by apply bytes_zrep.
  - clear Hdefs. induction Hst as [|d defs (Hd&_) _ IH]; [constructor|]. apply bytes_app; [by apply bytes_field_record|done].
Qed.

Lemma schema_buffer_image t : identity_ok t → sealed (schema_buffer t) = schema_image t.
Proof.
  intros Ht. destruct (identity_stored t Ht) as (defs&Hdefs&Hst&Hz&Hlt&_). destruct Ht as (_&Hn&Hi&_).
  apply identifier_length in Hi; [|done]. unfold schema_image, schema_body. rewrite <-sealed_image. f_equal.
  unfold schema_buffer. rewrite <-Hz. pose proof (zlen_nonneg defs). rewrite !put_u32_spec, !put_u64_spec by lia.
  replace (132 + zlen defs * 80) with (40 + (64 + (24 + (80 * zlen defs + 4)))) by lia.
  rewrite (zrep_app 40), (zrep_app 64), (zrep_app 24), (zrep_app (80 * _)) by lia.
  set (r := zrep 24 0 ++ _).
  rewrite (put_app_l (zrep 40 0)) by (change (zlen (zrep 40 0)) with 40; change (zlen SCHEMA_MAGIC) with 8; lia).
  rewrite !put_app_l by (rewrite ?zlen_put, ?zlen_le_split; change (zlen (zrep 40 0)) with 40; lia).
  set (h := put _ 36 _).
  assert (Hh : zlen h = 40) by (unfold h; rewrite !zlen_put; done).
  rewrite put_app_r, Hh, Z.sub_diag by lia.
  assert (Hname : put (zrep 64 0 ++ r) 0 (t_name t) = padded_name (t_name t) ++ r).
  { unfold padded_name. change WADB_NAME_CAP with 64 in *.
    replace 64 with (zlen (t_name t) + (64 - zlen (t_name t))) at 1 by lia.
    rewrite zrep_app, <-!app_assoc by lia. rewrite put_app_l, put_all by (rewrite ?zlen_zrep; lia). done. }
  rewrite Hname. unfold r. rewrite app_assoc, (app_assoc _ (zrep 24 0)).
  assert (Hhead : (h ++ padded_name (t_name t)) ++ zrep 24 0 = schema_head t).
  { unfold schema_head, h. rewrite <-Hz, !app_assoc. reflexivity. }
  rewrite Hhead. rewrite <-app_assoc.
  assert (Hfields : ∀ a b fs, Forall def_stored (map def_of fs) →
    put_fields (a ++ zrep (80 * zlen fs) 0 ++ b) (zlen a) fs = a ++ array_image field_record (map def_of fs) ++ b).
  { clear. intros a b fs Hfs. unfold array_image. rewrite map_map.
    apply (array_fill (λ f, def_stored (def_of f)) (λ f, field_record (def_of f)) 80
      (λ f Hf, zlen_field_record _ Hf) put_field put_fields); try done.
    - intros. by apply put_field_fill.
    - by rewrite List.Forall_map in Hfs. }
  specialize (Hfields (schema_head t) (zrep 4 0) (tl (fields (t_schema t)))).
  rewrite Hdefs, zlen_schema_head in Hfields by lia. rewrite <-(zlen_map def_of), Hdefs in Hfields.
  rewrite Hdefs. by apply Hfields.
Qed.

Lemma schema_decode_sound id p name s dir :
  bytes p → schema_decode id p = Ok (name, s) →
  identity_ok (Identity id name dir s) ∧ p = schema_image (Identity id name dir s).
Proof.
  intros Hp. unfold schema_decode. rewrite result_bind_ok. intros ([]&Henv&H).
  apply envelope_iff in Henv as [Hlen (body&Hpb&Hmg&Hver)]; [|done|lia].
  destruct (_ || _) eqn:Hc; [done|]. rewrite !orb_false_iff in Hc.
  destruct Hc as ((((Hcnt&Hlen')&Hid)&Hsn)&Hz).
  apply negb_false_iff, Z.eqb_eq in Hlen', Hid. apply negb_false_iff in Hsn. apply negb_false_iff, zeroes_spec in Hz; [|lia..].
  destruct (load_fields _ _ _) as [defs|] eqn:Hl; [|done].
  pose proof (get_u32_range p 12 Hp ltac:(lia) ltac:(lia)) as Hcr. unfold is_u32 in Hcr.
  apply load_fields_iff in Hl as (Hln&Hst&Himg); [|done|lia|rewrite Z2Nat.id; lia].
  rewrite Z2Nat.id in Himg by lia.
  destruct (wadb_schema_build defs) as [s'|] eqn:Hb; [|done]. destruct (_ || _) eqn:Hc; [done|]. injection H as <- <-.
  rewrite !orb_false_iff, !negb_false_iff, !Z.eqb_eq in Hc. destruct Hc as [[Hfp Hrw] Hnb].
  apply stored_name_iff in Hsn as (nm&Hcn&Hi&Hsub&Hna); [|done|lia|lia]. rewrite Hna.
  assert (Hds : Forall (λ d, cname (def_name d) ∧ is_u32 (def_size d)) defs)
    by (eapply Forall_impl; [exact Hst|]; by intros ? (?&?&?&?)).
  split.
  { unfold identity_ok. cbn. split_and!; [|done|done|by exists defs]. rewrite <-Hid. apply get_u64_range; done || lia. }
  destruct (build_stored defs s' Hds Hb) as (Hdefs&_&Hcount&_&_&_&_).
  unfold schema_image, schema_body. cbn [t_schema]. rewrite Hdefs.
  assert (Hbl : zlen body = zlen p - 4) by (rewrite Hpb; unfold envelope_image; rewrite zlen_app, zlen_le_split; lia).
  assert (Hbody : sub p 0 (zlen body) = body) by (rewrite Hpb; unfold envelope_image; rewrite sub_app_l, sub_all; lia || done).
  rewrite Hpb at 1. f_equal. rewrite <-Hbody at 1.
  replace (zlen body) with (128 + 80 * wadb_get_u32 p 12) by lia.
  rewrite sub_app by lia. change (0 + 128) with 128. rewrite Himg. f_equal.
  rewrite (pieces_sub p 0 128 [8;4;4;8;8;4;4;64;24]) by first [lia|repeat constructor; lia|done].
  assert (Hm8 : sub p 0 8 = SCHEMA_MAGIC) by (rewrite <-Hmg, <-Hbody, sub_sub_0; lia || done).
  assert (Hv8 : wadb_get_u32 p 8 = WADB_FORMAT_VERSION) by (rewrite <-Hver, <-Hbody, get_u32_sub; lia || done).
  assert (Hc12 : field_count s' - 1 = wadb_get_u32 p 12) by (rewrite <-Hcount; unfold zlen; lia).
  unfold schema_head. cbn [t_schema t_id t_name]. rewrite Hc12, Hfp, Hrw, Hnb, <-Hid, <-Hv8, <-Hm8, <-Hz, <-Hsub.
  rewrite <-!split_u64, <-!split_u32 by (done || lia). cbn [pieces]. by rewrite app_nil_r.
Qed.

Lemma zlen_schema_image t : identity_ok t → zlen (schema_image t) = 132 + 80 * (field_count (t_schema t) - 1).
Proof.
  intros Ht. destruct (identity_stored t Ht) as (defs&Hdefs&Hst&Hz&_). destruct Ht as (_&Hn&Hi&_).
  apply identifier_length in Hi; [|done]. unfold schema_image, envelope_image, schema_body.
  rewrite !zlen_app, zlen_schema_head, Hdefs, zlen_le_split by lia.
  rewrite (zlen_array_image def_stored _ 80 zlen_field_record) by done. lia.
Qed.
Lemma schema_decode_complete t :
  identity_ok t → schema_decode (t_id t) (schema_image t) = Ok (t_name t, t_schema t).
Proof.
  intros Ht. pose proof (zlen_schema_image t Ht) as Hlen. pose proof (bytes_schema_body t Ht) as Hbb.
  destruct (identity_stored t Ht) as (defs&Hdefs&Hst&Hz&Hlt&Hb&Hfp&Hrw&Hnb). destruct Ht as (Hid&Hn&Hi&_).
  pose proof (identifier_length _ Hn Hi) as Hnl. pose proof (zlen_nonneg defs). unfold schema_decode.
  set (p := schema_image t) in *. assert (Hp : bytes p) by (by apply bytes_envelope_image).
  assert (Hhl : zlen (schema_head t) = 128) by (apply zlen_schema_head; lia).
  assert (Hsub : ∀ o n, 0 ≤ o → 0 ≤ n → o + n ≤ 128 → sub p o n = sub (schema_head t) o n).
  { intros. unfold p, schema_image, envelope_image, schema_body. rewrite <-app_assoc, sub_app_l by lia. done. }
  assert (Henv : envelope p SCHEMA_MAGIC 132 = Ok ()).
  { apply envelope_iff; [done|lia|]. split; [lia|]. exists (schema_body t). split; [done|]. unfold schema_body. split.
    - by rewrite sub_app_l by lia.
    - rewrite <-(get_u32_sub _ 0 128 8), sub_app_l, sub_all by lia. done. }
  rewrite Henv. cbn [mbind result_bind].
  assert (H12 : wadb_get_u32 p 12 = zlen defs).
  { rewrite (get_u32_at p 12 (zlen defs)); [apply u32_id; unfold WADB_MAX_FIELDS in *; mlia|lia|].
    rewrite Hsub by lia. unfold schema_head. rewrite <-Hz. done. }
  assert (H16 : wadb_get_u64 p 16 = t_id t)
    by (rewrite (get_u64_at p 16 (t_id t)); [by apply u64_id|lia|by rewrite Hsub by lia]).
  assert (H24 : wadb_get_u64 p 24 = fingerprint (t_schema t))
    by (rewrite (get_u64_at p 24 (fingerprint (t_schema t))); [by apply u64_id|lia|by rewrite Hsub by lia]).
  assert (H32 : wadb_get_u32 p 32 = row_width (t_schema t))
    by (rewrite (get_u32_at p 32 (row_width (t_schema t))); [by apply u32_id|lia|by rewrite Hsub by lia]).
  assert (H36 : wadb_get_u32 p 36 = null_bytes (t_schema t))
    by (rewrite (get_u32_at p 36 (null_bytes (t_schema t))); [by apply u32_id|lia|by rewrite Hsub by lia]).
  set (a := SCHEMA_MAGIC ++ le_split 4 WADB_FORMAT_VERSION ++ le_split 4 (field_count (t_schema t) - 1) ++
    le_split 8 (t_id t) ++ le_split 8 (fingerprint (t_schema t)) ++ le_split 4 (row_width (t_schema t)) ++
    le_split 4 (null_bytes (t_schema t))).
  assert (Hh : schema_head t = a ++ padded_name (t_name t) ++ zrep 24 0) by (unfold a; by rewrite <-!app_assoc).
  assert (Hpl : zlen (padded_name (t_name t)) = 64) by (apply zlen_padded_name; lia).
  assert (Hnm : sub p 40 64 = padded_name (t_name t)) by (rewrite Hsub, Hh by lia; by eapply sub_mid).
  assert (H104 : zeroes p 104 24 = true).
  { apply zeroes_spec; [lia..|]. rewrite Hsub, Hh by lia. rewrite app_assoc, sub_app_r; rewrite zlen_app, Hpl; change (zlen a) with 40; done || lia. }
  assert (Hna : name_at p 40 = t_name t).
  { unfold name_at. rewrite (memchr0_padded p 40 (t_name t)) by (done || lia).
    rewrite <-(sub_sub_0 p 40 64 (zlen (t_name t))), Hnm by (unfold WADB_NAME_CAP in *; lia).
    unfold padded_name. rewrite sub_app_l, sub_all by lia. done. }
  assert (Hsn : stored_name p 40 = true) by (apply stored_name_iff; [done|lia|lia|by exists (t_name t)]).
  rewrite H12, H16, Hsn, H104, Hlen, Hz, Z.eqb_refl. rewrite <-Hz.
  rewrite (proj2 (Z.eqb_eq (132 + 80 * zlen defs) (132 + zlen defs * 80))) by lia.
  destruct (Z.geb_spec (zlen defs) WADB_MAX_FIELDS); [lia|]. cbn [negb orb].
  rewrite (proj2 (load_fields_iff (Z.to_nat (zlen defs)) p 128 defs Hp ltac:(lia) ltac:(lia))).
  { rewrite Hb, H24, H32, H36, Hna, !Z.eqb_refl. done. }
  rewrite Z2Nat.id by done. split_and!; [unfold zlen; lia|done|].
  unfold p, schema_image, envelope_image, schema_body. rewrite Hdefs, <-app_assoc.
  eapply sub_mid; [done|done|]. by rewrite (zlen_array_image def_stored _ 80 zlen_field_record).
Qed.

Definition schema_path (t : table_identity) : path := metadata_path (t_directory t) (cstr "schema").

Lemma save_schema_spec t w :
  identity_ok t →
  wp (wadb_save_schema t) (λ r w', directories w' = directories w ∧
    ((r = Ok () ∨ r = Err WADB_INDETERMINATE) ∧ zlen (t_directory t) + 8 ≤ 4096 ∧
       files w' = <[schema_path t := schema_image t]> (files w) ∨
     (r = Err WADB_IO ∨ r = Err WADB_NOMEM ∨ r = Err WADB_LIMIT) ∧ files w' = files w) ∧
    (quiet w → usable_directory (t_directory t) w → r = Ok () ∧ quiet w')) w.
Proof.
  intros Ht. unfold wadb_save_schema. apply allocate_spec; intros w1 [[Hf Hd] Hq].
  - eapply wp_mono; [apply install_spec|]. cbn beta. rewrite schema_buffer_image, Hf, Hd by done.
    intros r w' (Hd'&Hcase&Hok). split_and!; [done| |].
    + destruct Hcase as [(?&Hl&?)|?]; [left|by right]. split_and!; [done| |done].
      change (zlen (cstr "schema")) with 6 in Hl. lia.
    + intros Hw (Hdir&Hne&Hl). apply Hok; [auto|done|done| |change (zlen (cstr "schema")) with 6; lia].
      repeat constructor; done.
  - intros Hn. split_and!; [done|right; auto|done].
Qed.
Lemma load_schema_spec id dir w :
  wp (wadb_load_schema id dir) (λ r w', keeps w w' ∧
    (∀ t, r = Ok t → t_id t = id ∧ t_directory t = dir ∧ ∃ p, files w !! schema_path t = Some p ∧
       schema_decode id p = Ok (t_name t, t_schema t)) ∧
    (quiet w → ∀ p, files w !! metadata_path dir (cstr "schema") = Some p → zlen p ≤ 132 + 255 * 80 →
     zlen dir + 8 ≤ 4096 → r = (λ x, Identity id x.1 dir x.2) <$> schema_decode id p)) w.
Proof.
  unfold wadb_load_schema. apply wp_bind. eapply wp_mono; [apply load_spec|]. cbn beta.
  intros r w1 (Hk&Hr&Hrq). destruct r as [p|e].
  - specialize (Hr p eq_refl). apply wp_bind. unfold mlift, wp at 1. cbn [fst snd].
    destruct (schema_decode id p) as [[name s]|e] eqn:Hd.
    + apply wp_ret. split_and!; [done| |].
      * intros t [= <-]. cbn. split_and!; [done|done|]. by exists p.
      * intros _ p' Hp' _ _. assert (p' = p) as -> by congruence. by rewrite Hd.
    + split_and!; [done|done|]. intros _ p' Hp' _ _. assert (p' = p) as -> by congruence. by rewrite Hd.
  - split_and!; [done|done|]. intros Hw p Hp Hl Hdir. specialize (Hrq Hw p Hp Hl).
    discriminate Hrq; [done|]. change (zlen (cstr "schema")) with 6. lia.
Qed.

(** A table's schema file is read back exactly: for a table with a valid name and
    a compiled schema, a save that reports WADB_OK or WADB_INDETERMINATE makes a
    restart rebuild the same name and the same schema, layout and fingerprint
    included, and any other outcome leaves the disk as it was. *)
Theorem schema_round_trip t w r w' :
  identity_ok t → wadb_save_schema t w = (r, w') →
  (r = Ok () ∨ r = Err WADB_INDETERMINATE) ∧
    fst (wadb_load_schema (t_id t) (t_directory t) (rebooted w')) = Ok t ∨
  (r = Err WADB_IO ∨ r = Err WADB_NOMEM ∨ r = Err WADB_LIMIT) ∧ rebooted w' = rebooted w.
Proof.
  intros Ht H. eapply wp_out in H; [|by apply save_schema_spec]. destruct H as (Hd&Hcase&_).
  destruct Hcase as [(Hr&Hl&Hf)|[Hr Hf]]; [left|right]; (split; [done|]).
  - destruct (wadb_load_schema _ _ (rebooted w')) as [r' w''] eqn:E.
    eapply wp_out in E; [|apply load_schema_spec]. destruct E as (_&_&E). cbn [fst].
    rewrite (E (rebooted_quiet w') (schema_image t)).
    + rewrite schema_decode_complete by done. by destruct t.
    + cbn. rewrite Hf. apply lookup_insert_eq.
    + rewrite zlen_schema_image by done. destruct (identity_stored t Ht) as (defs&_&_&?&?&_).
      unfold WADB_MAX_FIELDS in *. lia.
    + lia.
  - unfold rebooted. by rewrite Hf, Hd.
Qed.

(** ** The catalog file *)

Definition id_record (id : Z) : list Z := le_split 8 id.
Definition catalog_head (next count : Z) : list Z :=
  CATALOG_MAGIC ++ le_split 4 WADB_FORMAT_VERSION ++ le_split 4 32 ++ le_split 4 (u32 count) ++ zrep 4 0 ++ le_split 8 next.
Definition catalog_image (next : Z) (ids : list Z) : list Z :=
  envelope_image (catalog_head next (zlen ids) ++ array_image id_record ids).

Lemma put_ids_app p o a b : put_ids p o (a ++ b) = put_ids (put_ids p o a) (o + 8 * zlen a) b.
Proof.
  revert p o. induction a as [|x a IH]; intros p o; cbn [app put_ids].
  - change (zlen (@nil Z)) with 0. by rewrite Z.add_0_r.
  - rewrite IH, zlen_cons. f_equal. lia.
Qed.
(** The buffer is that of the list of tables with the addition at its end. *)
Lemma catalog_buffer_image next tables addition :
  sealed (catalog_buffer next tables addition) = catalog_image next (tables ++ option_list addition).
Proof.
  unfold catalog_image. rewrite <-sealed_image. f_equal. set (ids := tables ++ option_list addition).
  assert (Hids : zlen ids = zlen tables + match addition with Some _ => 1 | None => 0 end).
  { unfold ids. rewrite zlen_app. by destruct addition. }
  unfold catalog_buffer. rewrite <-Hids. pose proof (zlen_nonneg ids). pose proof (zlen_nonneg tables).
  rewrite !put_u32_spec, put_u64_spec by lia. set (h := put (put _ 16 _) 24 _).
  assert (Hput : match addition with Some id => wadb_put_u64 (put_ids h 32 tables) (32 + zlen tables * 8) id
    | None => put_ids h 32 tables end = put_ids h 32 ids).
  { unfold ids. rewrite put_ids_app. destruct addition; cbn [option_list put_ids]; [|done].
    by rewrite (Z.mul_comm 8). }
  rewrite Hput. unfold h. replace (32 + zlen ids * 8 + 4) with (32 + (8 * zlen ids + 4)) by lia.
  rewrite (zrep_app 32), (zrep_app (8 * _)) by lia.
  rewrite (put_app_l (zrep 32 0)) by (change (zlen (zrep 32 0)) with 32; change (zlen CATALOG_MAGIC) with 8; lia).
  rewrite !put_app_l by (rewrite ?zlen_put, ?zlen_le_split; change (zlen (zrep 32 0)) with 32; lia).
  change (put _ 24 (le_split 8 next)) with (catalog_head next (zlen ids)). rewrite <-app_assoc.
  apply (array_fill (λ _, True) id_record 8 (λ _ _, eq_refl) (λ p o id, wadb_put_u64 p o id) put_ids);
    try done; [|by apply Forall_true].
  intros a b id _. pose proof (zlen_nonneg a). rewrite put_u64_spec by lia. by rewrite put_fill.
Qed.

(** ** A table on disk *)

Definition md_segments : list wadb_segment_meta :=
  [SegmentMeta 1 0 1 2 5 9 400 WADB_SEG_SEALED; SegmentMeta 2 86400000000 3 0 0 0 128 WADB_SEG_ACTIVE].
Definition md_manifest : table_manifest := Manifest 3 0 0 0 4 md_segments.
Definition md_identity : table_identity :=
  Identity 1 (cstr "views") (cstr "/db/tables/1")
    match wadb_schema_build page_view_defs with Ok s => s | Err _ => Schema 0 0 0 [] end.
Definition md_os (cs : list outcome) : os := Os ∅ {[cstr "/db/tables/1"]} cs [] [] [].

Lemma md_manifest_ok : manifest_ok 1 md_manifest.
Proof.
  unfold manifest_ok, md_manifest, md_segments. cbn.
  unfold segment_ranges, segment_valid, WADB_MAX_SEGMENTS, WADB_SEGMENT_HEADER_BYTES, WADB_DAY_US, zlen. cbn.
  repeat match goal with |- _ ∧ _ => split end; try done; unfold_widths; try lia.
Qed.
Lemma md_identity_ok : identity_ok md_identity.
Proof.
  unfold identity_ok. split_and!; [by cbn|by repeat constructor|done|]. exists page_view_defs. split; [|by vm_compute].
  repeat constructor; unfold_widths; cbn; lia.
Qed.

Lemma manifest_round_trip_witness : ∃ w',
  wadb_save_manifest md_identity md_manifest (md_os [Success; Count 7]) = (Ok (), w') ∧
  fst (wadb_load_manifest md_identity (rebooted w')) = Ok md_manifest.
Proof.
  destruct (wadb_save_manifest md_identity md_manifest (md_os [Success; Count 7])) as [r w'] eqn:E.
  assert (r = Ok ()) as -> by (vm_compute in E; congruence). exists w'. split; [done|].
  destruct (manifest_round_trip md_identity md_manifest _ _ _ md_manifest_ok E) as [[_ H]|[[H|[H|H]] _]]; done.
Defined.
Lemma manifest_canonical_witness : ∃ m w',
  wadb_load_manifest md_identity (Os {[manifest_path md_identity := manifest_image 1 md_manifest]} ∅ [] [] [] []) = (Ok m, w') ∧
  manifest_ok 1 m.
Proof.
  set (w := Os {[manifest_path md_identity := manifest_image 1 md_manifest]} ∅ [] [] [] []).
  destruct (wadb_load_manifest md_identity w) as [r w'] eqn:E.
  assert (r = Ok md_manifest) as -> by (apply (f_equal fst) in E; cbn [fst] in E; rewrite <-E; vm_compute; reflexivity). exists md_manifest, w'. split; [done|].
  eapply (manifest_canonical md_identity w md_manifest w' (manifest_image 1 md_manifest)); [|apply (bool_decide_unpack _); vm_compute; exact I|exact E].
  vm_compute. reflexivity.
Defined.
Lemma schema_round_trip_witness : ∃ w',
  wadb_save_schema md_identity (md_os [Interrupted]) = (Err WADB_IO, w') ∧
  rebooted w' = rebooted (md_os [Interrupted]).
Proof.
  destruct (wadb_save_schema md_identity (md_os [Interrupted])) as [r w'] eqn:E.
  assert (r = Err WADB_IO) as -> by (vm_compute in E; congruence). exists w'. split; [done|].
  destruct (schema_round_trip md_identity _ _ _ md_identity_ok E) as [[[H|H] _]|[_ H]]; done.
Defined.
