(* ===== verification/Paths.v ===== *)
(** * Paths of segment files (src/storage/segments.c)

    [<table>/<YYYY-MM-DD>/<20-digit id>.<extension>]. The calendar date of a day is
    that of [gmtime_r] in the proleptic Gregorian calendar; the days from the civil
    date of a day are the day again. *)

From Stdlib Require Import String.
From stdpp Require Import base numbers list list_numbers gmap.
From S2P Require Import Prelude Encoding Schema Format Files Engine.

(** ** Calendar dates *)

(** Year, month and day of a number of days since 1970-01-01. *)
Definition civil_from_days (days : Z) : Z * Z * Z :=
  let z := days + 719468 in
  let era := z / 146097 in
  let doe := z - era * 146097 in
  let yoe := (doe - doe / 1460 + doe / 36524 - doe / 146096) / 365 in
  let doy := doe - (365 * yoe + yoe / 4 - yoe / 100) in
  let mp := (5 * doy + 2) / 153 in
  let d := doy - (153 * mp + 2) / 5 + 1 in
  let m := if mp <? 10 then mp + 3 else mp - 9 in
  (yoe + era * 400 + (if m <=? 2 then 1 else 0), m, d).
(** The inverse: days before the year, before the month, and in the month. *)
Definition days_from_civil (y m d : Z) : Z :=
  let y := if m <=? 2 then y - 1 else y in
  let era := y / 400 in
  let yoe := y - era * 400 in
  let doy := (153 * (if m >? 2 then m - 3 else m + 9) + 2) / 5 + d - 1 in
  era * 146097 + (yoe * 365 + yoe / 4 - yoe / 100 + doy) - 719468.

Example epoch : civil_from_days 0 = (1970, 1, 1).
Proof. reflexivity. Qed.
Example leap_day : civil_from_days 19782 = (2024, 2, 29).
Proof. reflexivity. Qed.

(** A boolean fact about a range of integers, by evaluation. *)
Fixpoint all_from (P : Z → bool) (n : nat) (z : Z) : bool :=
  match n with O => true | S n' => if P z then all_from P n' (z + 1) else false end.
Lemma all_from_spec P n z : all_from P n z = true → ∀ x, z ≤ x < z + Z.of_nat n → P x = true.
Proof.
  revert z. induction n as [|n IH]; intros z H x Hx; [lia|]. cbn [all_from] in H.
  destruct (P z) eqn:Hz; [|done]. destruct (decide (x = z)) as [->|]; [done|]. apply (IH (z + 1)); [done|lia].
Qed.

Definition year_of_era (doe : Z) : Z := (doe - doe / 1460 + doe / 36524 - doe / 146096) / 365.
Lemma year_of_era_range doe : 0 ≤ doe < 146097 →
  0 ≤ year_of_era doe < 400 ∧
  0 ≤ doe - (365 * year_of_era doe + year_of_era doe / 4 - year_of_era doe / 100) < 367.
Proof.
  intros H. pose proof (all_from_spec (λ doe, let y := year_of_era doe in let r := doe - (365 * y + y / 4 - y / 100) in
    (0 <=? y) && (y <? 400) && (0 <=? r) && (r <? 367))
    (Z.to_nat 146097) 0 ltac:(vm_compute; reflexivity) doe ltac:(lia)) as Hall. cbn zeta beta in Hall. lia.
Qed.
(** The date determines the day. *)
Lemma civil_round_trip days :
  let '(y, m, d) := civil_from_days days in days_from_civil y m d = days ∧ 1 ≤ m ≤ 12 ∧ 1 ≤ d ≤ 31.
Proof.
  unfold civil_from_days. set (z := days + 719468). set (doe := z - z / 146097 * 146097).
  assert (Hdoe : 0 ≤ doe < 146097) by (unfold doe; mlia).
  change ((doe - doe / 1460 + doe / 36524 - doe / 146096) / 365) with (year_of_era doe).
  pose proof (year_of_era_range doe Hdoe) as [Hy Hd]. set (yoe := year_of_era doe) in *.
  set (doy := doe - (365 * yoe + yoe / 4 - yoe / 100)) in *.
  set (mp := (5 * doy + 2) / 153). assert (Hmp : 0 ≤ mp ≤ 11 ∧ 0 ≤ doy - (153 * mp + 2) / 5 ≤ 30).
  { assert (Hin : doy ∈ seqZ 0 367) by (apply elem_of_seqZ; lia). unfold mp. clearbody doy. clear -Hin. revert doy Hin.
    apply Forall_forall, (bool_decide_unpack _). vm_compute. exact I. }
  unfold days_from_civil. destruct (Z.ltb_spec mp 10) as [Hm|Hm].
  - rewrite (proj2 (Z.leb_gt (mp + 3) 2)), (proj2 (Z.gtb_lt (mp + 3) 2)) by lia.
    replace ((yoe + z / 146097 * 400 + 0) / 400) with (z / 146097) by mlia.
    replace (mp + 3 - 3) with mp by lia. split; [|lia].
    replace (yoe + z / 146097 * 400 + 0 - z / 146097 * 400) with yoe by lia. unfold doy, doe, z in *. lia.
  - rewrite (proj2 (Z.leb_le (mp - 9) 2)) by lia. destruct (Z.gtb_spec (mp - 9) 2); [lia|].
    replace ((yoe + z / 146097 * 400 + 1 - 1) / 400) with (z / 146097) by mlia.
    replace (mp - 9 + 9) with mp by lia. split; [|lia].
    replace (yoe + z / 146097 * 400 + 1 - 1 - z / 146097 * 400) with yoe by lia. unfold doy, doe, z in *. lia.
Qed.

(** [%Y]: the digits of a positive year, without padding. *)
Fixpoint digits (fuel : nat) (z : Z) : list Z :=
  match fuel with
  | O => []
  | S fuel' => (if z <? 10 then [] else digits fuel' (z / 10)) ++ [48 + z `mod` 10]
  end.
(** [strftime "%Y-%m-%d"]. *)
Definition DASH : Z := 45.
Definition date_name (day_start : Z) : list Z :=
  let seconds := Z.quot day_start 1000000 in
  let '(y, m, d) := civil_from_days (seconds / 86400) in
  digits 20 y ++ [DASH] ++ decimal 2 m ++ [DASH] ++ decimal 2 d.

(** ** Paths *)

Definition partition_path (t : table_identity) (day_start : Z) : M os (option path) :=
  wadb_path (t_directory t) (date_name day_start).
Definition DOT : Z := 46.
Definition segment_name (id : Z) (ext : list Z) : list Z := decimal 20 id ++ [DOT] ++ ext.
Definition wadb_segment_path (t : table_identity) (s : wadb_segment_meta) (ext : list Z)
    : M os (option path) :=
  dir ← partition_path t (sg_day_start s);
  match dir with
  | None => mret None
  | Some dir => wadb_path dir (segment_name (sg_id s) ext)
  end.

Definition partition_dir (t : table_identity) (day_start : Z) : path :=
  t_directory t ++ SLASH :: date_name day_start.
Definition segment_file (t : table_identity) (s : wadb_segment_meta) (ext : list Z) : path :=
  partition_dir t (sg_day_start s) ++ SLASH :: segment_name (sg_id s) ext.

Lemma partition_path_spec t day w :
  wp (partition_path t day) (λ r w', ∃ o, r = Ok o ∧ keeps w w' ∧
    (o = None ∨ o = Some (partition_dir t day)) ∧
    (quiet w → zlen (partition_dir t day) < 4096 → o = Some (partition_dir t day))) w.
Proof.
  eapply wp_mono; [apply wadb_path_spec|]. cbn beta. intros r w' (o&->&Hk&Ho&Hq). exists o.
  split_and!; [done|done|naive_solver|]. intros Hw Hl. apply Hq; [done|].
  unfold partition_dir in Hl. rewrite zlen_app, zlen_cons in Hl. lia.
Qed.
Lemma segment_path_spec t s ext w :
  wp (wadb_segment_path t s ext) (λ r w', ∃ o, r = Ok o ∧ keeps w w' ∧
    (o = None ∨ o = Some (segment_file t s ext)) ∧
    (quiet w → zlen (segment_file t s ext) < 4096 → o = Some (segment_file t s ext))) w.
Proof.
  unfold wadb_segment_path. apply wp_bind. eapply wp_mono; [apply partition_path_spec|]. cbn beta.
  intros r w1 (o&->&Hk&Ho&Hq). unfold segment_file. set (d := partition_dir t (sg_day_start s)) in *.
  set (n := segment_name (sg_id s) ext). pose proof (zlen_nonneg n) as Hn0. destruct o as [dir|].
  - destruct Ho as [|[= ->]]; [done|]. eapply wp_mono; [apply wadb_path_spec|]. cbn beta.
    intros r w' (o&->&Hk2&Ho&Hq2). exists o. split_and!; [done|by etrans|naive_solver|].
    intros Hw Hl. apply Hq2; [by apply Hk|]. rewrite zlen_app, zlen_cons in Hl. fold n. lia.
  - apply wp_ret. exists None. split_and!; [done|done|by left|]. intros Hw Hl.
    rewrite zlen_app, zlen_cons in Hl. discriminate Hq; [done|lia].
Qed.

(** Files of segments with different identifiers, or of different kinds, are different. *)
Lemma segment_file_inj t s s' ext ext' :
  is_u64 (sg_id s) → is_u64 (sg_id s') → zlen ext = zlen ext' →
  segment_file t s ext = segment_file t s' ext' → sg_id s = sg_id s' ∧ ext = ext'.
Proof.
  intros Hs Hs' Hl H. unfold segment_file, segment_name in H.
  change (SLASH :: decimal 20 (sg_id s) ++ [DOT] ++ ext) with ([SLASH] ++ decimal 20 (sg_id s) ++ [DOT] ++ ext) in H.
  change (SLASH :: decimal 20 (sg_id s') ++ [DOT] ++ ext') with ([SLASH] ++ decimal 20 (sg_id s') ++ [DOT] ++ ext') in H.
  rewrite !app_assoc in H. apply app_inj_2 in H as [H ->]; [|by unfold zlen in Hl; lia].
  apply app_inj_2 in H as [H _]; [|done]. apply app_inj_2 in H as [_ H].
  - split; [|done]. apply decimal_inj in H; [done|..]; change (10 ^ Z.of_nat 20) with 100000000000000000000; unfold_widths; lia.
  - pose proof (zlen_decimal 20 (sg_id s)). pose proof (zlen_decimal 20 (sg_id s')). unfold zlen in *. lia.
Qed.

Definition EXT_SEG : list Z := cstr "seg".
Definition EXT_IDX : list Z := cstr "idx".

Lemma segment_name_no_slash id : Forall (λ c, c ≠ SLASH) (segment_name id EXT_SEG) ∧
  Forall (λ c, c ≠ SLASH) (segment_name id EXT_IDX).
Proof.
  unfold segment_name. split; apply Forall_app; (split; [apply decimal_no_slash|repeat constructor; done]).
Qed.
Lemma segment_file_parent t s ext :
  ext = EXT_SEG ∨ ext = EXT_IDX → parent_directory (segment_file t s ext) = partition_dir t (sg_day_start s).
Proof.
  intros He. unfold segment_file. apply parent_directory_path.
  - unfold partition_dir. intros [_ ?]%app_nil. done.
  - destruct He as [-> | ->]; apply segment_name_no_slash.
Qed.
(** A segment's files are no metadata files of the table. *)
Lemma segment_file_not_metadata t s ext :
  ext = EXT_SEG ∨ ext = EXT_IDX →
  segment_file t s ext ≠ t_directory t ++ SLASH :: cstr "manifest".
Proof.
  intros He H. apply (f_equal (λ l, last l)) in H. unfold segment_file, segment_name in H.
  destruct He as [-> | ->]; rewrite !last_app, !last_cons, !last_app in H; by vm_compute in H.
Qed.
