(* ===== verification/Index.v ===== *)
(** * Derived segment indexes (src/storage/index.c)

    The in-memory index of the active segment and the index file of a sealed one: a
    checksummed header, one 64-byte checksummed entry per frame, and a checkpoint of
    the segment's dictionary. An index file is immutable once installed, so the file
    descriptor of a reader is the contents of the file it opened. Rebuilding a damaged
    index is in Segments.v, where the log can be replayed. *)

From Stdlib Require Import String.
From stdpp Require Import base numbers list list_numbers gmap.
From S2P Require Import Prelude Encoding Utf8 Checksum Schema Format Dictionary Files Engine Metadata Paths.

(** ** The index in memory *)

Definition wadb_index_reserve (ix : wadb_frame_index) : M os wadb_frame_index :=
  if ix_count ix >=? WADB_MAX_INDEX_ENTRIES then mfail WADB_LIMIT
  else if ix_count ix <? ix_capacity ix then mret ix
  else
    let cap := if ix_capacity ix =? 0 then 64 else ix_capacity ix * 2 in
    let cap := if cap >? WADB_MAX_INDEX_ENTRIES then WADB_MAX_INDEX_ENTRIES else cap in
    p ← os_malloc;
    if negb p then mfail WADB_NOMEM else mret (FrameIndex (ix_entries ix) cap).
Definition index_push (ix : wadb_frame_index) (e : wadb_index_entry) : wadb_frame_index :=
  FrameIndex (ix_entries ix ++ [e]) (ix_capacity ix).

Definition wadb_index_for_frame (f : wadb_frame) (p : list Z) (offset : Z) : wadb_index_entry :=
  let n := wadb_get_u32 p 8 in
  IndexEntry (fr_min_time f) (fr_max_time f) (fr_first_sequence f) offset (fr_row_count f)
    (fr_dictionary_count f) n (u32 (WADB_FRAME_HEADER_BYTES + fr_dictionary_bytes f))
    (wadb_get_u32 p (n - 4))
    (wadb_crc32c (sub p WADB_FRAME_HEADER_BYTES (fr_dictionary_bytes f))).

(** The sequence number of the last row of an entry's frame. *)
Definition ie_last_sequence (v : wadb_index_entry) : Z := u64 (ie_first_sequence v + ie_row_count v - 1).

(** ** Entries on disk *)

Definition entry_encode (p : list Z) (o : Z) (v : wadb_index_entry) : list Z :=
  let p := put p o (zrep WADB_INDEX_ENTRY_BYTES 0) in
  let p := wadb_put_u64 p o (u64 (ie_min_time v)) in
  let p := wadb_put_u64 p (o + 8) (u64 (ie_max_time v)) in
  let p := wadb_put_u64 p (o + 16) (ie_first_sequence v) in
  let p := wadb_put_u32 p (o + 24) (ie_row_count v) in
  let p := wadb_put_u32 p (o + 28) (ie_dictionary_count v) in
  let p := wadb_put_u64 p (o + 32) (ie_frame_offset v) in
  let p := wadb_put_u32 p (o + 40) (ie_frame_bytes v) in
  let p := wadb_put_u32 p (o + 44) (ie_rows_offset v) in
  let p := wadb_put_u32 p (o + 48) (ie_frame_crc v) in
  let p := wadb_put_u32 p (o + 52) (ie_dictionary_crc v) in
  wadb_put_u32 p (o + 60) (wadb_crc32c (sub p o 60)).

(** The bounds of an entry of segment [s] with rows of [width] bytes. *)
Definition entry_bounds (s : wadb_segment_meta) (width : Z) (v : wadb_index_entry) : bool :=
  negb ((ie_row_count v =? 0) || (ie_first_sequence v =? 0) ||
    (ie_first_sequence v <? sg_first_sequence s) ||
    (ie_row_count v - 1 >? UINT64_MAX - ie_first_sequence v) ||
    (ie_last_sequence v >? sg_last_sequence s) ||
    (ie_min_time v <? sg_min_time s) || (ie_max_time v <? ie_min_time v) || (ie_max_time v >? sg_max_time s) ||
    (ie_frame_offset v <? WADB_SEGMENT_HEADER_BYTES) || (ie_frame_offset v >? sg_committed_bytes s) ||
    (ie_frame_bytes v >? WADB_MAX_FRAME_BYTES) ||
    (ie_frame_bytes v >? sg_committed_bytes s - ie_frame_offset v) ||
    (ie_rows_offset v <? WADB_FRAME_HEADER_BYTES) || negb (ie_rows_offset v `mod` 8 =? 0) ||
    negb (ie_frame_bytes v =? u64 (u64 (ie_rows_offset v + u64 (ie_row_count v * width)) + WADB_FRAME_TRAILER_BYTES)) ||
    (ie_dictionary_count v >? (ie_rows_offset v - WADB_FRAME_HEADER_BYTES) / 12)).
Definition entry_at (p : list Z) (o : Z) : wadb_index_entry :=
  IndexEntry (wadb_get_i64 p o) (wadb_get_i64 p (o + 8)) (wadb_get_u64 p (o + 16))
    (wadb_get_u64 p (o + 32)) (wadb_get_u32 p (o + 24)) (wadb_get_u32 p (o + 28))
    (wadb_get_u32 p (o + 40)) (wadb_get_u32 p (o + 44)) (wadb_get_u32 p (o + 48)) (wadb_get_u32 p (o + 52)).
Definition entry_decode (s : wadb_segment_meta) (width : Z) (p : list Z) (o : Z) : result wadb_index_entry :=
  if negb (wadb_get_u32 p (o + 56) =? 0) || negb (wadb_get_u32 p (o + 60) =? wadb_crc32c (sub p o 60))
  then Err WADB_CORRUPT
  else if negb (entry_bounds s width (entry_at p o)) then Err WADB_CORRUPT
  else Ok (entry_at p o).

(** ** Saving an index *)

Definition INDEX_MAGIC : list Z := cstr "WADBIDX1".
Definition CHECKPOINT_LIMIT : Z := 64 * 1024 * 1024.

Definition index_header (t : table_identity) (s : wadb_segment_meta) (count dictionary_offset
    dictionary_bytes dictionary_count : Z) (definitions : list Z) (p : list Z) : list Z :=
  let p := put p 0 INDEX_MAGIC in
  let p := wadb_put_u32 p 8 WADB_FORMAT_VERSION in
  let p := wadb_put_u32 p 12 WADB_INDEX_HEADER_BYTES in
  let p := wadb_put_u64 p 16 (t_id t) in
  let p := wadb_put_u64 p 24 (sg_id s) in
  let p := wadb_put_u64 p 32 (fingerprint (t_schema t)) in
  let p := wadb_put_u64 p 40 (sg_committed_bytes s) in
  let p := wadb_put_u64 p 48 count in
  let p := wadb_put_u64 p 56 dictionary_offset in
  let p := wadb_put_u64 p 64 dictionary_bytes in
  let p := wadb_put_u32 p 72 dictionary_count in
  let p := wadb_put_u64 p 80 (u64 (sg_min_time s)) in
  let p := wadb_put_u64 p 88 (u64 (sg_max_time s)) in
  let p := wadb_put_u64 p 96 (sg_first_sequence s) in
  let p := wadb_put_u64 p 104 (sg_last_sequence s) in
  let p := wadb_put_u32 p 112 (row_width (t_schema t)) in
  let p := wadb_put_u32 p 116 (wadb_crc32c definitions) in
  wadb_put_u32 p 124 (wadb_crc32c (sub p 0 124)).
(** The loop over the entries. *)
Fixpoint put_entries (p : list Z) (o : Z) (l : list wadb_index_entry) : list Z :=
  match l with [] => p | e :: l' => put_entries (entry_encode p o e) (o + WADB_INDEX_ENTRY_BYTES) l' end.
Definition index_buffer (t : table_identity) (s : wadb_segment_meta) (entries : list wadb_index_entry)
    (definitions : list Z) (dictionary_bytes dictionary_count : Z) : list Z :=
  let dictionary_offset := WADB_INDEX_HEADER_BYTES + zlen entries * WADB_INDEX_ENTRY_BYTES in
  let p := zrep (dictionary_offset + dictionary_bytes) 0 in
  let p := index_header t s (zlen entries) dictionary_offset dictionary_bytes dictionary_count definitions p in
  let p := put_entries p WADB_INDEX_HEADER_BYTES entries in
  if dictionary_bytes =? 0 then p else put p dictionary_offset definitions.

Definition wadb_index_save (t : table_identity) (s : wadb_segment_meta) (ix : wadb_frame_index)
    (d : wadb_dictionary) : M os unit :=
  exported ← os_malloc;
  '(definitions, dictionary_bytes, dictionary_count) ←
    mlift (wadb_dictionary_export_limit d 0 CHECKPOINT_LIMIT exported);
  allocate
    (p ← wadb_segment_path t s EXT_IDX;
     match p with
     | None => mfail WADB_NOMEM
     | Some p =>
         wadb_atomic_file p
           (index_buffer t s (ix_entries ix) definitions dictionary_bytes dictionary_count)
     end).

(** ** Reading an index *)

(** A reader serves entries from memory when it was rebuilt, else from its file
    through a buffer of one page of 64 entries. *)
Record wadb_index_reader := Reader {
  rd_table : table_identity;
  rd_segment : wadb_segment_meta;
  rd_fd : option (list Z);
  rd_memory : option (list wadb_index_entry);
  rd_count : Z;
  rd_dictionary_offset : Z;
  rd_dictionary_bytes : Z;
  rd_dictionary_count : Z;
  rd_dictionary_crc : Z;
  rd_page_number : Z;
  rd_page : list Z;
  rd_io_bytes : Z;
  rd_dictionary_io_bytes : Z;
  rd_repaired : bool;
  rd_rebuilt_dictionary : option wadb_dictionary;
  rd_rebuild_budget : Z;
  rd_rebuilt_bytes : Z;
  rd_deadline : Z;
}.

Definition with_page (n : Z) (page : list Z) (io : Z) (r : wadb_index_reader) : wadb_index_reader :=
  Reader (rd_table r) (rd_segment r) (rd_fd r) (rd_memory r) (rd_count r) (rd_dictionary_offset r)
    (rd_dictionary_bytes r) (rd_dictionary_count r) (rd_dictionary_crc r) n page io
    (rd_dictionary_io_bytes r) (rd_repaired r) (rd_rebuilt_dictionary r) (rd_rebuild_budget r)
    (rd_rebuilt_bytes r) (rd_deadline r).

(** A failed read leaves the reader as it was, apart from its page buffer, which the
    callers never look at again: they repair the reader or give up. *)
Definition get_raw (r : wadb_index_reader) (position : Z) : M os (wadb_index_entry * wadb_index_reader) :=
  if position >=? rd_count r then mfail WADB_INVALID
  else
    match rd_memory r with
    | Some entries => mret (entries !!! Z.to_nat position, r)
    | None =>
        let page := position / 64 in
        r ← (if rd_page_number r =? page then mret r
             else
               let first := page * 64 in
               let records := Z.min (rd_count r - first) 64 in
               let page_bytes := records * WADB_INDEX_ENTRY_BYTES in
               bytes ← wadb_pread_all (default [] (rd_fd r)) page_bytes
                         (WADB_INDEX_HEADER_BYTES + first * WADB_INDEX_ENTRY_BYTES);
               mret (with_page page bytes (rd_io_bytes r + page_bytes) r));
        e ← mlift (entry_decode (rd_segment r) (row_width (t_schema (rd_table r))) (rd_page r)
                     ((position `mod` 64) * WADB_INDEX_ENTRY_BYTES));
        mret (e, r)
    end.

(** The comparisons of the header [p] with the table and the segment. *)
Definition index_header_valid (t : table_identity) (s : wadb_segment_meta) (p : list Z) (st_size : Z) : bool :=
  let count := wadb_get_u64 p 48 in
  let offset := wadb_get_u64 p 56 in
  let bytes := wadb_get_u64 p 64 in
  negb (negb (bytes_eqb (sub p 0 8) INDEX_MAGIC) || negb (wadb_get_u32 p 8 =? WADB_FORMAT_VERSION) ||
    negb (wadb_get_u32 p 12 =? WADB_INDEX_HEADER_BYTES) ||
    negb (wadb_crc32c (sub p 0 124) =? wadb_get_u32 p 124) ||
    negb (wadb_get_u64 p 16 =? t_id t) || negb (wadb_get_u64 p 24 =? sg_id s) ||
    negb (wadb_get_u64 p 32 =? fingerprint (t_schema t)) ||
    negb (wadb_get_u64 p 40 =? sg_committed_bytes s) ||
    (count >? WADB_MAX_INDEX_ENTRIES) ||
    negb (offset =? WADB_INDEX_HEADER_BYTES + count * WADB_INDEX_ENTRY_BYTES) ||
    (bytes >? CHECKPOINT_LIMIT) || negb (bytes `mod` 8 =? 0) || negb (st_size =? offset + bytes) ||
    (wadb_get_u32 p 72 >? bytes / 12) || negb (wadb_get_u32 p 76 =? 0) || negb (wadb_get_u32 p 120 =? 0) ||
    negb (wadb_get_i64 p 80 =? sg_min_time s) || negb (wadb_get_i64 p 88 =? sg_max_time s) ||
    negb (wadb_get_u64 p 96 =? sg_first_sequence s) || negb (wadb_get_u64 p 104 =? sg_last_sequence s) ||
    negb (wadb_get_u32 p 112 =? row_width (t_schema t)) ||
    negb (Bool.eqb (count =? 0) (sg_last_sequence s =? 0))).
(** The first and the last entry delimit the committed log. *)
Definition endpoints_valid (s : wadb_segment_meta) (first last : wadb_index_entry) : bool :=
  negb (negb (ie_first_sequence first =? sg_first_sequence s) ||
    negb (ie_frame_offset first =? WADB_SEGMENT_HEADER_BYTES) ||
    negb (ie_min_time first =? sg_min_time s) || negb (ie_max_time last =? sg_max_time s) ||
    negb (ie_last_sequence last =? sg_last_sequence s) ||
    negb (u64 (ie_frame_offset last + ie_frame_bytes last) =? sg_committed_bytes s)).

Definition new_reader (t : table_identity) (s : wadb_segment_meta) (fd : option (list Z)) (io : Z) : wadb_index_reader :=
  Reader t s fd None 0 0 0 0 0 UINT64_MAX [] io 0 false None 0 0 0.
Definition header_reader (t : table_identity) (s : wadb_segment_meta) (content p : list Z) : wadb_index_reader :=
  Reader t s (Some content) None (wadb_get_u64 p 48) (wadb_get_u64 p 56) (wadb_get_u64 p 64)
    (wadb_get_u32 p 72) (wadb_get_u32 p 116) UINT64_MAX [] WADB_INDEX_HEADER_BYTES 0 false None 0 0 0.

Definition open_raw (t : table_identity) (s : wadb_segment_meta) : M os wadb_index_reader :=
  p ← wadb_segment_path t s EXT_IDX;
  match p with
  | None => mfail WADB_NOMEM
  | Some p =>
      opened ← syscall;
      w ← get_os;
      if negb opened then mfail WADB_IO
      else
        match files w !! p with
        | None => mfail WADB_NOT_FOUND
        | Some content =>
            header ← wadb_pread_all content WADB_INDEX_HEADER_BYTES 0;
            stat ← syscall;
            if negb stat then mfail WADB_CORRUPT
            else if negb (index_header_valid t s header (zlen content)) then mfail WADB_CORRUPT
            else
              let r := header_reader t s content header in
              if rd_count r =? 0 then mret r
              else
                '(first, r) ← get_raw r 0;
                '(last, r) ← get_raw r (rd_count r - 1);
                if negb (endpoints_valid s first last) then mfail WADB_CORRUPT else mret r
        end
  end.

(** ** The byte layout of an index *)

Definition entry_body (v : wadb_index_entry) : list Z :=
  le_split 8 (u64 (ie_min_time v)) ++ le_split 8 (u64 (ie_max_time v)) ++ le_split 8 (ie_first_sequence v) ++
  le_split 4 (ie_row_count v) ++ le_split 4 (ie_dictionary_count v) ++ le_split 8 (ie_frame_offset v) ++
  le_split 4 (ie_frame_bytes v) ++ le_split 4 (ie_rows_offset v) ++ le_split 4 (ie_frame_crc v) ++
  le_split 4 (ie_dictionary_crc v) ++ zrep 4 0.
Definition entry_image (v : wadb_index_entry) : list Z := envelope_image (entry_body v).
Definition entry_ranges (v : wadb_index_entry) : Prop :=
  is_i64 (ie_min_time v) ∧ is_i64 (ie_max_time v) ∧ is_u64 (ie_first_sequence v) ∧
  is_u64 (ie_frame_offset v) ∧ is_u32 (ie_row_count v) ∧ is_u32 (ie_dictionary_count v) ∧
  is_u32 (ie_frame_bytes v) ∧ is_u32 (ie_rows_offset v) ∧ is_u32 (ie_frame_crc v) ∧
  is_u32 (ie_dictionary_crc v).

Lemma zlen_entry_image v : zlen (entry_image v) = 64.
Proof. reflexivity. Qed.
Lemma bytes_entry_body v : bytes (entry_body v).
Proof. unfold entry_body. repeat apply bytes_app; auto with wadb. by apply bytes_zrep. Qed.
Lemma bytes_entry_image v : bytes (entry_image v).
Proof. apply bytes_envelope_image, bytes_entry_body. Qed.

Lemma entry_encode_fill a b v :
  entry_encode (a ++ zrep 64 0 ++ b) (zlen a) v = a ++ entry_image v ++ b.
Proof.
  unfold entry_encode, WADB_INDEX_ENTRY_BYTES. pose proof (zlen_nonneg a). cbv zeta.
  lazymatch goal with |- wadb_put_u32 ?P _ _ = _ => assert (HP : P = a ++ (entry_body v ++ zrep 4 0) ++ b) end.
  { rewrite !put_u64_spec, !put_u32_spec by lia. rewrite put_fill by done.
    rewrite <-(Z.add_0_r (zlen a)) at 1.
    put_in a 0. put_in a 8. put_in a 16. put_in a 24. put_in a 28. put_in a 32. put_in a 40. put_in a 44.
    put_in a 48. put_in a 52. reflexivity. }
  rewrite HP, put_u32_spec by lia.
  rewrite (put_mid a _ _ _ (zlen a + 60) 60) by first [lia|done].
  rewrite (sub_mid _ a (entry_body v) (zrep 4 0 ++ b) (zlen a) 60) by (rewrite <-?app_assoc; done).
  rewrite put_app_r by done. change (60 - zlen (entry_body v)) with 0. rewrite put_all by done.
  unfold entry_image, envelope_image. by rewrite <-app_assoc.
Qed.

(** An entry's image decodes to it, when it is within the segment's bounds. *)
Lemma entry_decode_image s width p o v :
  bytes p → 0 ≤ o → entry_ranges v → sub p o 64 = entry_image v →
  entry_decode s width p o = if entry_bounds s width v then Ok v else Err WADB_CORRUPT.
Proof.
  intros Hp Ho (?&?&?&?&?&?&?&?&?&?) Hs. set (q := entry_image v) in *.
  assert (Hat : ∀ k n, 0 ≤ k → 0 ≤ n → k + n ≤ 64 → sub p (o + k) n = sub q k n).
  { intros. rewrite <-Hs, sub_sub by lia. done. }
  assert (H60 : sub p o 60 = entry_body v).
  { rewrite <-(Z.add_0_r o), Hat by lia. reflexivity. }
  assert (Hcrc : wadb_get_u32 p (o + 60) = wadb_crc32c (entry_body v)).
  { rewrite (get_u32_at p (o + 60) (wadb_crc32c (entry_body v))); [|lia|by rewrite Hat by lia].
    apply u32_id, crc32c_range, bytes_entry_body. }
  unfold entry_decode. rewrite H60, Hcrc, (Z.eqb_refl (wadb_crc32c (entry_body v))).
  rewrite (get_u32_at p (o + 56) 0) by (lia || by rewrite Hat by lia). cbn [orb negb].
  assert (He : entry_at p o = v).
  { unfold entry_at.
    rewrite (get_i64_at p o (ie_min_time v)), (get_i64_at p (o + 8) (ie_max_time v)),
      (get_u64_at p (o + 16) (ie_first_sequence v)), (get_u64_at p (o + 32) (ie_frame_offset v)),
      (get_u32_at p (o + 24) (ie_row_count v)), (get_u32_at p (o + 28) (ie_dictionary_count v)),
      (get_u32_at p (o + 40) (ie_frame_bytes v)), (get_u32_at p (o + 44) (ie_rows_offset v)),
      (get_u32_at p (o + 48) (ie_frame_crc v)), (get_u32_at p (o + 52) (ie_dictionary_crc v))
      by first [lia|done|by rewrite Hat by lia|rewrite <-(Z.add_0_r o), Hat by lia; reflexivity].
    rewrite !u64_id, !u32_id by done. by destruct v. }
  rewrite He. change (negb (u32 0 =? 0)) with false. cbn [orb]. by destruct (entry_bounds s width v).
Qed.

Definition index_head (t : table_identity) (s : wadb_segment_meta) (count offset bytes dcount crc : Z) : list Z :=
  INDEX_MAGIC ++ le_split 4 WADB_FORMAT_VERSION ++ le_split 4 WADB_INDEX_HEADER_BYTES ++
  le_split 8 (t_id t) ++ le_split 8 (sg_id s) ++ le_split 8 (fingerprint (t_schema t)) ++
  le_split 8 (sg_committed_bytes s) ++ le_split 8 count ++ le_split 8 offset ++ le_split 8 bytes ++
  le_split 4 dcount ++ zrep 4 0 ++ le_split 8 (u64 (sg_min_time s)) ++ le_split 8 (u64 (sg_max_time s)) ++
  le_split 8 (sg_first_sequence s) ++ le_split 8 (sg_last_sequence s) ++
  le_split 4 (row_width (t_schema t)) ++ le_split 4 crc ++ zrep 4 0.
Definition index_image (t : table_identity) (s : wadb_segment_meta) (entries : list wadb_index_entry)
    (definitions : list Z) (dcount : Z) : list Z :=
  envelope_image (index_head t s (zlen entries) (128 + 64 * zlen entries) (zlen definitions) dcount
    (wadb_crc32c definitions)) ++ array_image entry_image entries ++ definitions.

Lemma index_buffer_image t s entries definitions dcount :
  index_buffer t s entries definitions (zlen definitions) dcount = index_image t s entries definitions dcount.
Proof.
  unfold index_buffer, index_image, index_header, WADB_INDEX_HEADER_BYTES, WADB_INDEX_ENTRY_BYTES.
  pose proof (zlen_nonneg entries). pose proof (zlen_nonneg definitions).
  replace (128 + zlen entries * 64) with (128 + 64 * zlen entries) by lia.
  rewrite <-Z.add_assoc, (zrep_app 128), (zrep_app (64 * _)) by lia.
  set (h := index_head t s (zlen entries) (128 + 64 * zlen entries) (zlen definitions) dcount (wadb_crc32c definitions)).
  cbv zeta. set (r := zrep (64 * zlen entries) 0 ++ zrep (zlen definitions) 0).
  lazymatch goal with |- context [wadb_put_u32 ?P 124 _] => assert (HP : P = (h ++ zrep 4 0) ++ r) end.
  { rewrite !put_u64_spec, !put_u32_spec by lia.
    rewrite (put_app_l (zrep 128 0)) by (change (zlen (zrep 128 0)) with 128; change (zlen INDEX_MAGIC) with 8; lia).
    rewrite !put_app_l by (rewrite ?zlen_put, ?zlen_le_split; change (zlen (zrep 128 0)) with 128; lia). reflexivity. }
  rewrite HP. clear HP. assert (Hh : zlen h = 124) by done. rewrite <-app_assoc, (sub_app_l h), sub_all by lia.
  rewrite put_u32_spec, put_app_r, Hh, put_app_l, put_all by (lia || done). rewrite app_assoc. unfold r.
  fold (envelope_image h).
  rewrite (array_fill (λ _, True) entry_image 64 (λ v _, zlen_entry_image v) entry_encode put_entries)
    by first [done|lia|by apply Forall_true|intros; apply entry_encode_fill].
  destruct (Z.eqb_spec (zlen definitions) 0) as [Hz|Hz].
  - destruct definitions; [by rewrite !app_nil_r|]. rewrite zlen_cons in Hz. pose proof (zlen_nonneg definitions). lia.
  - rewrite (app_assoc (envelope_image h)). rewrite <-(app_nil_r (zrep (zlen definitions) 0)).
    rewrite put_fill; [by rewrite app_nil_r, <-!app_assoc| |done].
    rewrite zlen_app, (zlen_array_image (λ _, True) _ 64) by (done || by apply Forall_true). done.
Qed.

(** ** A saved index serves its entries *)

(** An index that describes segment [s]: every entry is within the segment, and the
    first and the last delimit its committed log. *)
Definition index_valid (t : table_identity) (s : wadb_segment_meta) (entries : list wadb_index_entry) : Prop :=
  zlen entries ≤ WADB_MAX_INDEX_ENTRIES ∧
  Forall (λ e, entry_ranges e ∧ entry_bounds s (row_width (t_schema t)) e = true) entries ∧
  (entries = [] ↔ sg_last_sequence s = 0) ∧
  (∀ first last, head entries = Some first → list.last entries = Some last → endpoints_valid s first last = true).

(** A reader over the contents of an index file, its page buffer included. *)
Record file_reader (t : table_identity) (s : wadb_segment_meta) (entries : list wadb_index_entry)
    (content : list Z) (r : wadb_index_reader) : Prop := {
  fr_table : rd_table r = t;
  fr_segment : rd_segment r = s;
  fr_fd : rd_fd r = Some content;
  fr_memory : rd_memory r = None;
  fr_count : rd_count r = zlen entries;
  fr_page : rd_page_number r = UINT64_MAX ∨
    0 ≤ rd_page_number r ∧ rd_page_number r * 64 < zlen entries ∧
    rd_page r = sub content (128 + rd_page_number r * 4096) (Z.min (zlen entries - rd_page_number r * 64) 64 * 64);
}.
(** The file holds the array of entries after its header. *)
Definition holds_entries (content : list Z) (entries : list wadb_index_entry) : Prop :=
  bytes content ∧ 128 + 64 * zlen entries ≤ zlen content ∧ zlen content ≤ INT64_MAX ∧
  sub content 128 (64 * zlen entries) = array_image entry_image entries.

Lemma array_nth content entries i e :
  holds_entries content entries → 0 ≤ i → entries !! Z.to_nat i = Some e →
  sub content (128 + 64 * i) 64 = entry_image e.
Proof.
  intros (_&Hl&_&Himg) Hi He. pose proof (lookup_lt_Some _ _ _ He) as Hlt.
  assert (Hsplit : entries = take (Z.to_nat i) entries ++ e :: drop (S (Z.to_nat i)) entries)
    by (symmetry; by apply take_drop_middle).
  assert (Ht : zlen (take (Z.to_nat i) entries) = i) by (unfold zlen; rewrite length_take; lia).
  rewrite <-(sub_sub content 128 (64 * zlen entries)), Himg by (unfold zlen in *; lia).
  rewrite Hsplit. unfold array_image. rewrite map_app, concat_app. cbn [map concat].
  eapply sub_mid; [done| |done]. fold (array_image entry_image (take (Z.to_nat i) entries)).
  rewrite (zlen_array_image (λ _, True) entry_image 64 (λ v _, zlen_entry_image v)) by (by apply Forall_true).
  lia.
Qed.

Lemma get_raw_file t s entries content r i w :
  file_reader t s entries content r → holds_entries content entries →
  Forall (λ e, entry_ranges e ∧ entry_bounds s (row_width (t_schema t)) e = true) entries →
  0 ≤ i < zlen entries →
  wp (get_raw r i) (λ res w', keeps w w' ∧
    (res = Err WADB_IO ∨ ∃ r', res = Ok (entries !!! Z.to_nat i, r') ∧ file_reader t s entries content r') ∧
    (quiet w → res ≠ Err WADB_IO)) w.
Proof.
  intros [Ht Hs Hfd Hm Hc Hpg] Hh Hall Hi. unfold get_raw. rewrite Hc, Hm.
  destruct (Z.geb_spec i (zlen entries)); [lia|].
  assert (He : ∃ e, entries !! Z.to_nat i = Some e) by (apply lookup_lt_is_Some_2; unfold zlen in *; lia).
  destruct He as [e He]. rewrite (list_lookup_total_correct _ _ _ He).
  assert (Hpage : 0 ≤ i / 64 ∧ i / 64 * 64 ≤ i < i / 64 * 64 + 64) by mlia.
  apply wp_bind. eapply (wp_mono _ (λ res w', keeps w w' ∧
    (res = Err WADB_IO ∨ ∃ r', res = Ok r' ∧ file_reader t s entries content r' ∧ rd_page_number r' = i / 64) ∧
    (quiet w → res ≠ Err WADB_IO))).
  - destruct (Z.eqb_spec (rd_page_number r) (i / 64)) as [Hp|Hp].
    { apply wp_ret. split_and!; [done|right; exists r; by split_and!|done]. }
    unfold WADB_INDEX_HEADER_BYTES, WADB_INDEX_ENTRY_BYTES. destruct Hh as (Hb&Hl&Hmax&_).
    apply wp_bind. rewrite Hfd. change (default [] (Some content)) with content.
    eapply wp_mono; [apply pread_all_spec; lia|]. cbn beta. intros res w1 (Hk&Hr&Hq).
    destruct Hr as [->|[[_ ->]|[[? ->]|[? ->]]]]; [| |lia|lia].
    + split_and!; [done|by left|]. intros Hw _. by discriminate (Hq Hw ltac:(lia) ltac:(lia)).
    + apply wp_ret. split_and!; [done|right|done]. eexists. split; [done|]. split; [|done].
      split; cbn; try done. right. split_and!; [lia|lia|]. f_equal; lia.
  - cbn beta. intros res w1 (Hk&[->|(r'&->&[Ht' Hs' Hfd' Hm' Hc' Hpg']&Hpn)]&Hq).
    { split_and!; [done|by left|]. intros Hw _. by apply (Hq Hw). }
    destruct Hpg' as [Hpg'|(_&_&Hpg')].
    { exfalso. rewrite Hpn in Hpg'. destruct Hh as (_&?&?&_). unfold_widths. lia. }
    apply wp_bind. unfold mlift, wp at 1. cbn [fst snd]. rewrite Hs', Ht', Hpg', Hpn.
    assert (Hsub : sub (sub content (128 + i / 64 * 4096) (Z.min (zlen entries - i / 64 * 64) 64 * 64))
      (i `mod` 64 * WADB_INDEX_ENTRY_BYTES) 64 = entry_image e).
    { unfold WADB_INDEX_ENTRY_BYTES. rewrite sub_sub by mlia. rewrite <-(array_nth content entries i e Hh) by (done || lia).
      f_equal. mlia. }
    eapply Forall_lookup_1 in Hall as [Hrng Hbnd]; [|exact He].
    rewrite (entry_decode_image _ _ _ _ e), Hbnd 
      by first [done|apply bytes_sub, Hh|unfold WADB_INDEX_ENTRY_BYTES; mlia].
    apply wp_ret. split_and!; [done|right|done]. exists r'. split; [done|]. split; try done. right. rewrite Hpn.
    split_and!; [lia|lia|]. by rewrite Hpg', Hpn.
Qed.

(** The members of a table and a segment that the header stores are within their widths. *)
Definition index_ranges (t : table_identity) (s : wadb_segment_meta) : Prop :=
  is_u64 (t_id t) ∧ is_u64 (fingerprint (t_schema t)) ∧ is_u32 (row_width (t_schema t)) ∧ segment_ranges s.
(** A dictionary checkpoint: the serialized symbols, padded to eight bytes. *)
Definition checkpoint_ok (definitions : list Z) (dcount : Z) : Prop :=
  bytes definitions ∧ zlen definitions `mod` 8 = 0 ∧ zlen definitions ≤ CHECKPOINT_LIMIT ∧
  0 ≤ dcount ≤ zlen definitions / 12.

Lemma bytes_index_head t s count offset n dcount crc : bytes (index_head t s count offset n dcount crc).
Proof. unfold index_head, INDEX_MAGIC. repeat apply bytes_app; auto with wadb; by apply bytes_zrep. Qed.
Lemma zlen_index_image t s entries definitions dcount :
  zlen (index_image t s entries definitions dcount) = 128 + 64 * zlen entries + zlen definitions.
Proof.
  unfold index_image. rewrite !zlen_app.
  rewrite (zlen_array_image (λ _, True) entry_image 64 (λ v _, zlen_entry_image v)) by (by apply Forall_true).
  change (zlen (envelope_image _)) with 128. lia.
Qed.
Lemma index_image_holds t s entries definitions dcount :
  bytes definitions → zlen entries ≤ WADB_MAX_INDEX_ENTRIES → zlen definitions ≤ CHECKPOINT_LIMIT →
  holds_entries (index_image t s entries definitions dcount) entries.
Proof.
  intros Hb Hl Hd. unfold holds_entries. rewrite zlen_index_image. pose proof (zlen_nonneg definitions).
  unfold WADB_MAX_INDEX_ENTRIES, CHECKPOINT_LIMIT in *. split_and!; [|lia|unfold_widths; lia|].
  - unfold index_image. apply bytes_app; [|apply bytes_app; [apply bytes_array_image, bytes_entry_image|done]].
    apply bytes_envelope_image, bytes_index_head.
  - unfold index_image. eapply sub_mid; [done|done|].
    by rewrite (zlen_array_image (λ _, True) entry_image 64 (λ v _, zlen_entry_image v)) by (by apply Forall_true).
Qed.

Lemma index_header_image t s entries definitions dcount :
  index_ranges t s → checkpoint_ok definitions dcount → zlen entries ≤ WADB_MAX_INDEX_ENTRIES →
  (entries = [] ↔ sg_last_sequence s = 0) →
  let p := sub (index_image t s entries definitions dcount) 0 128 in
  index_header_valid t s p (128 + 64 * zlen entries + zlen definitions) = true ∧
  wadb_get_u64 p 48 = zlen entries ∧ wadb_get_u64 p 56 = 128 + 64 * zlen entries ∧
  wadb_get_u64 p 64 = zlen definitions ∧ wadb_get_u32 p 72 = dcount ∧
  wadb_get_u32 p 116 = wadb_crc32c definitions.
Proof.
  intros (Ht&Hf&Hr&(?&?&?&?&?&?&?)) (Hb&H8&Hlim&Hdc) Hmax Hempty p.
  pose proof (zlen_nonneg entries). pose proof (zlen_nonneg definitions).
  unfold WADB_MAX_INDEX_ENTRIES, CHECKPOINT_LIMIT in *.
  set (h := index_head t s (zlen entries) (128 + 64 * zlen entries) (zlen definitions) dcount (wadb_crc32c definitions)).
  assert (Hel : zlen (envelope_image h) = 128) by (unfold envelope_image; rewrite zlen_app, zlen_le_split; reflexivity).
  assert (Hp : p = envelope_image h).
  { unfold p, index_image. fold h. rewrite sub_app_l, sub_all by lia. reflexivity. }
  assert (Hhb : bytes h) by apply bytes_index_head.
  clearbody p. subst p. set (p := envelope_image h).
  assert (Hdcrc : is_u32 (wadb_crc32c definitions)) by (by apply crc32c_range).
  assert (Hcrc : wadb_get_u32 p 124 = wadb_crc32c h).
  { rewrite (get_u32_at p 124 (wadb_crc32c h)); [by apply u32_id, crc32c_range|lia|reflexivity]. }
  assert (H124 : sub p 0 124 = h) by reflexivity.
  assert (G48 : wadb_get_u64 p 48 = zlen entries) by (rewrite (get_u64_at p 48 (zlen entries)); [apply u64_id; unfold_widths; lia|lia|reflexivity]).
  assert (G56 : wadb_get_u64 p 56 = 128 + 64 * zlen entries)
    by (rewrite (get_u64_at p 56 (128 + 64 * zlen entries)); [apply u64_id; unfold_widths; lia|lia|reflexivity]).
  assert (G64 : wadb_get_u64 p 64 = zlen definitions)
    by (rewrite (get_u64_at p 64 (zlen definitions)); [apply u64_id; unfold_widths; lia|lia|reflexivity]).
  assert (G72 : wadb_get_u32 p 72 = dcount) by (rewrite (get_u32_at p 72 dcount); [apply u32_id; mlia|lia|reflexivity]).
  assert (G116 : wadb_get_u32 p 116 = wadb_crc32c definitions)
    by (rewrite (get_u32_at p 116 (wadb_crc32c definitions)); [by apply u32_id|lia|reflexivity]).
  split_and!; try assumption. unfold index_header_valid. rewrite H124, Hcrc, G48, G56, G64, G72.
  rewrite (get_u32_at p 8 WADB_FORMAT_VERSION) by (lia || reflexivity).
  rewrite (get_u32_at p 12 WADB_INDEX_HEADER_BYTES) by (lia || reflexivity).
  rewrite (get_u64_at p 16 (t_id t)) by (lia || reflexivity).
  rewrite (get_u64_at p 24 (sg_id s)) by (lia || reflexivity).
  rewrite (get_u64_at p 32 (fingerprint (t_schema t))) by (lia || reflexivity).
  rewrite (get_u64_at p 40 (sg_committed_bytes s)) by (lia || reflexivity).
  rewrite (get_u32_at p 76 0), (get_u32_at p 120 0) by (lia || reflexivity).
  rewrite (get_i64_at p 80 (sg_min_time s)) by first [lia|assumption|reflexivity].
  rewrite (get_i64_at p 88 (sg_max_time s)) by first [lia|assumption|reflexivity].
  rewrite (get_u64_at p 96 (sg_first_sequence s)), (get_u64_at p 104 (sg_last_sequence s)) by (lia || reflexivity).
  rewrite (get_u32_at p 112 (row_width (t_schema t))) by (lia || reflexivity).
  rewrite !u64_id by assumption. rewrite (u32_id (row_width (t_schema t))) by assumption.
  change (bytes_eqb (sub p 0 8) INDEX_MAGIC) with true.
  rewrite !Z.eqb_refl, H8. clear -H8 Hlim Hdc Hmax Hempty H6 H7.
  unfold WADB_INDEX_HEADER_BYTES, WADB_INDEX_ENTRY_BYTES, WADB_MAX_INDEX_ENTRIES, CHECKPOINT_LIMIT.
  assert (Hz : (zlen entries =? 0) = (sg_last_sequence s =? 0)).
  { destruct entries as [|e l]; [rewrite (proj1 Hempty) by done; done|].
    rewrite zlen_cons. pose proof (zlen_nonneg l). destruct (Z.eqb_spec (1 + zlen l) 0); [lia|].
    destruct (Z.eqb_spec (sg_last_sequence s) 0) as [E|]; [|done]. by apply Hempty in E. }
  rewrite Hz, Bool.eqb_reflx. cbn [negb]. apply negb_true_iff. rewrite !orb_false_r.
  change (u32 0 =? 0) with true. change (u32 WADB_FORMAT_VERSION =? WADB_FORMAT_VERSION) with true.
  change (u32 128 =? 128) with true. cbn [negb orb]. mlia.
Qed.

(** The reader of a saved index, and where its checkpoint is. *)
Definition opened_reader (t : table_identity) (s : wadb_segment_meta) (entries : list wadb_index_entry)
    (definitions : list Z) (dcount : Z) (r : wadb_index_reader) : Prop :=
  file_reader t s entries (index_image t s entries definitions dcount) r ∧
  rd_dictionary_offset r = 128 + 64 * zlen entries ∧ rd_dictionary_bytes r = zlen definitions ∧
  rd_dictionary_count r = dcount ∧ rd_dictionary_crc r = wadb_crc32c definitions ∧ rd_repaired r = false.

Lemma get_raw_keeps r i w :
  wp (get_raw r i) (λ res _, ∀ e r', res = Ok (e, r') →
    rd_dictionary_offset r' = rd_dictionary_offset r ∧ rd_dictionary_bytes r' = rd_dictionary_bytes r ∧
    rd_dictionary_count r' = rd_dictionary_count r ∧ rd_dictionary_crc r' = rd_dictionary_crc r ∧
    rd_repaired r' = rd_repaired r) w.
Proof.
  unfold get_raw. destruct (_ >=? _); [by apply wp_fail|]. destruct (rd_memory r).
  { apply wp_ret. by intros e r' [= <- <-]. }
  apply wp_bind. eapply (wp_mono _ (λ res _, ∀ r', res = Ok r' →
    rd_dictionary_offset r' = rd_dictionary_offset r ∧ rd_dictionary_bytes r' = rd_dictionary_bytes r ∧
    rd_dictionary_count r' = rd_dictionary_count r ∧ rd_dictionary_crc r' = rd_dictionary_crc r ∧
    rd_repaired r' = rd_repaired r)).
  - destruct (_ =? _); [apply wp_ret; by intros r' [= <-]|]. apply wp_bind, wp_in. intros [bs|e] w1 _; [|done].
    apply wp_ret. by intros r' [= <-].
  - cbn beta. intros [r1|e] w1 H; [|done]. specialize (H r1 eq_refl). apply wp_bind. unfold mlift, wp at 1. cbn [fst snd].
    destruct (entry_decode _ _ _ _); [|done]. apply wp_ret. by intros e' r' [= <- <-].
Qed.

Lemma open_raw_image t s entries definitions dcount w :
  index_ranges t s → checkpoint_ok definitions dcount → index_valid t s entries →
  files w !! segment_file t s EXT_IDX = Some (index_image t s entries definitions dcount) →
  wp (open_raw t s) (λ res w', keeps w w' ∧
    (res = Err WADB_IO ∨ res = Err WADB_NOMEM ∨ res = Err WADB_CORRUPT ∨
     ∃ r, res = Ok r ∧ opened_reader t s entries definitions dcount r) ∧
    (quiet w → zlen (segment_file t s EXT_IDX) < 4096 → ∃ r, res = Ok r)) w.
Proof.
  intros Hrng Hck (Hmax&Hall&Hempty&Hends) Hfile. unfold open_raw. set (content := index_image _ _ _ _ _) in *.
  apply wp_bind. eapply wp_mono; [apply segment_path_spec|]. cbn beta. intros ? w1 (o&->&Hk1&Ho&Hq1).
  destruct o as [p|].
  2:{ apply wp_fail. split_and!; [done|auto|]. intros Hw Hl. by specialize (Hq1 Hw Hl). }
  destruct Ho as [|[= ->]]; [done|]. apply wp_bind. eapply wp_mono; [apply syscall_spec|]. cbn beta.
  intros ? w2 (ok&->&Hk2&Hq2). apply wp_bind. unfold get_os, wp at 1. cbn [fst snd].
  assert (Hk : keeps w w2) by (by etrans). assert (Hqq : quiet w → quiet w1) by apply Hk1.
  destruct ok; cbn [negb].
  2:{ apply wp_fail. split_and!; [done|auto|]. intros Hw. by specialize (Hq2 (Hqq Hw)). }
  destruct Hk as [[Hf Hd] Hq]. rewrite Hf, Hfile. clear Hq1 Hq2 Hk1 Hk2.
  assert (Hh : holds_entries content entries) by (apply index_image_holds; [apply Hck|done|apply Hck]).
  pose proof Hh as (Hcb&Hcl&Hcm&_). pose proof (zlen_nonneg entries) as Hen.
  apply wp_bind. eapply wp_mono; [apply pread_all_spec; unfold WADB_INDEX_HEADER_BYTES; lia|]. cbn beta.
  unfold WADB_INDEX_HEADER_BYTES. intros res w3 ([[Hf3 Hd3] Hq3]&Hres&Hresq).
  assert (Hk3 : keeps w w3) by (split; [split; congruence|auto]).
  destruct Hres as [->|[[_ ->]|[[? ->]|[? ->]]]]; [| |lia|lia].
  { split_and!; [done|auto|]. intros Hw _. by specialize (Hresq (Hq Hw) ltac:(lia) ltac:(lia)). }
  apply wp_bind. eapply wp_mono; [apply syscall_spec|]. cbn beta. intros ? w4 (ok&->&Hk4&Hq4).
  assert (Hkk : keeps w w4) by (by etrans). destruct ok; cbn [negb].
  2:{ apply wp_fail. split_and!; [done|auto|]. intros Hw. by specialize (Hq4 ltac:(apply Hk3, Hw)). }
  destruct (index_header_image t s entries definitions dcount Hrng Hck Hmax Hempty) as (Hv&H48&H56&H64&H72&H116).
  fold content in Hv, H48, H56, H64, H72, H116. cbv zeta in *. set (p := sub content 0 128) in *.
  unfold content at 1. rewrite zlen_index_image, Hv. cbn [negb]. cbv zeta.
  set (r0 := header_reader t s content p).
  assert (Hr0 : opened_reader t s entries definitions dcount r0).
  { refine (conj _ (conj H56 (conj H64 (conj H72 (conj H116 eq_refl))))).
    split; [reflexivity..|exact H48|left; reflexivity]. }
  destruct (Z.eqb_spec (rd_count r0) 0) as [Hz|Hz].
  { apply wp_ret. split_and!; [exact Hkk|right; right; right; exists r0; split; [reflexivity|exact Hr0]|].
    intros _ _. exists r0. reflexivity. }
  change (rd_count r0) with (wadb_get_u64 p 48) in *. rewrite H48 in Hz.
  destruct Hr0 as (Hfr0&Hd0). apply wp_bind, wp_in. intros res w5 E5.
  pose proof (wp_out _ _ _ _ _ (get_raw_file _ _ _ _ _ 0 w4 Hfr0 Hh Hall ltac:(lia)) E5) as (Hk5&Hres5&Hq5).
  pose proof (wp_out _ _ _ _ _ (get_raw_keeps _ _ _) E5) as Hkeep5. cbv beta in Hkeep5.
  assert (Hkk5 : keeps w w5) by (by etrans).
  destruct Hres5 as [->|(r1&->&Hfr1)].
  { split_and!; [done|auto|]. intros Hw _. by destruct (Hq5 ltac:(apply Hkk, Hw)). }
  specialize (Hkeep5 _ _ eq_refl). apply wp_bind, wp_in. intros res w6 E6. rewrite (fr_count _ _ _ _ _ Hfr1) in E6.
  pose proof (wp_out _ _ _ _ _ (get_raw_file _ _ _ _ _ (zlen entries - 1) w5 Hfr1 Hh Hall ltac:(lia)) E6) as (Hk6&Hres6&Hq6).
  pose proof (wp_out _ _ _ _ _ (get_raw_keeps _ _ _) E6) as Hkeep6. cbv beta in Hkeep6.
  assert (Hkk6 : keeps w w6) by (by etrans).
  destruct Hres6 as [->|(r2&->&Hfr2)].
  { split_and!; [done|auto|]. intros Hw _. by destruct (Hq6 ltac:(apply Hkk5, Hw)). }
  specialize (Hkeep6 _ _ eq_refl).
  assert (Hend : endpoints_valid s (entries !!! Z.to_nat 0) (entries !!! Z.to_nat (zlen entries - 1)) = true).
  { destruct entries as [|e l]; [done|]. apply Hends; [done|]. rewrite last_lookup.
    replace (pred (length (e :: l))) with (Z.to_nat (zlen (e :: l) - 1)) by (unfold zlen; cbn [length]; lia).
    apply list_lookup_lookup_total_lt. unfold zlen. cbn [length]. lia. }
  rewrite Hend. cbn [negb]. apply wp_ret. split_and!; [exact Hkk6| |intros _ _; exists r2; reflexivity].
  right. right. right. exists r2. split; [reflexivity|]. unfold opened_reader in *. destruct_and!.
  split_and!; first [assumption|congruence].
Qed.

(** The strings of a dictionary are byte strings. *)
Definition dict_bytes (d : wadb_dictionary) : Prop := Forall (λ s, bytes (s_data s)) (d_symbols d).
Lemma symbols_image_facts l : Forall (λ s, bytes (s_data s)) l →
  bytes (symbols_image l) ∧ 12 * zlen l ≤ zlen (symbols_image l).
Proof.
  induction 1 as [|s l Hs _ [IHb IHl]]; [split; [constructor|by vm_compute]|]. unfold symbols_image. cbn [map concat]. fold (symbols_image l).
  rewrite zlen_app, zlen_symbol_image, zlen_cons. pose proof (zlen_nonneg (s_data s)). unfold s_length.
  split; [|lia]. apply bytes_app; [|done]. unfold symbol_image.
  repeat apply bytes_app; auto with wadb. by apply bytes_zrep.
Qed.
Lemma export_checkpoint d alloc definitions n dcount : dict_ok d → dict_bytes d →
  wadb_dictionary_export_limit d 0 CHECKPOINT_LIMIT alloc = Ok (definitions, n, dcount) →
  checkpoint_ok definitions dcount ∧ n = zlen definitions.
Proof.
  intros Hd Hb He. apply export_ok in He as (_&Hl&H8&H0&Hlim&Hc&pad&Hpad&Himg); [|done|lia|vm_compute; congruence].
  change (drop (Z.to_nat 0) (d_symbols d)) with (d_symbols d) in *. destruct (symbols_image_facts (d_symbols d) Hb) as [Hib Hil].
  assert (Hlen : zlen definitions = zlen (symbols_image (d_symbols d)) + pad) by (rewrite Himg, zlen_app, zlen_zrep; lia).
  pose proof (zlen_nonneg (d_symbols d)). split; [|done]. unfold checkpoint_ok. rewrite Hl. split_and!; [|done| | |].
  - rewrite Himg. apply bytes_app; [done|]. by apply bytes_zrep.
  - destruct (decide (0 < n)); [by apply Hlim|unfold CHECKPOINT_LIMIT; lia].
  - lia.
  - apply Z.div_le_lower_bound; lia.
Qed.
Lemma index_save_spec t s ix d w : dict_ok d → dict_bytes d →
  wp (wadb_index_save t s ix d) (λ r w', r = Ok () → ∃ definitions dcount, checkpoint_ok definitions dcount ∧
    files w' = <[segment_file t s EXT_IDX := index_image t s (ix_entries ix) definitions dcount]> (files w)) w.
Proof.
  intros Hd Hb. unfold wadb_index_save. apply wp_bind. eapply wp_mono; [apply os_malloc_spec|]. cbn beta.
  intros ? w1 (exported&->&[[Hf1 _] _]&_). apply wp_bind. unfold mlift, wp at 1. cbn [fst snd].
  destruct (wadb_dictionary_export_limit _ _ _ _) as [[[definitions n] dcount]|e] eqn:E; [|done].
  apply export_checkpoint in E as [Hck ->]; [|done..].
  apply allocate_spec; [|done]. intros w2 [[Hf2 _] _]. apply wp_bind. eapply wp_mono; [apply segment_path_spec|]. cbn beta.
  intros ? w3 (o&->&[[Hf3 _] _]&Ho&_). destruct o as [p|]; [|done]. destruct Ho as [|[= ->]]; [done|].
  eapply wp_mono; [apply atomic_file_spec|]. cbn beta. intros r w' [[_ Hi] _] ->.
  destruct Hi as [[_ Hi]|[Hi _]]; [|naive_solver]. exists definitions, dcount. split; [done|].
  rewrite Hi, Hf3, Hf2, Hf1, index_buffer_image. done.
Qed.

(** C9: An index that was saved for a sealed segment opens again after a restart, and the
    reader returns every entry at its position, whatever page it has buffered; reading an
    entry never touches the disk. *)
Theorem index_round_trip t s ix d w w1 w2 :
  dict_ok d → dict_bytes d → index_ranges t s → index_valid t s (ix_entries ix) →
  wadb_index_save t s ix d w = (Ok (), w1) →
  files w2 = files w1 → quiet w2 → zlen (segment_file t s EXT_IDX) < 4096 →
  ∃ r w3, open_raw t s w2 = (Ok r, w3) ∧ rd_count r = ix_count ix ∧
    ∀ i j, 0 ≤ i < ix_count ix → 0 ≤ j < ix_count ix → ∃ r' w4 r'' w5,
      get_raw r i w3 = (Ok (ix_entries ix !!! Z.to_nat i, r'), w4) ∧
      get_raw r' j w4 = (Ok (ix_entries ix !!! Z.to_nat j, r''), w5) ∧ files w5 = files w2.
Proof.
  intros Hd Hb Hrng Hv Hsave Hf2 Hq Hl.
  destruct (wp_out _ _ _ _ _ (index_save_spec t s ix d w Hd Hb) Hsave eq_refl) as (definitions&dcount&Hck&Hf1).
  assert (Hfile : files w2 !! segment_file t s EXT_IDX = Some (index_image t s (ix_entries ix) definitions dcount))
    by (rewrite Hf2, Hf1; apply lookup_insert_eq).
  destruct (open_raw t s w2) as [res w3] eqn:Eo.
  destruct (wp_out _ _ _ _ _ (open_raw_image t s (ix_entries ix) definitions dcount w2 Hrng Hck Hv Hfile) Eo) as (Hk&Hres&Hok).
  destruct (Hok Hq Hl) as [r ->]. destruct Hres as [|[|[|(?&[= <-]&Hr&_)]]]; [done..|].
  exists r, w3. split; [done|]. split; [apply (fr_count _ _ _ _ _ Hr)|]. intros i j Hi Hj.
  destruct Hv as (Hmax&Hall&_). unfold ix_count in *.
  assert (Hh : holds_entries (index_image t s (ix_entries ix) definitions dcount) (ix_entries ix))
    by (apply index_image_holds; [apply Hck|done|apply Hck]).
  assert (Hget : ∀ r k w, file_reader t s (ix_entries ix) (index_image t s (ix_entries ix) definitions dcount) r →
    quiet w → 0 ≤ k < zlen (ix_entries ix) → ∃ r' w', get_raw r k w = (Ok (ix_entries ix !!! Z.to_nat k, r'), w') ∧
      file_reader t s (ix_entries ix) (index_image t s (ix_entries ix) definitions dcount) r' ∧ keeps w w').
  { intros r0 k w0 Hr0 Hq0 Hk0. destruct (get_raw r0 k w0) as [res w'] eqn:Eg.
    destruct (wp_out _ _ _ _ _ (get_raw_file _ _ _ _ _ k w0 Hr0 Hh Hall Hk0) Eg) as (Hkk&[->|(r'&->&Hr')]&Hqq).
    - by destruct (Hqq Hq0).
    - by exists r', w'. }
  destruct (Hget r i w3 Hr ltac:(by apply Hk) Hi) as (r'&w4&E4&Hr'&Hk4).
  destruct (Hget r' j w4 Hr' ltac:(by apply Hk4, Hk) Hj) as (r''&w5&E5&_&Hk5).
  exists r', w4, r'', w5. split_and!; [done|done|].
  assert (Hkk : keeps w2 w5) by (etrans; [exact Hk|etrans; [exact Hk4|exact Hk5]]). apply Hkk.
Qed.

(** A segment of two frames of page views. *)
Definition ix_frames : list wadb_index_entry :=
  [IndexEntry 5 9 1 128 2 0 192 80 11 12; IndexEntry 9 20 3 320 1 0 144 80 13 14].
Definition ix_segment : wadb_segment_meta := SegmentMeta 1 0 1 3 5 20 464 WADB_SEG_SEALED.
Definition ix_table : table_identity := Identity 1 (cstr "views") (cstr "/db/tables/1") pv_schema.
Definition ix_os : os := Os ∅ {[cstr "/db/tables/1/1970-01-01"]} [] [] [] [].
Definition ix_saved : os := (wadb_index_save ix_table ix_segment (FrameIndex ix_frames 64) pv_dict ix_os).2.
Lemma index_round_trip_witness : ∃ r w3,
  open_raw ix_table ix_segment (rebooted ix_saved) = (Ok r, w3) ∧ ∃ r' w4 r'' w5,
    get_raw r 1 w3 = (Ok (IndexEntry 9 20 3 320 1 0 144 80 13 14, r'), w4) ∧
    get_raw r' 0 w4 = (Ok (IndexEntry 5 9 1 128 2 0 192 80 11 12, r''), w5).
Proof.
  destruct (wadb_index_save ix_table ix_segment (FrameIndex ix_frames 64) pv_dict ix_os) as [r0 w1] eqn:E.
  assert (r0 = Ok ()) as -> by (apply (f_equal fst) in E; cbn [fst] in E; rewrite <-E; vm_compute; reflexivity).
  unfold ix_saved. rewrite E. cbn [snd].
  destruct (index_round_trip ix_table ix_segment (FrameIndex ix_frames 64) pv_dict ix_os w1 (rebooted w1)) as (r&w3&Ho&_&Hg).
  - apply pv_dict_ok.
  - apply (bool_decide_unpack (Forall (λ s, Forall is_u8 (s_data s)) (d_symbols pv_dict))). vm_compute. exact I.
  - unfold index_ranges, segment_ranges, pv_schema. cbn. unfold_widths. lia.
  - split_and!; [vm_compute; congruence| |split; discriminate|].
    + repeat constructor; try (vm_compute; congruence).
    + intros first last [= <-] [= <-]. vm_compute. reflexivity.
  - exact E.
  - reflexivity.
  - split; reflexivity.
  - vm_compute. reflexivity.
  - exists r, w3. split; [exact Ho|]. destruct (Hg 1 0) as (r'&w4&r''&w5&H1&H2&_); [vm_compute; split; congruence..|].
    exists r', w4, r'', w5. split; [exact H1|exact H2].
Defined.
