(* ===== verification/Segments.v ===== *)
(** * Recovery of the segment log (src/storage/segments.c, first half)

    Replaying a segment: every frame is checked, its symbols are added to a fresh
    dictionary, its rows are validated against it and it is entered into the index.
    An incomplete frame at the end of the active segment is cut off. The functions
    return what they change of the table, its [table_tail], together with the segment
    record; when they fail, the callers drop the table. *)

From Stdlib Require Import String.
From stdpp Require Import base numbers list list_numbers gmap.
From S2P Require Import Prelude Encoding Utf8 Checksum Schema Format Float Rows Dictionary Files Engine Metadata Paths Index.

(** ** Dictionaries inside of the engine *)

(** A dictionary operation takes its allocation outcomes from the environment. *)
Definition run_dictionary {A} (d : wadb_dictionary) (m : M dict_state A)
    : M os (result A * wadb_dictionary) := λ w,
  let '(r, (d', h)) := m (d, allocs w) in (Ok (r, d'), with_allocs h w).
Definition new_dictionary (s : wadb_schema) (limit : Z) : M os wadb_dictionary := λ w,
  if SIZEOF_DICTIONARY + field_count s * SIZEOF_COLUMN >? limit then (Err WADB_LIMIT, w)
  else
    (d ← os_malloc;
     if negb d then mfail WADB_NOMEM
     else
       c ← os_malloc;
       mlift (wadb_dictionary_new s limit true c)) w.

(** ** One frame *)

Record replay := Replay {
  rp_offset : Z;
  rp_last : Z;
  rp_min_time : Z;
  rp_max_time : Z;
  rp_dictionary : wadb_dictionary;
  rp_index : wadb_frame_index;
  rp_last_sequence : Z; (* t->last_sequence *)
  rp_last_time : Z; (* t->last_time *)
}.

(** The loop over the rows of a frame from row [i]. *)
Fixpoint validate_rows (n : nat) (s : wadb_schema) (f : wadb_frame) (d : wadb_dictionary) (i : Z) : result unit :=
  match n with
  | O => Ok ()
  | S n' =>
      _ ← wadb_validate_row s (sub (fr_rows f) (i * fr_row_width f) (fr_row_width f))
            (Some (wadb_dictionary_resolve d));
      validate_rows n' s f d (i + 1)
  end.
Definition frame_follows (h : wadb_segment_header) (s : wadb_segment_meta) (rp : replay) (f : wadb_frame) : bool :=
  negb (negb (fr_schema_hash f =? h_schema_hash h) || negb (fr_row_width f =? h_row_width h) ||
    (rp_last_sequence rp =? UINT64_MAX) || negb (fr_first_sequence f =? rp_last_sequence rp + 1) ||
    (fr_min_time f <? rp_last_time rp) ||
    negb (Z.quot (fr_min_time f) WADB_DAY_US =? Z.quot (sg_day_start s) WADB_DAY_US)).

(** A complete frame of [f.frame_bytes] bytes at the current offset. *)
Definition replay_frame (sch : wadb_schema) (h : wadb_segment_header) (s : wadb_segment_meta)
    (content : list Z) (frame_bytes : Z) (rp : replay) : M os replay :=
  buffer ← os_malloc;
  if negb buffer then mfail WADB_NOMEM
  else
    bytes ← wadb_pread_all content frame_bytes (rp_offset rp);
    f ← mlift (wadb_frame_decode bytes);
    if negb (frame_follows h s rp f) then mfail WADB_CORRUPT
    else
      '(applied, d) ← run_dictionary (rp_dictionary rp) (wadb_dictionary_apply f);
      _ ← mlift applied;
      _ ← mlift (validate_rows (Z.to_nat (fr_row_count f)) sch f d 0);
      ix ← wadb_index_reserve (rp_index rp);
      let last := u64 (fr_first_sequence f + fr_row_count f - 1) in
      mret (Replay (rp_offset rp + fr_frame_bytes f) last
              (if rp_last rp =? 0 then fr_min_time f else rp_min_time rp) (fr_max_time f)
              d (index_push ix (wadb_index_for_frame f bytes (rp_offset rp)))
              last (fr_max_time f)).

(** ** The replay loop *)

(** One pass over the loop body: [inl] continues, [inr] found an incomplete frame. *)
Definition replay_step (sch : wadb_schema) (h : wadb_segment_header) (s : wadb_segment_meta)
    (content : list Z) (deadline : Z) (rp : replay) : M os (replay + replay) :=
  now ← wadb_monotonic_ns;
  if now >=? deadline then mfail WADB_LIMIT
  else
    let left := zlen content - rp_offset rp in
    if left <? WADB_FRAME_HEADER_BYTES then mret (inr rp)
    else
      header ← wadb_pread_all content WADB_FRAME_HEADER_BYTES (rp_offset rp);
      f ← mlift (wadb_frame_inspect header);
      if fr_frame_bytes f >? left then mret (inr rp)
      else
        rp' ← replay_frame sch h s content (fr_frame_bytes f) rp;
        mret (inl rp').
(** A frame has at least 96 bytes, so [fuel] passes are enough for [96 * fuel] bytes;
    the result says if the loop ended at an incomplete frame. *)
Fixpoint replay_loop (fuel : nat) (sch : wadb_schema) (h : wadb_segment_header) (s : wadb_segment_meta)
    (content : list Z) (deadline : Z) (rp : replay) : M os (replay * bool) :=
  if rp_offset rp >=? zlen content then mret (rp, false)
  else
    match fuel with
    | O => mret (rp, false)
    | S fuel' =>
        step ← replay_step sch h s content deadline rp;
        match step with
        | inl rp' => replay_loop fuel' sch h s content deadline rp'
        | inr rp' => mret (rp', true)
        end
    end.
Definition replay_fuel (content : list Z) : nat := Z.to_nat (zlen content / 96).

(** ** A segment *)

Definition header_matches (t : table_identity) (s : wadb_segment_meta) (h : wadb_segment_header)
    (last_sequence : Z) : bool :=
  negb (negb (h_table_id h =? t_id t) || negb (h_segment_id h =? sg_id s) ||
    negb (h_schema_hash h =? fingerprint (t_schema t)) || negb (h_row_width h =? row_width (t_schema t)) ||
    negb (h_day_start h =? sg_day_start s) || negb (h_first_sequence h =? sg_first_sequence s) ||
    (last_sequence =? UINT64_MAX) || negb (sg_first_sequence s =? last_sequence + 1)).

(** Cutting off the incomplete frame, and making that durable. *)
Definition truncate_tail (p : path) (s : wadb_segment_meta) (content : list Z) (offset : Z) : M os unit :=
  if negb (is_active s) || (offset <? sg_committed_bytes s) then mfail WADB_CORRUPT
  else
    cut ← syscall;
    if negb cut then mfail WADB_IO
    else
      _ ← set_file p (sub content 0 offset);
      wadb_sync_file.

Definition summary_matches (s : wadb_segment_meta) (rp : replay) : bool :=
  negb ((negb (is_active s) &&
         (negb (sg_last_sequence s =? rp_last rp) || negb (sg_min_time s =? rp_min_time rp) ||
          negb (sg_max_time s =? rp_max_time rp))) ||
        (is_active s && (rp_last rp <? sg_last_sequence s))).
Definition recovered_meta (s : wadb_segment_meta) (rp : replay) : wadb_segment_meta :=
  SegmentMeta (sg_id s) (sg_day_start s) (sg_first_sequence s) (rp_last rp) (rp_min_time rp)
    (rp_max_time rp) (rp_offset rp) (sg_state s).

(** From the loop to the end of [recover_segment]. *)
Definition replay_segment (t : table_identity) (limit : Z) (l : table_tail) (s : wadb_segment_meta)
    (force_scan : bool) (deadline : Z) (p : path) (content : list Z) (h : wadb_segment_header)
    : M os (table_tail * wadb_segment_meta) :=
  d ← new_dictionary (t_schema t) limit;
  '(rp, partial) ← replay_loop (replay_fuel content) (t_schema t) h s content deadline
     (Replay WADB_SEGMENT_HEADER_BYTES 0 0 0 d empty_index (l_last_sequence l) (l_last_time l));
  _ ← (if partial : bool then truncate_tail p s content (rp_offset rp) else mret ());
  if negb (summary_matches s rp) then mfail WADB_CORRUPT
  else
    let s' := recovered_meta s rp in
    if is_active s then
      mret (Tail (Some p) (Some (rp_dictionary rp)) (rp_index rp) (rp_last_sequence rp) (rp_last_time rp), s')
    else if force_scan then
      mret (Tail (l_active_fd l) (Some (rp_dictionary rp)) (rp_index rp) (rp_last_sequence rp) (rp_last_time rp), s')
    else
      saved ← mtry (wadb_index_save t s' (rp_index rp) (rp_dictionary rp));
      match saved with
      | Err e =>
          if decide (e = WADB_IO ∨ e = WADB_INDETERMINATE)
          then mret (Tail (l_active_fd l) (l_dictionary l) (l_index l) (rp_last_sequence rp) (rp_last_time rp), s')
          else mfail e
      | Ok _ =>
          mret (Tail (l_active_fd l) (l_dictionary l) (l_index l) (rp_last_sequence rp) (rp_last_time rp), s')
      end.

(** A sealed segment whose index opens is taken from its manifest record. *)
Definition trust_index (l : table_tail) (s : wadb_segment_meta) : result (table_tail * wadb_segment_meta) :=
  if sg_last_sequence s =? 0 then Ok (l, s)
  else if sg_min_time s <? l_last_time l then Err WADB_CORRUPT
  else Ok (Tail (l_active_fd l) (l_dictionary l) (l_index l) (sg_last_sequence s) (sg_max_time s), s).

Definition recover_segment (t : table_identity) (limit : Z) (l : table_tail) (s : wadb_segment_meta)
    (force_scan : bool) (deadline : Z) : M os (table_tail * wadb_segment_meta) :=
  p ← wadb_segment_path t s EXT_SEG;
  match p with
  | None => mfail WADB_NOMEM
  | Some p =>
      opened ← syscall;
      w ← get_os;
      match (if opened : bool then files w !! p else None) with
      | None => mfail WADB_CORRUPT
      | Some content =>
          stat ← syscall;
          if negb stat || (zlen content <? WADB_SEGMENT_HEADER_BYTES) then mfail WADB_CORRUPT
          else if (negb (is_active s) && negb (zlen content =? sg_committed_bytes s)) ||
                  (zlen content <? sg_committed_bytes s)
          then mfail WADB_CORRUPT
          else
            header ← wadb_pread_all content WADB_SEGMENT_HEADER_BYTES 0;
            h ← mlift (wadb_segment_decode header);
            if negb (header_matches t s h (l_last_sequence l)) then mfail WADB_CORRUPT
            else if is_active s || force_scan
            then replay_segment t limit l s force_scan deadline p content h
            else
              reader ← mtry (open_raw t s);
              match reader with
              | Ok _ => mlift (trust_index l s)
              | Err e =>
                  if decide (e = WADB_NOMEM ∨ e = WADB_LIMIT) then mfail e
                  else replay_segment t limit l s force_scan deadline p content h
              end
      end
  end.
