(* ===== verification/Crash.v ===== *)
(** * A frame that was not written completely is invisible after recovery

    Appending a frame to the active segment can stop at any byte. Replaying the segment
    with such a rest of a frame behind the complete ones gives what replaying without it
    gives, and cuts the rest off. *)

From Stdlib Require Import String.
From stdpp Require Import base numbers list list_numbers gmap.
From S2P Require Import Prelude Encoding Checksum Schema Format Rows Dictionary Files Engine Metadata Paths Index Segments.

(** ** Steps that do not look at the directory of files *)

Definition fileless {A} (m : M os A) : Prop := ∀ F w,
  m (with_files F w) = ((m w).1, with_files F (m w).2).
Lemma fileless_bind {A B} (m : M os A) (k : A → M os B) : fileless m → (∀ a, fileless (k a)) → fileless (m ≫= k).
Proof.
  intros Hm Hk F w. unfold mbind, M_bind. rewrite Hm. destruct (m w) as [[a|e] w1]; cbn [fst snd]; [apply Hk|done].
Qed.
Lemma fileless_ret {A} (a : A) : fileless (mret a).
Proof. done. Qed.
Lemma fileless_fail {A} e : fileless (mfail e : M os A).
Proof. done. Qed.
Lemma fileless_lift {A} (r : result A) : fileless (mlift r).
Proof. done. Qed.
Lemma fileless_malloc : fileless os_malloc.
Proof. done. Qed.
Lemma fileless_clock : fileless wadb_monotonic_ns.
Proof. done. Qed.
Lemma fileless_syscall : fileless syscall.
Proof. done. Qed.
Lemma fileless_pread content n offset : fileless (wadb_pread_all content n offset).
Proof.
  intros F w. unfold wadb_pread_all. cbn. destruct (_ || _); [done|]. by destruct (pread_loop _ _ _ _ _).
Qed.
Lemma fileless_dictionary {A} d (m : M dict_state A) : fileless (run_dictionary d m).
Proof. intros F w. unfold run_dictionary. cbn. by destruct (m (d, allocs w)) as [r [d' h]]. Qed.
Lemma fileless_new_dictionary s limit : fileless (new_dictionary s limit).
Proof.
  intros F w. unfold new_dictionary. destruct (_ >? _); [done|].
  apply (fileless_bind os_malloc (λ d, if negb d then mfail WADB_NOMEM else c ← os_malloc; mlift (wadb_dictionary_new s limit true c))).
  - done.
  - intros []; cbn [negb]; [|done]. by apply fileless_bind.
Qed.
Lemma fileless_path t s ext : fileless (wadb_segment_path t s ext).
Proof.
  unfold wadb_segment_path, partition_path. apply fileless_bind; [|intros []; [|done]];
    unfold wadb_path; repeat (first [apply fileless_bind; [done|intros ?]|case_match|done]).
Qed.
Create HintDb fileless.
#[local] Hint Resolve fileless_bind fileless_ret fileless_fail fileless_lift fileless_malloc fileless_clock fileless_syscall
  fileless_pread fileless_dictionary fileless_new_dictionary fileless_path : fileless.
Lemma fileless_reserve ix : fileless (wadb_index_reserve ix).
Proof.
  unfold wadb_index_reserve. destruct (_ >=? _); [done|]. destruct (_ <? _); [done|]. cbv zeta.
  apply fileless_bind; [done|]. by intros [].
Qed.
Lemma fileless_frame sch h s content n rp : fileless (replay_frame sch h s content n rp).
Proof.
  unfold replay_frame. apply fileless_bind; [done|]. intros []; cbn [negb]; [|done].
  apply fileless_bind; [auto with fileless|]. intros bytes. apply fileless_bind; [done|]. intros f.
  destruct (negb _); [done|]. apply fileless_bind; [auto with fileless|]. intros [applied d].
  do 2 (apply fileless_bind; [done|]; intros _). apply fileless_bind; [apply fileless_reserve|]. done.
Qed.
Lemma fileless_step sch h s content deadline rp : fileless (replay_step sch h s content deadline rp).
Proof.
  unfold replay_step. apply fileless_bind; [done|]. intros now. destruct (_ >=? _); [done|]. cbv zeta.
  destruct (_ <? _); [done|]. apply fileless_bind; [auto with fileless|]. intros header. apply fileless_bind; [done|].
  intros f. destruct (_ >? _); [done|]. apply fileless_bind; [apply fileless_frame|]. done.
Qed.
Lemma fileless_loop fuel sch h s content deadline rp : fileless (replay_loop fuel sch h s content deadline rp).
Proof.
  revert rp. induction fuel as [|fuel IH]; intros rp; cbn [replay_loop]; destruct (_ >=? _); try done.
  apply fileless_bind; [apply fileless_step|]. intros []; [apply IH|done].
Qed.

(** ** Reading inside of the complete part *)

Lemma pread_loop_app cs content rest offset n got : 0 ≤ offset → offset + n ≤ zlen content →
  pread_loop cs (content ++ rest) offset n got = pread_loop cs content offset n got.
Proof.
  intros Ho Hn. revert got. induction cs as [|o cs IH]; intros got; cbn [pread_loop];
    destruct (Z.geb_spec (zlen got) n); try done; pose proof (zlen_nonneg got);
    rewrite (sub_app_l content rest (offset + zlen got) (n - zlen got)) by lia; [done|].
  destruct o; try done.
  - by destruct (sub content _ _).
  - by destruct (take _ _).
Qed.
Lemma pread_app content rest n offset w : 0 ≤ offset → offset + n ≤ zlen content →
  wadb_pread_all (content ++ rest) n offset w = wadb_pread_all content n offset w.
Proof. intros. unfold wadb_pread_all. destruct (_ || _); [done|]. rewrite pread_loop_app by lia. done. Qed.
Lemma replay_frame_app sch h s content rest n rp w : 0 ≤ rp_offset rp → rp_offset rp + n ≤ zlen content →
  replay_frame sch h s (content ++ rest) n rp w = replay_frame sch h s content n rp w.
Proof.
  intros. unfold replay_frame, mbind, M_bind. destruct (os_malloc w) as [[[]|e] w1]; try done. cbn [negb].
  by rewrite pread_app.
Qed.

(** ** Progress of the replay *)

Lemma decoded_frame_bytes p f : bytes p → wadb_frame_decode p = Ok f → fr_frame_bytes f = zlen p ∧ 96 ≤ zlen p.
Proof.
  intros Hp Hd. pose proof (frame_decode_sound p f Hp Hd) as (Hr&Hb&[Hf _]&He).
  apply frame_encode_inv in He as (rb&total&Hs&_&_&->); [|done..]. split; [done|].
  rewrite (zlen_frame_image f rb total) by done. pose proof (frame_sizes_ok _ _ _ Hr Hs) as (->&Ht&_&?&?&_).
  assert (0 ≤ fr_dictionary_bytes f) by (destruct Hr as (_&_&_&_&_&_&_&?); mlia). nia.
Qed.
Lemma replay_frame_offset sch h s content n rp rp' w w' :
  bytes content → 0 ≤ rp_offset rp ≤ zlen content → 0 ≤ n →
  replay_frame sch h s content n rp w = (Ok rp', w') →
  96 ≤ n ∧ rp_offset rp' = rp_offset rp + n ∧ rp_offset rp' ≤ zlen content.
Proof.
  intros Hb Ho Hn. unfold replay_frame, mbind, M_bind. destruct (os_malloc w) as [[[]|e] w1]; cbn [negb]; try done.
  destruct (wadb_pread_all _ _ _ _) as [[bs|e] w2] eqn:Ep; [|done].
  pose proof (wp_out _ _ _ _ _ (pread_all_spec content n (rp_offset rp) w1 Ho Hn) Ep) as (_&Hr&_).
  destruct Hr as [?|[[Hfit [= ->]]|[[_ ?]|[_ ?]]]]; try done.
  unfold mlift. destruct (wadb_frame_decode _) as [f|e] eqn:Ed; [|done].
  apply decoded_frame_bytes in Ed as [Hf H96]; [|by apply bytes_sub]. rewrite zlen_sub in Hf, H96 by lia.
  destruct (negb _); [done|]. destruct (run_dictionary _ _ _) as [[[applied d]|e] w3]; [|done].
  destruct applied; [|done]. destruct (validate_rows _ _ _ _ _); [|done].
  destruct (wadb_index_reserve _ _) as [[ix|e] w4]; [|done]. intros [= <- _]. cbn. lia.
Qed.
(** One pass that went on: it read one whole frame. *)
Lemma replay_step_next sch h s content deadline rp rp' w w' :
  bytes content → 0 ≤ rp_offset rp ≤ zlen content →
  replay_step sch h s content deadline rp w = (Ok (inl rp'), w') →
  rp_offset rp + 96 ≤ rp_offset rp' ≤ zlen content ∧
  ∀ rest, replay_step sch h s (content ++ rest) deadline rp w = (Ok (inl rp'), w').
Proof.
  intros Hb Ho. unfold replay_step, mbind, M_bind. destruct (wadb_monotonic_ns w) as [[now|e] w1]; [|done].
  destruct (now >=? deadline); [done|]. cbv zeta.
  destruct (Z.ltb_spec (zlen content - rp_offset rp) WADB_FRAME_HEADER_BYTES) as [|Hl]; [done|].
  destruct (wadb_pread_all content WADB_FRAME_HEADER_BYTES (rp_offset rp) w1) as [[header|e] w2] eqn:Ep; [|done].
  unfold mlift. destruct (wadb_frame_inspect header) as [f|e] eqn:Ei; [|done].
  destruct (Z.gtb_spec (fr_frame_bytes f) (zlen content - rp_offset rp)) as [|Hfit]; [done|].
  assert (H80 : rp_offset rp + WADB_FRAME_HEADER_BYTES ≤ zlen content) by lia.
  assert (Hhb : header = sub content (rp_offset rp) WADB_FRAME_HEADER_BYTES).
  { pose proof (wp_out _ _ _ _ _ (pread_all_spec content WADB_FRAME_HEADER_BYTES (rp_offset rp) w1 Ho ltac:(done)) Ep) as (_&Hr&_).
    by destruct Hr as [?|[[_ [= ->]]|[[_ ?]|[_ ?]]]]. }
  assert (Hf0 : 0 ≤ fr_frame_bytes f).
  { apply frame_inspect_ok in Ei as (->&_); [|rewrite Hhb; by apply bytes_sub]. cbn.
    apply get_u32_range; [rewrite Hhb; by apply bytes_sub|lia|]. rewrite Hhb, zlen_sub by (unfold WADB_FRAME_HEADER_BYTES in *; lia). done. }
  destruct (replay_frame sch h s content (fr_frame_bytes f) rp w2) as [[rp1|e] w3] eqn:Ef; [|done]. intros [= <- <-].
  pose proof (replay_frame_offset _ _ _ _ _ _ _ _ _ Hb Ho Hf0 Ef) as (?&?&?). split; [lia|]. intros rest.
  rewrite zlen_app. pose proof (zlen_nonneg rest).
  destruct (Z.ltb_spec (zlen content + zlen rest - rp_offset rp) WADB_FRAME_HEADER_BYTES); [lia|].
  rewrite pread_app, Ep by lia. rewrite Ei.
  destruct (Z.gtb_spec (fr_frame_bytes f) (zlen content + zlen rest - rp_offset rp)); [lia|].
  rewrite replay_frame_app, Ef by lia. done.
Qed.
(** A replay that ends at the end of the complete part takes the same passes when
    something follows it. *)
Lemma replay_loop_app fuel sch h s content rest deadline rp w rp' b w' :
  bytes content → 0 ≤ rp_offset rp ≤ zlen content → rp_offset rp' = zlen content →
  replay_loop fuel sch h s content deadline rp w = (Ok (rp', b), w') →
  b = false ∧ ∃ n : nat, 96 * Z.of_nat n ≤ zlen content - rp_offset rp ∧
    ∀ m, replay_loop (n + m) sch h s (content ++ rest) deadline rp w = replay_loop m sch h s (content ++ rest) deadline rp' w'.
Proof.
  intros Hb Ho He. revert rp w Ho. induction fuel as [|fuel IH]; intros rp w Ho; cbn [replay_loop];
    destruct (Z.geb_spec (rp_offset rp) (zlen content)) as [Hge|Hlt].
  1, 3: intros [= <- <- <-]; split; [done|]; exists 0%nat; split; [lia|done].
  { intros [= <- <- <-]. lia. }
  unfold mbind, M_bind at 1. destruct (replay_step sch h s content deadline rp w) as [[[rp1|rp1]|e] w1] eqn:Es; [| |done].
  - pose proof (replay_step_next _ _ _ _ _ _ _ _ _ Hb Ho Es) as [Hnext Hrest]. intros Hl.
    destruct (IH rp1 w1 ltac:(lia) Hl) as [Hbf (n&Hn&Hm)]. split; [done|]. exists (S n). split; [lia|]. intros m.
    cbn [Nat.add replay_loop]. rewrite zlen_app. pose proof (zlen_nonneg rest).
    destruct (Z.geb_spec (rp_offset rp) (zlen content + zlen rest)); [lia|].
    unfold mbind, M_bind at 1. rewrite Hrest. apply Hm.
  - intros [= <- _ _]. exfalso. revert Es. unfold replay_step, mbind, M_bind. destruct (wadb_monotonic_ns w) as [[now|e] w2]; [|done].
    destruct (now >=? deadline); [done|]. cbv zeta. destruct (_ <? _); [intros [= -> _]; lia|].
    destruct (wadb_pread_all _ _ _ _) as [[header|e] w3]; [|done]. unfold mlift. destruct (wadb_frame_inspect header); [|done].
    destruct (_ >? _); [intros [= -> _]; lia|]. by destruct (replay_frame _ _ _ _ _ _ _) as [[?|?] ?].
Qed.

(** ** The rest of a frame *)

(** No system call fails, and the monotonic clock has not reached its maximum. *)
Definition steady (w : os) : Prop := calls w = [] ∧ Forall (λ x, x < UINT64_MAX) (clock w).
Definition steadily {A} (m : M os A) : Prop := ∀ w, steady w → steady (m w).2.
Lemma steadily_bind {A B} (m : M os A) (k : A → M os B) : steadily m → (∀ a, steadily (k a)) → steadily (m ≫= k).
Proof.
  intros Hm Hk w Hw. unfold mbind, M_bind. specialize (Hm w Hw). destruct (m w) as [[a|e] w1]; [by apply Hk|done].
Qed.
(** Steps that touch neither the calls nor the clock. *)
Ltac st := first [done|by intros ? Hst; exact Hst|by intros ? ? Hst; exact Hst|by intros [] ? Hst; exact Hst].
Lemma steadily_clock : steadily wadb_monotonic_ns.
Proof. intros w [Hc Hk]. split; [st|]. cbn. by destruct Hk. Qed.
Lemma steadily_syscall : steadily syscall.
Proof. intros w [Hc Hk]. split; [|st]. cbn. by rewrite Hc. Qed.
Lemma steadily_pread content n offset : steadily (wadb_pread_all content n offset).
Proof.
  intros w [Hc Hk]. unfold wadb_pread_all. destruct (_ || _); [st|]. rewrite Hc. cbn [pread_loop].
  destruct (_ >=? n); [st|]. by destruct (_ =? _).
Qed.
Lemma steadily_dictionary {A} d (m : M dict_state A) : steadily (run_dictionary d m).
Proof. intros w Hw. unfold run_dictionary. by destruct (m (d, allocs w)) as [r [d' h]]. Qed.
Lemma steadily_frame sch h s content n rp : steadily (replay_frame sch h s content n rp).
Proof.
  unfold replay_frame. apply steadily_bind; [st|]. intros []; cbn [negb]; [|st].
  apply steadily_bind; [apply steadily_pread|]. intros bs. apply steadily_bind; [st|]. intros f.
  destruct (negb _); [st|]. apply steadily_bind; [apply steadily_dictionary|]. intros [applied d].
  do 2 (apply steadily_bind; [st|]; intros _). apply steadily_bind; [|st].
  unfold wadb_index_reserve. destruct (_ >=? _); [st|]. destruct (_ <? _); [st|]. cbv zeta.
  apply steadily_bind; [st|]. by intros []; st.
Qed.
Lemma steadily_loop fuel sch h s content deadline rp : steadily (replay_loop fuel sch h s content deadline rp).
Proof.
  revert rp. induction fuel as [|fuel IH]; intros rp; cbn [replay_loop]; destruct (_ >=? _); try st.
  apply steadily_bind; [|intros []; [apply IH|st]]. unfold replay_step. apply steadily_bind; [apply steadily_clock|].
  intros now. destruct (_ >=? _); [st|]. cbv zeta. destruct (_ <? _); [st|].
  apply steadily_bind; [apply steadily_pread|]. intros header. apply steadily_bind; [st|]. intros f.
  destruct (_ >? _); [st|]. apply steadily_bind; [apply steadily_frame|]. st.
Qed.
Lemma steadily_path t s ext : steadily (wadb_segment_path t s ext).
Proof.
  unfold wadb_segment_path, partition_path. apply steadily_bind; [|intros []; [|st]];
    unfold wadb_path; repeat (first [apply steadily_bind; [st|intros ?]|case_match|st]).
Qed.
Lemma steadily_new_dictionary s limit : steadily (new_dictionary s limit).
Proof.
  intros w Hw. unfold new_dictionary. destruct (_ >? _); [st|].
  apply (steadily_bind os_malloc (λ d, if negb d then mfail WADB_NOMEM else c ← os_malloc; mlift (wadb_dictionary_new s limit true c))); [st| |done].
  intros []; cbn [negb]; [|st]. apply steadily_bind; st.
Qed.
Lemma pread_steady content n offset w : steady w → 0 ≤ offset → 0 ≤ n → offset + n ≤ zlen content → offset + n ≤ INT64_MAX →
  wadb_pread_all content n offset w = (Ok (sub content offset n), w).
Proof.
  intros [Hc _] Ho Hn Hl Hm. unfold wadb_pread_all. destruct (_ || _) eqn:E; [lia|]. rewrite Hc. cbn [pread_loop].
  rewrite zlen_nil, Z.add_0_r, Z.sub_0_r. assert (E' : with_calls [] w = w) by (destruct w; cbn in *; by subst).
  destruct (Z.geb_spec 0 n); [replace n with 0 by lia; rewrite sub_nil; by f_equal|].
  rewrite zlen_sub, Z.eqb_refl by lia. cbn [app]. by rewrite E'.
Qed.
(** The pass that meets the beginning of a frame stops there. *)
Lemma replay_step_torn sch h s content frame f n rp w :
  bytes frame → wadb_frame_decode frame = Ok f → 0 < n < zlen frame → zlen content + n ≤ INT64_MAX → steady w →
  rp_offset rp = zlen content → ∃ w', steady w' ∧ files w' = files w ∧
    replay_step sch h s (content ++ sub frame 0 n) UINT64_MAX rp w = (Ok (inr rp), w').
Proof.
  intros Hb Hd Hn Hmax Hw Ho. unfold replay_step, mbind, M_bind, wadb_monotonic_ns.
  pose proof (steadily_clock w Hw) as Hw1. unfold wadb_monotonic_ns in Hw1. cbn [fst snd] in Hw1.
  set (w1 := Os _ _ _ _ _ _) in *. assert (Hf1 : files w1 = files w) by done. clearbody w1. exists w1. split; [done|]. split; [done|].
  assert (Hclk : hd 0 (clock w) < UINT64_MAX) by (destruct Hw as [_ Hc]; destruct (clock w); [done|by inversion Hc]).
  destruct (Z.geb_spec (hd 0 (clock w)) UINT64_MAX); [lia|]. cbv zeta.
  rewrite zlen_app, zlen_sub, Ho by lia. replace (zlen content + n - zlen content) with n by lia.
  destruct (Z.ltb_spec n WADB_FRAME_HEADER_BYTES) as [|H80]; [done|]. unfold WADB_FRAME_HEADER_BYTES in *.
  rewrite pread_steady; [|done|apply zlen_nonneg|lia|rewrite zlen_app, zlen_sub; lia|lia].
  assert (Hh : sub (content ++ sub frame 0 n) (zlen content) 80 = sub frame 0 80).
  { rewrite sub_app_r by lia. rewrite Z.sub_diag, sub_sub by lia. f_equal. }
  rewrite Hh. unfold mlift, wadb_frame_decode in *. apply result_bind_ok in Hd as (f'&Hi&Hd).
  rewrite frame_inspect_header in Hi by lia. rewrite Hi.
  assert (Hfb : fr_frame_bytes f' = zlen frame).
  { destruct (Z.eqb_spec (zlen frame) (fr_frame_bytes f')); [done|]. cbn [negb orb] in Hd. done. }
  rewrite Hfb. destruct (Z.gtb_spec (zlen frame) n); [done|lia].
Qed.

(** ** Replaying and recovering *)

Lemma replay_rest sch h s content frame f n rp rp' b w w' :
  bytes content → WADB_SEGMENT_HEADER_BYTES ≤ zlen content →
  bytes frame → wadb_frame_decode frame = Ok f → 0 < n < zlen frame → zlen content + n ≤ INT64_MAX → steady w →
  rp_offset rp = WADB_SEGMENT_HEADER_BYTES → rp_offset rp' = zlen content →
  replay_loop (replay_fuel content) sch h s content UINT64_MAX rp w = (Ok (rp', b), w') →
  b = false ∧ ∃ w2, steady w2 ∧ files w2 = files w' ∧
    replay_loop (replay_fuel (content ++ sub frame 0 n)) sch h s (content ++ sub frame 0 n) UINT64_MAX rp w = (Ok (rp', true), w2).
Proof.
  intros Hb Hl Hfb Hd Hn Hmax Hw Ho Ho' Hrun. unfold WADB_SEGMENT_HEADER_BYTES in *.
  destruct (replay_loop_app _ sch h s content (sub frame 0 n) _ rp w rp' b w' Hb ltac:(lia) Ho' Hrun) as [-> (k&Hk&Hm)]. split; [done|].
  assert (Hw' : steady w') by (pose proof (steadily_loop (replay_fuel content) sch h s content UINT64_MAX rp w Hw) as H; by rewrite Hrun in H).
  assert (Hfuel : ∃ m, replay_fuel (content ++ sub frame 0 n) = (k + S m)%nat).
  { unfold replay_fuel. rewrite zlen_app, zlen_sub by lia.
    rewrite Ho in Hk. assert (Z.of_nat k + 1 ≤ (zlen content + n) / 96) by (apply Z.div_le_lower_bound; lia).
    exists (Z.to_nat ((zlen content + n) / 96) - k - 1)%nat. lia. }
  destruct Hfuel as [m ->]. rewrite Hm. cbn [replay_loop]. rewrite zlen_app, zlen_sub, Ho' by lia.
  destruct (Z.geb_spec (zlen content) (zlen content + n)); [lia|].
  destruct (replay_step_torn sch h s content frame f n rp' w' Hfb Hd Hn Hmax Hw' Ho') as (w2&Hw2&Hf2&Es).
  exists w2. split; [done|]. split; [done|]. unfold mbind, M_bind. by rewrite Es.
Qed.

Lemma truncate_rest p s content rest w : steady w → is_active s = true → sg_committed_bytes s ≤ zlen content →
  ∃ w', truncate_tail p s (content ++ rest) (zlen content) w = (Ok (), w') ∧ files w' = <[p := content]> (files w).
Proof.
  intros [Hc _] Ha Hl. unfold truncate_tail. rewrite Ha. cbn [negb orb].
  destruct (Z.ltb_spec (zlen content) (sg_committed_bytes s)); [lia|]. unfold mbind, M_bind, syscall. rewrite Hc. cbn.
  unfold wadb_sync_file, retried_call, mbind, M_bind. cbn. eexists. split; [done|]. cbn.
  by rewrite sub_app_l, sub_all by (pose proof (zlen_nonneg content); lia).
Qed.
Lemma replay_segment_rest t limit l s p content frame f n h w l' s' w' :
  is_active s = true → bytes content → WADB_SEGMENT_HEADER_BYTES ≤ zlen content → sg_committed_bytes s ≤ zlen content →
  bytes frame → wadb_frame_decode frame = Ok f → 0 < n < zlen frame → zlen content + n ≤ INT64_MAX → steady w →
  replay_segment t limit l s false UINT64_MAX p content h w = (Ok (l', s'), w') → sg_committed_bytes s' = zlen content →
  ∀ F, ∃ w2, replay_segment t limit l s false UINT64_MAX p (content ++ sub frame 0 n) h (with_files F w) = (Ok (l', s'), w2) ∧
    files w2 = <[p := content]> F.
Proof.
  intros Ha Hb Hl Hcl Hfb Hd Hn Hmax Hw Hrun Hs' F. revert Hrun. unfold replay_segment, mbind, M_bind. rewrite Ha.
  rewrite (fileless_new_dictionary _ _ F w). pose proof (steadily_new_dictionary (t_schema t) limit w Hw) as Hw1.
  destruct (new_dictionary (t_schema t) limit w) as [[d|e] w1]; cbn [fst snd] in *; [|done].
  set (rp := Replay _ _ _ _ _ _ _ _). destruct (replay_loop (replay_fuel content) _ _ _ content _ rp w1) as [[[rp' b]|e] w2] eqn:El; [|done].
  intros Hrun. assert (Ho' : rp_offset rp' = zlen content).
  { rewrite <-Hs'. revert Hrun. destruct b.
    - destruct (truncate_tail _ _ _ _ _) as [[?|?] ?]; [|done]. destruct (negb _); [done|]. by intros [= _ <- _].
    - destruct (negb _); [done|]. by intros [= _ <- _]. }
  destruct (replay_rest _ h s content frame f n rp rp' b w1 w2 Hb Hl Hfb Hd Hn Hmax Hw1 eq_refl Ho' El) as (->&w3&Hw3&_&El').
  rewrite (fileless_loop _ _ _ _ _ _ _ F w1), El'. cbn [fst snd].
  rewrite Ho'. destruct (truncate_rest p s content (sub frame 0 n) (with_files F w3)) as (w4&Et&Hf4); [done|done|done|].
  rewrite Et. revert Hrun. unfold mret, M_ret. destruct (negb _); [done|]. intros [= <- <- _]. by exists w4.
Qed.

(** C2: Recovery after a crash in the middle of an append: when the file of the active
    segment ends in a proper prefix of a frame behind complete frames, recovering the
    segment gives exactly what recovering the complete frames alone gives, and the
    file on disk is cut back to them. *)
Theorem torn_frame_invisible t limit l s content frame f n w l' s' w' :
  is_active s = true → bytes content → bytes frame → wadb_frame_decode frame = Ok f →
  0 < n < zlen frame → zlen content + n ≤ INT64_MAX → steady w →
  files w !! segment_file t s EXT_SEG = Some content →
  recover_segment t limit l s false UINT64_MAX w = (Ok (l', s'), w') → sg_committed_bytes s' = zlen content →
  ∃ w2, recover_segment t limit l s false UINT64_MAX
          (with_files (<[segment_file t s EXT_SEG := content ++ sub frame 0 n]> (files w)) w) = (Ok (l', s'), w2) ∧
    files w2 = files w.
Proof.
  intros Ha Hb Hfb Hd Hn Hmax Hw Hfile Hrun Hs'. set (p := segment_file t s EXT_SEG) in *.
  set (F := <[p := content ++ sub frame 0 n]> (files w)).
  assert (HF : <[p := content]> F = files w) by (unfold F; rewrite insert_insert_eq; by apply insert_id).
  revert Hrun. unfold recover_segment, mbind, M_bind. rewrite (fileless_path _ _ _ F w).
  pose proof (steadily_path t s EXT_SEG w Hw) as Hw1. pose proof (segment_path_spec t s EXT_SEG w) as Hp. unfold wp in Hp.
  destruct (wadb_segment_path t s EXT_SEG w) as [[[q|]|e] w1]; cbn [fst snd] in *; [|done..].
  destruct Hp as (?&[= <-]&[[Hf1 _] _]&[?|[= ->]]&_); [done|]. fold p.
  pose proof (steadily_syscall w1 Hw1) as Hw2. unfold syscall, get_os in *. cbn [fst snd] in Hw2. cbn [calls with_files].
  destruct Hw1 as [Hc1 Hk1]. rewrite Hc1 in *. cbn [hd tl sys_ok] in *. cbn [files with_calls with_files calls]. rewrite Hf1, Hfile.
  unfold F at 1. rewrite lookup_insert_eq. cbn [hd tl sys_ok negb orb]. rewrite zlen_app, zlen_sub by lia. rewrite Ha. cbn [negb andb orb].
  destruct (Z.ltb_spec (zlen content) WADB_SEGMENT_HEADER_BYTES) as [|Hl]; [done|].
  destruct (Z.ltb_spec (zlen content + n) WADB_SEGMENT_HEADER_BYTES); [lia|].
  destruct (Z.ltb_spec (zlen content) (sg_committed_bytes s)) as [|Hcl]; [done|].
  destruct (Z.ltb_spec (zlen content + n) (sg_committed_bytes s)); [lia|].
  change (calls (with_calls [] w1)) with (@nil outcome). change (calls (with_calls [] (with_files F w1))) with (@nil outcome).
  cbn [hd tail sys_ok negb orb]. set (w3 := with_calls [] (with_calls [] w1)) in *.
  change (with_calls [] (with_calls [] (with_files F w1))) with (with_files F w3).
  rewrite (fileless_pread _ _ _ F w3), pread_app by (done || lia).
  pose proof (steadily_pread content WADB_SEGMENT_HEADER_BYTES 0 w3 Hw2) as Hw4.
  destruct (wadb_pread_all content WADB_SEGMENT_HEADER_BYTES 0 w3) as [[header|e] w4]; cbn [fst snd] in *; [|done].
  unfold mlift. destruct (wadb_segment_decode header) as [h|e]; [|done]. destruct (negb _); [done|].
  intros Hrun. rewrite <-HF. by eapply replay_segment_rest.
Qed.

(** ** A segment with one frame of a page view, and the beginning of a second one *)

Definition cr_header : list Z := Eval vm_compute in
  match wadb_segment_encode (SegmentHeader 1 1 (fingerprint pv_schema) (row_width pv_schema) 0 1) with Ok b => b | Err _ => [] end.
Definition cr_frame (first : Z) (d : list Z * Z * Z) : list Z :=
  let '(data, n, c) := d in
  match wadb_frame_encode true (Frame (fingerprint pv_schema) first 1000 1000 1 (row_width pv_schema) c n data pv_row 0 0) with
  | Ok b => b | Err _ => [] end.
Definition cr_first : list Z := Eval vm_compute in
  match wadb_dictionary_export pv_after 0 true with Ok d => cr_frame 1 d | Err _ => [] end.
Definition cr_second : list Z := Eval vm_compute in cr_frame 2 ([], 0, 0).
Definition cr_content : list Z := Eval vm_compute in cr_header ++ cr_first.
Definition cr_segment : wadb_segment_meta := SegmentMeta 1 0 1 0 0 0 128 WADB_SEG_ACTIVE.
Definition cr_tail : table_tail := Tail None None empty_index 0 0.
Definition cr_file : path := Eval vm_compute in segment_file ix_table cr_segment EXT_SEG.
Definition cr_os : os := Os {[cr_file := cr_content]} {[cstr "/db/tables/1/1970-01-01"]} [] [] [] [].
Definition cr_decoded : wadb_frame := Eval vm_compute in
  match wadb_frame_decode cr_second with Ok f => f | Err _ => Frame 0 0 0 0 0 0 0 0 [] [] 0 0 end.
Definition cr_run := recover_segment ix_table 65536 cr_tail cr_segment false UINT64_MAX.
Lemma cr_run_state : match (cr_run cr_os).1 with Ok (_, s) => s | Err _ => inhabitant end =
  SegmentMeta 1 0 1 1 1000 1000 (zlen cr_content) WADB_SEG_ACTIVE.
Proof. vm_compute. reflexivity. Qed.
Lemma torn_frame_invisible_witness : ∃ l' s' w2,
  cr_run (with_files (<[cr_file := cr_content ++ sub cr_second 0 100]> (files cr_os)) cr_os) = (Ok (l', s'), w2) ∧
  sg_last_sequence s' = 1 ∧ sg_committed_bytes s' = zlen cr_content ∧ files w2 = files cr_os.
Proof.
  pose proof cr_run_state as Hs. destruct (cr_run cr_os) as [[[l' s']|e] w'] eqn:E; cbn [fst] in Hs; [|discriminate Hs].
  destruct (torn_frame_invisible ix_table 65536 cr_tail cr_segment cr_content cr_second cr_decoded 100 cr_os l' s' w')
    as (w2&Hrun&Hf).
  - reflexivity.
  - apply (bool_decide_unpack (Forall is_u8 cr_content)). vm_compute. exact I.
  - apply (bool_decide_unpack (Forall is_u8 cr_second)). vm_compute. exact I.
  - vm_compute. reflexivity.
  - vm_compute. split; congruence.
  - vm_compute. congruence.
  - split; [reflexivity|constructor].
  - vm_compute. reflexivity.
  - exact E.
  - rewrite Hs. reflexivity.
  - exists l', s', w2. split; [exact Hrun|]. rewrite Hs. split; [reflexivity|]. split; [reflexivity|exact Hf].
Defined.
