(* ===== verification/Reader.v ===== *)
(** * Index readers with repair (src/storage/index.c, second half; rebuilding from
      src/storage/segments.c)

    A reader whose index file is missing, stale or damaged replays the segment, keeps
    the result in memory and tries to install it. *)

From Stdlib Require Import String.
From stdpp Require Import base numbers list list_numbers gmap.
From S2P Require Import Prelude Encoding Utf8 Checksum Schema Format Float Rows Dictionary Files Engine Metadata Paths Index Segments.

(** ** Rebuilding *)

(** The private view of the table: nothing before this segment. *)
Definition rebuild_view (s : wadb_segment_meta) : table_tail :=
  Tail None None empty_index (u64 (sg_first_sequence s - 1)) (sg_min_time s).
Definition wadb_rebuild_index_data (t : table_identity) (limit : Z) (s : wadb_segment_meta) (deadline : Z)
    : M os (wadb_frame_index * wadb_dictionary) :=
  if is_active s then mfail WADB_INVALID
  else
    '(l, _) ← recover_segment t limit (rebuild_view s) s true deadline;
    match l_dictionary l with
    | Some d => mret (l_index l, d)
    | None => mfail WADB_INVALID (* a forced scan always leaves a dictionary *)
    end.
Definition wadb_rebuild_index (t : table_identity) (limit : Z) (s : wadb_segment_meta) : M os unit :=
  '(ix, d) ← wadb_rebuild_index_data t limit s UINT64_MAX;
  wadb_index_save t s ix d.

(** ** Repair *)

Definition checkpoint_bytes (d : wadb_dictionary) : Z :=
  align8 (fold_left (λ n sym, u64 (n + (12 + s_length sym))) (d_symbols d) 0).
(** [index.entries] is a null pointer when no frame was indexed. *)
Definition entries_pointer (l : list wadb_index_entry) : option (list wadb_index_entry) :=
  match l with [] => None | _ => Some l end.
Definition repaired_reader (r : wadb_index_reader) (ix : wadb_frame_index) (d : wadb_dictionary) : wadb_index_reader :=
  Reader (rd_table r) (rd_segment r) None (entries_pointer (ix_entries ix)) (ix_count ix) (rd_dictionary_offset r)
    (checkpoint_bytes d) (u32 (d_count d)) 0 (rd_page_number r) (rd_page r) (rd_io_bytes r)
    (rd_dictionary_io_bytes r) true (Some d)
    (rd_rebuild_budget r - sg_committed_bytes (rd_segment r))
    (rd_rebuilt_bytes r + sg_committed_bytes (rd_segment r)) (rd_deadline r).
Definition repair_reader (limit : Z) (r : wadb_index_reader) : M os wadb_index_reader :=
  if sg_committed_bytes (rd_segment r) >? rd_rebuild_budget r then mfail WADB_LIMIT
  else
    '(ix, d) ← wadb_rebuild_index_data (rd_table r) limit (rd_segment r) (rd_deadline r);
    saved ← mtry (wadb_index_save (rd_table r) (rd_segment r) ix d);
    match saved with
    | Err e =>
        if decide (e = WADB_IO ∨ e = WADB_INDETERMINATE ∨ e = WADB_NOMEM)
        then mret (repaired_reader r ix d) else mfail e
    | Ok _ => mret (repaired_reader r ix d)
    end.

Definition with_budget (budget deadline : Z) (r : wadb_index_reader) : wadb_index_reader :=
  Reader (rd_table r) (rd_segment r) (rd_fd r) (rd_memory r) (rd_count r) (rd_dictionary_offset r)
    (rd_dictionary_bytes r) (rd_dictionary_count r) (rd_dictionary_crc r) (rd_page_number r) (rd_page r)
    (rd_io_bytes r) (rd_dictionary_io_bytes r) (rd_repaired r) (rd_rebuilt_dictionary r) budget
    (rd_rebuilt_bytes r) deadline.

(** The reader of a failed [open_raw] holds the table and the segment; what it had
    read of the file is not used by the repair. *)
Definition wadb_index_open_bounded (limit : Z) (t : table_identity) (s : wadb_segment_meta)
    (budget deadline : Z) : M os wadb_index_reader :=
  opened ← mtry (open_raw t s);
  match opened with
  | Ok r => mret (with_budget budget deadline r)
  | Err e =>
      if decide (e = WADB_NOMEM ∨ e = WADB_LIMIT) then mfail e
      else repair_reader limit (with_budget budget deadline (new_reader t s None 0))
  end.
Definition wadb_index_open (limit : Z) (t : table_identity) (s : wadb_segment_meta) (repair : bool)
    : M os wadb_index_reader :=
  if repair then wadb_index_open_bounded limit t s UINT64_MAX UINT64_MAX else open_raw t s.

Definition in_memory (r : wadb_index_reader) : bool := match rd_memory r with Some _ => true | None => false end.

Definition wadb_index_get (limit : Z) (r : wadb_index_reader) (pos : Z) : M os (wadb_index_entry * wadb_index_reader) :=
  got ← mtry (get_raw r pos);
  match got with
  | Ok v => mret v
  | Err e =>
      if bool_decide (e = WADB_CORRUPT ∨ e = WADB_IO) && negb (in_memory r) && negb (rd_repaired r) then
        r' ← repair_reader limit r;
        get_raw r' pos
      else mfail e
  end.

(** ** Searching *)

(** Entries that hold nothing at or after [time] and after [sequence]. *)
Definition entry_before (time sequence : Z) (v : wadb_index_entry) : bool :=
  (ie_max_time v <? time) || (ie_last_sequence v <=? sequence).
(** The loop of [wadb_index_lower_bound]; the interval halves, so its length is fuel enough. *)
Fixpoint lower_bound_loop (fuel : nat) (limit : Z) (r : wadb_index_reader) (time sequence lo hi : Z)
    : M os (Z * wadb_index_reader) :=
  match fuel with
  | O => mret (lo, r)
  | S fuel' =>
      if lo <? hi then
        let mid := lo + (hi - lo) / 2 in
        '(v, r') ← wadb_index_get limit r mid;
        if entry_before time sequence v
        then lower_bound_loop fuel' limit r' time sequence (mid + 1) hi
        else lower_bound_loop fuel' limit r' time sequence lo mid
      else mret (lo, r)
  end.
Definition wadb_index_lower_bound (limit : Z) (r : wadb_index_reader) (time sequence : Z)
    : M os (Z * wadb_index_reader) :=
  lower_bound_loop (S (Z.to_nat (rd_count r))) limit r time sequence 0 (rd_count r).

(** ** The dictionary of a sealed segment *)

Definition with_dictionary_io (n : Z) (r : wadb_index_reader) : wadb_index_reader :=
  Reader (rd_table r) (rd_segment r) (rd_fd r) (rd_memory r) (rd_count r) (rd_dictionary_offset r)
    (rd_dictionary_bytes r) (rd_dictionary_count r) (rd_dictionary_crc r) (rd_page_number r) (rd_page r)
    (rd_io_bytes r + n) (rd_dictionary_io_bytes r + n) (rd_repaired r) (rd_rebuilt_dictionary r)
    (rd_rebuild_budget r) (rd_rebuilt_bytes r) (rd_deadline r).
Definition take_rebuilt (r : wadb_index_reader) : wadb_index_reader :=
  Reader (rd_table r) (rd_segment r) (rd_fd r) (rd_memory r) (rd_count r) (rd_dictionary_offset r)
    (rd_dictionary_bytes r) (rd_dictionary_count r) (rd_dictionary_crc r) (rd_page_number r) (rd_page r)
    (rd_io_bytes r) (rd_dictionary_io_bytes r) (rd_repaired r) None (rd_rebuild_budget r)
    (rd_rebuilt_bytes r) (rd_deadline r).
(** The frame that [wadb_dictionary_apply] is given: only its dictionary part. *)
Definition dictionary_frame (bytes : list Z) (nbytes count : Z) : wadb_frame :=
  Frame 0 0 0 0 0 0 count nbytes bytes [] 0 0.

Definition rebuilt_dictionary (r : wadb_index_reader) : M os (wadb_dictionary * wadb_index_reader) :=
  match rd_rebuilt_dictionary r with
  | None => mfail WADB_INVALID
  | Some d => mret (d, take_rebuilt r)
  end.
(** Reading and applying the checkpoint. *)
Definition load_checkpoint (limit : Z) (r : wadb_index_reader) : M os wadb_dictionary :=
  bytes ← wadb_pread_all (default [] (rd_fd r)) (rd_dictionary_bytes r) (rd_dictionary_offset r);
  if negb (wadb_crc32c bytes =? rd_dictionary_crc r) then mfail WADB_CORRUPT
  else
    d ← new_dictionary (t_schema (rd_table r)) limit;
    '(applied, d') ← run_dictionary d
      (wadb_dictionary_apply (dictionary_frame bytes (u32 (rd_dictionary_bytes r)) (rd_dictionary_count r)));
    _ ← mlift applied;
    mret d'.
(** One pass over the file, up to the decision to repair (lines 236 to 250). *)
Definition checkpoint_dictionary (limit : Z) (r : wadb_index_reader)
    : M os (result wadb_dictionary * wadb_index_reader) :=
  buffer ← os_malloc;
  if negb buffer then mfail WADB_NOMEM
  else
    let r := with_dictionary_io (rd_dictionary_bytes r) r in
    loaded ← mtry (load_checkpoint limit r);
    mret (loaded, r).
(** A repaired reader is not repaired again, so the recursive call is the last one; it
    goes to the file again when there are no entries in memory. *)
Definition wadb_index_dictionary (limit : Z) (r : wadb_index_reader) : M os (wadb_dictionary * wadb_index_reader) :=
  if in_memory r then rebuilt_dictionary r
  else
    '(loaded, r) ← checkpoint_dictionary limit r;
    match loaded with
    | Ok d => mret (d, r)
    | Err e =>
        if bool_decide (e = WADB_CORRUPT ∨ e = WADB_IO) && negb (rd_repaired r) then
          r' ← repair_reader limit r;
          if in_memory r' then rebuilt_dictionary r'
          else
            '(loaded, r') ← checkpoint_dictionary limit r';
            d ← mlift loaded;
            mret (d, r')
        else mfail e
    end.
