(* ===== verification/Retention.v ===== *)
(** * Retention (src/storage/retention.c)

    Whole segments whose newest row is older than the cut-off are retired in the
    manifest, and their files are removed when no reader pins the table. *)

From Stdlib Require Import String.
From stdpp Require Import base numbers list list_numbers gmap.
From S2P Require Import Prelude Encoding Schema Format Dictionary Files Engine Metadata Paths.

(** ** Removing the files of retired segments *)

Definition is_retired (s : wadb_segment_meta) : bool := bool_decide (sg_state s = WADB_SEG_RETIRED).

Definition drop_file (p : path) : M os unit := λ w, (Ok (), with_files (base.delete p (files w)) w).
(** [unlink] of one file: it was there, it was not (ENOENT), or the call failed. *)
Definition unlink_file (p : path) : M os bool :=
  ok ← syscall;
  if negb ok then mfail WADB_IO
  else
    w ← get_os;
    if bool_decide (is_Some (files w !! p)) then
      _ ← drop_file p;
      mret true
    else mret false.
Definition dirname (p : path) : path :=
  match after_slash (rev p) with Some rest => rev rest | None => p end.
Definition remove_extension (t : table_identity) (s : wadb_segment_meta) (ext : list Z) (sync : bool) : M os bool :=
  p ← wadb_segment_path t s ext;
  match p with
  | None => mfail WADB_NOMEM
  | Some p =>
      removed ← unlink_file p;
      _ ← (if sync then wadb_sync_directory (dirname p) else mret ());
      mret removed
  end.
(** The two files of one segment: if the log was there, and how it ended. *)
Definition remove_segment (t : table_identity) (s : wadb_segment_meta) : M os (bool * result unit) :=
  seg ← mtry (remove_extension t s EXT_SEG false);
  match seg with
  | Err e => mret (false, Err e)
  | Ok removed =>
      idx ← mtry (remove_extension t s EXT_IDX true);
      mret (removed, match idx with Ok _ => Ok () | Err e => Err e end)
  end.
Fixpoint cleanup_loop (t : table_identity) (l : list wadb_segment_meta) (deleted : Z) : M os (Z * result unit) :=
  match l with
  | [] => mret (deleted, Ok ())
  | s :: l' =>
      if negb (is_retired s) then cleanup_loop t l' deleted
      else
        '(removed, status) ← remove_segment t s;
        let deleted := if removed : bool then deleted + 1 else deleted in
        match status with
        | Ok _ => cleanup_loop t l' deleted
        | Err e => mret (deleted, Err e)
        end
  end.

Definition with_maintenance (pending : bool) (status : wadb_status) (t : wadb_table) : wadb_table :=
  Table (identity t) (manifest t) (tail_ t) (readable t) (counters t) (t_readers t) (t_read_only t) pending status.
Definition cleanup : M engine (Z * result unit) :=
  t ← get_table;
  if negb (t_pending_retention t && (t_readers t =? 0)) then mret (0, Ok ())
  else
    '(deleted, status) ← in_os (cleanup_loop (identity t) (segments t) 0);
    _ ← set_table (with_maintenance (match status with Ok _ => false | Err _ => true end) (status_of status));
    mret (deleted, status).
Definition wadb_retention_cleanup : M engine (Z * result unit) := cleanup.

(** ** The retention policy *)

Definition protect_uncertain (status : result unit) : M engine unit :=
  match status with
  | Err WADB_INDETERMINATE => set_table (with_read_only true)
  | _ => mret ()
  end.
Definition with_retention (duration generation : Z) (m : table_manifest) : table_manifest :=
  Manifest (m_next_segment_id m) (m_preserved_sequence m) (m_preserved_time m) duration generation (m_segments m).
(** The manifest is written from a staged copy; the table changes only on success. *)
Definition wadb_set_retention (duration : Z) : M engine unit :=
  if duration >? INT64_MAX then mfail WADB_INVALID
  else
    t ← get_table;
    db ← get_db;
    if t_read_only t || db_read_only db then mfail WADB_READ_ONLY
    else if m_generation (manifest t) =? UINT64_MAX then mfail WADB_LIMIT
    else
      let staged := with_retention duration (m_generation (manifest t) + 1) (manifest t) in
      status ← mtry (in_os (wadb_save_manifest (identity t) staged));
      _ ← (match status with Ok _ => set_table (with_manifest staged) | Err _ => mret () end);
      _ ← protect_uncertain status;
      mlift status.

(** ** Preview *)

Record wadb_retention_stats := RetentionStats {
  rs_cutoff : Z;
  rs_eligible_segments : Z;
  rs_eligible_rows : Z;
  rs_eligible_bytes : Z;
  rs_partially_expired : Z;
  rs_pending_segments : Z;
  rs_deleted_segments : Z;
}.
Definition cutoff (retention_us now : Z) : Z :=
  if negb (retention_us =? 0) && (now >=? retention_us) then now - retention_us else 0.
Definition preview_segment (pending : bool) (cut : Z) (st : wadb_retention_stats) (s : wadb_segment_meta)
    : wadb_retention_stats :=
  if is_retired s then
    if pending then
      RetentionStats (rs_cutoff st) (rs_eligible_segments st) (rs_eligible_rows st) (rs_eligible_bytes st)
        (rs_partially_expired st) (rs_pending_segments st + 1) (rs_deleted_segments st)
    else st
  else if (sg_last_sequence s =? 0) || (sg_min_time s >=? cut) then st
  else if sg_max_time s >=? cut then
    RetentionStats (rs_cutoff st) (rs_eligible_segments st) (rs_eligible_rows st) (rs_eligible_bytes st)
      (rs_partially_expired st + 1) (rs_pending_segments st) (rs_deleted_segments st)
  else
    RetentionStats (rs_cutoff st) (rs_eligible_segments st + 1)
      (u64 (rs_eligible_rows st + (sg_last_sequence s - sg_first_sequence s + 1)))
      (u64 (rs_eligible_bytes st + sg_committed_bytes s))
      (rs_partially_expired st) (rs_pending_segments st) (rs_deleted_segments st).
Definition preview (t : wadb_table) (now : Z) : wadb_retention_stats :=
  let cut := cutoff (m_retention_us (manifest t)) now in
  fold_left (preview_segment (t_pending_retention t) cut) (segments t) (RetentionStats cut 0 0 0 0 0 0).
Definition wadb_retention_preview (now : Z) : M engine wadb_retention_stats :=
  if now <? 0 then mfail WADB_INVALID
  else
    t ← get_table;
    mret (preview t now).

(** ** Retiring *)

(** The loop over the staged segments, with the staged preserved sequence and time. *)
Fixpoint retire_loop (cut : Z) (l : list wadb_segment_meta) (seq time : Z)
    : list wadb_segment_meta * Z * Z :=
  match l with
  | [] => ([], seq, time)
  | s :: l' =>
      if is_retired s || (sg_last_sequence s =? 0) || (sg_max_time s >=? cut)
      then let '(l', seq', time') := retire_loop cut l' seq time in (s :: l', seq', time')
      else
        let '(l', seq', time') := retire_loop cut l' (sg_last_sequence s) (sg_max_time s) in
        (set_state WADB_SEG_RETIRED s :: l', seq', time')
  end.
Definition staged_retirement (cut : Z) (m : table_manifest) : table_manifest :=
  let '(l, seq, time) := retire_loop cut (m_segments m) (m_preserved_sequence m) (m_preserved_time m) in
  Manifest (m_next_segment_id m) seq time (m_retention_us m) (m_generation m + 1) l.
(** Publication: the staged manifest, the counters, the readable segments that are
    left, and no active segment when the last one was retired. *)
Definition retired_counters (st : wadb_retention_stats) (k : table_counters) : table_counters :=
  Counters (k_committed_frames k) (k_append_requests k)
    (u64 (k_retained_rows k - rs_eligible_rows st)) (u64 (k_retained_bytes k - rs_eligible_bytes st))
    (u64 (k_retained_segments k - rs_eligible_segments st)) (u64 (k_retired_segments k + rs_eligible_segments st))
    (k_published_dictionary_bytes k).
Definition still_readable (l : list wadb_segment_meta) (pos : Z) : bool :=
  negb (is_retired (l !!! Z.to_nat pos)).
Definition drop_dictionary_bytes (k : table_counters) : table_counters :=
  Counters (k_committed_frames k) (k_append_requests k) (k_retained_rows k) (k_retained_bytes k)
    (k_retained_segments k) (k_retired_segments k) 0.
Definition publish_retirement (staged : table_manifest) (st : wadb_retention_stats) (t : wadb_table) : wadb_table :=
  let l := m_segments staged in
  let t := with_pending true (with_counters (retired_counters st (counters t)) (with_manifest staged t)) in
  let t := with_readable (Readable (filter (λ pos, still_readable l pos = true) (r_segments (readable t)))
                            (r_capacity (readable t))) t in
  if is_retired (l !!! Z.to_nat (zlen l - 1)) then
    with_tail (Tail None None empty_index (last_sequence t) (last_time t))
      (with_counters (drop_dictionary_bytes (counters t)) t)
  else t.
Definition retire (t : wadb_table) (st : wadb_retention_stats) : M engine unit :=
  if m_generation (manifest t) =? UINT64_MAX then mfail WADB_LIMIT
  else
    buffer ← in_os os_malloc;
    if negb buffer then mfail WADB_NOMEM
    else
      let staged := staged_retirement (rs_cutoff st) (manifest t) in
      _ ← in_os (wadb_save_manifest (identity t) staged);
      set_table (publish_retirement staged st).
Definition pending_count (t : wadb_table) : Z :=
  if t_pending_retention t then zlen (filter (λ s, is_retired s = true) (segments t)) else 0.
Definition with_pending_deleted (pending deleted : Z) (st : wadb_retention_stats) : wadb_retention_stats :=
  RetentionStats (rs_cutoff st) (rs_eligible_segments st) (rs_eligible_rows st) (rs_eligible_bytes st)
    (rs_partially_expired st) pending deleted.
(** [wadb_retention_apply] without the expiry of cursors that precedes it: the statistics
    are returned next to the status. *)
Definition retention_apply (now : Z) : M engine (wadb_retention_stats * result unit) :=
  t ← get_table;
  db ← get_db;
  let st := preview t now in
  status ← (if t_read_only t || db_read_only db then mret (Err WADB_READ_ONLY)
            else if negb (rs_eligible_segments st =? 0) then mtry (retire t st)
            else mret (Ok ()));
  _ ← protect_uncertain status;
  '(deleted, status) ← (match status with Ok _ => cleanup | Err e => mret (0, Err e) end);
  t ← get_table;
  mret (with_pending_deleted (pending_count t) deleted st, status).

(** ** What is retired *)

(** The segments of which every row is older than the cut-off. *)
Definition expired (cut : Z) (s : wadb_segment_meta) : bool :=
  negb (is_retired s) && negb (sg_last_sequence s =? 0) && (sg_max_time s <? cut).
Definition retire_expired (cut : Z) (s : wadb_segment_meta) : wadb_segment_meta :=
  if expired cut s then set_state WADB_SEG_RETIRED s else s.
Lemma expired_guard cut s :
  is_retired s || (sg_last_sequence s =? 0) || (sg_max_time s >=? cut) = negb (expired cut s).
Proof.
  unfold expired. rewrite Z.geb_leb, Z.ltb_antisym, !negb_andb, !negb_involutive. done.
Qed.
Lemma retire_loop_spec cut l seq time :
  (retire_loop cut l seq time).1.1 = map (retire_expired cut) l.
Proof.
  revert seq time. induction l as [|s l IH]; intros seq time; [done|]. cbn [retire_loop map].
  rewrite expired_guard. unfold retire_expired at 1. destruct (expired cut s); cbn [negb].
  - specialize (IH (sg_last_sequence s) (sg_max_time s)). destruct (retire_loop _ _ _ _) as [[l' ?] ?]. cbn in *. by rewrite IH.
  - specialize (IH seq time). destruct (retire_loop _ _ _ _) as [[l' ?] ?]. cbn in *. by rewrite IH.
Qed.
Lemma staged_segments_expired cut m : m_segments (staged_retirement cut m) = map (retire_expired cut) (m_segments m).
Proof. unfold staged_retirement. rewrite <-(retire_loop_spec cut _ (m_preserved_sequence m) (m_preserved_time m)). by destruct (retire_loop _ _ _ _) as [[??]?]. Qed.

(** Times of a segment with rows are in order. *)
Definition times_ordered (s : wadb_segment_meta) : Prop := sg_last_sequence s ≠ 0 → sg_min_time s ≤ sg_max_time s.
Lemma preview_eligible pending cut l st : Forall times_ordered l →
  let st' := fold_left (preview_segment pending cut) l st in
  rs_cutoff st' = rs_cutoff st ∧
  rs_eligible_segments st' = rs_eligible_segments st + zlen (filter (λ s, expired cut s = true) l).
Proof.
  intros Hl. revert st. induction Hl as [|s l Hs Hl IH]; intros st; cbn [fold_left]; [change (zlen _) with 0; lia|].
  destruct (IH (preview_segment pending cut st s)) as [E1 E2]. cbv zeta in *. rewrite E1, E2. clear E1 E2 IH.
  rewrite filter_cons. unfold preview_segment, expired.
  destruct (is_retired s); cbn [negb andb]; [rewrite decide_False by done; destruct pending; cbn; split; done || lia|].
  destruct (Z.eqb_spec (sg_last_sequence s) 0) as [|Hne]; cbn [negb andb orb]; [by rewrite decide_False|]. specialize (Hs Hne).
  destruct (Z.geb_spec (sg_min_time s) cut), (Z.geb_spec (sg_max_time s) cut), (Z.ltb_spec (sg_max_time s) cut); try lia;
    rewrite ?(decide_False (P := false = true)), ?(decide_True (P := true = true)) by done; cbn; rewrite ?zlen_cons; split; done || lia.
Qed.

(** ** What is removed *)

(** The files of retired segments in [l] may be gone; everything else is as it was. *)
Definition removed_only (t : table_identity) (l : list wadb_segment_meta) (w w' : os) : Prop :=
  ∀ p, files w' !! p = files w !! p ∨
    files w' !! p = None ∧ ∃ s ext, s ∈ l ∧ is_retired s = true ∧ p = segment_file t s ext.
Lemma removed_only_refl t l w w' : files w' = files w → removed_only t l w w'.
Proof. intros E p. left. by rewrite E. Qed.
Lemma removed_only_trans t l w w1 w2 : removed_only t l w w1 → removed_only t l w1 w2 → removed_only t l w w2.
Proof.
  intros H1 H2 p. destruct (H2 p) as [E2|[E2 Hs]]; [|by right].
  destruct (H1 p) as [E1|[E1 Hs]]; [left; congruence|right; split; [congruence|done]].
Qed.
Lemma removed_only_mono t l l' w w' : (∀ s, s ∈ l → s ∈ l') → removed_only t l w w' → removed_only t l' w w'.
Proof. intros Hl H p. destruct (H p) as [E|(E&s&ext&?&?&?)]; [by left|]. right. split; [done|]. exists s, ext. auto. Qed.
Lemma unlink_file_spec p w :
  wp (unlink_file p) (λ _ w', files w' = files w ∨ files w' = base.delete p (files w)) w.
Proof.
  unfold unlink_file. apply wp_bind. eapply wp_mono; [apply syscall_spec|]. cbn beta. intros ? w1 (ok&->&[[Hf _] _]&_).
  destruct ok; cbn [negb]; [|apply wp_fail; by left].
  unfold wp, get_os, drop_file, mbind, M_bind. cbn. case_bool_decide; cbn; rewrite Hf; auto.
Qed.
Lemma remove_extension_spec t s ext sync l w : s ∈ l → is_retired s = true →
  wp (remove_extension t s ext sync) (λ _ w', removed_only t l w w') w.
Proof.
  intros Hs Hr. unfold remove_extension. apply wp_bind. eapply wp_mono; [apply segment_path_spec|]. cbn beta.
  intros ? w1 (o&->&[[Hf1 _] _]&Ho&_). destruct o as [p|]; [|apply wp_fail; by apply removed_only_refl].
  destruct Ho as [|[= ->]]; [done|]. apply wp_bind. eapply wp_mono; [apply unlink_file_spec|]. cbn beta. intros r w2 Hw2.
  assert (H2 : removed_only t l w w2).
  { destruct Hw2 as [E|E]; [apply removed_only_refl; congruence|]. intros q. rewrite E, Hf1.
    destruct (decide (q = segment_file t s ext)) as [->|Hq].
    - right. split; [apply lookup_delete_eq|]. by exists s, ext.
    - left. by apply lookup_delete_ne. }
  destruct r as [removed|e]; [|done]. apply wp_bind. destruct sync; [|by apply wp_ret, wp_ret].
  eapply wp_mono; [apply sync_directory_spec|]. cbn beta. intros [_u|e] w3 ([[Hf3 _] _]&_&_).
  - apply wp_ret. eapply removed_only_trans; [exact H2|by apply removed_only_refl].
  - eapply removed_only_trans; [exact H2|by apply removed_only_refl].
Qed.
Lemma cleanup_loop_spec t l k deleted w : (∀ s, s ∈ k → s ∈ l) →
  wp (cleanup_loop t k deleted) (λ r w', (∃ v, r = Ok v) ∧ removed_only t l w w') w.
Proof.
  revert deleted w. induction k as [|s k IH]; intros deleted w Hk; cbn [cleanup_loop].
  { apply wp_ret. split; [by eexists|by apply removed_only_refl]. }
  destruct (is_retired s) eqn:Hr; cbn [negb]; [|apply IH; intros; apply Hk; by right].
  assert (Hs : s ∈ l) by (apply Hk; by left). apply wp_bind.
  assert (Hrm : wp (remove_segment t s) (λ r w', (∃ v, r = Ok v) ∧ removed_only t l w w') w).
  { unfold remove_segment. apply wp_bind, wp_try. eapply wp_mono; [by apply (remove_extension_spec _ _ _ _ l)|].
    cbn beta. intros r w1 H1. destruct r as [removed|e]; [|apply wp_ret; split; [by eexists|done]].
    apply wp_bind, wp_try. eapply wp_mono; [by apply (remove_extension_spec _ _ _ _ l)|].
    cbn beta. intros r w2 H2. apply wp_ret. split; [by eexists|by eapply removed_only_trans]. }
  eapply wp_mono; [exact Hrm|]. cbn beta. intros r w1 [[[removed status] ->] H1]. cbn beta iota.
  destruct status; [|apply wp_ret; split; [by eexists|done]].
  eapply wp_mono; [apply IH; intros; apply Hk; by right|]. cbn beta. intros r w2 [Hv H2].
  split; [done|by eapply removed_only_trans].
Qed.

(** ** Retention as a whole *)

Lemma none_expired cut l : zlen (filter (λ s, expired cut s = true) l) = 0 → map (retire_expired cut) l = l.
Proof.
  induction l as [|s l IH]; [done|]. rewrite filter_cons. cbn [map]. unfold retire_expired at 1.
  destruct (expired cut s); [|rewrite decide_False by done; intros H; by rewrite IH].
  rewrite decide_True, zlen_cons by done. pose proof (zlen_nonneg (filter (λ s, expired cut s = true) l)). lia.
Qed.
Lemma slash_not_manifest a b : a ++ SLASH :: b ≠ cstr "manifest".
Proof.
  intros H. assert (Hin : SLASH ∈ cstr "manifest") by (rewrite <-H; apply elem_of_app; right; by left).
  revert Hin. apply (bool_decide_eq_false (SLASH ∈ cstr "manifest")). vm_compute. reflexivity.
Qed.
Lemma segment_file_not_manifest t s ext : segment_file t s ext ≠ manifest_path t.
Proof.
  unfold segment_file, partition_dir, manifest_path, metadata_path. rewrite <-app_assoc.
  generalize (date_name (sg_day_start s)) (segment_name (sg_id s) ext). intros a b H.
  apply app_inv_head in H. apply (slash_not_manifest a b). by injection H.
Qed.
Lemma publish_retirement_facts staged st t :
  manifest (publish_retirement staged st t) = staged ∧ identity (publish_retirement staged st t) = identity t ∧
  t_readers (publish_retirement staged st t) = t_readers t.
Proof. unfold publish_retirement. by destruct (is_retired _). Qed.

Definition manifest_installed (t : table_identity) (m : table_manifest) (w w' : os) : Prop :=
  files w' = <[manifest_path t := manifest_image (t_id t) m]> (files w).
(** The table changes only after the staged manifest is on disk. *)
Lemma retire_spec st g :
  let t := e_table g in
  let staged := staged_retirement (rs_cutoff st) (manifest t) in
  wp (retire t st) (λ r g', match r with
    | Ok _ => e_table g' = publish_retirement staged st t ∧ manifest_installed (identity t) staged (e_os g) (e_os g')
    | Err _ => e_table g' = t ∧ (files (e_os g') = files (e_os g) ∨ manifest_installed (identity t) staged (e_os g) (e_os g'))
    end) g.
Proof.
  cbv zeta. unfold retire. destruct (_ =? _); [apply wp_fail; auto|]. apply wp_bind, wp_in_os.
  eapply wp_mono; [apply os_malloc_spec|]. cbn beta. intros ? w1 (ok&->&[[Hf1 _] _]&_).
  destruct ok; cbn [negb]; [|apply wp_fail; auto]. cbv zeta. apply wp_bind, wp_in_os. cbn [e_os].
  eapply wp_mono; [apply save_manifest_spec|]. cbn beta. intros r w2 [[_ Hs] _]. unfold manifest_installed.
  destruct Hs as [[Hr [_ Hf2]]|[Hr Hf2]]; rewrite Hf1 in Hf2.
  - destruct Hr as [->| ->]; unfold wp, set_table; cbn; auto.
  - destruct r; [naive_solver|]. auto.
Qed.
Lemma cleanup_spec g :
  wp cleanup (λ r g', (∃ v, r = Ok v) ∧ manifest (e_table g') = manifest (e_table g) ∧
    (files (e_os g') = files (e_os g) ∨ t_readers (e_table g) = 0 ∧
     removed_only (identity (e_table g)) (segments (e_table g)) (e_os g) (e_os g'))) g.
Proof.
  unfold cleanup. apply wp_get_table. destruct (t_pending_retention _); cbn [andb negb]; [|apply wp_ret; eauto].
  destruct (Z.eqb_spec (t_readers (e_table g)) 0) as [Hz|]; cbn [negb]; [|apply wp_ret; eauto].
  apply wp_bind, wp_in_os. eapply wp_mono; [by apply (cleanup_loop_spec _ (segments (e_table g)))|]. cbn beta.
  intros r w1 [[[deleted status] ->] H1]. cbn beta iota. unfold wp, set_table, mbind, M_bind. cbn.
  split_and!; [by eexists|done|by right].
Qed.
Lemma protect_uncertain_facts status g : ∃ t',
  protect_uncertain status g = (Ok (), Eng (e_db g) t' (e_os g)) ∧ manifest t' = manifest (e_table g) ∧
  identity t' = identity (e_table g) ∧ t_readers t' = t_readers (e_table g).
Proof. destruct g as [db t w]. destruct status as [|[]]; cbn; eauto 10. Qed.

(** The state between retiring and removing files. *)
Record retired_state (cut : Z) (status : result unit) (g g' : engine) : Prop := {
  rt_identity : identity (e_table g') = identity (e_table g);
  rt_readers : t_readers (e_table g') = t_readers (e_table g);
  rt_ok : status = Ok () → segments (e_table g') = map (retire_expired cut) (segments (e_table g));
  rt_disk : manifest (e_table g') = manifest (e_table g) ∧
      (files (e_os g') = files (e_os g) ∨ ∃ m, manifest_installed (identity (e_table g)) m (e_os g) (e_os g')) ∨
    segments (e_table g') = map (retire_expired cut) (segments (e_table g)) ∧
      manifest_installed (identity (e_table g)) (manifest (e_table g')) (e_os g) (e_os g');
}.
Lemma retired_state_spec (ro : bool) st g :
  let t := e_table g in
  let cut := rs_cutoff st in
  rs_eligible_segments st = zlen (filter (λ s, expired cut s = true) (segments t)) →
  wp (if ro then mret (Err WADB_READ_ONLY) else if negb (rs_eligible_segments st =? 0) then mtry (retire t st) else mret (Ok ()))
    (λ r g', ∃ status, r = Ok status ∧ retired_state cut status g g') g.
Proof.
  cbv zeta. intros Hel. destruct ro; [apply wp_ret; eexists; split; [done|]; split; auto; done|].
  destruct (Z.eqb_spec (rs_eligible_segments st) 0) as [Hz|Hz]; cbn [negb].
  - apply wp_ret. eexists. split; [done|]. split; auto. intros _. rewrite none_expired; [done|]. by rewrite <-Hel.
  - apply wp_try. eapply wp_mono; [apply retire_spec|]. cbn beta. intros r g1 H. eexists. split; [done|].
    destruct r as [[]|e]; destruct H as [Ht Hf].
    + destruct (publish_retirement_facts (staged_retirement (rs_cutoff st) (manifest (e_table g))) st (e_table g)) as (Em&Ei&Er).
      rewrite <-Ht in Em, Ei, Er. assert (Es : segments (e_table g1) = map (retire_expired (rs_cutoff st)) (segments (e_table g))).
      { unfold segments. rewrite Em. apply staged_segments_expired. }
      split; [done|done|done|]. right. split; [done|]. by rewrite Em.
    + split; [congruence|congruence|done|]. left. split; [congruence|]. destruct Hf; eauto.
Qed.
(** Removing files of retired segments leaves the manifest alone. *)
Lemma removed_keeps_manifest t l w w' : removed_only t l w w' → files w' !! manifest_path t = files w !! manifest_path t.
Proof.
  intros H. destruct (H (manifest_path t)) as [|(_&s&ext&_&_&E)]; [done|]. by destruct (segment_file_not_manifest t s ext).
Qed.

(** C7: Applying retention retires exactly the segments with rows that are all older than
    the cut-off, as many as it reports; the table changes only to a manifest that is on
    disk. Apart from the manifest the only files that change are those of segments that
    this manifest retires: they are removed, and only while no reader pins the table. *)
Theorem retention_exact_and_safe now g r g' :
  Forall times_ordered (segments (e_table g)) → retention_apply now g = (r, g') →
  let t := e_table g in
  let t' := e_table g' in
  let cut := cutoff (m_retention_us (manifest t)) now in
  ∃ st status, r = Ok (st, status) ∧
    rs_eligible_segments st = zlen (filter (λ s, expired cut s = true) (segments t)) ∧
    (status = Ok () → segments t' = map (retire_expired cut) (segments t)) ∧
    (manifest t' = manifest t ∨ segments t' = map (retire_expired cut) (segments t) ∧
       files (e_os g') !! manifest_path (identity t) = Some (manifest_image (table_id t) (manifest t'))) ∧
    ∀ p, p ≠ manifest_path (identity t) → files (e_os g') !! p ≠ files (e_os g) !! p →
      t_readers t = 0 ∧ files (e_os g') !! p = None ∧
      ∃ s ext, s ∈ segments t' ∧ is_retired s = true ∧ p = segment_file (identity t) s ext.
Proof.
  intros Hto Hrun t t' cut. unfold t'. clear t'. pattern r, g'. refine (wp_out _ _ _ _ _ _ Hrun).
  destruct (preview_eligible (t_pending_retention t) cut (segments t) (RetentionStats cut 0 0 0 0 0 0) Hto) as [Hcut Hel].
  cbn beta zeta in Hcut, Hel. unfold retention_apply. apply wp_get_table, wp_get_db. fold t. cbv zeta.
  change (preview t now) with (fold_left (preview_segment (t_pending_retention t) cut) (segments t) (RetentionStats cut 0 0 0 0 0 0)).
  generalize dependent (fold_left (preview_segment (t_pending_retention t) cut) (segments t) (RetentionStats cut 0 0 0 0 0 0)).
  cbn [rs_cutoff rs_eligible_segments]. intros st Hcut Hel. rewrite Z.add_0_l in Hel.
  apply wp_bind. eapply wp_mono; [apply retired_state_spec; rewrite Hcut; exact Hel|]. cbn beta.
  intros r1 g1 (status&->&Hs1). rewrite Hcut in Hs1. apply wp_bind.
  destruct (protect_uncertain_facts status g1) as (t2&E2&Em2&Ei2&Er2). unfold wp at 1. rewrite E2. cbn [fst snd].
  assert (Hs2 : retired_state cut status g (Eng (e_db g1) t2 (e_os g1))).
  { assert (Es2 : segments t2 = segments (e_table g1)) by (unfold segments; by rewrite Em2).
    destruct Hs1 as [?? H1 H2]. split; cbn; rewrite ?Es2, ?Em2; [congruence|congruence|exact H1|exact H2]. }
  set (g2 := Eng _ _ _) in *. clearbody g2. clear g1 Hs1 t2 E2 Em2 Ei2 Er2.
  apply wp_bind. eapply (wp_mono _ (λ r3 g3, ∃ v, r3 = Ok v ∧ manifest (e_table g3) = manifest (e_table g2) ∧
    (v.2 = Ok () → status = Ok ()) ∧ (files (e_os g3) = files (e_os g2) ∨ t_readers t = 0 ∧
     removed_only (identity t) (segments (e_table g2)) (e_os g2) (e_os g3)))).
  { destruct status as [[]|e]; [|apply wp_ret; exists (0, Err e); split_and!; auto].
    eapply wp_mono; [apply cleanup_spec|]. cbn beta. intros r3 g3 ([v ->]&Hm&Hf). exists v.
    rewrite (rt_readers _ _ _ _ Hs2), (rt_identity _ _ _ _ Hs2) in Hf. auto. }
  cbn beta. intros r3 g3 ([deleted status3]&->&Em3&Hok3&Hf3). cbn beta iota. apply wp_get_table, wp_ret.
  assert (Es3 : segments (e_table g3) = segments (e_table g2)) by (unfold segments; by rewrite Em3).
  exists (with_pending_deleted (pending_count (e_table g3)) deleted st), status3. split; [done|]. rewrite Es3, Em3.
  split; [exact Hel|]. split; [intros H; apply (rt_ok _ _ _ _ Hs2), Hok3, H|].
  assert (Hman : files (e_os g3) !! manifest_path (identity t) = files (e_os g2) !! manifest_path (identity t)).
  { destruct Hf3 as [->|[_ Hf3]]; [done|]. by eapply removed_keeps_manifest. }
  assert (Hother : ∀ p, p ≠ manifest_path (identity t) → files (e_os g2) !! p = files (e_os g) !! p).
  { intros p Hp. destruct (rt_disk _ _ _ _ Hs2) as [[_ [->|[m ->]]]|[_ ->]]; [done|..]; by rewrite lookup_insert_ne. }
  split.
  - destruct (rt_disk _ _ _ _ Hs2) as [[Em _]|[Es Hi]]; [by left|right]. split; [done|].
    rewrite Hman, Hi. apply lookup_insert_eq.
  - intros p Hp Hne. rewrite <-(Hother p Hp) in Hne.
    destruct Hf3 as [E|[Hz Hr]]; [by rewrite E in Hne|]. destruct (Hr p) as [E|[E Hs]]; [done|]. auto.
Qed.

(** Two sealed segments with files, of which the first is older than a second. *)
Definition rt_segments : list wadb_segment_meta :=
  [SegmentMeta 1 0 1 2 5 900 400 WADB_SEG_SEALED; SegmentMeta 2 0 3 4 901 2000000 400 WADB_SEG_SEALED].
Definition rt_table : wadb_table :=
  Table md_identity (Manifest 3 0 0 1000000 4 rt_segments) (Tail None None empty_index 4 2000000) (Readable [0; 1] 16)
    (Counters 2 2 4 800 2 0 0) 0 false false WADB_OK.
Definition rt_file (s : wadb_segment_meta) : path := segment_file md_identity s EXT_SEG.
Definition rt_engine : engine :=
  Eng (new_db (cstr "/db") wadb_options_default 0) rt_table
    (Os (list_to_map (map (λ s, (rt_file s, [1])) rt_segments)) {[cstr "/db/tables/1"; cstr "/db/tables/1/1970-01-01"]} [] [] [] []).
Lemma retention_exact_and_safe_witness : ∃ st g',
  retention_apply 2500000 rt_engine = (Ok (st, Ok ()), g') ∧ rs_eligible_segments st = 1 ∧
  map sg_state (segments (e_table g')) = [WADB_SEG_RETIRED; WADB_SEG_SEALED] ∧
  map (λ s, files (e_os g') !! rt_file s) rt_segments = [None; Some [1]].
Proof.
  destruct (retention_apply 2500000 rt_engine) as [r g'] eqn:E.
  destruct (retention_exact_and_safe 2500000 rt_engine r g') as (st&status&->&Hel&Hok&_&_).
  - repeat constructor; vm_compute; congruence.
  - exact E.
  - assert (Hs : status = Ok ()).
    { assert (H : (fst (retention_apply 2500000 rt_engine) = Ok (st, status))) by (by rewrite E). revert H.
      vm_compute. by intros [= _ <-]. }
    exists st, g'. subst status. split_and!; [done|exact Hel| |].
    + rewrite (Hok eq_refl). vm_compute. reflexivity.
    + assert (H : g' = snd (retention_apply 2500000 rt_engine)) by (by rewrite E). rewrite H. vm_compute. reflexivity.
Defined.
