(* ===== verification/Recovery.v ===== *)
(** * Recovering a table (src/storage/segments.c, [wadb_storage_recover])

    The segments are recovered in the order of the manifest, each from where the one
    before it ended; a table that fails to recover is dropped by the caller. *)

From stdpp Require Import base numbers list list_numbers gmap.
From S2P Require Import Prelude Encoding Schema Format Dictionary Files Engine Metadata Paths Index Segments Retention.

Definition wadb_readable_reserve : M engine unit :=
  t ← get_table;
  let r := readable t in
  let count := zlen (r_segments r) in
  if count <? r_capacity r then mret ()
  else
    let cap := if r_capacity r =? 0 then 16 else r_capacity r * 2 in
    let cap := if cap >? WADB_MAX_SEGMENTS then WADB_MAX_SEGMENTS else cap in
    if cap <=? count then mfail WADB_LIMIT
    else
      p ← in_os os_malloc;
      if negb p then mfail WADB_NOMEM
      else set_table (with_readable (Readable (r_segments r) cap)).
Definition push_readable (i : Z) (t : wadb_table) : wadb_table :=
  with_readable (Readable (r_segments (readable t) ++ [i]) (r_capacity (readable t))) t.

(** ** One segment *)

Definition count_retired (t : wadb_table) : wadb_table :=
  let k := counters t in
  with_pending true
    (with_counters (Counters (k_committed_frames k) (k_append_requests k) (k_retained_rows k)
       (k_retained_bytes k) (k_retained_segments k) (u64 (k_retired_segments k + 1))
       (k_published_dictionary_bytes k)) t).
Definition count_retained (rows bytes segs : Z) (t : wadb_table) : wadb_table :=
  let k := counters t in
  with_counters (Counters (k_committed_frames k) (k_append_requests k) (u64 (k_retained_rows k + rows))
    (u64 (k_retained_bytes k + bytes)) (u64 (k_retained_segments k + segs)) (k_retired_segments k)
    (k_published_dictionary_bytes k)) t.
Definition put_segment_meta (i : Z) (s : wadb_segment_meta) (t : wadb_table) : wadb_table :=
  with_manifest (with_segments (wr (segments t) i s) (manifest t)) t.
Definition recover_one (i : Z) : M engine unit :=
  t ← get_table;
  db ← get_db;
  let s := segments t !!! Z.to_nat i in
  if is_retired s then set_table count_retired
  else
    '(l, s') ← in_os (recover_segment (identity t) (o_dictionary_limit_bytes (db_options db)) (tail_ t) s false UINT64_MAX);
    _ ← set_table (λ t, count_retained 0 (sg_committed_bytes s') 1 (put_segment_meta i s' (with_tail l t)));
    if sg_last_sequence s' =? 0 then mret ()
    else
      _ ← set_table (count_retained (sg_last_sequence s' - sg_first_sequence s' + 1) 0 0);
      _ ← wadb_readable_reserve;
      set_table (push_readable i).

(** ** The table *)

(** The loop over the segments from [i]. *)
Fixpoint recover_loop (n : nat) (i : Z) : M engine unit :=
  match n with
  | O => mret ()
  | S n' =>
      _ ← recover_one i;
      recover_loop n' (i + 1)
  end.
Definition start_recovery (t : wadb_table) : wadb_table :=
  let l := tail_ t in
  with_tail (Tail (l_active_fd l) (l_dictionary l) (l_index l) (m_preserved_sequence (manifest t))
               (m_preserved_time (manifest t))) t.
Definition publish_dictionary_bytes (n : Z) (t : wadb_table) : wadb_table :=
  let k := counters t in
  with_counters (Counters (k_committed_frames k) (k_append_requests k) (k_retained_rows k) (k_retained_bytes k)
    (k_retained_segments k) (k_retired_segments k) n) t.
Definition wadb_storage_recover : M engine unit :=
  _ ← set_table start_recovery;
  t ← get_table;
  _ ← recover_loop (length (segments t)) 0;
  _ ← set_table (λ t, publish_dictionary_bytes
        (match l_dictionary (tail_ t) with Some d => d_allocated d | None => 0 end) t);
  t ← get_table;
  if t_pending_retention t then
    _ ← wadb_retention_cleanup;
    mret ()
  else mret ().
