(* ===== verification/Commit.v ===== *)
(** * Appending a group of requests (src/storage/segments.c, [create_active] and
      [wadb_commit_requests])

    One group becomes one frame at the end of the active segment. A new segment is
    started for the first group, on a new day, when the segment, its index or its
    dictionary is full. *)

From stdpp Require Import base numbers list list_numbers gmap.
From S2P Require Import Prelude Encoding Schema Format Rows Dictionary Files Engine Stats Metadata Paths Index Segments Retention Recovery.

(** ** Requests *)

Record wadb_append_receipt := Receipt {
  rc_first_sequence : Z;
  rc_last_sequence : Z;
  rc_ingestion_time : Z;
  rc_row_count : Z;
}.
(** [rq_table] is the position of the table in the database. *)
Record wadb_append_request := Request {
  rq_table : Z;
  rq_values : list wadb_value;
  rq_rows : list Z;
  rq_row_count : Z;
  rq_row_bytes : Z;
  rq_charge : Z;
  rq_submitted_ns : Z;
  rq_started_ns : Z;
  rq_ingestion_time : Z;
  rq_receipt : wadb_append_receipt;
  rq_status : wadb_status;
  rq_done : bool;
}.

(** The sizes of the group, summed with overflow checks. *)
Fixpoint group_sizes (l : list wadb_append_request) (rows nbytes : Z) : option (Z * Z) :=
  match l with
  | [] => Some (rows, nbytes)
  | r :: l' =>
      rows' ← wadb_add_size rows (rq_row_count r);
      nbytes' ← wadb_add_size nbytes (rq_row_bytes r);
      group_sizes l' rows' nbytes'
  end.
Definition group_time (l : list wadb_append_request) : Z * Z :=
  (match l with r :: _ => rq_ingestion_time r | [] => 0 end,
   match last l with Some r => rq_ingestion_time r | None => 0 end).
Definition clock_invalid (first_time last_time : Z) : bool :=
  (first_time <? 0) || (last_time <? first_time) ||
  negb (Z.quot first_time WADB_DAY_US =? Z.quot last_time WADB_DAY_US).

(** The rows of the group in one buffer, each stamped with its ingestion time. *)
Fixpoint stamp_rows (n : nat) (p : list Z) (o width time : Z) : list Z :=
  match n with
  | O => p
  | S n' => stamp_rows n' (wadb_put_u64 p o (u64 time)) (o + width) width time
  end.
Fixpoint gather_rows (width : Z) (l : list wadb_append_request) (p : list Z) (o : Z) : list Z :=
  match l with
  | [] => p
  | r :: l' =>
      let p := put p o (rq_rows r) in
      let p := stamp_rows (Z.to_nat (rq_row_count r)) p o width (rq_ingestion_time r) in
      gather_rows width l' p (o + rq_row_bytes r)
  end.

(** ** Interning the symbols of the group *)

(** State: the row buffer, the dictionary and the coming allocations. *)
Definition intern_state : Type := list Z * dict_state.
Definition intern_value (base field : Z) (f : wadb_field) (v : wadb_value) : M intern_state unit :=
  match f_type f, v with
  | WADB_SYMBOL32, VNull => mret ()
  | WADB_SYMBOL32, _ => λ '(p, st),
      match wadb_dictionary_intern field (as_bytes v) st with
      | (Ok id, st') => (Ok (), (wadb_put_u32 p (base + f_offset f) id, st'))
      | (Err e, st') => (Err e, (p, st'))
      end
  | _, _ => mret ()
  end.
Fixpoint intern_fields (base field : Z) (fs : list wadb_field) (vs : list wadb_value) : M intern_state unit :=
  match fs, vs with
  | f :: fs', v :: vs' =>
      _ ← intern_value base field f v;
      intern_fields base (field + 1) fs' vs'
  | _, _ => mret ()
  end.
(** Rows of one request; [base] is the offset of the row in the buffer. *)
Fixpoint intern_rows (n : nat) (s : wadb_schema) (base : Z) (vs : list wadb_value) : M intern_state unit :=
  match n with
  | O => mret ()
  | S n' =>
      _ ← intern_fields base 1 (tail (fields s)) vs;
      intern_rows n' s (base + row_width s) (drop (Z.to_nat (field_count s - 1)) vs)
  end.
Fixpoint intern_requests (s : wadb_schema) (base : Z) (l : list wadb_append_request) : M intern_state unit :=
  match l with
  | [] => mret ()
  | r :: l' =>
      _ ← intern_rows (Z.to_nat (rq_row_count r)) s base (rq_values r);
      intern_requests s (base + rq_row_bytes r) l'
  end.

(** ** A new active segment *)

Definition day_start_of (now : Z) : Z := now - Z.rem now WADB_DAY_US.
Definition last_segment (t : wadb_table) : option wadb_segment_meta := last (segments t).
(** The staged segment list: the active segment sealed and the new one behind it. *)
Definition seal_last (l : list wadb_segment_meta) : list wadb_segment_meta :=
  match last l with
  | Some s => if is_active s then removelast l ++ [set_state WADB_SEG_SEALED s] else l
  | None => l
  end.
Definition new_segment (t : wadb_table) (now id : Z) : wadb_segment_meta :=
  SegmentMeta id (day_start_of now) (u64 (last_sequence t + 1)) 0 0 0 WADB_SEGMENT_HEADER_BYTES WADB_SEG_ACTIVE.
(** [open] with [O_CREAT | O_EXCL]: [Some false] when the name is taken. *)
Definition create_file (p : path) : M os bool :=
  ok ← syscall;
  if negb ok then mfail WADB_IO
  else
    w ← get_os;
    if bool_decide (is_Some (files w !! p)) || bool_decide (p ∈ directories w) then mret false
    else
      _ ← set_file p [];
      mret true.
(** Orphan files are skipped; each pass that goes on found another existing name, so the
    number of names is fuel enough. *)
Fixpoint skip_orphans (fuel : nat) (t : wadb_table) (now id : Z) : M os (path * Z) :=
  match fuel with
  | O => mfail WADB_INVALID
  | S fuel' =>
      if id =? UINT64_MAX then mfail WADB_LIMIT
      else
        p ← wadb_segment_path (identity t) (new_segment t now id) EXT_SEG;
        match p with
        | None => mfail WADB_NOMEM
        | Some p =>
            created ← create_file p;
            if created : bool then mret (p, id) else skip_orphans fuel' t now (u64 (id + 1))
        end
  end.
Definition orphan_fuel (w : os) : nat := S (size (files w) + size (directories w)).
Definition header_of (t : wadb_table) (s : wadb_segment_meta) : wadb_segment_header :=
  SegmentHeader (table_id t) (sg_id s) (fingerprint (schema t)) (row_width (schema t)) (sg_day_start s)
    (sg_first_sequence s).
Definition staged_segments (t : wadb_table) (s : wadb_segment_meta) : table_manifest :=
  Manifest (u64 (sg_id s + 1)) (m_preserved_sequence (manifest t)) (m_preserved_time (manifest t))
    (m_retention_us (manifest t)) (m_generation (manifest t) + 1) (seal_last (segments t) ++ [s]).
(** The file of the new segment, up to the synchronization of its directory. *)
Definition create_segment_file (t : wadb_table) (now : Z) : M os (path * wadb_segment_meta) :=
  partition ← partition_path (identity t) (day_start_of now);
  match partition with
  | None => mfail WADB_NOMEM
  | Some partition =>
      _ ← wadb_mkdir partition;
      _ ← wadb_sync_directory (t_directory (identity t));
      w ← get_os;
      '(p, id) ← skip_orphans (orphan_fuel w) t now (m_next_segment_id (manifest t));
      let s := new_segment t now id in
      header ← mlift (wadb_segment_encode (header_of t s));
      _ ← wadb_write_all p header;
      _ ← wadb_sync_file;
      _ ← wadb_sync_directory partition;
      mret (p, s)
  end.
Definition publish_active (p : path) (staged : table_manifest) (t : wadb_table) : wadb_table :=
  publish_dictionary_bytes 0
    (count_retained 0 WADB_SEGMENT_HEADER_BYTES 1
       (with_tail (Tail (Some p) (l_dictionary (tail_ t)) empty_index (last_sequence t) (last_time t))
          (with_manifest staged t))).
Definition install_active (now : Z) : M engine unit :=
  t ← get_table;
  items ← in_os os_malloc;
  if negb items then mfail WADB_NOMEM
  else
    '(p, s) ← in_os (create_segment_file t now);
    let staged := staged_segments t s in
    _ ← in_os (wadb_save_manifest (identity t) staged);
    set_table (publish_active p staged).
Definition create_active (now : Z) : M engine unit :=
  t ← get_table;
  let m := manifest t in
  if (m_next_segment_id m =? UINT64_MAX) || (segment_count t >=? WADB_MAX_SEGMENTS) ||
     (m_generation m =? UINT64_MAX)
  then mfail WADB_LIMIT
  else
    _ ← (match last_segment t, l_dictionary (tail_ t) with
         | Some s, Some d => if is_active s then in_os (wadb_index_save (identity t) s (l_index (tail_ t)) d) else mret ()
         | _, _ => mret () (* an active segment has a dictionary *)
         end);
    status ← mtry (install_active now);
    _ ← protect_uncertain status;
    mlift status.

(** ** Committing a frame *)

Definition group_frame (t : wadb_table) (first_time last_time row_count : Z) (rows definitions : list Z)
    (definition_bytes definition_count : Z) : wadb_frame :=
  Frame (fingerprint (schema t)) (u64 (last_sequence t + 1)) first_time last_time (u32 row_count)
    (row_width (schema t)) definition_count definition_bytes definitions rows 0 0.
(** What the group has become before it is written. *)
Record encoded_group := EncodedGroup {
  eg_frame : wadb_frame;
  eg_bytes : list Z;
}.
Definition encode_group (t : wadb_table) (first_time last_time row_count row_bytes : Z)
    (requests : list wadb_append_request) (d : wadb_dictionary)
    (rows : list Z) : M os (result encoded_group * list Z * wadb_dictionary) := λ w,
  let mark := d_count d in
  let '(interned, (rows, (d, h))) := intern_requests (schema t) 0 requests (rows, (d, allocs w)) in
  let encode : M os encoded_group :=
    _ ← mlift interned;
    exported ← os_malloc;
    '(definitions, definition_bytes, definition_count) ← mlift (wadb_dictionary_export d mark exported);
    if definition_bytes >? u64 (WADB_MAX_FRAME_BYTES - 96 - row_bytes) then mfail WADB_LIMIT
    else
      let frame := group_frame t first_time last_time row_count rows definitions definition_bytes definition_count in
      buffer ← os_malloc;
      bytes ← mlift (wadb_frame_encode buffer frame);
      mret (EncodedGroup frame bytes) in
  (r ← mtry encode; mret (r, rows, d)) (with_allocs h w).

Definition too_large (target : Z) (active : wadb_segment_meta) (n : Z) : bool :=
  negb (sg_last_sequence active =? 0) &&
  ((sg_committed_bytes active >=? target) || (n >? target - sg_committed_bytes active)).

(** The publication of a durable frame, under the mutex. *)
Definition committed_meta (active : wadb_segment_meta) (g : encoded_group) (first_time last_time row_count : Z)
    : wadb_segment_meta :=
  SegmentMeta (sg_id active) (sg_day_start active) (sg_first_sequence active)
    (u64 (fr_first_sequence (eg_frame g) + row_count - 1))
    (if sg_last_sequence active =? 0 then first_time else sg_min_time active) last_time
    (u64 (sg_committed_bytes active + zlen (eg_bytes g))) (sg_state active).
Definition publish_frame (g : encoded_group) (active : wadb_segment_meta) (d : wadb_dictionary)
    (first_time last_time row_count request_count : Z) (t : wadb_table) : wadb_table :=
  let l := tail_ t in
  let s' := committed_meta active g first_time last_time row_count in
  let ix := index_push (l_index l) (wadb_index_for_frame (eg_frame g) (eg_bytes g) (sg_committed_bytes active)) in
  let k := counters t in
  let t := if sg_last_sequence active =? 0 then push_readable (segment_count t - 1) t else t in
  let t := put_segment_meta (segment_count t - 1) s' t in
  let t := with_tail (Tail (l_active_fd l) (l_dictionary l) ix (sg_last_sequence s') last_time) t in
  with_counters (Counters (u64 (k_committed_frames k + 1)) (u64 (k_append_requests k + request_count))
    (u64 (k_retained_rows k + row_count)) (u64 (k_retained_bytes k + zlen (eg_bytes g)))
    (k_retained_segments k) (k_retired_segments k) (d_allocated d)) t.
Definition count_commit (table_id : Z) (g : encoded_group) (last_sequence last_time row_count request_count : Z)
    (db : wadb_db) : wadb_db :=
  let n := totals db in
  with_ring (notify (λ id, CommitEvent id table_id (fr_first_sequence (eg_frame g)) last_sequence
               (zlen (eg_bytes g)) last_time (u32 row_count)) (ring db))
    (with_totals (Totals (u64 (n_committed_rows n + row_count)) (u64 (n_committed_bytes n + zlen (eg_bytes g)))
       (u64 (n_committed_frames n + 1)) (u64 (n_append_requests n + request_count)) (n_queries n)
       (n_failed_queries n) (n_rows_scanned n) (n_bytes_scanned n)) db).
Fixpoint receipts (sequence : Z) (l : list wadb_append_request) : list wadb_append_receipt :=
  match l with
  | [] => []
  | r :: l' =>
      Receipt sequence (u64 (sequence + rq_row_count r - 1)) (rq_ingestion_time r) (u32 (rq_row_count r)) ::
      receipts (u64 (sequence + rq_row_count r)) l'
  end.

(** Reserving the memory that publication needs, before the first byte is written. *)
Definition with_index (ix : wadb_frame_index) (t : wadb_table) : wadb_table :=
  let l := tail_ t in
  with_tail (Tail (l_active_fd l) (l_dictionary l) ix (l_last_sequence l) (l_last_time l)) t.
Definition reserve_commit : M engine wadb_segment_meta :=
  t ← get_table;
  let active := segments t !!! Z.to_nat (segment_count t - 1) in
  ix ← in_os (wadb_index_reserve (l_index (tail_ t)));
  _ ← set_table (with_index ix);
  _ ← (if sg_last_sequence active =? 0 then wadb_readable_reserve else mret ());
  mret active.
(** Writing and synchronizing; only after that the frame is published. *)
Definition write_frame (g : encoded_group) : M engine unit :=
  t ← get_table;
  match l_active_fd (tail_ t) with
  | None => mfail WADB_IO
  | Some fd =>
      _ ← in_os (wadb_write_all fd (eg_bytes g));
      started ← in_os wadb_monotonic_ns;
      synced ← mtry (in_os wadb_sync_file);
      now ← in_os wadb_monotonic_ns;
      _ ← set_db (record_sync (u64 (now - started)));
      mlift synced
  end.
Definition commit_frame (g : encoded_group) (d : wadb_dictionary) (first_time last_time row_count : Z)
    (requests : list wadb_append_request) : M engine (list wadb_append_receipt) :=
  active ← reserve_commit;
  written ← mtry (write_frame g);
  match written with
  | Err _ =>
      _ ← set_table (with_read_only true);
      mfail WADB_INDETERMINATE
  | Ok _ =>
      t ← get_table;
      _ ← set_table (publish_frame g active d first_time last_time row_count (zlen requests));
      t' ← get_table;
      _ ← set_db (count_commit (table_id t) g (last_sequence t') last_time row_count (zlen requests));
      mret (receipts (fr_first_sequence (eg_frame g)) requests)
  end.

(** ** One attempt of the loop *)

Definition with_dictionary (d : option wadb_dictionary) (t : wadb_table) : wadb_table :=
  let l := tail_ t in
  with_tail (Tail (l_active_fd l) d (l_index l) (l_last_sequence l) (l_last_time l)) t.
Definition needs_fresh (t : wadb_table) (first_time : Z) : bool :=
  match last_segment t with
  | None => true
  | Some s =>
      negb (is_active s) || negb (sg_day_start s =? day_start_of first_time) ||
      (ix_count (l_index (tail_ t)) >=? WADB_MAX_INDEX_ENTRIES)
  end.
(** [None] asks for a second attempt in a fresh segment; the row buffer goes with it. *)
Definition attempt (fresh : bool) (first_time last_time row_count row_bytes : Z)
    (requests : list wadb_append_request) (rows : list Z) : M engine (option (list wadb_append_receipt) * list Z) :=
  t ← get_table;
  db ← get_db;
  d ← (if fresh then in_os (new_dictionary (schema t) (o_dictionary_limit_bytes (db_options db)))
       else match l_dictionary (tail_ t) with
            | Some d => mret d
            | None => mfail WADB_INVALID (* an active segment has a dictionary *)
            end);
  let mark := d_count d in
  '(encoded, rows, d) ← in_os (encode_group t first_time last_time row_count row_bytes requests d rows);
  let rolled := wadb_dictionary_rollback d mark in
  let active := segments t !!! Z.to_nat (segment_count t - 1) in
  let again :=
    negb fresh &&
    match encoded with
    | Ok g => too_large (o_segment_target_bytes (db_options db)) active (zlen (eg_bytes g))
    | Err e => bool_decide (e = WADB_LIMIT)
    end in
  if again then
    _ ← set_table (with_dictionary (Some rolled));
    mret (None, rows)
  else
    _ ← (if fresh then mret () else set_table (with_dictionary (Some d)));
    opened ← mtry
      (g ← mlift encoded;
       _ ← (if fresh then
              _ ← create_active first_time;
              set_table (with_dictionary (Some d))
            else mret ());
       mret g);
    match opened with
    | Err e =>
        _ ← (if fresh then mret () else set_table (with_dictionary (Some rolled)));
        mfail e
    | Ok g =>
        committed ← mtry (commit_frame g d first_time last_time row_count requests);
        match committed with
        | Ok l => mret (Some l, rows)
        | Err e =>
            _ ← set_table (with_dictionary (Some rolled));
            mfail e
        end
    end.

(** ** The whole operation *)

Definition wadb_commit_requests (requests : list wadb_append_request) : M engine (list wadb_append_receipt) :=
  match group_sizes requests 0 0 with
  | None => mfail WADB_LIMIT
  | Some (row_count, row_bytes) =>
      if (zlen requests =? 0) || (row_bytes >? WADB_MAX_FRAME_BYTES - 96) || (row_count >? UINT32_MAX)
      then mfail WADB_LIMIT
      else
        let '(first_time, last_time) := group_time requests in
        if clock_invalid first_time last_time then mfail WADB_IO
        else
          buffer ← in_os os_malloc;
          if negb buffer then mfail WADB_NOMEM
          else
            t ← get_table;
            db ← get_db;
            let rows := gather_rows (row_width (schema t)) requests (zrep row_bytes 0) 0 in
            if t_read_only t || db_read_only db then mfail WADB_READ_ONLY
            else if last_sequence t >? UINT64_MAX - row_count then mfail WADB_LIMIT
            else
              '(first, rows) ← attempt (needs_fresh t first_time) first_time last_time row_count row_bytes requests rows;
              match first with
              | Some l => mret l
              | None =>
                  '(second, _) ← attempt true first_time last_time row_count row_bytes requests rows;
                  match second with
                  | Some l => mret l
                  | None => mfail WADB_LIMIT (* an attempt in a fresh segment is the last one *)
                  end
              end
  end.
