(* ===== verification/Snapshot.v ===== *)
(** * Reader snapshots and the dictionary cache (src/query/snapshot.c, src/query/cache.c)

    A snapshot copies the segment records of a time and sequence range and pins the
    table; the cache shares the dictionaries of sealed segments between readers. *)

From Stdlib Require Import String.
From stdpp Require Import base numbers list list_numbers gmap.
From S2P Require Import Prelude Encoding Schema Format Dictionary Files Engine Stats Metadata Paths Index Segments Reader Retention.

(** ** Snapshots *)

Record wadb_scan_options := ScanOptions {
  so_start_time : Z;
  so_end_time : Z;
  so_after_sequence : Z;
  so_max_scan_bytes : Z;
  so_limit : Z;
  so_timeout_ms : Z;
}.
Definition wadb_scan_options_default : wadb_scan_options :=
  ScanOptions 0 INT64_MAX 0 (64 * 1024 * 1024) 10000 30000.

Record wadb_snapshot := Snap {
  sn_segments : list wadb_segment_meta;
  sn_charge : Z;
  sn_active : wadb_frame_index;
  sn_sequence : Z;
}.
Definition sn_count (sn : wadb_snapshot) : Z := zlen (sn_segments sn).

(** The record of the [i]-th readable segment. *)
Definition readable_segment (t : wadb_table) (i : Z) : wadb_segment_meta :=
  segments t !!! Z.to_nat (rd (r_segments (readable t)) i).
Definition before_range (o : option wadb_scan_options) (s : wadb_segment_meta) : bool :=
  match o with
  | Some o => (sg_max_time s <? so_start_time o) || (sg_last_sequence s <=? so_after_sequence o)
  | None => false
  end.
Definition before_end (o : option wadb_scan_options) (s : wadb_segment_meta) : bool :=
  match o with Some o => sg_min_time s <? so_end_time o | None => true end.
(** The two binary searches: the first readable segment of the range, and the one after it. *)
Definition snapshot_range (t : wadb_table) (o : option wadb_scan_options) : Z * Z :=
  let n := zlen (r_segments (readable t)) in
  let first := bsearch (λ mid, before_range o (readable_segment t mid)) 0 n in
  let upper := bsearch (λ mid, before_end o (readable_segment t mid)) first n in
  (first, upper).
Definition empty_range (o : option wadb_scan_options) : bool :=
  match o with Some o => so_start_time o =? so_end_time o | None => false end.

Definition wadb_snapshot_acquire (o : option wadb_scan_options) : M engine wadb_snapshot :=
  t ← get_table;
  db ← get_db;
  let '(first, upper) := snapshot_range t o in
  let count := if empty_range o then 0 else upper - first in
  let active := negb (count =? 0) && is_active (readable_segment t (upper - 1)) in
  let active_count := if active then ix_count (l_index (tail_ t)) else 0 in
  let charge := SIZEOF_SNAPSHOT + count * SIZEOF_SEGMENT_META + active_count * SIZEOF_INDEX_ENTRY in
  if (db_reader_count db >=? o_max_readers (db_options db)) ||
     (charge >? o_snapshot_limit_bytes (db_options db) - db_snapshot_bytes db)
  then mfail WADB_BACKPRESSURE
  else
    segments_ok ← (if count =? 0 then mret true else in_os os_malloc);
    entries_ok ← (if segments_ok && negb (active_count =? 0) then in_os os_malloc else mret true);
    if negb segments_ok || negb entries_ok then mfail WADB_NOMEM
    else
      let copied := map (λ i, readable_segment t (first + i)) (seqZ 0 count) in
      let index := if active then FrameIndex (ix_entries (l_index (tail_ t))) 0 else empty_index in
      _ ← set_db (λ d, with_snapshots (db_snapshot_bytes d + charge) (db_reader_count d + 1) d);
      _ ← set_table (λ t, Table (identity t) (manifest t) (tail_ t) (readable t) (counters t) (t_readers t + 1)
                            (t_read_only t) (t_pending_retention t) (t_maintenance_status t));
      mret (Snap copied charge index (last_sequence t)).
(** The last reader of a table with retired segments removes their files. *)
Definition wadb_snapshot_release (sn : wadb_snapshot) : M engine unit :=
  _ ← set_table (λ t, Table (identity t) (manifest t) (tail_ t) (readable t) (counters t) (t_readers t - 1)
                        (t_read_only t) (t_pending_retention t) (t_maintenance_status t));
  _ ← set_db (λ d, with_snapshots (db_snapshot_bytes d - sn_charge sn) (db_reader_count d - 1) d);
  t ← get_table;
  if (t_readers t =? 0) && t_pending_retention t then
    _ ← wadb_retention_cleanup;
    mret ()
  else mret ().

(** ** The dictionary cache *)

Definition matches (p : wadb_cache_entry) (r : wadb_index_reader) : bool :=
  (ce_table_id p =? t_id (rd_table r)) && (ce_segment_id p =? sg_id (rd_segment r)) &&
  (ce_covered_bytes p =? sg_committed_bytes (rd_segment r)) && (ce_dictionary_crc p =? rd_dictionary_crc r).
(** What a reader holds of an entry: it stands for the pointer, since the entries of the
    list have distinct keys. *)
Definition cache_key : Type := Z * Z * Z * Z.
Definition ce_key (p : wadb_cache_entry) : cache_key :=
  (ce_table_id p, ce_segment_id p, ce_covered_bytes p, ce_dictionary_crc p).
Definition touch (used : Z) (p : wadb_cache_entry) : wadb_cache_entry :=
  CacheEntry (ce_table_id p) (ce_segment_id p) (ce_covered_bytes p) used (ce_dictionary_crc p)
    (ce_references p + 1) (ce_charge p) (ce_dictionary p).
(** The first entry for which [f] holds, with its position. *)
Fixpoint cache_find (f : wadb_cache_entry → bool) (l : list wadb_cache_entry) (i : Z) : option (Z * wadb_cache_entry) :=
  match l with
  | [] => None
  | p :: l' => if f p then Some (i, p) else cache_find f l' (i + 1)
  end.
(** The unreferenced entry that was used longest ago. *)
Fixpoint oldest_unused (l : list wadb_cache_entry) (i : Z) (best : option (Z * wadb_cache_entry))
    : option (Z * wadb_cache_entry) :=
  match l with
  | [] => best
  | p :: l' =>
      let better :=
        (ce_references p =? 0) &&
        match best with None => true | Some (_, b) => ce_used p <? ce_used b end in
      oldest_unused l' (i + 1) (if better then Some (i, p) else best)
  end.
Definition drop_entry (i : Z) (l : list wadb_cache_entry) : list wadb_cache_entry :=
  take (Z.to_nat i) l ++ drop (Z.to_nat (i + 1)) l.
(** Making room: one entry goes per pass, so the length of the list is fuel enough. *)
Fixpoint evict (fuel : nat) (limit reservation : Z) (c : db_cache) : db_cache * bool :=
  if reservation >? limit - c_bytes c then
    match fuel, oldest_unused (c_entries c) 0 None with
    | S fuel', Some (i, p) =>
        evict fuel' limit reservation
          (Cache (drop_entry i (c_entries c)) (c_bytes c - ce_charge p) (c_clock c) (c_hits c) (c_misses c))
    | _, _ => (c, false)
    end
  else (c, true).
Definition with_entries (l : list wadb_cache_entry) (bytes clock : Z) (c : db_cache) : db_cache :=
  Cache l bytes clock (c_hits c) (c_misses c).
Definition cache_reserve (reservation : Z) (c : db_cache) : db_cache :=
  with_entries (c_entries c) (c_bytes c + reservation) (c_clock c) c.
(** A hit: the entry is referenced and becomes the most recently used one. *)
Definition cache_hit (i : Z) (p : wadb_cache_entry) (c : db_cache) : db_cache :=
  Cache (wr (c_entries c) i (touch (c_clock c + 1) p)) (c_bytes c) (c_clock c + 1) (c_hits c + 1) (c_misses c).
Definition cache_miss (c : db_cache) : db_cache :=
  Cache (c_entries c) (c_bytes c) (c_clock c) (c_hits c) (c_misses c + 1).
Definition new_entry (r : wadb_index_reader) (d : wadb_dictionary) (used : Z) : wadb_cache_entry :=
  CacheEntry (t_id (rd_table r)) (sg_id (rd_segment r)) (sg_committed_bytes (rd_segment r)) used
    (rd_dictionary_crc r) 1 (SIZEOF_CACHE_ENTRY + d_allocated d) d.
(** Publishing a loaded dictionary, unless another reader did so meanwhile. *)
Definition cache_insert (r : wadb_index_reader) (d : wadb_dictionary) (c : db_cache)
    : db_cache * wadb_cache_entry :=
  let clock := c_clock c + 1 in
  match cache_find (λ p, matches p r) (c_entries c) 0 with
  | Some (i, p) => (with_entries (wr (c_entries c) i (touch clock p)) (c_bytes c) clock c, p)
  | None =>
      let e := new_entry r d clock in
      (with_entries (e :: c_entries c) (c_bytes c + ce_charge e) clock c, e)
  end.
(** Returns the key and the dictionary of the entry, and the reader, which may have been
    repaired on the way. *)
Definition wadb_cache_acquire (r : wadb_index_reader) : M engine (cache_key * wadb_dictionary * wadb_index_reader) :=
  db ← get_db;
  let c := cache db in
  match cache_find (λ p, matches p r) (c_entries c) 0 with
  | Some (i, p) =>
      _ ← set_db (with_cache (cache_hit i p c));
      mret (ce_key p, ce_dictionary p, r)
  | None =>
      let reservation := o_dictionary_limit_bytes (db_options db) + SIZEOF_CACHE_ENTRY in
      let '(c, room) := evict (length (c_entries c)) (o_read_cache_bytes (db_options db)) reservation (cache_miss c) in
      if negb room then
        _ ← set_db (with_cache c);
        mfail WADB_BACKPRESSURE
      else
        _ ← set_db (with_cache (cache_reserve reservation c));
        entry ← in_os os_malloc;
        loaded ← mtry (if entry : bool
                       then in_os (wadb_index_dictionary (o_dictionary_limit_bytes (db_options db)) r)
                       else mfail WADB_NOMEM);
        _ ← set_db (λ d, with_cache (cache_reserve (- reservation) (cache d)) d);
        '(d, r') ← mlift loaded;
        db ← get_db;
        let '(c, p) := cache_insert r' d (cache db) in
        _ ← set_db (with_cache c);
        mret (ce_key p, ce_dictionary p, r')
  end.
Definition unreference (p : wadb_cache_entry) : wadb_cache_entry :=
  CacheEntry (ce_table_id p) (ce_segment_id p) (ce_covered_bytes p) (ce_used p) (ce_dictionary_crc p)
    (ce_references p - 1) (ce_charge p) (ce_dictionary p).
Definition wadb_cache_release (key : cache_key) : M engine unit :=
  set_db (λ db,
    let c := cache db in
    match cache_find (λ p, bool_decide (ce_key p = key)) (c_entries c) 0 with
    | Some (i, p) => with_cache (with_entries (wr (c_entries c) i (unreference p)) (c_bytes c) (c_clock c) c) db
    | None => db
    end).
Definition wadb_cache_clear : M engine unit :=
  set_db (λ db, with_cache (Cache [] 0 (c_clock (cache db)) (c_hits (cache db)) (c_misses (cache db))) db).

(** ** Snapshots hold exactly the segments of the range *)

Definition readable_metas (t : wadb_table) : list wadb_segment_meta :=
  map (λ i, segments t !!! Z.to_nat i) (r_segments (readable t)).
(** Readable segments follow each other in sequence and in time. *)
Definition readable_ordered (t : wadb_table) : Prop :=
  ∀ i j s s', (i ≤ j)%nat → readable_metas t !! i = Some s → readable_metas t !! j = Some s' →
    sg_last_sequence s ≤ sg_last_sequence s' ∧ sg_min_time s ≤ sg_min_time s' ∧ sg_max_time s ≤ sg_max_time s'.
(** The segments that may hold rows of the range and after the sequence number. *)
Definition in_range (o : option wadb_scan_options) (s : wadb_segment_meta) : Prop :=
  match o with
  | Some o => so_start_time o ≤ sg_max_time s ∧ sg_min_time s < so_end_time o ∧
      so_after_sequence o < sg_last_sequence s ∧ so_start_time o ≠ so_end_time o
  | None => True
  end.
#[global] Instance in_range_dec o s : Decision (in_range o s).
Proof. destruct o; apply _. Defined.
Lemma in_range_tests o s :
  in_range o s ↔ before_range o s = false ∧ before_end o s = true ∧ empty_range o = false.
Proof. destruct o as [o|]; cbn; [lia|done]. Qed.

Lemma readable_segment_meta t i s : 0 ≤ i → readable_metas t !! Z.to_nat i = Some s → readable_segment t i = s.
Proof.
  unfold readable_metas, readable_segment. intros Hi. rewrite list_lookup_fmap_Some. intros (p&->&Hp).
  unfold rd. by rewrite (nth_lookup_Some _ _ _ _ Hp).
Qed.
Lemma readable_meta_at t i : 0 ≤ i < zlen (r_segments (readable t)) →
  readable_metas t !! Z.to_nat i = Some (readable_segment t i).
Proof.
  intros Hi. destruct (lookup_lt_is_Some_2 (readable_metas t) (Z.to_nat i)) as [s Hs].
  { unfold readable_metas. rewrite length_map. unfold zlen in Hi. lia. }
  by rewrite Hs, (readable_segment_meta t i s) by (done || lia).
Qed.
Lemma snapshot_range_spec t o first upper :
  readable_ordered t → zlen (r_segments (readable t)) ≤ SIZE_MAX → snapshot_range t o = (first, upper) →
  let n := zlen (r_segments (readable t)) in
  0 ≤ first ≤ upper ∧ upper ≤ n ∧
  (∀ i, 0 ≤ i < first → before_range o (readable_segment t i) = true) ∧
  (∀ i, first ≤ i < n → before_range o (readable_segment t i) = false) ∧
  (∀ i, first ≤ i < upper → before_end o (readable_segment t i) = true) ∧
  (∀ i, upper ≤ i < n → before_end o (readable_segment t i) = false).
Proof.
  intros Ho Hn. unfold snapshot_range. set (n := zlen (r_segments (readable t))) in *. intros [= Hf Hu].
  assert (Hord : ∀ i j, 0 ≤ i → i ≤ j → j < n →
    sg_last_sequence (readable_segment t i) ≤ sg_last_sequence (readable_segment t j) ∧
    sg_min_time (readable_segment t i) ≤ sg_min_time (readable_segment t j) ∧
    sg_max_time (readable_segment t i) ≤ sg_max_time (readable_segment t j)).
  { intros i j ???. apply (Ho (Z.to_nat i) (Z.to_nat j)); [lia|apply readable_meta_at; fold n; lia..]. }
  pose proof (zlen_nonneg (r_segments (readable t))) as Hn0. fold n in Hn0.
  destruct (bsearch_spec (λ mid, before_range o (readable_segment t mid)) 0 n) as (Hb1&Hb2&Hb3); [done|lia| |].
  { intros i j ???. destruct (Hord i j) as (?&?&?); [lia..|]. destruct o; cbn; [|done]. lia. }
  rewrite Hf in Hb1, Hb2, Hb3.
  destruct (bsearch_spec (λ mid, before_end o (readable_segment t mid)) first n) as (Hc1&Hc2&Hc3); [lia|lia| |].
  { intros i j ???. destruct (Hord i j) as (?&?&?); [lia..|]. destruct o; cbn; [|done]. lia. }
  rewrite Hf in Hu. rewrite Hu in Hc1, Hc2, Hc3. split_and!; done || lia.
Qed.
Lemma snapshot_copies t o first upper :
  readable_ordered t → zlen (r_segments (readable t)) ≤ SIZE_MAX → snapshot_range t o = (first, upper) →
  map (λ i, readable_segment t (first + i)) (seqZ 0 (if empty_range o then 0 else upper - first)) =
  filter (in_range o) (readable_metas t).
Proof.
  intros Ho Hn Hr. destruct (snapshot_range_spec t o first upper Ho Hn Hr) as ((H0&Hfu)&Hun&Hb1&Hb2&Hc1&Hc2).
  destruct (empty_range o) eqn:He.
  { rewrite filter_none; [done|]. apply Forall_true. intros s (_&_&?)%in_range_tests. congruence. }
  assert (Hl : length (readable_metas t) = Z.to_nat (zlen (r_segments (readable t))))
    by (unfold readable_metas, zlen; rewrite length_map; lia).
  rewrite <-(take_drop (Z.to_nat first) (readable_metas t)), filter_app.
  rewrite (filter_none _ (take _ _)).
  2: { apply Forall_forall. intros s [i Hi]%list_elem_of_lookup (Hb&_)%in_range_tests.
       apply lookup_take_Some in Hi as [Hi Hlt]. replace i with (Z.to_nat (Z.of_nat i)) in Hi by lia.
       apply readable_segment_meta in Hi; [|lia]. rewrite <-Hi, Hb1 in Hb by lia. done. }
  rewrite <-(take_drop (Z.to_nat (upper - first)) (drop (Z.to_nat first) (readable_metas t))), filter_app.
  rewrite (filter_none _ (drop _ _)).
  2: { apply Forall_forall. intros s [i Hi]%list_elem_of_lookup (_&Hb&_)%in_range_tests. rewrite !lookup_drop in Hi.
       pose proof (lookup_lt_Some _ _ _ Hi) as Hlt.
       replace (Z.to_nat first + (Z.to_nat (upper - first) + i))%nat with (Z.to_nat (upper + Z.of_nat i)) in Hi by lia.
       apply readable_segment_meta in Hi; [|lia]. rewrite <-Hi, Hc2 in Hb by lia. done. }
  rewrite app_nil_r. cbn [app]. rewrite filter_all.
  2: { apply Forall_forall. intros s [i Hi]%list_elem_of_lookup. apply lookup_take_Some in Hi as [Hi Hlt].
       rewrite lookup_drop in Hi. replace (Z.to_nat first + i)%nat with (Z.to_nat (first + Z.of_nat i)) in Hi by lia.
       apply readable_segment_meta in Hi; [|lia]. rewrite <-Hi. apply in_range_tests. split_and!; [apply Hb2; lia|apply Hc1; lia|done]. }
  apply list_eq. intros i. rewrite list_lookup_fmap. destruct (decide (i < Z.to_nat (upper - first))%nat) as [Hi|Hi].
  - rewrite lookup_seqZ_lt by lia. cbn [fmap option_fmap option_map]. rewrite lookup_take_lt, lookup_drop by lia.
    replace (Z.to_nat first + i)%nat with (Z.to_nat (first + Z.of_nat i)) by lia.
    by rewrite readable_meta_at by lia.
  - rewrite lookup_seqZ_ge by lia. by rewrite lookup_take_ge by lia.
Qed.

(** The table and the database apart from their reader counts. *)
Definition with_readers (n : Z) (t : wadb_table) : wadb_table :=
  Table (identity t) (manifest t) (tail_ t) (readable t) (counters t) n (t_read_only t) (t_pending_retention t)
    (t_maintenance_status t).

(** Three readable segments of a day and one reader already there. *)
Definition sn_table : wadb_table :=
  Table md_identity (Manifest 4 0 0 0 4 [SegmentMeta 1 0 1 2 5 9 400 WADB_SEG_SEALED; SegmentMeta 2 0 3 4 9 20 400 WADB_SEG_SEALED;
      SegmentMeta 3 0 5 6 30 40 400 WADB_SEG_ACTIVE])
    (Tail None None empty_index 6 40) (Readable [0; 1; 2] 16) (Counters 3 3 6 1200 3 0 0) 1 false false WADB_OK.
Definition sn_engine : engine :=
  Eng (with_snapshots 100 1 (new_db (cstr "/db") wadb_options_default 0)) sn_table (Os ∅ ∅ [] [] [] []).
Lemma sn_table_ordered : readable_ordered sn_table.
Proof.
  unfold readable_ordered. replace (readable_metas sn_table) with (segments sn_table) by (vm_compute; reflexivity).
  intros i j s s' Hij Hi Hj. destruct i as [|[|[|i]]], j as [|[|[|j]]]; cbn in Hi, Hj; simplify_eq; cbn; lia.
Qed.
