(* ===== verification/Cache.v ===== *)
(** * The dictionary cache under concurrent readers

    Every critical section of src/query/cache.c is a step on the cache, the number of
    loads that are under way and the keys that readers hold; readers interleave between
    them. The invariant is proved by induction on the steps. *)

From Stdlib Require Import String.
From stdpp Require Import base numbers list list_numbers gmap.
From S2P Require Import Prelude Schema Dictionary Files Engine Stats Index Reader Snapshot.

(** ** Steps *)

Record cache_state := CacheState {
  cs_cache : db_cache;
  cs_loads : Z;
  cs_held : list cache_key;
}.
Section cache.
Context (o : wadb_options).
Definition reservation : Z := o_dictionary_limit_bytes o + SIZEOF_CACHE_ENTRY.

Inductive cache_step : cache_state → cache_state → Prop :=
  | step_hit c n held r i p :
      cache_find (λ p, matches p r) (c_entries c) 0 = Some (i, p) →
      cache_step (CacheState c n held) (CacheState (cache_hit i p c) n (ce_key p :: held))
  | step_reserve c n held r c' :
      cache_find (λ p, matches p r) (c_entries c) 0 = None →
      evict (length (c_entries c)) (o_read_cache_bytes o) reservation (cache_miss c) = (c', true) →
      cache_step (CacheState c n held) (CacheState (cache_reserve reservation c') (n + 1) held)
  | step_pinned c n held r c' :
      cache_find (λ p, matches p r) (c_entries c) 0 = None →
      evict (length (c_entries c)) (o_read_cache_bytes o) reservation (cache_miss c) = (c', false) →
      cache_step (CacheState c n held) (CacheState c' n held)
  | step_load_failed c n held :
      0 < n →
      cache_step (CacheState c n held) (CacheState (cache_reserve (- reservation) c) (n - 1) held)
  | step_insert c n held r d c' p :
      0 < n → 0 ≤ d_allocated d ≤ o_dictionary_limit_bytes o →
      cache_insert r d (cache_reserve (- reservation) c) = (c', p) →
      cache_step (CacheState c n held) (CacheState c' (n - 1) (ce_key p :: held))
  | step_release c n held i p key held' :
      held ≡ₚ key :: held' →
      cache_find (λ p, bool_decide (ce_key p = key)) (c_entries c) 0 = Some (i, p) →
      cache_step (CacheState c n held)
        (CacheState (with_entries (wr (c_entries c) i (unreference p)) (c_bytes c) (c_clock c) c) n held').
Inductive cache_reachable : cache_state → Prop :=
  | reach_empty : cache_reachable (CacheState (Cache [] 0 0 0 0) 0 [])
  | reach_next s s' : cache_reachable s → cache_step s s' → cache_reachable s'.

(** ** The invariant *)

Fixpoint charges (l : list wadb_cache_entry) : Z :=
  match l with [] => 0 | p :: l' => ce_charge p + charges l' end.
Definition holders (held : list cache_key) (key : cache_key) : Z := zlen (filter (λ k, k = key) held).
Record cache_ok (s : cache_state) : Prop := {
  ck_bytes : c_bytes (cs_cache s) = charges (c_entries (cs_cache s)) + cs_loads s * reservation;
  ck_limit : c_bytes (cs_cache s) ≤ o_read_cache_bytes o;
  ck_charges : Forall (λ p, 0 ≤ ce_charge p ≤ reservation) (c_entries (cs_cache s));
  ck_keys : NoDup (map ce_key (c_entries (cs_cache s)));
  ck_references : Forall (λ p, ce_references p = holders (cs_held s) (ce_key p)) (c_entries (cs_cache s));
  ck_held : ∀ key, key ∈ cs_held s → key ∈ map ce_key (c_entries (cs_cache s));
  ck_loads : 0 ≤ cs_loads s;
}.

Lemma cache_find_spec f l k i p : cache_find f l k = Some (i, p) →
  ∃ j, i = k + Z.of_nat j ∧ l !! j = Some p ∧ f p = true.
Proof.
  revert k. induction l as [|q l IH]; intros k; cbn [cache_find]; [done|]. destruct (f q) eqn:E.
  - intros [= <- <-]. exists 0%nat. split_and!; [lia|done|done].
  - intros (j&->&Hj&Hf)%IH. exists (S j). split_and!; [lia|done|done].
Qed.
Lemma cache_find_none f l k : cache_find f l k = None → Forall (λ p, f p = false) l.
Proof.
  revert k. induction l as [|q l IH]; intros k; cbn [cache_find]; [constructor|]. destruct (f q) eqn:E; [done|].
  intros H. constructor; [done|by eapply IH].
Qed.
Lemma charges_app l l' : charges (l ++ l') = charges l + charges l'.
Proof. induction l as [|p l IH]; [done|]. cbn [app charges]. lia. Qed.
Lemma charges_nonneg l : Forall (λ p, 0 ≤ ce_charge p ≤ reservation) l → 0 ≤ charges l.
Proof. induction 1; cbn [charges]; lia. Qed.
(** Replacing an entry by one with the same key and charge. *)
Lemma wr_entry l i p p' : l !! Z.to_nat i = Some p → ce_key p' = ce_key p → ce_charge p' = ce_charge p →
  map ce_key (wr l i p') = map ce_key l ∧ charges (wr l i p') = charges l.
Proof.
  intros Hi Hk Hc. unfold wr. split.
  - change (map ce_key) with (fmap (M := list) ce_key). rewrite list_fmap_insert, Hk. apply list_insert_id.
    by rewrite list_lookup_fmap, Hi.
  - rewrite insert_take_drop by (by eapply lookup_lt_Some). rewrite <-(take_drop_middle l _ _ Hi) at 3.
    rewrite !charges_app. cbn [charges]. lia.
Qed.
Lemma holders_cons key k held : holders (k :: held) key = holders held key + if decide (k = key) then 1 else 0.
Proof. unfold holders. rewrite filter_cons. case_decide; [rewrite zlen_cons|]; lia. Qed.
Lemma holders_perm held held' key : held ≡ₚ held' → holders held key = holders held' key.
Proof. intros H. unfold holders, zlen. by rewrite H. Qed.
Lemma holders_zero held key : key ∉ held → holders held key = 0.
Proof.
  intros H. unfold holders. rewrite filter_none; [done|]. apply Forall_forall. intros k Hk ->. done.
Qed.
Lemma holders_pos held key : key ∈ held → 0 < holders held key.
Proof.
  intros Hk. unfold holders. assert (H : key ∈ filter (λ k, k = key) held) by (by apply list_elem_of_filter).
  destruct (filter (λ k, k = key) held) as [|x l]; [by apply elem_of_nil in H|]. rewrite zlen_cons. pose proof (zlen_nonneg l). lia.
Qed.
(** The references after one entry gained or lost one. *)
Lemma references_wr l i p p' held held' : NoDup (map ce_key l) → l !! Z.to_nat i = Some p → ce_key p' = ce_key p →
  Forall (λ q, ce_references q = holders held (ce_key q)) l →
  ce_references p' = holders held' (ce_key p) →
  (∀ key, key ≠ ce_key p → holders held' key = holders held key) →
  Forall (λ q, ce_references q = holders held' (ce_key q)) (wr l i p').
Proof.
  intros Hnd Hi Hk Hr Hp Hother. apply Forall_lookup. intros j q Hj. unfold wr in Hj.
  apply list_lookup_insert_Some in Hj as [(<-&<-&_)|(Hne&Hj)]; [by rewrite Hk|].
  rewrite Forall_lookup in Hr. rewrite (Hr _ _ Hj), Hother; [done|]. intros E. apply Hne.
  eapply NoDup_lookup; [exact Hnd|by rewrite list_lookup_fmap, Hi|by rewrite list_lookup_fmap, Hj; cbn; rewrite E].
Qed.

(** ** Eviction *)

Lemma oldest_unused_spec l k best i p :
  oldest_unused l k best = Some (i, p) →
  best = Some (i, p) ∨ ∃ j, i = k + Z.of_nat j ∧ l !! j = Some p ∧ ce_references p = 0.
Proof.
  revert k best. induction l as [|q l IH]; intros k best; cbn [oldest_unused]; [by left|].
  intros [H|(j&->&Hj&Hr)]%IH.
  - destruct (_ && _) eqn:E; [|by left]. injection H as <- <-. right. exists 0%nat.
    apply andb_true_iff in E as [E%Z.eqb_eq _]. split_and!; [lia|done|done].
  - right. exists (S j). split_and!; [lia|done|done].
Qed.
(** An evicted entry is not held by anyone. *)
Lemma evict_one c n held i p : cache_ok (CacheState c n held) → oldest_unused (c_entries c) 0 None = Some (i, p) →
  cache_ok (CacheState (Cache (drop_entry i (c_entries c)) (c_bytes c - ce_charge p) (c_clock c) (c_hits c) (c_misses c)) n held).
Proof.
  intros [Hb Hl Hc Hk Hr Hh Hn] Ho. cbn in *. apply oldest_unused_spec in Ho as [|(j&->&Hj&Hz)]; [done|].
  rewrite Z.add_0_l. unfold drop_entry. rewrite Nat2Z.id. replace (Z.to_nat (Z.of_nat j + 1)) with (S j) by lia.
  pose proof (take_drop_middle _ _ _ Hj) as Hs. rewrite <-Hs in Hb, Hc, Hk, Hr, Hh.
  rewrite charges_app in Hb. cbn [charges] in Hb. rewrite map_app, map_cons in Hk.
  apply Forall_app in Hc as [Hc1 Hc2], Hr as [Hr1 Hr2]. apply Forall_cons in Hc2 as [Hcp Hc2], Hr2 as [Hrp Hr2].
  split; cbn; rewrite ?charges_app, ?map_app; [lia|lia|by apply Forall_app| |by apply Forall_app| |done].
  - rewrite <-Permutation_middle in Hk. by apply NoDup_cons in Hk as [_ ?].
  - intros key Hkey. specialize (Hh key Hkey). rewrite map_app, map_cons in Hh.
    apply elem_of_app in Hh as [?|Hh]; [apply elem_of_app; by left|].
    apply elem_of_cons in Hh as [->|?]; [|apply elem_of_app; by right].
    apply holders_pos in Hkey. lia.
Qed.
Lemma evict_ok fuel c n held c' room : cache_ok (CacheState c n held) →
  evict fuel (o_read_cache_bytes o) reservation c = (c', room) →
  cache_ok (CacheState c' n held) ∧ (room = true → c_bytes c' + reservation ≤ o_read_cache_bytes o) ∧
  (∀ p, p ∈ c_entries c' → p ∈ c_entries c).
Proof.
  revert c. induction fuel as [|fuel IH]; intros c Hok; cbn [evict];
    destruct (Z.gtb_spec reservation (o_read_cache_bytes o - c_bytes c)).
  - intros [= <- <-]. done.
  - intros [= <- <-]. split_and!; [done|lia|done].
  - destruct (oldest_unused (c_entries c) 0 None) as [[i p]|] eqn:Ho; [|by intros [= <- <-]].
    intros He. apply IH in He as (?&?&Hs); [|by apply evict_one]. split_and!; [done|done|]. intros q Hq%Hs. cbn in Hq.
    unfold drop_entry in Hq. apply elem_of_app in Hq as [Hq|Hq].
    + rewrite <-(take_drop (Z.to_nat i) (c_entries c)). apply elem_of_app. by left.
    + rewrite <-(take_drop (Z.to_nat (i + 1)) (c_entries c)). apply elem_of_app. by right.
  - intros [= <- <-]. split_and!; [done|lia|done].
Qed.

(** ** Every step keeps the invariant *)

Lemma matches_key p r : matches p r = true ↔
  ce_key p = (t_id (rd_table r), sg_id (rd_segment r), sg_committed_bytes (rd_segment r), rd_dictionary_crc r).
Proof.
  unfold matches, ce_key. rewrite !andb_true_iff, !Z.eqb_eq. split; [intros [[[-> ->] ->] ->]; done|by intros [= -> -> -> ->]].
Qed.
(** One more reader of an entry that is there. *)
Lemma touch_ok c n held i p used hits : cache_ok (CacheState c n held) → 0 ≤ i → c_entries c !! Z.to_nat i = Some p →
  cache_ok (CacheState (Cache (wr (c_entries c) i (touch used p)) (c_bytes c) used hits (c_misses c)) n (ce_key p :: held)).
Proof.
  intros [Hb Hl Hc Hk Hr Hh Hn] Hi0 Hi. cbn in *.
  destruct (wr_entry (c_entries c) i p (touch used p) Hi eq_refl eq_refl) as [Ek Ec].
  pose proof Hr as Hr'. rewrite Forall_lookup in Hr'. specialize (Hr' _ _ Hi).
  split; cbn; rewrite ?Ek, ?Ec; [done|done| |done| | |done].
  - apply Forall_insert; [done|]. cbn. rewrite Forall_lookup in Hc. by apply (Hc _ _ Hi).
  - eapply references_wr; [done|done|done|exact Hr| |].
    + cbn. rewrite holders_cons, decide_True by done. lia.
    + intros key Hne. rewrite holders_cons, decide_False by done. lia.
  - intros key [->|?]%elem_of_cons; [|by apply Hh]. apply list_elem_of_fmap. exists p. split; [done|]. by eapply list_elem_of_lookup_2.
Qed.
Lemma reserve_ok c n held k : cache_ok (CacheState c n held) → 0 ≤ n + k →
  c_bytes c + k * reservation ≤ o_read_cache_bytes o → cache_ok (CacheState (cache_reserve (k * reservation) c) (n + k) held).
Proof. intros [Hb Hl Hc Hk Hr Hh Hn] Hnk Hlim. cbn in *. split; cbn; try done; lia. Qed.
Lemma insert_ok c n held r d c' p : cache_ok (CacheState c n held) → 0 ≤ d_allocated d ≤ o_dictionary_limit_bytes o →
  c_bytes c + reservation ≤ o_read_cache_bytes o → cache_insert r d c = (c', p) →
  cache_ok (CacheState c' n (ce_key p :: held)).
Proof.
  intros Hok Hd Hlim. unfold cache_insert. cbv zeta. destruct (cache_find _ _ _) as [[i q]|] eqn:E.
  - intros [= <- <-]. apply cache_find_spec in E as (j&->&Hj&_). rewrite Z.add_0_l in *.
    apply (touch_ok c n held (Z.of_nat j) q (c_clock c + 1) (c_hits c) Hok); [lia|by rewrite Nat2Z.id].
  - intros [= <- <-]. apply cache_find_none in E. destruct Hok as [Hb Hl Hc Hk Hr Hh Hn]. cbn in *.
    set (e := new_entry r d (c_clock c + 1)).
    assert (Hnew : ce_key e ∉ map ce_key (c_entries c)).
    { intros (q&Hq&Hin)%list_elem_of_fmap. rewrite Forall_forall in E. specialize (E q Hin).
      assert (matches q r = true) by (apply matches_key; by rewrite <-Hq). congruence. }
    assert (Hch : 0 ≤ ce_charge e ≤ reservation) by (unfold e, reservation; cbn [new_entry ce_charge]; unfold SIZEOF_CACHE_ENTRY; lia).
    assert (Hnh : ce_key e ∉ held) by (intros Hin; by apply Hnew, Hh).
    change (SIZEOF_CACHE_ENTRY + d_allocated d) with (ce_charge e).
    split; cbn [cs_cache cs_loads cs_held with_entries c_entries c_bytes charges map]; [lia|lia|by constructor|by constructor| | |done].
    + constructor; [|eapply Forall_impl; [apply Forall_and; split; [exact Hr|apply Forall_forall; intros q Hq; exact Hq]|]].
      * rewrite holders_cons, decide_True, holders_zero by done. done.
      * cbn beta. intros q [Hq Hin]. rewrite holders_cons, decide_False; [lia|]. intros Eq. apply Hnew. rewrite Eq.
        by apply list_elem_of_fmap_2.
    + intros key [->|?]%elem_of_cons; [by left|right; by apply Hh].
Qed.
Lemma release_ok c n held i p key held' : cache_ok (CacheState c n held) → held ≡ₚ key :: held' →
  cache_find (λ p, bool_decide (ce_key p = key)) (c_entries c) 0 = Some (i, p) →
  cache_ok (CacheState (with_entries (wr (c_entries c) i (unreference p)) (c_bytes c) (c_clock c) c) n held').
Proof.
  intros [Hb Hl Hc Hk Hr Hh Hn] Hp E. cbn in *. apply cache_find_spec in E as (j&->&Hj&Hkey%bool_decide_eq_true).
  rewrite Z.add_0_l. assert (Hi : c_entries c !! Z.to_nat (Z.of_nat j) = Some p) by (by rewrite Nat2Z.id).
  destruct (wr_entry (c_entries c) (Z.of_nat j) p (unreference p) Hi eq_refl eq_refl) as [Ek Ec].
  pose proof Hr as Hr'. rewrite Forall_lookup in Hr'. specialize (Hr' _ _ Hi).
  split; cbn; rewrite ?Ek, ?Ec; [done|done| |done| | |done].
  - apply Forall_insert; [done|]. cbn. rewrite Forall_lookup in Hc. by apply (Hc _ _ Hi).
  - eapply references_wr; [done|done|done|exact Hr| |].
    + cbn. rewrite Hr', (holders_perm _ _ _ Hp), holders_cons, decide_True by done. lia.
    + intros k Hne. rewrite (holders_perm _ _ _ Hp), holders_cons, decide_False by congruence. lia.
  - intros k Hin. apply Hh. rewrite Hp. by right.
Qed.

Lemma cache_step_ok s s' : 0 ≤ o_dictionary_limit_bytes o → cache_ok s → cache_step s s' → cache_ok s'.
Proof.
  intros Hd Hok Hs. assert (Hres : 0 ≤ reservation) by (unfold reservation, SIZEOF_CACHE_ENTRY; lia).
  destruct Hs as [c n held r i p E|c n held r c' E Ev|c n held r c' E Ev|c n held Hn|c n held r d c' p Hn Hda E|c n held i p key held' Hp E].
  - apply cache_find_spec in E as (j&->&Hj&_). rewrite Z.add_0_l.
    apply (touch_ok c n held (Z.of_nat j) p (c_clock c + 1) (c_hits c + 1) Hok); [lia|by rewrite Nat2Z.id].
  - apply (evict_ok _ _ n held) in Ev as (Hok'&Hroom&_); [|by destruct Hok]. specialize (Hroom eq_refl).
    pose proof (reserve_ok _ _ _ 1 Hok') as H. rewrite Z.mul_1_l in H. apply H; [destruct Hok; cbn in *; lia|lia].
  - by apply (evict_ok _ _ n held) in Ev as (Hok'&_); [|by destruct Hok].
  - pose proof (reserve_ok _ _ _ (-1) Hok) as H. replace (-1 * reservation) with (- reservation) in H by lia.
    apply H; [lia|]. destruct Hok. cbn in *. lia.
  - eapply insert_ok; [|exact Hda| |exact E].
    + pose proof (reserve_ok _ _ _ (-1) Hok) as H. replace (-1 * reservation) with (- reservation) in H by lia.
      apply H; [lia|]. destruct Hok. cbn in *. lia.
    + cbn. destruct Hok. cbn in *. lia.
  - by eapply release_ok.
Qed.

(** ** The operations are made of these steps *)

(** The dictionary a reader loads is within the limit that its memory is charged to. *)
Definition loads_bounded (r : wadb_index_reader) : Prop := ∀ w d r' w',
  wadb_index_dictionary (o_dictionary_limit_bytes o) r w = (Ok (d, r'), w') → 0 ≤ d_allocated d ≤ o_dictionary_limit_bytes o.
Lemma acquire_steps r g res g' n held : db_options (e_db g) = o → loads_bounded r → 0 ≤ n →
  wadb_cache_acquire r g = (res, g') →
  rtc cache_step (CacheState (cache (e_db g)) n held)
    (CacheState (cache (e_db g')) n (match res with Ok (key, _, _) => key :: held | Err _ => held end)).
Proof.
  intros Ho Hld Hn Hrun. pattern res, g'. refine (wp_out _ _ _ _ _ _ Hrun). unfold wadb_cache_acquire.
  apply wp_get_db. destruct (cache_find _ _ _) as [[i p]|] eqn:E.
  { apply wp_set_db, wp_ret. cbn. apply rtc_once. by eapply step_hit. }
  rewrite Ho. fold reservation. destruct (evict _ _ _ _) as [c room] eqn:Ev. destruct room; cbn [negb].
  2: { apply wp_set_db, wp_fail. cbn. apply rtc_once. by eapply step_pinned. }
  apply wp_set_db. apply wp_bind, wp_in_os. eapply wp_mono; [apply os_malloc_spec|]. cbn beta. intros ? w1 (ok&->&_).
  eassert (Hres : cache_step (CacheState (cache (e_db g)) n held) (CacheState (cache_reserve reservation c) (n + 1) held))
    by (by eapply step_reserve). cbn [e_db e_table e_os].
  apply wp_bind, wp_try.
  eapply (wp_mono _ (λ res g1, e_db g1 = with_cache (cache_reserve reservation c) (e_db g) ∧
    ∀ d r', res = Ok (d, r') → 0 ≤ d_allocated d ≤ o_dictionary_limit_bytes o)).
  { destruct ok; [|by apply wp_fail]. apply wp_in_os, wp_in. cbn. intros res1 w2 El. split; [done|].
    intros d r' ->. by eapply Hld. }
  cbn beta. intros loaded g1 [Ed Hb]. apply wp_set_db. rewrite Ed. cbn [cache with_cache].
  apply wp_bind. unfold mlift, wp at 1. cbn [fst snd]. destruct loaded as [[d r']|e].
  - apply wp_get_db. cbn [e_db cache with_cache]. destruct (cache_insert _ _ _) as [c' p] eqn:Ei.
    apply wp_set_db, wp_ret. cbn. eapply rtc_l; [exact Hres|]. apply rtc_once.
    replace n with (n + 1 - 1) at 2 by lia. eapply step_insert; [lia|by eapply Hb|exact Ei].
  - cbn. eapply rtc_l; [exact Hres|]. apply rtc_once. replace n with (n + 1 - 1) at 2 by lia. by apply step_load_failed; lia.
Qed.

(** C10: However the critical sections of concurrent readers interleave, the cache accounts
    exactly for its entries and for the loads under way, stays within the configured
    size, has one entry per key, and counts as references the readers that hold an
    entry; so no entry that a reader holds is ever evicted. *)
Theorem cache_invariant s :
  0 ≤ o_dictionary_limit_bytes o → 0 ≤ o_read_cache_bytes o → cache_reachable s →
  c_bytes (cs_cache s) = charges (c_entries (cs_cache s)) + cs_loads s * reservation ∧
  c_bytes (cs_cache s) ≤ o_read_cache_bytes o ∧
  NoDup (map ce_key (c_entries (cs_cache s))) ∧
  (∀ p, p ∈ c_entries (cs_cache s) → ce_references p = holders (cs_held s) (ce_key p)) ∧
  (∀ key, key ∈ cs_held s → ∃ p, p ∈ c_entries (cs_cache s) ∧ ce_key p = key).
Proof.
  intros Hd Hl Hr. assert (Hok : cache_ok s).
  { induction Hr as [|s s' _ IH Hs]; [|by eapply cache_step_ok].
    split; cbn; try done; try constructor. }
  destruct Hok as [Hb Hlim _ Hk Hrf Hh _]. split_and!; [done|done|done|by apply Forall_forall|].
  intros key (p&->&Hp)%Hh%list_elem_of_fmap. eauto.
Qed.
End cache.

(** One reader loads the dictionary of a segment, a second one shares it. *)
Definition ca_reader : wadb_index_reader := new_reader ix_table ix_segment None 0.
Definition ca_loaded : db_cache * wadb_cache_entry :=
  cache_insert ca_reader pv_dict (cache_reserve (- reservation wadb_options_default)
    (cache_reserve (reservation wadb_options_default) (cache_miss (Cache [] 0 0 0 0)))).
Definition ca_state : cache_state :=
  CacheState (cache_hit 0 ca_loaded.2 ca_loaded.1) 0 [ce_key ca_loaded.2; ce_key ca_loaded.2].
Lemma ca_reachable : cache_reachable wadb_options_default ca_state.
Proof.
  eapply reach_next; [eapply reach_next; [eapply reach_next; [apply reach_empty|]|]|].
  - eapply (step_reserve _ _ _ _ ca_reader); vm_compute; reflexivity.
  - eapply (step_insert _ _ _ _ ca_reader pv_dict ca_loaded.1 ca_loaded.2); [done|vm_compute; split; congruence|].
    vm_compute. reflexivity.
  - unfold ca_state. apply (step_hit _ _ _ _ ca_reader); vm_compute; reflexivity.
Qed.
Lemma cache_invariant_witness :
  map ce_references (c_entries (cs_cache ca_state)) = [2] ∧
  ∃ p, p ∈ c_entries (cs_cache ca_state) ∧ ce_key p = (1, 1, 464, 0).
Proof.
  split; [vm_compute; reflexivity|].
  apply (cache_invariant wadb_options_default ca_state); [vm_compute; congruence..|exact ca_reachable|].
  vm_compute. left.
Defined.
