(* ===== verification/Scan.v ===== *)
(** * Scanning a snapshot (src/query/scan.c)

    Rows are visited in sequence order and handed to a callback, within a byte budget
    and a deadline. The callback and its context are parameters of the scan. *)

From stdpp Require Import base numbers list list_numbers gmap.
From S2P Require Import Prelude Encoding Schema Format Checksum Rows Dictionary Files Engine Stats Metadata Paths Index Segments Reader Retention Snapshot.

(** ** Opening a segment *)

Definition identity_matches (t : table_identity) (s : wadb_segment_meta) (h : wadb_segment_header) : bool :=
  negb (negb (h_table_id h =? t_id t) || negb (h_segment_id h =? sg_id s) ||
    negb (h_schema_hash h =? fingerprint (t_schema t)) || negb (h_row_width h =? row_width (t_schema t)) ||
    negb (h_first_sequence h =? sg_first_sequence s) || negb (h_day_start h =? sg_day_start s)).
Definition check_header (t : table_identity) (s : wadb_segment_meta) (content : list Z) : M os unit :=
  bytes ← wadb_pread_all content WADB_SEGMENT_HEADER_BYTES 0;
  h ← mlift (wadb_segment_decode bytes);
  if negb (identity_matches t s h) then mfail WADB_CORRUPT else mret ().
Definition open_segment (t : table_identity) (s : wadb_segment_meta) : M os (list Z) :=
  p ← wadb_segment_path t s EXT_SEG;
  match p with
  | None => mfail WADB_NOMEM
  | Some p =>
      opened ← syscall;
      w ← get_os;
      match (if opened : bool then files w !! p else None) with
      | None => mfail WADB_IO
      | Some content => mret content
      end
  end.

(** The dictionary of the active segment, from the dictionary parts of its frames. *)
Fixpoint active_dictionary_loop (content : list Z) (deadline : Z) (l : list wadb_index_entry) (d : wadb_dictionary)
    : M os wadb_dictionary :=
  match l with
  | [] => mret d
  | v :: l' =>
      if ie_dictionary_count v =? 0 then active_dictionary_loop content deadline l' d
      else
        now ← wadb_monotonic_ns;
        if now >=? deadline then mfail WADB_LIMIT
        else
          let n := u32 (ie_rows_offset v - WADB_FRAME_HEADER_BYTES) in
          buffer ← os_malloc;
          if negb buffer then mfail WADB_NOMEM
          else
            p ← wadb_pread_all content n (u64 (ie_frame_offset v + WADB_FRAME_HEADER_BYTES));
            if negb (wadb_crc32c p =? ie_dictionary_crc v) then mfail WADB_CORRUPT
            else
              '(applied, d') ← run_dictionary d (wadb_dictionary_apply (dictionary_frame p n (ie_dictionary_count v)));
              _ ← mlift applied;
              active_dictionary_loop content deadline l' d'
  end.
Definition active_dictionary (t : table_identity) (limit : Z) (content : list Z) (ix : wadb_frame_index)
    (deadline : Z) : M os wadb_dictionary :=
  d ← new_dictionary (t_schema t) limit;
  active_dictionary_loop content deadline (ix_entries ix) d.

(** ** The state of a scan *)

Definition with_rows (scanned returned last : Z) (limit_reached : bool) (s : wadb_scan_stats) : wadb_scan_stats :=
  ScanStats scanned returned (ss_bytes_scanned s) (ss_snapshot_sequence s) (ss_index_bytes s)
    (ss_dictionary_bytes s) (ss_frames_scanned s) (ss_segments_scanned s) (ss_rebuild_bytes s) last limit_reached.
Definition with_bytes (scanned index dictionary rebuild : Z) (s : wadb_scan_stats) : wadb_scan_stats :=
  ScanStats (ss_rows_scanned s) (ss_rows_returned s) scanned (ss_snapshot_sequence s) index
    dictionary (ss_frames_scanned s) (ss_segments_scanned s) rebuild (ss_last_sequence s) (ss_limit_reached s).
Definition with_visits (frames segs : Z) (s : wadb_scan_stats) : wadb_scan_stats :=
  ScanStats (ss_rows_scanned s) (ss_rows_returned s) (ss_bytes_scanned s) (ss_snapshot_sequence s) (ss_index_bytes s)
    (ss_dictionary_bytes s) frames segs (ss_rebuild_bytes s) (ss_last_sequence s) (ss_limit_reached s).
Definition empty_stats (sequence : Z) : wadb_scan_stats := ScanStats 0 0 0 sequence 0 0 0 0 0 0 false.

(** [sc_reader] is the reader of the current segment after its last successful
    operation, [sc_rebuilt] the local [rebuilt], [sc_cached] the cache entry it holds. *)
Record scan_state (C : Type) := ScanState {
  sc_engine : engine;
  sc_context : C;
  sc_stats : wadb_scan_stats;
  sc_reader : wadb_index_reader;
  sc_rebuilt : Z;
  sc_cached : option cache_key;
  sc_callback_failed : bool;
}.
Arguments ScanState {C}.
Arguments sc_engine {C}.
Arguments sc_context {C}.
Arguments sc_stats {C}.
Arguments sc_reader {C}.
Arguments sc_rebuilt {C}.
Arguments sc_cached {C}.
Arguments sc_callback_failed {C}.

Section scan.
Context {C : Type} (consume : Z → list wadb_value → M C unit).

Definition in_engine {A} (m : M engine A) : M (scan_state C) A := λ s,
  let '(r, g) := m (sc_engine s) in
  (r, ScanState g (sc_context s) (sc_stats s) (sc_reader s) (sc_rebuilt s) (sc_cached s) (sc_callback_failed s)).
Definition os_step {A} (m : M os A) : M (scan_state C) A := in_engine (in_os m).
Definition get_stats : M (scan_state C) wadb_scan_stats := λ s, (Ok (sc_stats s), s).
Definition set_stats (f : wadb_scan_stats → wadb_scan_stats) : M (scan_state C) unit := λ s,
  (Ok (), ScanState (sc_engine s) (sc_context s) (f (sc_stats s)) (sc_reader s) (sc_rebuilt s) (sc_cached s)
            (sc_callback_failed s)).
Definition get_reader : M (scan_state C) wadb_index_reader := λ s, (Ok (sc_reader s), s).
Definition set_reader (r : wadb_index_reader) : M (scan_state C) unit := λ s,
  (Ok (), ScanState (sc_engine s) (sc_context s) (sc_stats s) r (sc_rebuilt s) (sc_cached s) (sc_callback_failed s)).
Definition get_rebuilt : M (scan_state C) Z := λ s, (Ok (sc_rebuilt s), s).
Definition set_rebuilt (n : Z) : M (scan_state C) unit := λ s,
  (Ok (), ScanState (sc_engine s) (sc_context s) (sc_stats s) (sc_reader s) n (sc_cached s) (sc_callback_failed s)).
Definition get_cached : M (scan_state C) (option cache_key) := λ s, (Ok (sc_cached s), s).
Definition set_cached (k : option cache_key) : M (scan_state C) unit := λ s,
  (Ok (), ScanState (sc_engine s) (sc_context s) (sc_stats s) (sc_reader s) (sc_rebuilt s) k (sc_callback_failed s)).
Definition set_rebuild_budget (n : Z) : M (scan_state C) unit :=
  r ← get_reader;
  set_reader (with_budget n (rd_deadline r) r).
(** Calling back: a failure is remembered as the callback's own. *)
Definition call_consume (sequence : Z) (values : list wadb_value) : M (scan_state C) unit := λ s,
  let '(r, c) := consume sequence values (sc_context s) in
  (r, ScanState (sc_engine s) c (sc_stats s) (sc_reader s) (sc_rebuilt s) (sc_cached s)
        (match r with Ok _ => sc_callback_failed s | Err _ => true end)).

(** ** Budgets *)

Definition account_rebuild (budget : Z) : M (scan_state C) unit :=
  r ← get_reader;
  st ← get_stats;
  accounted ← get_rebuilt;
  let extra := u64 (rd_rebuilt_bytes r - accounted) in
  if extra >? u64 (budget - ss_bytes_scanned st) then mfail WADB_LIMIT
  else
    _ ← set_stats (λ st, with_bytes (u64 (ss_bytes_scanned st + extra)) (ss_index_bytes st) (ss_dictionary_bytes st)
                           (u64 (ss_rebuild_bytes st + extra)) st);
    _ ← set_rebuilt (rd_rebuilt_bytes r);
    st ← get_stats;
    set_rebuild_budget (u64 (budget - ss_bytes_scanned st)).
Definition check_deadline (deadline : Z) : M (scan_state C) unit :=
  now ← os_step wadb_monotonic_ns;
  if now >=? deadline then mfail WADB_LIMIT else mret ().

(** ** Rows *)

Fixpoint decode_values (n : nat) (sch : wadb_schema) (row : list Z) (d : wadb_dictionary) (field : Z)
    : result (list wadb_value) :=
  match n with
  | O => Ok []
  | S n' =>
      v ← wadb_decode_value sch field row (Some (wadb_dictionary_resolve d));
      l ← decode_values n' sch row d (field + 1);
      Ok (v :: l)
  end.
Definition row_skipped (o : wadb_scan_options) (snapshot_sequence time sequence : Z) : bool :=
  (time <? so_start_time o) || (time >=? so_end_time o) || (sequence <=? so_after_sequence o) ||
  (sequence >? snapshot_sequence).
(** One row; the result says if the limit was reached. *)
Definition scan_row (o : wadb_scan_options) (sch : wadb_schema) (d : wadb_dictionary) (f : wadb_frame)
    (deadline row : Z) : M (scan_state C) bool :=
  _ ← (if row `mod` 256 =? 0 then check_deadline deadline else mret ());
  let sequence := u64 (fr_first_sequence f + row) in
  let p := sub (fr_rows f) (row * fr_row_width f) (fr_row_width f) in
  let time := wadb_get_i64 p 0 in
  st ← get_stats;
  _ ← set_stats (λ st, with_rows (u64 (ss_rows_scanned st + 1)) (ss_rows_returned st) (ss_last_sequence st)
                         (ss_limit_reached st) st);
  if row_skipped o (ss_snapshot_sequence st) time sequence then mret false
  else
    _ ← mlift (wadb_validate_row sch p (Some (wadb_dictionary_resolve d)));
    values ← mlift (decode_values (Z.to_nat (field_count sch)) sch p d 0);
    _ ← call_consume sequence values;
    let returned := u64 (ss_rows_returned st + 1) in
    let stop := returned =? so_limit o in
    _ ← set_stats (λ st, with_rows (ss_rows_scanned st) returned sequence (stop || ss_limit_reached st) st);
    mret stop.
Fixpoint scan_rows (n : nat) (o : wadb_scan_options) (sch : wadb_schema) (d : wadb_dictionary) (f : wadb_frame)
    (deadline row : Z) : M (scan_state C) bool :=
  match n with
  | O => mret false
  | S n' =>
      stop ← scan_row o sch d f deadline row;
      if stop : bool then mret true else scan_rows n' o sch d f deadline (row + 1)
  end.

(** ** Frames *)

Definition frame_contradicts (sch : wadb_schema) (v : wadb_index_entry) (bytes : list Z) (f : wadb_frame) : bool :=
  negb (fr_schema_hash f =? fingerprint sch) || negb (fr_row_width f =? row_width sch) ||
  negb (fr_first_sequence f =? ie_first_sequence v) || negb (fr_row_count f =? ie_row_count v) ||
  negb (fr_min_time f =? ie_min_time v) || negb (fr_max_time f =? ie_max_time v) ||
  negb (wadb_get_u32 bytes (ie_frame_bytes v - 4) =? ie_frame_crc v).
Definition read_frame (sch : wadb_schema) (content : list Z) (v : wadb_index_entry) : M os wadb_frame :=
  buffer ← os_malloc;
  if negb buffer then mfail WADB_NOMEM
  else
    bytes ← wadb_pread_all content (ie_frame_bytes v) (ie_frame_offset v);
    f ← mlift (wadb_frame_decode bytes);
    if frame_contradicts sch v bytes f then mfail WADB_CORRUPT else mret f.
(** The loop over the index from [position]; the result says if the limit was reached.
    An index has at most 65536 entries, which bounds the fuel. *)
Fixpoint scan_frames (fuel : nat) (limit : Z) (o : wadb_scan_options) (sch : wadb_schema) (d : wadb_dictionary)
    (content : list Z) (deadline position : Z) : M (scan_state C) bool :=
  match fuel with
  | O => mret false
  | S fuel' =>
      r ← get_reader;
      if position >=? rd_count r then mret false
      else
        _ ← check_deadline deadline;
        st ← get_stats;
        _ ← set_rebuild_budget (u64 (so_max_scan_bytes o - ss_bytes_scanned st));
        r ← get_reader;
        '(entry, r) ← os_step (wadb_index_get limit r position);
        _ ← set_reader r;
        _ ← account_rebuild (so_max_scan_bytes o);
        if ie_min_time entry >=? so_end_time o then mret false
        else
          st ← get_stats;
          if ie_frame_bytes entry >? u64 (so_max_scan_bytes o - ss_bytes_scanned st) then mfail WADB_LIMIT
          else
            _ ← set_stats (λ st, with_bytes (u64 (ss_bytes_scanned st + ie_frame_bytes entry)) (ss_index_bytes st)
                                   (ss_dictionary_bytes st) (ss_rebuild_bytes st) st);
            f ← os_step (read_frame sch content entry);
            _ ← set_stats (λ st, with_visits (u64 (ss_frames_scanned st + 1)) (ss_segments_scanned st) st);
            stop ← scan_rows (Z.to_nat (fr_row_count f)) o sch d f deadline 0;
            if stop : bool then mret true
            else scan_frames fuel' limit o sch d content deadline (position + 1)
  end.

(** ** Segments *)

Definition active_reader (t : table_identity) (s : wadb_segment_meta) (active : wadb_frame_index) : wadb_index_reader :=
  Reader t s None (entries_pointer (ix_entries active)) (ix_count active) 0
    (fold_left (λ n v, u64 (n + u32 (ie_rows_offset v - WADB_FRAME_HEADER_BYTES))) (ix_entries active) 0)
    0 0 UINT64_MAX [] 0 0 false None 0 0 0.
(** Opening the reader, loading the dictionary and finding the first frame. *)
Definition prepare_segment (limit : Z) (t : table_identity) (o : wadb_scan_options) (sn : wadb_snapshot)
    (s : wadb_segment_meta) (deadline : Z) (content : list Z) : M (scan_state C) (wadb_dictionary * Z) :=
  _ ← os_step (check_header t s content);
  st ← get_stats;
  r ← (if is_active s then mret (active_reader t s (sn_active sn))
       else os_step (wadb_index_open_bounded limit t s (u64 (so_max_scan_bytes o - ss_bytes_scanned st)) deadline));
  _ ← set_reader r;
  _ ← account_rebuild (so_max_scan_bytes o);
  r ← get_reader;
  st ← get_stats;
  if rd_dictionary_bytes r >? u64 (so_max_scan_bytes o - ss_bytes_scanned st) then mfail WADB_LIMIT
  else
    _ ← set_stats (λ st, with_bytes (u64 (ss_bytes_scanned st + rd_dictionary_bytes r)) (ss_index_bytes st)
                           (u64 (ss_dictionary_bytes st + rd_dictionary_bytes r)) (ss_rebuild_bytes st) st);
    st ← get_stats;
    _ ← set_rebuild_budget (u64 (so_max_scan_bytes o - ss_bytes_scanned st));
    d ← (if is_active s then os_step (active_dictionary t limit content (sn_active sn) deadline)
         else
           r ← get_reader;
           '(key, d, r) ← in_engine (wadb_cache_acquire r);
           _ ← set_cached (Some key);
           _ ← set_reader r;
           mret d);
    _ ← account_rebuild (so_max_scan_bytes o);
    r ← get_reader;
    '(position, r) ← os_step (wadb_index_lower_bound limit r (so_start_time o) (so_after_sequence o));
    _ ← set_reader r;
    _ ← account_rebuild (so_max_scan_bytes o);
    mret (d, position).
(** The end of a segment, on every path: the index bytes are counted and the cache
    entry is given back. *)
Definition finish_segment : M (scan_state C) unit :=
  r ← get_reader;
  _ ← set_stats (λ st, with_bytes (ss_bytes_scanned st)
                         (u64 (ss_index_bytes st + (rd_io_bytes r - rd_dictionary_io_bytes r)))
                         (ss_dictionary_bytes st) (ss_rebuild_bytes st) st);
  cached ← get_cached;
  _ ← (match cached with Some key => in_engine (wadb_cache_release key) | None => mret () end);
  set_cached None.
Definition scan_segment (limit : Z) (t : table_identity) (o : wadb_scan_options) (sn : wadb_snapshot)
    (s : wadb_segment_meta) (deadline : Z) : M (scan_state C) bool :=
  content ← os_step (open_segment t s);
  _ ← set_reader (new_reader t s None 0);
  _ ← set_rebuilt 0;
  prepared ← mtry (prepare_segment limit t o sn s deadline content);
  _ ← set_stats (λ st, with_visits (ss_frames_scanned st) (u64 (ss_segments_scanned st + 1)) st);
  stop ← mtry ('(d, position) ← mlift prepared;
               scan_frames (Z.to_nat (WADB_MAX_INDEX_ENTRIES + 1)) limit o (t_schema t) d content deadline position);
  _ ← finish_segment;
  mlift stop.
Definition segment_before (o : wadb_scan_options) (s : wadb_segment_meta) : bool :=
  (sg_last_sequence s <=? so_after_sequence o) || (sg_max_time s <? so_start_time o).
Fixpoint scan_segments (l : list wadb_segment_meta) (limit : Z) (t : table_identity) (o : wadb_scan_options)
    (sn : wadb_snapshot) (deadline : Z) : M (scan_state C) unit :=
  match l with
  | [] => mret ()
  | s :: l' =>
      _ ← check_deadline deadline;
      if segment_before o s || (sg_min_time s >=? so_end_time o) then scan_segments l' limit t o sn deadline
      else
        stop ← scan_segment limit t o sn s deadline;
        if stop : bool then mret () else scan_segments l' limit t o sn deadline
  end.
End scan.

(** ** The scan *)

Section operations.
Context {C : Type} (consume : Z → list wadb_value → M C unit).

Definition null_reader (t : table_identity) : wadb_index_reader := new_reader t inhabitant None 0.
(** The statistics and the context are returned whatever the status. *)
Definition wadb_scan_snapshot (sn : wadb_snapshot) (o : wadb_scan_options) (c : C)
    : M engine (result unit * wadb_scan_stats * C) :=
  t ← get_table;
  db ← get_db;
  let limit := o_dictionary_limit_bytes (db_options db) in
  now ← in_os wadb_monotonic_ns;
  let deadline := u64 (now + so_timeout_ms o * 1000000) in
  let first := bsearch (λ mid, segment_before o (sn_segments sn !!! Z.to_nat mid)) 0 (sn_count sn) in
  g ← (λ g, (Ok g, g));
  let '(status, s) := scan_segments consume (drop (Z.to_nat first) (sn_segments sn)) limit (identity t) o sn deadline
      (ScanState g c (empty_stats (sn_sequence sn)) (null_reader (identity t)) 0 None false) in
  _ ← (λ _, (Ok (), sc_engine s));
  _ ← (match status with
       | Err WADB_CORRUPT => if sc_callback_failed s then mret () else set_table (with_read_only true)
       | _ => mret ()
       end);
  mret (status, sc_stats s, sc_context s).
Definition scan_options_invalid (o : wadb_scan_options) : bool :=
  (so_end_time o <? so_start_time o) || (so_limit o =? 0) || (so_max_scan_bytes o =? 0) ||
  (so_timeout_ms o =? 0) || (so_timeout_ms o >? 3600000).
(** [wadb_scan] after the expiry of cursors: snapshot, scan, release, record. *)
Definition scan_table (o : wadb_scan_options) (c : C) : M engine (result unit * wadb_scan_stats * C) :=
  started ← in_os wadb_monotonic_ns;
  acquired ← mtry (wadb_snapshot_acquire (Some o));
  '(status, st, c) ← (match acquired with
                      | Ok sn =>
                          scanned ← wadb_scan_snapshot sn o c;
                          _ ← wadb_snapshot_release sn;
                          mret scanned
                      | Err e => mret (Err e, empty_stats 0, c)
                      end);
  _ ← wadb_record_query started (status_of status) (Some st);
  mret (status, st, c).
End operations.
