(* ===== verification/Plan.v ===== *)
(** * Query plans (src/query/plan.c, src/query/query.h)

    Comparison of values, time buckets, and the compilation of a query against a
    schema: filters, projection or grouping, aggregates and the result columns. *)

From Stdlib Require Import String.
From stdpp Require Import base numbers list list_numbers gmap.
From S2P Require Import Prelude Encoding Schema Float Rows Dictionary Files Engine Snapshot.

(** ** Types and comparison *)

Definition wadb_type_bytes (t : wadb_type) : bool :=
  match t with WADB_UUID | WADB_BYTES | WADB_TEXT | WADB_SYMBOL32 => true | _ => false end.
Definition wadb_type_signed (t : wadb_type) : bool :=
  match t with WADB_I8 | WADB_I16 | WADB_I32 | WADB_I64 | WADB_TIMESTAMP_US => true | _ => false end.
Definition wadb_type_float (t : wadb_type) : bool :=
  match t with WADB_F32 | WADB_F64 => true | _ => false end.

(** [(a > b) - (a < b)] *)
Definition sign_of_compare (c : comparison) : Z := match c with Lt => -1 | Eq => 0 | Gt => 1 end.
(** [memcmp] of the common prefix, then the lengths: the order of bytes, shorter first. *)
Fixpoint memcmp (a b : list Z) : Z :=
  match a, b with
  | x :: a', y :: b' => if x <? y then -1 else if x >? y then 1 else memcmp a' b'
  | _, _ => 0
  end.
Definition compare_bytes (a b : list Z) : Z :=
  let cmp := memcmp a b in
  if negb (cmp =? 0) then cmp else sign_of_compare (zlen a ?= zlen b).
(** Doubles by their patterns; a comparison with a NaN is false both ways, and the two
    zeroes are equal. *)
Definition f64_nan (b : Z) : bool := (f64_exp b =? 2047) && negb (f64_frac b =? 0).
Definition f64_key (b : Z) : Z := if f64_sign b =? 0 then fabs b else - fabs b.
Definition compare_f64 (a b : Z) : Z :=
  if f64_nan a || f64_nan b then 0 else sign_of_compare (f64_key a ?= f64_key b).
Definition is_null (v : wadb_value) : bool := match v with VNull => true | _ => false end.
Definition wadb_value_compare (t : wadb_type) (a b : wadb_value) : Z :=
  if is_null a || is_null b then Z.b2z (is_null a) - Z.b2z (is_null b)
  else if wadb_type_bytes t then compare_bytes (as_bytes a) (as_bytes b)
  else if wadb_type_signed t then sign_of_compare (as_i64 a ?= as_i64 b)
  else if wadb_type_float t then compare_f64 (as_f64 a) (as_f64 b)
  else sign_of_compare (as_u64 a ?= as_u64 b).

(** ** Time buckets *)

Definition nonneg_rem (z width : Z) : Z := let a := Z.rem z width in if a <? 0 then a + width else a.
Definition wadb_bucket_floor (time width origin : Z) : result Z :=
  let a := nonneg_rem time width in
  let b := nonneg_rem origin width in
  let distance := if a >=? b then a - b else width - (b - a) in
  if time <? INT64_MIN + distance then Err WADB_LIMIT else Ok (time - distance).

(** ** Queries *)

Definition WADB_MAX_FILTERS : Z := 32.
Definition WADB_MAX_GROUP_FIELDS : Z := 8.
Definition WADB_MAX_AGGREGATES : Z := 16.
Inductive wadb_filter_op := WADB_EQ | WADB_NE | WADB_LT | WADB_LE | WADB_GT | WADB_GE | WADB_IS_NULL | WADB_IS_NOT_NULL.
#[global] Instance filter_op_eq_dec : EqDecision wadb_filter_op.
Proof. solve_decision. Defined.
Record wadb_filter := Filter {
  fl_field : list Z;
  fl_op : wadb_filter_op;
  fl_value : wadb_value;
}.
Inductive wadb_aggregate_op := WADB_COUNT_ALL | WADB_COUNT | WADB_SUM | WADB_MIN | WADB_MAX | WADB_AVG.
#[global] Instance aggregate_op_eq_dec : EqDecision wadb_aggregate_op.
Proof. solve_decision. Defined.
(** A null field name is [None]. *)
Record wadb_aggregate := Aggregate {
  ag_op : wadb_aggregate_op;
  ag_field : option (list Z);
  ag_name : list Z;
}.
Record wadb_query_options := QueryOptions {
  qo_scan : wadb_scan_options;
  qo_projection : list (list Z);
  qo_filters : list wadb_filter;
  qo_group_by : list (list Z);
  qo_aggregates : list wadb_aggregate;
  qo_bucket_width_us : Z;
  qo_bucket_origin_us : Z;
  qo_max_groups : Z;
  qo_max_buckets : Z;
  qo_memory_limit_bytes : Z;
  qo_order_by : option (list Z);
  qo_descending : bool;
}.
Definition wadb_query_options_default : wadb_query_options :=
  QueryOptions wadb_scan_options_default [] [] [] [] 0 0 10000 10000 (64 * 1024 * 1024) None false.

(** ** Plans *)

Record wadb_predicate := Predicate {
  pr_field : Z;
  pr_op : wadb_filter_op;
  pr_value : wadb_value;
}.
Record wadb_reduction := Reduction {
  rd_field : Z;
  rd_op : wadb_aggregate_op;
}.
Record wadb_result_column := Column {
  rc_name : list Z;
  rc_type : wadb_type;
}.
(** The arrays of the plan are lists of what is used of them; [pl_order] is -1 without
    an ordering. *)
Record wadb_query_plan := Plan {
  pl_schema : wadb_schema;
  pl_options : wadb_query_options;
  pl_projection : list Z;
  pl_groups : list Z;
  pl_filters : list wadb_predicate;
  pl_aggregates : list wadb_reduction;
  pl_columns : list wadb_result_column;
  pl_key_count : Z;
  pl_allocated_bytes : Z;
  pl_order : Z;
  pl_first_bucket : Z;
  pl_bucket_count : Z;
}.
Definition SIZEOF_QUERY_PLAN : Z := 19824.
Definition aggregated (p : wadb_query_plan) : bool := negb (zlen (qo_aggregates (pl_options p)) =? 0).

(** The columns so far with one more. *)
Definition add_column (columns : list wadb_result_column) (name : list Z) (type : wadb_type)
    : result (list wadb_result_column) :=
  if negb (wadb_identifier name) || (zlen columns >=? WADB_MAX_FIELDS) then Err WADB_INVALID
  else if existsb (λ c, bytes_eqb (rc_name c) name) columns then Err WADB_INVALID
  else Ok (columns ++ [Column name type]).

Definition shape_invalid (o : wadb_query_options) : bool :=
  let scan := qo_scan o in
  (zlen (qo_filters o) >? WADB_MAX_FILTERS) || (zlen (qo_group_by o) >? WADB_MAX_GROUP_FIELDS) ||
  (zlen (qo_aggregates o) >? WADB_MAX_AGGREGATES) || (zlen (qo_projection o) >? WADB_MAX_FIELDS) ||
  (so_end_time scan <? so_start_time scan) || (so_limit scan =? 0) || (so_limit scan >? 1000000) ||
  (so_max_scan_bytes scan =? 0) || (so_timeout_ms scan =? 0) || (so_timeout_ms scan >? 3600000) ||
  (qo_bucket_width_us o <? 0) || (qo_max_groups o =? 0) || (qo_max_groups o >? 1000000) ||
  (qo_max_buckets o =? 0) || (qo_max_buckets o >? 1000000) ||
  (qo_memory_limit_bytes o <? SIZEOF_QUERY_PLAN) || (qo_memory_limit_bytes o >? 1024 * 1024 * 1024) ||
  (negb (zlen (qo_aggregates o) =? 0) && negb (zlen (qo_projection o) =? 0)) ||
  ((zlen (qo_aggregates o) =? 0) &&
   (negb (zlen (qo_group_by o) =? 0) || negb (qo_bucket_width_us o =? 0) ||
    match qo_order_by o with Some _ => true | None => false end)).

(** ** Filters *)

Definition null_op (op : wadb_filter_op) : bool :=
  match op with WADB_IS_NULL | WADB_IS_NOT_NULL => true | _ => false end.
Definition placeholder : symbol_encode_fn os := λ _ _, mret 1.
(** One filter; [allocated] is the memory the plan holds so far. *)
Definition compile_filter (s : wadb_schema) (limit allocated : Z) (f : wadb_filter)
    : M os (wadb_predicate * Z) :=
  let field := wadb_schema_find s (fl_field f) in
  if (field <? 0) || (negb (null_op (fl_op f)) && is_null (fl_value f)) then mfail WADB_INVALID
  else if null_op (fl_op f) then mret (Predicate field (fl_op f) (VU64 0), allocated)
  else
    match znth (fields s) field with
    | None => mfail WADB_INVALID (* excluded by [wadb_schema_find] *)
    | Some fd =>
        _ ← wadb_encode_field fd (fl_value f) (zrep WADB_MAX_ROW_BYTES 0) 0 field (Some placeholder);
        let value := match f_type fd with
                     | WADB_F32 => VF64 (f32_to_f64 (f64_to_f32 (as_f64 (fl_value f))))
                     | _ => fl_value f
                     end in
        if wadb_type_bytes (f_type fd) then
          let n := zlen (as_bytes (fl_value f)) in
          if n + 1 >? limit - allocated then mfail WADB_LIMIT
          else
            copy ← os_malloc;
            if negb copy then mfail WADB_NOMEM
            else mret (Predicate field (fl_op f) value, allocated + (n + 1))
        else mret (Predicate field (fl_op f) value, allocated)
    end.
Fixpoint compile_filters (s : wadb_schema) (limit allocated : Z) (l : list wadb_filter)
    : M os (list wadb_predicate * Z) :=
  match l with
  | [] => mret ([], allocated)
  | f :: l' =>
      '(p, allocated) ← compile_filter s limit allocated f;
      '(ps, allocated) ← compile_filters s limit allocated l';
      mret (p :: ps, allocated)
  end.

(** ** Columns *)

(** Fields that become columns, in order: the projection and the grouping. A name that
    was not found is the position -1. *)
Fixpoint field_columns (s : wadb_schema) (l : list Z) (columns : list wadb_result_column)
    : result (list wadb_result_column) :=
  match l with
  | [] => Ok columns
  | field :: l' =>
      match znth (fields s) field with
      | None => Err WADB_INVALID
      | Some fd =>
          columns ← add_column columns (f_name fd) (f_type fd);
          field_columns s l' columns
      end
  end.
Definition projected_fields (s : wadb_schema) (o : wadb_query_options) : list Z :=
  match qo_projection o with [] => seqZ 0 (field_count s) | l => map (wadb_schema_find s) l end.

(** The bucket column, the first bucket and the number of buckets of the interval. *)
Definition bucket_range (o : wadb_query_options) : result (Z * Z) :=
  let scan := qo_scan o in
  if so_start_time scan =? so_end_time scan then Ok (0, 0)
  else
    first ← wadb_bucket_floor (so_start_time scan) (qo_bucket_width_us o) (qo_bucket_origin_us o);
    last ← wadb_bucket_floor (so_end_time scan - 1) (qo_bucket_width_us o) (qo_bucket_origin_us o);
    let intervals := u64 (u64 last - u64 first) / qo_bucket_width_us o in
    if intervals >=? qo_max_buckets o then Err WADB_LIMIT else Ok (first, u32 intervals + 1).
Definition aggregate_type (op : wadb_aggregate_op) (t : wadb_type) : wadb_type :=
  match op with
  | WADB_COUNT_ALL | WADB_COUNT => WADB_U64
  | WADB_AVG => WADB_F64
  | WADB_SUM => if wadb_type_float t then WADB_F64 else if wadb_type_signed t then WADB_I64 else WADB_U64
  | WADB_MIN | WADB_MAX => t
  end.
Definition numeric_op (op : wadb_aggregate_op) : bool :=
  match op with WADB_COUNT_ALL | WADB_COUNT => false | _ => true end.
Definition aggregate_field (s : wadb_schema) (a : wadb_aggregate) : Z :=
  match ag_op a, ag_field a with
  | WADB_COUNT_ALL, None => 0
  | WADB_COUNT_ALL, Some _ => -1
  | _, Some name => wadb_schema_find s name
  | _, None => -1
  end.
Fixpoint compile_aggregates (s : wadb_schema) (l : list wadb_aggregate) (columns : list wadb_result_column)
    : result (list wadb_reduction * list wadb_result_column) :=
  match l with
  | [] => Ok ([], columns)
  | a :: l' =>
      let field := aggregate_field s a in
      match znth (fields s) field with
      | None => Err WADB_INVALID
      | Some fd =>
          if numeric_op (ag_op a) && wadb_type_bytes (f_type fd) then Err WADB_INVALID
          else
            columns ← add_column columns (ag_name a) (aggregate_type (ag_op a) (f_type fd));
            '(rs, columns) ← compile_aggregates s l' columns;
            Ok (Reduction field (ag_op a) :: rs, columns)
      end
  end.
Fixpoint order_loop (name : list Z) (columns : list wadb_result_column) (i order : Z) : Z :=
  match columns with
  | [] => order
  | c :: columns' => order_loop name columns' (i + 1) (if bytes_eqb name (rc_name c) then i else order)
  end.
Definition find_order (o : wadb_query_options) (columns : list wadb_result_column) : result Z :=
  match qo_order_by o with
  | None => Ok (-1)
  | Some name => let order := order_loop name columns 0 (-1) in if order <? 0 then Err WADB_INVALID else Ok order
  end.

(** ** Compilation *)

Definition compile_scan (s : wadb_schema) (o : wadb_query_options) (ps : list wadb_predicate) (allocated : Z)
    : result wadb_query_plan :=
  columns ← field_columns s (projected_fields s o) [];
  Ok (Plan s o (projected_fields s o) [] ps [] columns 0 allocated (-1) 0 0).
Definition compile_grouping (s : wadb_schema) (o : wadb_query_options) (ps : list wadb_predicate) (allocated : Z)
    : result wadb_query_plan :=
  let bucketed := negb (qo_bucket_width_us o =? 0) in
  columns ← (if bucketed then add_column [] (cstr "_bucket") WADB_TIMESTAMP_US else Ok []);
  '(first, count) ← (if bucketed then bucket_range o else Ok (0, 0));
  let groups := map (wadb_schema_find s) (qo_group_by o) in
  columns ← field_columns s groups columns;
  let key_count := zlen columns in
  '(aggregates, columns) ← compile_aggregates s (qo_aggregates o) columns;
  order ← find_order o columns;
  Ok (Plan s o [] groups ps aggregates columns key_count allocated order first count).
Definition wadb_query_compile (s : wadb_schema) (o : wadb_query_options) : M os wadb_query_plan :=
  if shape_invalid o then mfail WADB_INVALID
  else
    plan ← os_malloc;
    if negb plan then mfail WADB_NOMEM
    else
      '(ps, allocated) ← compile_filters s (qo_memory_limit_bytes o) SIZEOF_QUERY_PLAN (qo_filters o);
      mlift (if zlen (qo_aggregates o) =? 0 then compile_scan s o ps allocated
             else compile_grouping s o ps allocated).

(** ** Buckets partition time *)

Lemma nonneg_rem_mod z width : 0 < width → nonneg_rem z width = z `mod` width.
Proof.
  intros Hw. unfold nonneg_rem. cbv zeta.
  pose proof (Z.quot_rem' z width). pose proof (Z.rem_bound_abs z width ltac:(lia)).
  destruct (Z.ltb_spec (Z.rem z width) 0).
  - apply Z.mod_unique with (Z.quot z width - 1); lia.
  - apply Z.mod_unique with (Z.quot z width); lia.
Qed.
(** The start of the bucket of [time]: the last [origin + k * width] that is not later. *)
Definition bucket_start (time width origin : Z) : Z := time - (time - origin) `mod` width.
Lemma bucket_floor_start time width origin : 0 < width →
  wadb_bucket_floor time width origin =
    if bucket_start time width origin <? INT64_MIN then Err WADB_LIMIT else Ok (bucket_start time width origin).
Proof.
  intros Hw. unfold wadb_bucket_floor, bucket_start. rewrite !nonneg_rem_mod by done. cbv zeta.
  assert (E : (if time `mod` width >=? origin `mod` width then time `mod` width - origin `mod` width
           else width - (origin `mod` width - time `mod` width)) = (time - origin) `mod` width).
  { pose proof (Z.mod_pos_bound time width Hw). pose proof (Z.mod_pos_bound origin width Hw).
    rewrite Zminus_mod. generalize dependent (time `mod` width). generalize dependent (origin `mod` width).
    intros b Hb a Ha. destruct (Z.geb_spec a b).
    - by rewrite Z.mod_small by lia.
    - apply Z.mod_unique with (-1); lia. }
  rewrite E. destruct (Z.ltb_spec time (INT64_MIN + (time - origin) `mod` width)); destruct (Z.ltb_spec (time - (time - origin) `mod` width) INT64_MIN); try lia; done.
Qed.
Lemma bucket_start_spec time width origin : 0 < width →
  bucket_start time width origin ≤ time < bucket_start time width origin + width ∧
  (bucket_start time width origin - origin) `mod` width = 0.
Proof.
  intros Hw. unfold bucket_start. pose proof (Z.mod_pos_bound (time - origin) width Hw). split; [lia|].
  replace (time - (time - origin) `mod` width - origin) with (time - origin - (time - origin) `mod` width) by lia.
  rewrite Zminus_mod, Z.mod_mod, Z.sub_diag by lia. apply Z.mod_0_l. lia.
Qed.
(** Between two times there is a whole number of buckets. *)
Lemma bucket_start_steps t t' width origin : 0 < width → t ≤ t' →
  bucket_start t' width origin = bucket_start t width origin +
    (bucket_start t' width origin - bucket_start t width origin) / width * width ∧
  bucket_start t width origin ≤ bucket_start t' width origin.
Proof.
  intros Hw Ht. destruct (bucket_start_spec t width origin Hw) as [Hr H0].
  destruct (bucket_start_spec t' width origin Hw) as [Hr' H0'].
  set (b := bucket_start t width origin) in *. set (b' := bucket_start t' width origin) in *.
  apply Z.mod_divide in H0 as [k Hk]; [|lia]. apply Z.mod_divide in H0' as [k' Hk']; [|lia].
  assert (E : b' - b = (k' - k) * width) by lia. rewrite E, Z.div_mul by lia. split; [lia|].
  assert (-1 < k' - k) by nia. nia.
Qed.

(** C35: When a bucketed query compiles, its buckets are the consecutive intervals of the
    given width that cover the time range and start a whole number of widths before or
    after the origin: the first one contains the start of the range, the bucket computed
    for any row of the range is one of the [bucket_count] buckets that exist from the
    start, it contains the row's time, and there are at most [max_buckets] of them. *)
Theorem buckets_cover_range o first count time :
  0 < qo_bucket_width_us o → is_i64 (qo_bucket_width_us o) → qo_max_buckets o ≤ 1000000 →
  is_i64 (so_start_time (qo_scan o)) → is_i64 (so_end_time (qo_scan o)) →
  bucket_range o = Ok (first, count) →
  so_start_time (qo_scan o) ≤ time < so_end_time (qo_scan o) →
  (first - qo_bucket_origin_us o) `mod` qo_bucket_width_us o = 0 ∧
  first ≤ so_start_time (qo_scan o) < first + qo_bucket_width_us o ∧
  ∃ i, 0 ≤ i < count ∧ count ≤ qo_max_buckets o ∧
    wadb_bucket_floor time (qo_bucket_width_us o) (qo_bucket_origin_us o) = Ok (first + i * qo_bucket_width_us o) ∧
    first + i * qo_bucket_width_us o ≤ time < first + (i + 1) * qo_bucket_width_us o.
Proof.
  intros Hw Hwi Hmax Hst Hen. unfold bucket_range. set (w := qo_bucket_width_us o) in *.
  set (g := qo_bucket_origin_us o). set (st := so_start_time (qo_scan o)) in *. set (en := so_end_time (qo_scan o)) in *.
  intros H Ht. destruct (Z.eqb_spec st en); [lia|].
  rewrite !bucket_floor_start in * by done.
  destruct (Z.ltb_spec (bucket_start st w g) INT64_MIN); [done|].
  destruct (Z.ltb_spec (bucket_start (en - 1) w g) INT64_MIN); [done|]. cbn [mbind result_bind] in H.
  destruct (bucket_start_steps st time w g Hw ltac:(lia)) as [E1 L1].
  destruct (bucket_start_steps time (en - 1) w g Hw ltac:(lia)) as [E2 L2].
  destruct (bucket_start_steps st (en - 1) w g Hw ltac:(lia)) as [E3 L3].
  destruct (bucket_start_spec st w g Hw) as [R1 A1]. destruct (bucket_start_spec (en - 1) w g Hw) as [R2 _].
  destruct (bucket_start_spec time w g Hw) as [R3 _].
  set (b0 := bucket_start st w g) in *. set (b1 := bucket_start time w g) in *. set (b2 := bucket_start (en - 1) w g) in *.
  assert (Hu : u64 (u64 b2 - u64 b0) = b2 - b0) by (unfold u64; rewrite <-Zminus_mod; apply Z.mod_small; mlia).
  rewrite Hu in H. destruct (Z.geb_spec ((b2 - b0) / w) (qo_max_buckets o)); [done|].
  assert (0 ≤ (b2 - b0) / w) by (apply Z.div_pos; lia).
  rewrite u32_id in H by (unfold_widths; lia). injection H as <- <-.
  assert ((b1 - b0) / w ≤ (b2 - b0) / w) by (apply Z.div_le_mono; lia).
  split; [done|]. split; [done|]. exists ((b1 - b0) / w). assert (0 ≤ (b1 - b0) / w) by (apply Z.div_pos; lia).
  split_and!; [lia|lia|lia| |lia|lia].
  destruct (Z.ltb_spec b1 INT64_MIN); [lia|]. by rewrite <-E1.
Qed.

(** Buckets of an hour that start at half past. *)
Definition pl_hourly : wadb_query_options :=
  QueryOptions (ScanOptions 1000 86400000000 0 1000000 100 1000) [] [] [] [] 3600000000 1800000000 100 100 (64 * 1024 * 1024) None false.
Lemma buckets_cover_range_witness :
  bucket_range pl_hourly = Ok (-1800000000, 25) ∧ (-1800000000 - qo_bucket_origin_us pl_hourly) `mod` qo_bucket_width_us pl_hourly = 0 ∧
  ∃ i, 0 ≤ i < 25 ∧ 25 ≤ qo_max_buckets pl_hourly ∧
    wadb_bucket_floor 7200000001 (qo_bucket_width_us pl_hourly) (qo_bucket_origin_us pl_hourly) =
      Ok (-1800000000 + i * qo_bucket_width_us pl_hourly) ∧
    -1800000000 + i * qo_bucket_width_us pl_hourly ≤ 7200000001 < -1800000000 + (i + 1) * qo_bucket_width_us pl_hourly.
Proof.
  split; [vm_compute; reflexivity|]. destruct (buckets_cover_range pl_hourly (-1800000000) 25 7200000001) as (Ha&_&Hi);
    [vm_compute; reflexivity|vm_compute; split; discriminate|vm_compute; discriminate|vm_compute; split; discriminate|
     vm_compute; split; discriminate|vm_compute; reflexivity|split; vm_compute; [discriminate|reflexivity]|].
  split; [exact Ha|exact Hi].
Defined.

(** ** Comparison is a total preorder *)

(** Stored values are never NaN: the row codec refuses them. *)
Definition comparable (t : wadb_type) (v : wadb_value) : Prop := wadb_type_float t = true → f64_nan (as_f64 v) = false.

Fixpoint lex (a b : list Z) : Z :=
  match a, b with
  | [], [] => 0
  | [], _ => -1
  | _, [] => 1
  | x :: a', y :: b' => match x ?= y with Lt => -1 | Gt => 1 | Eq => lex a' b' end
  end.
Lemma compare_bytes_lex a b : compare_bytes a b = lex a b.
Proof.
  unfold compare_bytes. cbv zeta. revert b. induction a as [|x a IH]; intros [|y b]; cbn [memcmp lex]; [done..|].
  rewrite <-IH, !zlen_cons. destruct (Z.compare_spec x y); destruct (Z.ltb_spec x y); try lia; [|done|].
  - destruct (Z.gtb_spec x y); [lia|]. replace (1 + zlen a ?= 1 + zlen b) with (zlen a ?= zlen b); [done|].
    destruct (Z.compare_spec (zlen a) (zlen b)); symmetry; [apply Z.compare_eq_iff|apply Z.compare_lt_iff|apply Z.compare_gt_iff]; lia.
  - destruct (Z.gtb_spec x y); [done|lia].
Qed.
Lemma sign_antisym x y : sign_of_compare (x ?= y) = - sign_of_compare (y ?= x).
Proof. rewrite (Z.compare_antisym y x). by destruct (y ?= x). Qed.
Lemma sign_le x y : sign_of_compare (x ?= y) ≤ 0 ↔ x ≤ y.
Proof. destruct (Z.compare_spec x y); cbn; lia. Qed.
Lemma lex_antisym a b : lex a b = - lex b a.
Proof.
  revert b. induction a as [|x a IH]; intros [|y b]; cbn [lex]; [done..|].
  rewrite (Z.compare_antisym y x). destruct (y ?= x); cbn [CompOpp]; [apply IH|done..].
Qed.
Lemma lex_trans a b c : lex a b ≤ 0 → lex b c ≤ 0 → lex a c ≤ 0.
Proof.
  revert b c. induction a as [|x a IH]; intros [|y b] [|z c]; cbn [lex]; try lia.
  destruct (Z.compare_spec x y), (Z.compare_spec y z), (Z.compare_spec x z); try lia. subst. apply IH.
Qed.
Lemma value_compare_antisym t a b : wadb_value_compare t a b = - wadb_value_compare t b a.
Proof.
  unfold wadb_value_compare. rewrite (orb_comm (is_null b)). destruct (is_null a || is_null b); [lia|].
  rewrite !compare_bytes_lex. destruct (wadb_type_bytes t); [apply lex_antisym|].
  destruct (wadb_type_signed t); [apply sign_antisym|]. destruct (wadb_type_float t); [|apply sign_antisym].
  unfold compare_f64. rewrite (orb_comm (f64_nan (as_f64 b))). destruct (_ || _); [done|apply sign_antisym].
Qed.
Lemma value_compare_trans t a b c : comparable t a → comparable t b → comparable t c →
  wadb_value_compare t a b ≤ 0 → wadb_value_compare t b c ≤ 0 → wadb_value_compare t a c ≤ 0.
Proof.
  unfold wadb_value_compare, comparable. intros Ha Hb Hc.
  destruct (is_null a), (is_null b), (is_null c); cbn [orb Z.b2z]; try lia.
  rewrite !compare_bytes_lex. destruct (wadb_type_bytes t); [apply lex_trans|].
  destruct (wadb_type_signed t); [rewrite !sign_le; lia|]. destruct (wadb_type_float t); [|rewrite !sign_le; lia].
  unfold compare_f64. rewrite Ha, Hb, Hc by done. cbn [orb]. rewrite !sign_le. lia.
Qed.
Lemma value_compare_null t a b : (is_null a || is_null b) = true → wadb_value_compare t a b = Z.b2z (is_null a) - Z.b2z (is_null b).
Proof. intros H. unfold wadb_value_compare. by rewrite H. Qed.
