(* ===== verification/Typing.v ===== *)
(** * Types of decoded values

    A row that passes validation decodes to values of the types its schema declares;
    the query planner and the grouping rely on it. *)

From stdpp Require Import base numbers list list_numbers gmap.
From S2P Require Import Prelude Encoding Utf8 Checksum Schema Float Rows Dictionary Files Engine Snapshot Scan Plan.

(** ** Typed values *)

(** What decoding a field of type [t] yields. *)
Definition typed (t : wadb_type) (v : wadb_value) : Prop :=
  match v with
  | VNull => True
  | VBytes _ => wadb_type_bytes t = true
  | VI64 z => wadb_type_signed t = true ∧ is_i64 z
  | VF64 b => wadb_type_float t = true ∧ is_u64 b ∧ f64_nan b = false
  | VU64 u => wadb_type_bytes t = false ∧ wadb_type_signed t = false ∧ wadb_type_float t = false ∧ is_u64 u
  end.


(** ** Payloads *)

Lemma finite_not_nan b : isfinite64 b = true → f64_nan b = false.
Proof. unfold isfinite64, f64_nan. intros H%negb_true_iff. by rewrite H. Qed.
Lemma payload_range f p : field_wf f → bytes p → 0 ≤ f_offset f → f_offset f + f_width f ≤ zlen p → f_width f ≤ 8 →
  0 ≤ get_le (Z.to_nat (f_width f)) 0 p (f_offset f) 0 < 2 ^ (f_width f * 8).
Proof.
  intros Hwf Hp Ho Hl Hw. pose proof (field_wf_width f Hwf). rewrite get_le_0 by (done || lia).
  pose proof (le_combine_bound (sub p (f_offset f) (f_width f)) ltac:(auto with wadb)) as Hb.
  rewrite zlen_sub in Hb by lia. change 256 with (2 ^ 8) in Hb. rewrite <-Z.pow_mul_r in Hb by lia.
  by rewrite (Z.mul_comm (f_width f) 8).
Qed.
Lemma payload_u64 f p : field_wf f → bytes p → 0 ≤ f_offset f → f_offset f + f_width f ≤ zlen p → f_width f ≤ 8 →
  is_u64 (get_le (Z.to_nat (f_width f)) 0 p (f_offset f) 0).
Proof.
  intros Hwf Hp Ho Hl Hw. pose proof (payload_range f p Hwf Hp Ho Hl Hw).
  pose proof (Z.pow_le_mono_r 2 (f_width f * 8) 64 ltac:(lia) ltac:(lia)). change (2 ^ 64) with 18446744073709551616 in *.
  unfold_widths. lia.
Qed.
Lemma sign_extend_range bits u : 1 ≤ bits ≤ 32 → 0 ≤ u < 2 ^ bits → is_i64 (sign_extend bits u).
Proof.
  intros Hb Hu. rewrite sign_extend_eq by lia. pose proof (Z.pow_le_mono_r 2 bits 32 ltac:(lia) ltac:(lia)).
  change (2 ^ 32) with 4294967296 in *. destruct (u <? _); unfold_widths; lia.
Qed.
Lemma payload_typed f i p resolve v :
  field_wf f → bytes p → 0 ≤ f_offset f → f_offset f + f_width f ≤ zlen p →
  decode_payload f i p (f_offset f) resolve = Ok v → typed (f_type f) v.
Proof.
  intros Hwf Hp Ho Hl. pose proof (payload_range f p Hwf Hp Ho Hl) as Hu.
  pose proof (payload_u64 f p Hwf Hp Ho Hl) as Hu64. destruct Hwf as (Hk&Hsz&Hw).
  unfold decode_payload. destruct (f_type f) eqn:Hty; cbn in Hw, Hsz, Hk; try done;
    rewrite ?Hw in *; cbn [Z.leb Z.compare Pos.compare Pos.compare_cont] in *.
  all: try specialize (Hu ltac:(lia)); try specialize (Hu64 ltac:(lia)).
  all: try (intros [= <-]; split; [done|]; by apply sign_extend_range).
  all: try (intros [= <-]; exact (conj eq_refl (conj eq_refl (conj eq_refl Hu64)))).
  all: try (intros [= <-]; split; [done|by apply get_i64_range]).
  all: try (by intros [= <-]).
  - destruct (isfinite32 _) eqn:Hf; cbn [negb]; [|done]. intros [= <-]. cbn in Hu.
    pose proof (f32_to_f64_finite _ (u32_range _) Hf) as (?&?&_). split_and!; [done|done|by apply finite_not_nan].
  - destruct (isfinite64 _) eqn:Hf; cbn [negb]; [|done]. intros [= <-].
    split_and!; [done|exact Hu64|by apply finite_not_nan].
  - destruct (_ >? 1); [done|]. intros [= <-]. exact (conj eq_refl (conj eq_refl (conj eq_refl Hu64))).
  - destruct (_ || _); [done|]. by intros [= <-].
  - destruct resolve as [r|]; [|done]. destruct (_ =? 0); [done|]. destruct (r i _); [|done]. by intros [= <-].
Qed.

(** Decoded rows are what the grouping of a query asks for. *)
Lemma decoded_row_typed s row d values :
  schema_wf s → bytes row → row_width s ≤ zlen row →
  decode_values (Z.to_nat (field_count s)) s row d 0 = Ok values →
  Forall2 typed (map f_type (fields s)) values.
Proof.
  intros (fs&e&n&Hok) Hp Hl. pose proof (schema_fields_fit _ _ _ _ _ Hok Hl) as Hfit.
  assert (Hloop : ∀ k l values, 0 ≤ k → drop (Z.to_nat k) (fields s) = l →
    decode_values (length l) s row d k = Ok values → Forall2 typed (map f_type l) values).
  { intros k l. revert k. induction l as [|f l IH]; intros k vs Hk Hd; cbn [length decode_values map].
    { intros [= <-]. constructor. }
    assert (Hf : fields s !! Z.to_nat k = Some f) by (by rewrite <-(Nat.add_0_r (Z.to_nat k)), <-lookup_drop, Hd).
    destruct (Hfit f) as (Hwf&Ho&Hfl); [by eapply list_elem_of_lookup_2|].
    destruct (wadb_decode_value s k row _) as [v|] eqn:Ev; cbn [mbind result_bind]; [|done].
    destruct (decode_values (length l) s row d (k + 1)) as [vs'|] eqn:El; cbn [mbind result_bind]; [|done].
    intros [= <-]. constructor.
    - revert Ev. unfold wadb_decode_value, znth. destruct (Z.ltb_spec k 0); [lia|]. rewrite Hf.
      destruct (if f_nullable f then _ else _); [by intros [= <-]|]. by apply payload_typed.
    - apply (IH (k + 1)); [lia| |done]. replace (Z.to_nat (k + 1)) with (Z.to_nat k + 1)%nat by lia.
      by rewrite <-drop_drop, Hd. }
  intros H. apply (Hloop 0); [lia|done|]. unfold field_count, zlen in H. by rewrite Nat2Z.id in H.
Qed.

(** ** The value in the bytes of a field

    [payload] are the bytes of the field in its row, and [resolve] finds the symbols of the
    field. An integer is the two's-complement or plain reading of its bytes and so within
    the width of its type; a boolean is 0 or 1; a floating-point number is finite; bytes
    have the declared length, a text at most the declared one and it is UTF-8; only a
    nullable field is null. *)
Definition field_value (resolve : Z → result (list Z)) (f : wadb_field) (payload : list Z) (v : wadb_value) : Prop :=
  let u := le_combine payload in
  let w := type_width (f_type f) (f_size f) in
  match f_type f, v with
  | _, VNull => f_nullable f = true
  | (WADB_I8 | WADB_I16 | WADB_I32 | WADB_I64 | WADB_TIMESTAMP_US), VI64 z => - 2 ^ (8 * w - 1) ≤ z < 2 ^ (8 * w - 1) ∧ z `mod` 2 ^ (8 * w) = u
  | (WADB_U8 | WADB_U16 | WADB_U32 | WADB_U64), VU64 z => 0 ≤ z < 2 ^ (8 * w) ∧ z = u
  | WADB_BOOL, VU64 z => 0 ≤ z ≤ 1 ∧ z = u
  | WADB_F32, VF64 b => isfinite32 u = true ∧ b = f32_to_f64 u
  | WADB_F64, VF64 b => isfinite64 u = true ∧ b = u
  | WADB_UUID, VBytes b => zlen b = 16 ∧ b = payload
  | WADB_BYTES, VBytes b => zlen b = f_size f ∧ b = payload
  | WADB_TEXT, VBytes b => zlen b = le_combine (sub payload 0 4) ∧ zlen b ≤ f_size f ∧ b = sub payload 4 (zlen b) ∧ wadb_utf8 b = true
  | WADB_SYMBOL32, VBytes b => u ≠ 0 ∧ resolve u = Ok b
  | _, _ => False
  end.
Lemma sign_extend_value bits u : 1 ≤ bits → 0 ≤ u < 2 ^ bits →
  - 2 ^ (bits - 1) ≤ sign_extend bits u < 2 ^ (bits - 1) ∧ sign_extend bits u `mod` 2 ^ bits = u.
Proof.
  intros Hb Hu. rewrite sign_extend_eq by done. assert (E : 2 ^ bits = 2 * 2 ^ (bits - 1)) by (rewrite <-Z.pow_succ_r by lia; f_equal; lia).
  destruct (Z.ltb_spec u (2 ^ (bits - 1))).
  - split; [lia|]. apply Z.mod_small. lia.
  - split; [lia|]. replace (u - 2 ^ bits) with (u + (-1) * 2 ^ bits) by lia. rewrite Z_mod_plus_full. apply Z.mod_small. lia.
Qed.
Lemma i64_value u : is_u64 u → - 2 ^ 63 ≤ i64_of_u64 u < 2 ^ 63 ∧ i64_of_u64 u `mod` 2 ^ 64 = u.
Proof.
  intros Hu. split; [|by apply u64_i64_of_u64]. pose proof (i64_of_u64_range u Hu) as H. unfold is_i64, INT64_MIN, INT64_MAX in H. lia.
Qed.
Lemma payload_value f i p r v :
  field_wf f → bytes p → 0 ≤ f_offset f → f_offset f + f_width f ≤ zlen p →
  decode_payload f i p (f_offset f) (Some r) = Ok v → v ≠ VNull ∧ field_value (r i) f (sub p (f_offset f) (f_width f)) v.
Proof.
  intros Hwf Hp Ho Hl. pose proof (payload_range f p Hwf Hp Ho Hl) as Hu. pose proof (field_wf_width f Hwf) as Hpos.
  assert (Hle : f_width f ≤ 8 → get_le (Z.to_nat (f_width f)) 0 p (f_offset f) 0 = le_combine (sub p (f_offset f) (f_width f))) by (intros; apply get_le_0; done || lia).
  destruct Hwf as (Hk&Hsz&Hw). unfold decode_payload, field_value. rewrite <-Hw.
  destruct (f_type f) eqn:Hty; cbn in Hw, Hsz, Hk; try done; rewrite ?Hw in *; cbn [Z.leb Z.compare Pos.compare Pos.compare_cont] in *.
  all: try specialize (Hu ltac:(lia)); try rewrite Hle in * by lia.
  all: try (intros [= <-]; split; [done|]; first [by apply (sign_extend_value 8)|by apply (sign_extend_value 16)|by apply (sign_extend_value 32)]).
  all: try (intros [= <-]; split; [done|]; rewrite get_i64_u64, get_u64_le by done; apply i64_value; unfold_widths; lia).
  all: try (intros [= <-]; split; [done|]; split; [|done]; rewrite ?zlen_sub by lia; lia).
  - rewrite (u32_id (le_combine _)) by (unfold_widths; lia). destruct (isfinite32 _) eqn:Hf; cbn [negb]; [|done]. by intros [= <-].
  - destruct (isfinite64 _) eqn:Hf; cbn [negb]; [|done]. by intros [= <-].
  - destruct (Z.gtb_spec (le_combine (sub p (f_offset f) 1)) 1); [done|]. intros [= <-]. split; [done|]. split; [lia|done].
  - assert (Hsize : u32 (f_size f + 4) = f_size f + 4) by (apply u32_id; unfold WADB_MAX_ROW_BYTES in *; unfold_widths; lia). rewrite Hsize in *.
    pose proof (get_u32_range p (f_offset f) Hp Ho ltac:(lia)) as Hn. unfold is_u32 in Hn.
    rewrite get_u32_le in * by (done || lia). set (n := le_combine (sub p (f_offset f) 4)) in *.
    destruct (Z.gtb_spec n (f_size f)); cbn [orb]; [done|]. destruct (wadb_utf8 _) eqn:Eu; cbn [negb]; [|done]. intros [= <-].
    rewrite sub_sub, Z.add_0_r by lia. rewrite zlen_sub by lia. split; [done|]. split_and!; [done|lia| |done]. by rewrite sub_sub by lia.
  - destruct (Z.eqb_spec (le_combine (sub p (f_offset f) 4)) 0); [done|]. rewrite u32_id by (unfold_widths; lia).
    destruct (r i _) as [b|]; [|done]. by intros [= <-].
Qed.


(** A page view: its time, a site, a visitor, two symbols and the small fields. *)
Definition ty_row : list Z :=
  le_split 8 1000 ++ le_split 4 7 ++ zrep 16 171 ++ le_split 4 1 ++ le_split 4 1 ++ le_split 4 250 ++ le_split 2 200 ++ [68; 69; 1; 0; 0; 0].
Definition ty_dict : wadb_dictionary := fst (snd (wadb_dictionary_intern 4 [47] (pv_dict, []))).
Definition ty_values : list wadb_value :=
  [VI64 1000; VU64 7; VBytes (zrep 16 171); VBytes [47; 97]; VBytes [47]; VU64 250; VU64 200; VBytes [68; 69]; VU64 1; VU64 0].
