(* ===== verification/Query.v ===== *)
(** * Executing a query (src/query/query.c)

    The callback of a scan filters rows and either copies the projected values or
    reduces them into groups found through a hash table; groups are ordered and
    copied at the end. Floating-point sums and averages use IEEE-754 binary64 with
    rounding to nearest, one operation at a time. *)

From Stdlib Require Import Floats.SpecFloat.
From stdpp Require Import base numbers list list_numbers gmap sorting.
From S2P Require Import Prelude Encoding Checksum Schema Float Rows Dictionary Files Engine Stats Snapshot Scan Plan.

(** ** Arithmetic on doubles *)

Definition f64_of_bits (b : Z) : spec_float :=
  let s := negb (f64_sign b =? 0) in
  let e := f64_exp b in
  let f := f64_frac b in
  if e =? 2047 then (if f =? 0 then S754_infinity s else S754_nan)
  else if e =? 0 then
    match f with Zpos m => S754_finite s m (-1074) | _ => S754_zero s end
  else match 2 ^ 52 + f with Zpos m => S754_finite s m (e - 1075) | _ => S754_zero s end.
Definition bits_of_f64 (x : spec_float) : Z :=
  match x with
  | S754_zero s => f64_bits (Z.b2z s) 0 0
  | S754_infinity s => f64_bits (Z.b2z s) 2047 0
  | S754_nan => f64_bits 0 2047 (2 ^ 51)
  | S754_finite s m e =>
      if Zpos m <? 2 ^ 52 then f64_bits (Z.b2z s) 0 (Zpos m)
      else f64_bits (Z.b2z s) (e + 1075) (Zpos m - 2 ^ 52)
  end.
Definition f64_add (a b : Z) : Z := bits_of_f64 (SFadd 53 1024 (f64_of_bits a) (f64_of_bits b)).
Definition f64_mul (a b : Z) : Z := bits_of_f64 (SFmul 53 1024 (f64_of_bits a) (f64_of_bits b)).
Definition f64_div (a b : Z) : Z := bits_of_f64 (SFdiv 53 1024 (f64_of_bits a) (f64_of_bits b)).
(** [(double)z] of an integer. *)
Definition f64_of_Z (z : Z) : Z := bits_of_f64 (binary_normalize 53 1024 z 0 false).
Example f64_thirds : f64_add (f64_div (f64_of_Z 1) (f64_of_Z 3)) (f64_of_Z 2) = 0x4002AAAAAAAAAAAB.
Proof. reflexivity. Qed.

(** ** The state of an execution *)

Record query_group := Group {
  gr_hash : Z;
  gr_keys : list wadb_value;
  gr_aggregates : list wadb_value;
  gr_nonnull : list Z;
}.
#[global] Instance query_group_inhabited : Inhabited query_group := populate (Group 0 [] [] []).
(** The result so far, the groups with their hash table, the memory in use and the
    outcomes of the coming allocations. *)
Record execution := Exec {
  x_rows : list (list wadb_value);
  x_sequences : list Z;
  x_capacity : Z;
  x_matched_rows : Z;
  x_total_groups : Z;
  x_groups : list query_group;
  x_group_capacity : Z;
  x_slots : list Z;
  x_used : Z;
  x_last_sequence : Z;
  x_stopped : bool;
  x_allocs : list bool;
}.
Definition SIZEOF_VALUE : Z := 24.
Definition SIZEOF_GROUP : Z := 736.
Definition SIZEOF_RESULT : Z := 160.
Definition SIZEOF_COLUMN_NAME : Z := 68.

Definition xget : M execution execution := λ x, (Ok x, x).
Definition xset (f : execution → execution) : M execution unit := λ x, (Ok (), f x).
Definition x_malloc : M execution bool := λ x,
  (Ok (hd true (x_allocs x)),
   Exec (x_rows x) (x_sequences x) (x_capacity x) (x_matched_rows x) (x_total_groups x) (x_groups x)
     (x_group_capacity x) (x_slots x) (x_used x) (x_last_sequence x) (x_stopped x) (tl (x_allocs x))).
Definition with_used (n : Z) (x : execution) : execution :=
  Exec (x_rows x) (x_sequences x) (x_capacity x) (x_matched_rows x) (x_total_groups x) (x_groups x)
    (x_group_capacity x) (x_slots x) n (x_last_sequence x) (x_stopped x) (x_allocs x).
Definition with_result (rows : list (list wadb_value)) (sequences : list Z) (capacity : Z) (x : execution) : execution :=
  Exec rows sequences capacity (x_matched_rows x) (x_total_groups x) (x_groups x)
    (x_group_capacity x) (x_slots x) (x_used x) (x_last_sequence x) (x_stopped x) (x_allocs x).
Definition with_groups (groups : list query_group) (capacity : Z) (slots : list Z) (x : execution) : execution :=
  Exec (x_rows x) (x_sequences x) (x_capacity x) (x_matched_rows x) (x_total_groups x) groups capacity slots
    (x_used x) (x_last_sequence x) (x_stopped x) (x_allocs x).
Definition with_progress (matched total last : Z) (stopped : bool) (x : execution) : execution :=
  Exec (x_rows x) (x_sequences x) (x_capacity x) matched total (x_groups x)
    (x_group_capacity x) (x_slots x) (x_used x) last stopped (x_allocs x).

(** ** Memory *)

Section plan.
Context (p : wadb_query_plan).

Definition charge (n : Z) : M execution unit :=
  x ← xget;
  if n >? u64 (qo_memory_limit_bytes (pl_options p) - x_used x) then mfail WADB_LIMIT
  else xset (with_used (u64 (x_used x + n))).
Definition copy_value (type : wadb_type) (v : wadb_value) : M execution wadb_value :=
  if negb (is_null v) && wadb_type_bytes type then
    _ ← charge (zlen (as_bytes v) + 1);
    copy ← x_malloc;
    if negb copy then mfail WADB_NOMEM else mret v
  else mret v.
Fixpoint copy_values (types : list wadb_type) (vs : list wadb_value) : M execution (list wadb_value) :=
  match types, vs with
  | type :: types', v :: vs' =>
      v' ← copy_value type v;
      l ← copy_values types' vs';
      mret (v' :: l)
  | _, _ => mret []
  end.

(** ** Result rows *)

Definition grow_result : M execution unit :=
  x ← xget;
  if negb (zlen (x_rows x) =? x_capacity x) then mret ()
  else
    let cap := if x_capacity x =? 0 then 16 else x_capacity x * 2 in
    let limit := so_limit (qo_scan (pl_options p)) in
    let cap := if cap >? limit then limit else cap in
    let width := zlen (pl_columns p) * SIZEOF_VALUE + (if aggregated p then 0 else 8) in
    _ ← charge (u64 ((cap - x_capacity x) * width));
    values ← x_malloc;
    if negb values then mfail WADB_NOMEM
    else
      sequences ← (if aggregated p then mret true else x_malloc);
      if negb sequences then mfail WADB_NOMEM
      else xset (λ x, with_result (x_rows x) (x_sequences x) cap x).
Definition result_row (values : list wadb_value) (sequence : Z) : M execution unit :=
  _ ← grow_result;
  row ← copy_values (map rc_type (pl_columns p)) values;
  xset (λ x, with_result (x_rows x ++ [row]) (if aggregated p then [] else x_sequences x ++ [sequence]) (x_capacity x) x).

(** ** Filters *)

Definition op_holds (op : wadb_filter_op) (c : Z) : bool :=
  match op with
  | WADB_EQ => c =? 0 | WADB_NE => negb (c =? 0) | WADB_LT => c <? 0
  | WADB_LE => c <=? 0 | WADB_GT => c >? 0 | _ => c >=? 0
  end.
Definition field_type (field : Z) : wadb_type :=
  match znth (fields (pl_schema p)) field with Some fd => f_type fd | None => WADB_TYPE_OTHER 0 end.
Definition predicate_holds (values : list wadb_value) (f : wadb_predicate) : bool :=
  let v := nth (Z.to_nat (pr_field f)) values VNull in
  match pr_op f with
  | WADB_IS_NULL => is_null v
  | WADB_IS_NOT_NULL => negb (is_null v)
  | op => negb (is_null v) && op_holds op (wadb_value_compare (field_type (pr_field f)) v (pr_value f))
  end.
Definition matches_filters (values : list wadb_value) : bool := forallb (predicate_holds values) (pl_filters p).

(** ** Groups *)

Definition key_types : list wadb_type := map rc_type (take (Z.to_nat (pl_key_count p)) (pl_columns p)).
Definition key_bits (type : wadb_type) (v : wadb_value) : Z :=
  if wadb_type_bytes type then zlen (as_bytes v)
  else if wadb_type_float type then (if f64_key (as_f64 v) =? 0 then 0 else as_f64 v)
  else as_u64 v.
Definition hash_key (hash : Z) (k : wadb_type * wadb_value) : Z :=
  let '(type, v) := k in
  if is_null v then wadb_hash [1] hash
  else
    let hash := wadb_hash (0 :: le_split 8 (key_bits type v)) hash in
    if wadb_type_bytes type then wadb_hash (as_bytes v) hash else hash.
Definition hash_keys (keys : list wadb_value) : Z := fold_left hash_key (zip key_types keys) FNV_BASIS.
Definition keys_equal (a b : list wadb_value) : bool :=
  forallb (λ '(type, (v, v')), wadb_value_compare type v v' =? 0) (zip key_types (zip a b)).
(** The probe for an existing group: its position. A table is at most half full, so its
    size is fuel enough. *)
Fixpoint probe_group (fuel : nat) (slots : list Z) (groups : list query_group) (hash : Z) (keys : list wadb_value)
    (slot : Z) : option Z :=
  match fuel with
  | O => None
  | S fuel' =>
      if rd slots slot =? 0 then None
      else
        let g := groups !!! Z.to_nat (rd slots slot - 1) in
        if (gr_hash g =? hash) && keys_equal (gr_keys g) keys then Some (rd slots slot - 1)
        else probe_group fuel' slots groups hash keys (next (zlen slots) slot)
  end.
(** Entering a position at the first free slot of its path, as the dictionary does. *)
Definition place (slots : list Z) (hash index : Z) : list Z := wr slots (free_slot slots hash) (u32 index + 1).
Fixpoint rehash_groups (groups : list query_group) (i : Z) (slots : list Z) : list Z :=
  match groups with
  | [] => slots
  | g :: groups' => rehash_groups groups' (i + 1) (place slots (gr_hash g) i)
  end.
Definition grow_groups : M execution unit :=
  x ← xget;
  if negb (zlen (x_groups x) =? x_group_capacity x) then mret ()
  else
    let cap := if x_group_capacity x =? 0 then 16 else x_group_capacity x * 2 in
    let cap := if cap >? qo_max_groups (pl_options p) then qo_max_groups (pl_options p) else cap in
    _ ← charge (u64 ((cap - x_group_capacity x) * SIZEOF_GROUP));
    groups ← x_malloc;
    if negb groups then mfail WADB_NOMEM
    else xset (λ x, with_groups (x_groups x) cap (x_slots x) x).
Definition grow_group_slots : M execution unit :=
  x ← xget;
  if negb (zlen (x_slots x) <? (zlen (x_groups x) + 1) * 2) then mret ()
  else
    let count := if zlen (x_slots x) =? 0 then 32 else zlen (x_slots x) * 2 in
    _ ← charge (u64 (count * 4));
    slots ← x_malloc;
    if negb slots then mfail WADB_NOMEM
    else
      _ ← xset (λ x, with_used (u64 (x_used x - zlen (x_slots x) * 4)) x);
      xset (λ x, with_groups (x_groups x) (x_group_capacity x) (rehash_groups (x_groups x) 0 (zrep count 0)) x).
Definition new_aggregates : list wadb_value :=
  map (λ r, if numeric_op (rd_op r) then VNull else VU64 0) (pl_aggregates p).
(** The position of the group of [keys], which is added when there is none. *)
Definition group_for (keys : list wadb_value) : M execution Z :=
  let hash := hash_keys keys in
  x ← xget;
  match (if zlen (x_slots x) =? 0 then None
         else probe_group (length (x_slots x)) (x_slots x) (x_groups x) hash keys (home (zlen (x_slots x)) hash)) with
  | Some i => mret i
  | None =>
      if zlen (x_groups x) =? qo_max_groups (pl_options p) then mfail WADB_LIMIT
      else
        _ ← grow_groups;
        _ ← grow_group_slots;
        copied ← copy_values key_types keys;
        let index := zlen (x_groups x) in
        let g := Group hash copied new_aggregates (zrep (zlen (pl_aggregates p)) 0) in
        _ ← xset (λ x, with_groups (x_groups x ++ [g]) (x_group_capacity x) (place (x_slots x) hash index) x);
        mret index
  end.

(** ** Reduction *)

Definition average_input (type : wadb_type) (v : wadb_value) : Z :=
  if wadb_type_float type then as_f64 v
  else if wadb_type_signed type then f64_of_Z (as_i64 v) else f64_of_Z (as_u64 v).
Definition sum_values (type : wadb_type) (out v : wadb_value) : result wadb_value :=
  if wadb_type_float type then
    let s := f64_add (as_f64 out) (as_f64 v) in
    if negb (isfinite64 s) then Err WADB_LIMIT else Ok (VF64 s)
  else if wadb_type_signed type then
    if ((as_i64 v >? 0) && (as_i64 out >? INT64_MAX - as_i64 v)) ||
       ((as_i64 v <? 0) && (as_i64 out <? INT64_MIN - as_i64 v))
    then Err WADB_LIMIT else Ok (VI64 (as_i64 out + as_i64 v))
  else if as_u64 v >? UINT64_MAX - as_u64 out then Err WADB_LIMIT
  else Ok (VU64 (as_u64 out + as_u64 v)).
(** One aggregate over one row: the new cell and the number of values it has seen. *)
Definition reduce_one (r : wadb_reduction) (v out : wadb_value) (nonnull : Z) : result (wadb_value * Z) :=
  if negb (bool_decide (rd_op r = WADB_COUNT_ALL)) && is_null v then Ok (out, nonnull)
  else if nonnull =? UINT64_MAX then Err WADB_LIMIT
  else
    let n := nonnull + 1 in
    let type := field_type (rd_field r) in
    match rd_op r with
    | WADB_COUNT_ALL | WADB_COUNT => Ok (VU64 n, n)
    | WADB_AVG =>
        let value := average_input type v in
        let mean := if n =? 1 then value
                    else f64_add (f64_mul (as_f64 out) (f64_div (f64_of_Z (n - 1)) (f64_of_Z n)))
                           (f64_div value (f64_of_Z n)) in
        if negb (isfinite64 mean) then Err WADB_LIMIT else Ok (VF64 mean, n)
    | WADB_SUM => if n =? 1 then Ok (v, n) else s ← sum_values type out v; Ok (s, n)
    | WADB_MIN => if n =? 1 then Ok (v, n) else Ok (if wadb_value_compare type v out <? 0 then v else out, n)
    | WADB_MAX => if n =? 1 then Ok (v, n) else Ok (if wadb_value_compare type v out >? 0 then v else out, n)
    end.
(** The loop over the aggregates; a group that overflows is lost with its query. *)
Fixpoint reduce_loop (rs : list wadb_reduction) (values outs : list wadb_value) (counts : list Z)
    : result (list wadb_value * list Z) :=
  match rs, outs, counts with
  | r :: rs', out :: outs', n :: counts' =>
      '(out', n') ← reduce_one r (nth (Z.to_nat (rd_field r)) values VNull) out n;
      '(l, ns) ← reduce_loop rs' values outs' counts';
      Ok (out' :: l, n' :: ns)
  | _, _, _ => Ok ([], [])
  end.
Definition reduce (i : Z) (values : list wadb_value) : M execution unit :=
  x ← xget;
  let g := x_groups x !!! Z.to_nat i in
  '(outs, counts) ← mlift (reduce_loop (pl_aggregates p) values (gr_aggregates g) (gr_nonnull g));
  xset (λ x, with_groups (wr (x_groups x) i (Group (gr_hash g) (gr_keys g) outs counts)) (x_group_capacity x) (x_slots x) x).

(** ** The callback *)

Definition row_keys (values : list wadb_value) : result (list wadb_value) :=
  let o := pl_options p in
  bucket ← (if qo_bucket_width_us o =? 0 then Ok []
            else b ← wadb_bucket_floor (as_i64 (nth 0 values VNull)) (qo_bucket_width_us o) (qo_bucket_origin_us o);
                 Ok [VI64 b]);
  Ok (bucket ++ map (λ i, nth (Z.to_nat i) values VNull) (pl_groups p)).
Definition consume_match (sequence : Z) (values : list wadb_value) : M execution unit :=
  if negb (aggregated p) then
    _ ← result_row (map (λ i, nth (Z.to_nat i) values VNull) (pl_projection p)) sequence;
    x ← xget;
    if zlen (x_rows x) =? so_limit (qo_scan (pl_options p)) then
      _ ← xset (λ x, with_progress (x_matched_rows x) (x_total_groups x) (x_last_sequence x) true x);
      mfail WADB_CANCELLED
    else mret ()
  else
    keys ← mlift (row_keys values);
    i ← group_for keys;
    reduce i values.
Definition consume (sequence : Z) (values : list wadb_value) : M execution unit :=
  _ ← xset (λ x, with_progress (x_matched_rows x) (x_total_groups x) sequence (x_stopped x) x);
  if negb (matches_filters values) then mret ()
  else
    x ← xget;
    if x_matched_rows x =? UINT64_MAX then mfail WADB_LIMIT
    else
      _ ← xset (λ x, with_progress (x_matched_rows x + 1) (x_total_groups x) (x_last_sequence x) (x_stopped x) x);
      consume_match sequence values.

(** ** Ordering the groups *)

Definition group_cell (groups : list query_group) (i col : Z) : wadb_value :=
  let g := groups !!! Z.to_nat i in
  if col <? pl_key_count p then nth (Z.to_nat col) (gr_keys g) VNull
  else nth (Z.to_nat (col - pl_key_count p)) (gr_aggregates g) VNull.
Definition compare_groups (groups : list query_group) (a b : Z) : Z :=
  let col := pl_order p in
  let va := group_cell groups a col in
  let vb := group_cell groups b col in
  let type := match znth (pl_columns p) col with Some c => rc_type c | None => WADB_TYPE_OTHER 0 end in
  let cmp := wadb_value_compare type va vb in
  let cmp := if negb (is_null va) && negb (is_null vb) && qo_descending (pl_options p) then - cmp else cmp in
  if negb (cmp =? 0) then cmp else sign_of_compare (a ?= b).
(** Merging two runs, the left one first among equals. *)
Fixpoint merge_runs (le : Z → Z → bool) (a : list Z) : list Z → list Z :=
  match a with
  | [] => λ b, b
  | i :: a' => fix inner b :=
      match b with
      | [] => i :: a'
      | j :: b' => if le i j then i :: merge_runs le a' (j :: b') else j :: inner b'
      end
  end.
(** One pass over runs of [width]; the length of the list is fuel enough. *)
Fixpoint merge_pass (fuel : nat) (le : Z → Z → bool) (width : nat) (l : list Z) : list Z :=
  match fuel, l with
  | S fuel', _ :: _ =>
      merge_runs le (take width l) (take width (drop width l)) ++ merge_pass fuel' le width (drop (2 * width) l)
  | _, _ => l
  end.
(** The passes, each after a look at the clock; [width] doubles, so the length is fuel enough. *)
Fixpoint sort_passes (fuel : nat) (le : Z → Z → bool) (deadline : Z) (width : nat) (l : list Z) : M os (list Z) :=
  match fuel with
  | O => mret l
  | S fuel' =>
      if bool_decide (width < length l)%nat then
        now ← wadb_monotonic_ns;
        if now >=? deadline then mfail WADB_LIMIT
        else sort_passes fuel' le deadline (2 * width) (merge_pass (length l) le width l)
      else mret l
  end.
Definition order_groups (groups : list query_group) (deadline : Z) : M os (list Z) :=
  let n := zlen groups in
  if pl_order p <? 0 then mret (seqZ 0 n)
  else sort_passes (length groups) (λ a b, compare_groups groups a b <=? 0) deadline 1 (seqZ 0 n).
End plan.

(** ** Output *)

Definition run_exec {A} (x : execution) (m : M execution A) : result A * execution := m x.
Definition group_row (p : wadb_query_plan) (g : query_group) : list wadb_value :=
  take (Z.to_nat (pl_key_count p)) (gr_keys g) ++ gr_aggregates g.
(** Copying the rows of the first groups; the status is returned with the execution. *)
Fixpoint emit_loop (p : wadb_query_plan) (deadline : Z) (order : list Z) (i : Z) (x : execution)
    : M os (result unit * execution) :=
  match order with
  | [] => mret (Ok (), x)
  | g :: order' =>
      late ← (if i `mod` 256 =? 0 then now ← wadb_monotonic_ns; mret (now >=? deadline) else mret false);
      if late : bool then mret (Err WADB_LIMIT, x)
      else
        match result_row p (group_row p (x_groups x !!! Z.to_nat g)) 0 x with
        | (Ok _, x') => emit_loop p deadline order' (i + 1) x'
        | (Err e, x') => mret (Err e, x')
        end
  end.
Definition emit_groups (p : wadb_query_plan) (deadline : Z) (x : execution) : M os (result unit * execution) :=
  let n := zlen (x_groups x) in
  let x := with_progress (x_matched_rows x) n (x_last_sequence x) (x_stopped x) x in
  if n =? 0 then mret (Ok (), x)
  else
    match (_ ← charge p (u64 (n * 2 * 8)); a ← x_malloc; b ← x_malloc; if negb a || negb b then mfail WADB_NOMEM else mret ()) x with
    | (Err e, x) => mret (Err e, x)
    | (Ok _, x) =>
        order ← mtry (order_groups p (x_groups x) deadline);
        match order with
        | Err e => mret (Err e, x)
        | Ok order =>
            let limit := so_limit (qo_scan (pl_options p)) in
            emit_loop p deadline (take (Z.to_nat (if n <? limit then n else limit)) order) 0 x
        end
    end.

Record wadb_result := Result {
  re_columns : list wadb_result_column;
  re_rows : list (list wadb_value);
  re_sequences : list Z;
  re_matched_rows : Z;
  re_total_groups : Z;
  re_stats : wadb_scan_stats;
  re_has_more : bool;
}.
(** The groups of an aggregate without grouping fields exist before the first row. *)
Fixpoint seed_groups (n : nat) (p : wadb_query_plan) (deadline bucket i : Z) (x : execution)
    : M os (result unit * execution) :=
  match n with
  | O => mret (Ok (), x)
  | S n' =>
      late ← (if i `mod` 256 =? 0 then now ← wadb_monotonic_ns; mret (now >=? deadline) else mret false);
      if late : bool then mret (Err WADB_LIMIT, x)
      else
        let keys := if qo_bucket_width_us (pl_options p) =? 0 then [] else [VI64 bucket] in
        match group_for p keys x with
        | (Ok _, x') =>
            seed_groups n' p deadline
              (if bool_decide (n' = O) then bucket else bucket + qo_bucket_width_us (pl_options p)) (i + 1) x'
        | (Err e, x') => mret (Err e, x')
        end
  end.
Definition create_seeds (p : wadb_query_plan) (deadline : Z) (x : execution) : M os (result unit * execution) :=
  if aggregated p && (zlen (qo_group_by (pl_options p)) =? 0) then
    let count := if qo_bucket_width_us (pl_options p) =? 0 then 1 else pl_bucket_count p in
    seed_groups (Z.to_nat count) p deadline (pl_first_bucket p) 0 x
  else mret (Ok (), x).
Definition initial_exec (p : wadb_query_plan) (after : Z) (allocs : list bool) : execution :=
  Exec [] [] 0 0 0 [] 0 [] (pl_allocated_bytes p) after false allocs.
Definition scan_of (p : wadb_query_plan) (after nbytes timeout_ms : Z) : wadb_scan_options :=
  let s := qo_scan (pl_options p) in
  ScanOptions (so_start_time s) (so_end_time s) after nbytes UINT32_MAX timeout_ms.
(** Running the scan with the callback, and turning the callback's stop into success. *)
Definition execute_scan (p : wadb_query_plan) (sn : wadb_snapshot) (after nbytes timeout_ms : Z) (x : execution)
    : M engine (result unit * wadb_scan_stats * execution) :=
  '(status, st, x) ← wadb_scan_snapshot (consume p) sn (scan_of p after nbytes timeout_ms) x;
  let status := match status with
                | Err e => if bool_decide (e = WADB_CANCELLED) && x_stopped x then Ok () else Err e
                | Ok _ => if negb (x_stopped x) && ss_limit_reached st then Err WADB_LIMIT else Ok ()
                end in
  mret (status, st, x).
Definition final_stats (p : wadb_query_plan) (has_more : bool) (st : wadb_scan_stats) (x : execution) : wadb_scan_stats :=
  with_rows (ss_rows_scanned st) (zlen (x_rows x)) (x_last_sequence x)
    (if aggregated p then x_total_groups x >? zlen (x_rows x) else has_more) st.
(** [allocs] are the outcomes of the allocations that the callback makes. *)
Definition wadb_query_execute (p : wadb_query_plan) (sn : wadb_snapshot) (after nbytes timeout_ms : Z)
    (allocs : list bool) : M engine wadb_result :=
  started ← in_os wadb_monotonic_ns;
  now ← in_os wadb_monotonic_ns;
  let deadline := u64 (now + timeout_ms * 1000000) in
  match (_ ← charge p (SIZEOF_RESULT + zlen (pl_columns p) * SIZEOF_COLUMN_NAME);
         a ← x_malloc; b ← (if a : bool then x_malloc else mret false);
         if negb b then mfail WADB_NOMEM else mret ()) (initial_exec p after allocs) with
  | (Err e, _) =>
      _ ← wadb_record_query started e None;
      mfail e
  | (Ok _, x) =>
      '(status, x) ← in_os (create_seeds p deadline x);
      '(status, st, x) ← (match status with
                          | Ok _ => execute_scan p sn after nbytes timeout_ms x
                          | Err e => mret (Err e, empty_stats 0, x)
                          end);
      '(status, x) ← (match status with
                      | Ok _ => if aggregated p then in_os (emit_groups p deadline x) else mret (Ok (), x)
                      | Err e => mret (Err e, x)
                      end);
      let has_more := x_stopped x && (x_last_sequence x <? sn_sequence sn) in
      let st := final_stats p has_more st x in
      _ ← wadb_record_query started (status_of status) (Some st);
      _ ← mlift status;
      mret (Result (pl_columns p) (x_rows x) (x_sequences x) (x_matched_rows x) (x_total_groups x) st has_more)
  end.
(** The part of [wadb_query] behind the compilation and the expiry of cursors. *)
Definition query_plan (p : wadb_query_plan) (allocs : list bool) : M engine wadb_result :=
  let scan := qo_scan (pl_options p) in
  sn ← wadb_snapshot_acquire (Some scan);
  r ← mtry (wadb_query_execute p sn (so_after_sequence scan) (so_max_scan_bytes scan) (so_timeout_ms scan) allocs);
  _ ← wadb_snapshot_release sn;
  mlift r.

(** ** Merge sort *)

Section merge.
Context (le : Z → Z → bool) (dom : Z → Prop).
Hypothesis le_total : ∀ a b, dom a → dom b → le a b = false → le b a = true.
Hypothesis le_trans : ∀ a b c, dom a → dom b → dom c → le a b = true → le b c = true → le a c = true.

Definition ordered (l : list Z) : Prop := StronglySorted (λ a b, le a b = true) l.

Lemma merge_runs_nil b : merge_runs le [] b = b.
Proof. done. Qed.
Lemma merge_runs_nil_r a : merge_runs le a [] = a.
Proof. by destruct a. Qed.
Lemma merge_runs_cons i a j b :
  merge_runs le (i :: a) (j :: b) =
    if le i j then i :: merge_runs le a (j :: b) else j :: merge_runs le (i :: a) b.
Proof. done. Qed.
Lemma merge_runs_perm a b : merge_runs le a b ≡ₚ a ++ b.
Proof.
  revert b. induction a as [|i a IHa]; intros b; [done|].
  induction b as [|j b IHb]; [by rewrite merge_runs_nil_r, app_nil_r|].
  rewrite merge_runs_cons. destruct (le i j); [by rewrite IHa|]. rewrite IHb. cbn [app].
  by rewrite <-Permutation_middle, Permutation_swap.
Qed.
Lemma merge_runs_ordered a b : Forall dom (a ++ b) → ordered a → ordered b → ordered (merge_runs le a b).
Proof using le_total le_trans.
  revert b. induction a as [|i a IHa]; intros b Hd Ha Hb; [done|].
  induction b as [|j b IHb]; [by rewrite merge_runs_nil_r|].
  apply StronglySorted_inv in Ha as [Ha Hia]. apply StronglySorted_inv in Hb as Hb'. destruct Hb' as [Hb' Hjb].
  rewrite merge_runs_cons. cbn [app] in Hd. apply Forall_cons in Hd as [Hdi Hd].
  apply Forall_app in Hd as [Hda [Hdj Hdb]%Forall_cons].
  rewrite Forall_forall in Hia, Hjb, Hda, Hdb. destruct (le i j) eqn:Eij.
  - constructor; [apply IHa; [|done|done]; apply Forall_app; split; [|constructor]; auto; apply Forall_forall; auto|].
    apply Forall_forall. intros k. rewrite merge_runs_perm, elem_of_app, elem_of_cons. intros [?|[->|?]]; [auto|done|].
    apply (le_trans i j k); auto.
  - assert (Eji : le j i = true) by (apply le_total; auto).
    constructor; [apply IHb; [|done]; constructor; [done|]; apply Forall_app; split; apply Forall_forall; auto|].
    apply Forall_forall. intros k. rewrite merge_runs_perm. cbn [app]. rewrite elem_of_cons, elem_of_app.
    intros [->|[?|?]]; [done| |auto]. apply (le_trans j i k); auto.
Qed.

(** Every run of [w] elements is in order. *)
Definition runs_ordered (w : nat) (l : list Z) : Prop := ∀ k, ordered (take w (drop (k * w) l)).
Lemma merge_pass_spec fuel w l :
  (0 < w)%nat → (length l ≤ fuel)%nat → Forall dom l → runs_ordered w l →
  merge_pass fuel le w l ≡ₚ l ∧ runs_ordered (2 * w) (merge_pass fuel le w l).
Proof using le_total le_trans.
  intros Hw. revert l. induction fuel as [|fuel IH]; intros [|x l'] Hf Hd Hr; cbn [merge_pass length] in *; try lia.
  1, 2: split; [done|]; intros k; rewrite drop_nil, take_nil; constructor.
  set (l := x :: l') in *. assert (Hlen : length l = S (length l')) by done.
  destruct (IH (drop (2 * w) l)) as [Hp Hr'].
  { rewrite length_drop. lia. }
  { by apply Forall_drop. }
  { intros k. rewrite drop_drop. replace (2 * w + k * w)%nat with ((2 + k) * w)%nat by lia. apply Hr. }
  set (M := merge_runs le (take w l) (take w (drop w l))).
  assert (HM : M ≡ₚ take (2 * w) l).
  { unfold M. rewrite merge_runs_perm. replace (2 * w)%nat with (w + w)%nat by lia. by rewrite take_take_drop. }
  assert (HMlen : length M = length (take (2 * w) l)) by (by rewrite HM).
  rewrite length_take in HMlen. split.
  { rewrite Hp, HM. by rewrite take_drop. }
  assert (HMo : ordered M).
  { apply merge_runs_ordered.
    - replace (take w l ++ take w (drop w l)) with (take (w + w) l) by (by rewrite take_take_drop). by apply Forall_take.
    - pose proof (Hr 0%nat) as H0. by rewrite Nat.mul_0_l, drop_0 in H0.
    - pose proof (Hr 1%nat) as H0. by rewrite Nat.mul_1_l in H0. }
  destruct (decide (2 * w ≤ length l)%nat) as [Hfull|Hshort].
  - intros [|k].
    + rewrite Nat.mul_0_l, drop_0, take_app_length'; [done|lia].
    + rewrite drop_app_ge by lia. replace (S k * (2 * w) - length M)%nat with (k * (2 * w))%nat by lia. apply Hr'.
  - replace (drop (2 * w) l) with (@nil Z) by (symmetry; apply drop_ge; lia).
    replace (merge_pass fuel le w []) with (@nil Z) by (by destruct fuel). rewrite app_nil_r.
    intros [|k]; [rewrite Nat.mul_0_l, drop_0, take_ge by lia; done|].
    rewrite drop_ge by lia. rewrite take_nil. constructor.
Qed.

Definition clock_before (deadline : Z) (w : os) : Prop := 0 < deadline ∧ Forall (λ t, t < deadline) (clock w).
Lemma clock_before_step deadline w : clock_before deadline w →
  ∃ now w', wadb_monotonic_ns w = (Ok now, w') ∧ now < deadline ∧ clock_before deadline w'.
Proof.
  intros [H0 Hc]. eexists _, _. split; [reflexivity|]. unfold clock_before. destruct w as [f d cs al [|t l]]; cbn in *; [done|].
  apply Forall_cons in Hc as [??]. done.
Qed.
Lemma sort_passes_spec fuel deadline width l w :
  (0 < width)%nat → (length l ≤ width * 2 ^ fuel)%nat → Forall dom l → runs_ordered width l →
  wp (sort_passes fuel le deadline width l) (λ r w',
    match r with
    | Ok l' => l' ≡ₚ l ∧ ordered l'
    | Err e => e = WADB_LIMIT
    end ∧ (clock_before deadline w → is_Some (match r with Ok l' => Some l' | Err _ => None end))) w.
Proof using le_total le_trans.
  revert width l w. induction fuel as [|fuel IH]; intros width l w Hw Hf Hd Hr; cbn [sort_passes].
  { unfold wp. cbn. split; [|by intros; eexists]. split; [done|]. specialize (Hr 0%nat). cbn [Nat.pow] in Hf.
    rewrite Nat.mul_0_l, drop_0, take_ge in Hr by lia. done. }
  case_bool_decide as Hlt.
  2: { unfold wp. cbn. split; [|by intros; eexists]. split; [done|]. specialize (Hr 0%nat).
       rewrite Nat.mul_0_l, drop_0, take_ge in Hr by lia. done. }
  destruct (merge_pass_spec (length l) width l Hw ltac:(lia) Hd Hr) as [Hp Hr'].
  assert (Hnext : ∀ w', wp (sort_passes fuel le deadline (2 * width) (merge_pass (length l) le width l)) (λ r _,
      match r with Ok l' => l' ≡ₚ l ∧ ordered l' | Err e => e = WADB_LIMIT end ∧
      (clock_before deadline w' → is_Some (match r with Ok l' => Some l' | Err _ => None end))) w').
  { intros w'. eapply wp_mono; [apply IH; [lia| |by rewrite Hp|done]|].
    - rewrite Hp. cbn [Nat.pow] in Hf. lia.
    - intros [l'|e] w''; [|done]. intros [[Hp' Ho] Hs]. split; [|done]. split; [by rewrite Hp'|done]. }
  apply wp_bind. unfold wp at 1. cbn [wadb_monotonic_ns fst snd].
  assert (Hstep : clock_before deadline w → hd 0 (clock w) < deadline ∧ clock_before deadline (snd (wadb_monotonic_ns w))).
  { intros Hc. destruct (clock_before_step _ _ Hc) as (n&w2&E&?&?). rewrite E. by injection E as <- _. }
  cbn [wadb_monotonic_ns snd] in Hstep.
  destruct (Z.geb_spec (hd 0 (clock w)) deadline).
  { unfold wp. cbn. split; [done|]. intros [? _]%Hstep. lia. }
  eapply wp_mono; [apply Hnext|]. cbn beta. intros r w'' [H1 H2]. split; [done|]. intros [_ Hc]%Hstep. by apply H2.
Qed.
End merge.

(** ** Ordered output *)

Section output.
Context (p : wadb_query_plan) (groups : list query_group).
(** No group has a NaN in the ordering column. *)
Definition column_type (col : Z) : wadb_type :=
  match znth (pl_columns p) col with Some c => rc_type c | None => WADB_TYPE_OTHER 0 end.
Definition cells_comparable : Prop :=
  ∀ i, 0 ≤ i < zlen groups → comparable (column_type (pl_order p)) (group_cell p groups i (pl_order p)).

(** The comparison of two cells with the direction applied; nulls come last. *)
Definition cell_compare (a b : wadb_value) : Z :=
  let cmp := wadb_value_compare (column_type (pl_order p)) a b in
  if negb (is_null a) && negb (is_null b) && qo_descending (pl_options p) then - cmp else cmp.
Lemma cell_compare_antisym a b : cell_compare a b = - cell_compare b a.
Proof.
  unfold cell_compare. cbv zeta. rewrite (value_compare_antisym _ a b).
  rewrite (andb_comm (negb (is_null a))). destruct (_ && _ && _); lia.
Qed.
Lemma cell_compare_trans a b c :
  comparable (column_type (pl_order p)) a → comparable (column_type (pl_order p)) b →
  comparable (column_type (pl_order p)) c →
  cell_compare a b ≤ 0 → cell_compare b c ≤ 0 → cell_compare a c ≤ 0.
Proof.
  intros Ha Hb Hc. pose proof (value_compare_trans _ _ _ _ Ha Hb Hc) as H1.
  pose proof (value_compare_trans _ _ _ _ Hc Hb Ha) as H2. unfold cell_compare. cbv zeta.
  pose proof (value_compare_null (column_type (pl_order p)) a b) as N1.
  pose proof (value_compare_null (column_type (pl_order p)) b c) as N2.
  pose proof (value_compare_null (column_type (pl_order p)) a c) as N3.
  pose proof (value_compare_antisym (column_type (pl_order p)) a b).
  pose proof (value_compare_antisym (column_type (pl_order p)) b c).
  pose proof (value_compare_antisym (column_type (pl_order p)) a c).
  destruct (is_null a), (is_null b), (is_null c); cbn [negb andb orb Z.b2z] in *;
    rewrite ?N1, ?N2, ?N3 by done; try lia.
  destruct (qo_descending (pl_options p)); lia.
Qed.
Lemma compare_groups_cells a b :
  compare_groups p groups a b =
    let cmp := cell_compare (group_cell p groups a (pl_order p)) (group_cell p groups b (pl_order p)) in
    if negb (cmp =? 0) then cmp else sign_of_compare (a ?= b).
Proof. done. Qed.
Lemma compare_groups_total a b : (compare_groups p groups a b <=? 0) = false → (compare_groups p groups b a <=? 0) = true.
Proof.
  rewrite !compare_groups_cells. cbv zeta. rewrite (cell_compare_antisym (group_cell p groups b _)).
  set (c := cell_compare _ _). destruct (Z.eqb_spec c 0), (Z.eqb_spec (- c) 0); cbn [negb]; try lia.
  rewrite (sign_antisym b a). lia.
Qed.
Lemma compare_groups_trans a b c : cells_comparable → 0 ≤ a < zlen groups → 0 ≤ b < zlen groups → 0 ≤ c < zlen groups →
  (compare_groups p groups a b <=? 0) = true → (compare_groups p groups b c <=? 0) = true →
  (compare_groups p groups a c <=? 0) = true.
Proof.
  intros Hcc Ha%Hcc Hb%Hcc Hc%Hcc. rewrite !compare_groups_cells. cbv zeta.
  set (x := group_cell p groups a _) in *. set (y := group_cell p groups b _) in *. set (z := group_cell p groups c _) in *.
  pose proof (cell_compare_trans x y z Ha Hb Hc). pose proof (cell_compare_trans z y x Hc Hb Ha).
  pose proof (cell_compare_trans y z x Hb Hc Ha). pose proof (cell_compare_trans z x y Hc Ha Hb).
  pose proof (cell_compare_antisym x y). pose proof (cell_compare_antisym y z). pose proof (cell_compare_antisym x z).
  pose proof (sign_le a b). pose proof (sign_le b c). pose proof (sign_le a c).
  destruct (Z.eqb_spec (cell_compare x y) 0), (Z.eqb_spec (cell_compare y z) 0), (Z.eqb_spec (cell_compare x z) 0);
    cbn [negb]; lia.
Qed.

(** C26: Ordering the groups of a query is a permutation of them that is sorted by the
    ordering column, ascending or descending with nulls last, ties in order of first
    occurrence; it can only fail when the deadline passes, and terminates with a result
    as long as the clock stays before the deadline. *)
Theorem order_groups_sorted deadline w r w' :
  0 ≤ pl_order p → cells_comparable → order_groups p groups deadline w = (r, w') →
  (clock_before deadline w → ∃ l, r = Ok l) ∧
  match r with
  | Ok l => l ≡ₚ seqZ 0 (zlen groups) ∧ StronglySorted (λ a b, compare_groups p groups a b ≤ 0) l
  | Err e => e = WADB_LIMIT
  end.
Proof.
  intros Ho Hcc. unfold order_groups. destruct (Z.ltb_spec (pl_order p) 0) as [?|_]; [lia|]. cbv zeta. intros H.
  pose proof (sort_passes_spec (λ a b, compare_groups p groups a b <=? 0) (λ i, 0 ≤ i < zlen groups)
    (λ a b _ _, compare_groups_total a b) (λ a b c Ha Hb Hc, compare_groups_trans a b c Hcc Ha Hb Hc)
    (length groups) deadline 1 (seqZ 0 (zlen groups)) w) as Hs.
  assert (Hlen : (length (seqZ 0 (zlen groups)) ≤ 1 * 2 ^ length groups)%nat).
  { rewrite length_seqZ. pose proof (Nat.pow_gt_lin_r 2 (length groups) ltac:(lia)). unfold zlen. lia. }
  assert (Hdom : Forall (λ i, 0 ≤ i < zlen groups) (seqZ 0 (zlen groups))).
  { apply Forall_forall. intros i Hi%elem_of_seqZ. lia. }
  assert (Hruns : runs_ordered (λ a b, compare_groups p groups a b <=? 0) 1 (seqZ 0 (zlen groups))).
  { intros k. destruct (drop _ _) as [|i l]; [constructor|]. cbn [take]. repeat constructor. }
  pose proof (Hs ltac:(lia) Hlen Hdom Hruns) as Hwp.
  unfold wp in Hwp. rewrite H in Hwp. cbn [fst snd] in Hwp. destruct Hwp as [Hres Hc]. split.
  - intros Hb%Hc. destruct r; [by eexists|by destruct Hb].
  - destruct r as [l|e]; [|done]. destruct Hres as [Hp Hso]. split; [done|].
    unfold ordered in Hso. clear -Hso. induction Hso as [|x l _ IH Hx]; constructor; [done|].
    eapply Forall_impl; [exact Hx|]. cbn beta. intros y Hy. lia.
Qed.
End output.

Definition qu_plan (descending : bool) : wadb_query_plan :=
  Plan (Schema 8 0 0 []) (QueryOptions (ScanOptions 0 100 0 1000 10 10) [] [] [] [Aggregate WADB_COUNT_ALL None [110]] 0 0 10 10 20000 (Some [110]) descending)
    [] [] [] [Reduction 0 WADB_COUNT_ALL] [Column [107] WADB_U32; Column [110] WADB_U64] 1 20000 1 0 0.
Definition qu_groups : list query_group :=
  [Group 0 [VU64 7] [VU64 2] [2]; Group 0 [VU64 8] [VU64 5] [5]; Group 0 [VNull] [VU64 2] [2]; Group 0 [VU64 9] [VU64 3] [3]].
Definition qu_os : os := Os ∅ ∅ [] [] [5; 6] [].
Lemma order_groups_sorted_witness :
  order_groups (qu_plan true) qu_groups 1000 qu_os = (Ok [1; 3; 0; 2], Os ∅ ∅ [] [] [] []) ∧
  StronglySorted (λ a b, compare_groups (qu_plan true) qu_groups a b ≤ 0) [1; 3; 0; 2].
Proof.
  assert (H : order_groups (qu_plan true) qu_groups 1000 qu_os = (Ok [1; 3; 0; 2], Os ∅ ∅ [] [] [] [])) by (vm_compute; reflexivity).
  split; [exact H|].
  refine (proj2 (proj2 (order_groups_sorted (qu_plan true) qu_groups 1000 qu_os (Ok [1; 3; 0; 2]) (Os ∅ ∅ [] [] [] []) _ _ H))).
  - vm_compute. discriminate.
  - intros i _ Hf. discriminate Hf.
Defined.
