(* ===== verification/Grouping.v ===== *)
(** * Hash grouping implements grouping by linear search

    The reference keeps the groups in a list and finds the group of a row by
    comparing keys from the front. The hash table of [group_for] finds the same group. *)

From stdpp Require Import base numbers list list_numbers gmap.
From S2P Require Import Prelude Encoding Checksum Schema Float Rows Dictionary Files Engine Stats Snapshot Scan Plan Typing Query.

(** ** Equal values *)

Lemma lex_zero a b : lex a b = 0 → a = b.
Proof.
  revert b. induction a as [|x a IH]; intros [|y b]; cbn [lex]; try done.
  destruct (Z.compare_spec x y) as [->| |]; [|done..]. intros H%IH. by rewrite H.
Qed.
Lemma sign_zero x y : sign_of_compare (x ?= y) = 0 → x = y.
Proof. destruct (Z.compare_spec x y); done. Qed.
(** Equal doubles have the same pattern, the two zeroes apart. *)
Lemma f64_key_bits a b : is_u64 a → is_u64 b → f64_key a = f64_key b →
  (if f64_key a =? 0 then 0 else a) = (if f64_key b =? 0 then 0 else b).
Proof.
  intros Ha Hb E. rewrite E. destruct (Z.eqb_spec (f64_key b) 0) as [|Hne]; [done|].
  unfold f64_key, f64_sign, fabs in *. change (2 ^ 63) with 9223372036854775808 in *.
  destruct (Z.eqb_spec (a / 9223372036854775808) 0), (Z.eqb_spec (b / 9223372036854775808) 0); mlia.
Qed.
(** What the hash of a key depends on. *)
Lemma compare_zero_parts t a b : typed t a → typed t b → wadb_value_compare t a b = 0 →
  is_null a = is_null b ∧
  (is_null a = false → key_bits t a = key_bits t b ∧ (wadb_type_bytes t = true → as_bytes a = as_bytes b)).
Proof.
  intros Ha Hb. unfold wadb_value_compare, key_bits.
  destruct (is_null a) eqn:Na, (is_null b) eqn:Nb; cbn [orb Z.b2z]; intros E; try lia; (split; [done|]); try done; intros _.
  destruct (wadb_type_bytes t) eqn:Tb.
  { rewrite compare_bytes_lex in E. apply lex_zero in E. rewrite E. done. }
  destruct (wadb_type_signed t) eqn:Ts.
  { apply sign_zero in E. assert (Tf : wadb_type_float t = false) by (by destruct t). rewrite Tf. split; [|done].
    destruct a, b; cbn [typed] in Ha, Hb; try done; destruct_and?; try congruence.
    cbn [as_i64] in E. by subst. }
  destruct (wadb_type_float t) eqn:Tf.
  { destruct a as [|z|u|f|bs], b as [|z'|u'|f'|bs']; cbn [typed] in Ha, Hb; try done; destruct_and?; try congruence.
    unfold compare_f64 in E. cbn [as_f64 as_u64] in *.
    match type of E with context [f64_nan f || _] => replace (f64_nan f) with false in E by done end.
    replace (f64_nan f') with false in E by done. cbn [orb] in E.
    apply sign_zero in E. split; [by apply f64_key_bits|done]. }
  apply sign_zero in E. done.
Qed.
Lemma hash_key_equal t a b h : typed t a → typed t b → wadb_value_compare t a b = 0 → hash_key h (t, a) = hash_key h (t, b).
Proof.
  intros Ha Hb H. destruct (compare_zero_parts t a b Ha Hb H) as [Hn Hk]. unfold hash_key. rewrite <-Hn.
  destruct (is_null a); [reflexivity|]. destruct Hk as [-> Hk]; [done|].
  destruct (wadb_type_bytes t); [by rewrite Hk|reflexivity].
Qed.

(** ** Equality of keys *)

Section grouping.
Context (p : wadb_query_plan).

Definition typed_keys (keys : list wadb_value) : Prop := Forall2 typed (key_types p) keys.

Lemma keys_equal_loop l a b h :
  Forall2 typed l a → Forall2 typed l b →
  forallb (λ '(type, (v, v')), wadb_value_compare type v v' =? 0) (zip l (zip a b)) = true →
  fold_left hash_key (zip l a) h = fold_left hash_key (zip l b) h.
Proof.
  intros Ha. revert b h. induction Ha as [|t v l a Hv Ha IH]; intros b h Hb; [by inversion Hb|].
  inversion Hb as [|? v' ? b' Hv' Hb']; subst. cbn [zip zip_with forallb fold_left]. intros [H%Z.eqb_eq Hr]%andb_true_iff.
  rewrite (hash_key_equal t v v' h Hv Hv' H). by apply IH.
Qed.
Lemma keys_equal_hash a b : typed_keys a → typed_keys b → keys_equal p a b = true → hash_keys p a = hash_keys p b.
Proof. apply keys_equal_loop. Qed.

Lemma typed_comparable t v : typed t v → comparable t v.
Proof.
  unfold comparable. destruct v; cbn [typed as_f64 as_u64]; intros H Hf; destruct_and?; try done; try congruence.
  - assert (wadb_type_float t = false) by (by destruct t). congruence.
Qed.
Lemma keys_equal_sym a b : typed_keys a → typed_keys b → keys_equal p a b = true → keys_equal p b a = true.
Proof.
  unfold typed_keys, keys_equal. intros Ha. revert b. induction Ha as [|t v l a Hv Ha IH]; intros b Hb; [by inversion Hb|].
  inversion Hb as [|? v' ? b' Hv' Hb']; subst. cbn [zip zip_with forallb]. intros [H%Z.eqb_eq Hr]%andb_true_iff.
  rewrite IH by done. rewrite value_compare_antisym, H. done.
Qed.
Lemma keys_equal_trans a b c : typed_keys a → typed_keys b → typed_keys c →
  keys_equal p a b = true → keys_equal p b c = true → keys_equal p a c = true.
Proof.
  unfold typed_keys, keys_equal. intros Ha. revert b c. induction Ha as [|t v l a Hv Ha IH]; intros b c Hb Hc; [by inversion Hc|].
  inversion Hb as [|? v1 ? b' Hv1 Hb']; subst. inversion Hc as [|? v2 ? c' Hv2 Hc']; subst.
  cbn [zip zip_with forallb]. intros [H1%Z.eqb_eq Hr1]%andb_true_iff [H2%Z.eqb_eq Hr2]%andb_true_iff.
  rewrite (IH b' c') by done. rewrite andb_true_r, Z.eqb_eq.
  apply typed_comparable in Hv, Hv1, Hv2.
  pose proof (value_compare_trans t v v1 v2 Hv Hv1 Hv2 ltac:(lia) ltac:(lia)).
  pose proof (value_compare_trans t v2 v1 v Hv2 Hv1 Hv) as H3.
  rewrite (value_compare_antisym t v2 v1), (value_compare_antisym t v1 v), (value_compare_antisym t v2 v) in H3. lia.
Qed.

(** ** The reference *)

Record ref_group := RefGroup {
  rg_keys : list wadb_value;
  rg_aggregates : list wadb_value;
  rg_nonnull : list Z;
}.
(** The first group with equal keys. *)
Fixpoint ref_find (keys : list wadb_value) (l : list ref_group) (i : nat) : option nat :=
  match l with
  | [] => None
  | g :: l' => if keys_equal p (rg_keys g) keys then Some i else ref_find keys l' (S i)
  end.
Definition ref_new (keys : list wadb_value) : ref_group :=
  RefGroup keys (new_aggregates p) (zrep (zlen (pl_aggregates p)) 0).
Definition ref_enter (keys : list wadb_value) (l : list ref_group) : nat * list ref_group :=
  match ref_find keys l 0 with
  | Some i => (i, l)
  | None => (length l, l ++ [ref_new keys])
  end.
(** One row: the group of its keys, which is new when there is none, is reduced. *)
Definition ref_row (values : list wadb_value) (l : list ref_group) : result (list ref_group) :=
  if negb (matches_filters p values) then Ok l
  else
    keys ← row_keys p values;
    let '(i, l) := ref_enter keys l in
    match l !! i with
    | None => Err WADB_INVALID (* not reached: [i] is a position of the list *)
    | Some g =>
        '(outs, counts) ← reduce_loop p (pl_aggregates p) values (rg_aggregates g) (rg_nonnull g);
        Ok (<[i := RefGroup (rg_keys g) outs counts]> l)
    end.
Fixpoint ref_rows (rows : list (Z * list wadb_value)) (l : list ref_group) : result (list ref_group) :=
  match rows with
  | [] => Ok l
  | (_, values) :: rows' => l' ← ref_row values l; ref_rows rows' l'
  end.
Definition view (g : query_group) : ref_group := RefGroup (gr_keys g) (gr_aggregates g) (gr_nonnull g).

(** ** The invariant of the table *)

Record groups_ok (x : execution) : Prop := {
  go_table : (x_slots x = [] ∧ x_groups x = []) ∨ table_ok (x_slots x) (map gr_hash (x_groups x));
  go_room : 2 * zlen (x_groups x) ≤ zlen (x_slots x);
  go_keys : Forall (λ g, typed_keys (gr_keys g) ∧ gr_hash g = hash_keys p (gr_keys g)) (x_groups x);
  go_distinct : ∀ i j g g', x_groups x !! i = Some g → x_groups x !! j = Some g' →
    keys_equal p (gr_keys g) (gr_keys g') = true → i = j;
  go_count : zlen (x_groups x) ≤ qo_max_groups (pl_options p);
}.
Definition same_groups (x x' : execution) : Prop := x_groups x' = x_groups x ∧ x_slots x' = x_slots x.
Lemma groups_ok_same x x' : same_groups x x' → groups_ok x → groups_ok x'.
Proof. intros [E1 E2] []. split; rewrite ?E1, ?E2; done. Qed.

Lemma ref_find_view keys (l : list query_group) k :
  match ref_find keys (map view l) k with
  | Some i => ∃ j g, i = (k + j)%nat ∧ l !! j = Some g ∧ keys_equal p (gr_keys g) keys = true
  | None => ∀ j g, l !! j = Some g → keys_equal p (gr_keys g) keys = false
  end.
Proof.
  revert k. induction l as [|g l IH]; intros k; cbn [map ref_find]; [done|].
  cbn [view rg_keys]. destruct (keys_equal p (gr_keys g) keys) eqn:E; [exists 0%nat, g; split_and!; [lia|done|done]|].
  specialize (IH (S k)). destruct (ref_find keys (map view l) (S k)) as [i|].
  - destruct IH as (j&g'&->&?&?). exists (S j), g'. split_and!; [lia|done|done].
  - intros [|j] g' Hj; [by injection Hj as <-|]. by apply (IH j).
Qed.

(** ** Probing *)

Lemma probe_sound fuel slots groups hash keys slot i :
  table_ok slots (map gr_hash groups) → probe_group p fuel slots groups hash keys slot = Some i →
  ∃ g, 0 ≤ i ∧ groups !! Z.to_nat i = Some g ∧ keys_equal p (gr_keys g) keys = true.
Proof.
  intros Ht. revert slot. induction fuel as [|fuel IH]; intros slot; [done|]. cbn [probe_group].
  destruct (Z.eqb_spec (rd slots slot) 0) as [|Hv]; [done|]. cbv zeta.
  destruct (_ && _) eqn:E; [|apply IH]. intros [= <-]. apply andb_true_iff in E as [_ E].
  pose proof (t_values _ _ Ht _ (rd_elem _ _ Hv) Hv) as Hr. rewrite zlen_map in Hr. unfold zlen in Hr.
  destruct (lookup_lt_is_Some_2 groups (Z.to_nat (rd slots slot - 1))) as [g Hg]; [lia|].
  exists g. split_and!; [lia|done|]. by rewrite (list_lookup_total_correct _ _ _ Hg) in E.
Qed.
Lemma probe_path fuel slots groups hash keys slot k i g :
  table_ok slots (map gr_hash groups) → groups !! i = Some g → gr_hash g = hash → keys_equal p (gr_keys g) keys = true →
  0 ≤ slot < zlen slots → 0 ≤ k < Z.of_nat fuel →
  rd slots ((slot + k) `mod` zlen slots) = Z.of_nat i + 1 →
  (∀ j, 0 ≤ j < k → rd slots ((slot + j) `mod` zlen slots) ≠ 0) →
  is_Some (probe_group p fuel slots groups hash keys slot).
Proof.
  intros Ht Hi Hh Hk. pose proof (pow2_pos _ (t_pow2 _ _ Ht)) as Hpos.
  revert slot k. induction fuel as [|fuel IH]; intros slot k Hslot Hf Hv Hnz; [lia|]. cbn [probe_group]. cbv zeta.
  destruct (decide (k = 0)) as [->|Hk0].
  - rewrite Z.add_0_r, Z.mod_small in Hv by done. rewrite Hv. destruct (Z.eqb_spec (Z.of_nat i + 1) 0); [lia|].
    replace (Z.to_nat (Z.of_nat i + 1 - 1)) with i by lia. rewrite (list_lookup_total_correct _ _ _ Hi), Hh, Z.eqb_refl, Hk.
    cbn [andb]. by eexists.
  - pose proof (Hnz 0 ltac:(lia)) as H0. rewrite Z.add_0_r, Z.mod_small in H0 by done.
    destruct (Z.eqb_spec (rd slots slot) 0); [done|]. destruct (_ && _); [by eexists|].
    rewrite next_mod by apply (t_pow2 _ _ Ht).
    apply (IH _ (k - 1)); [by apply Z.mod_pos_bound|lia|by rewrite mod_step|].
    intros j Hj. replace j with (j + 1 - 1) by lia. rewrite mod_step. apply Hnz. lia.
Qed.

Definition lookup_group (x : execution) (keys : list wadb_value) : option Z :=
  if zlen (x_slots x) =? 0 then None
  else probe_group p (length (x_slots x)) (x_slots x) (x_groups x) (hash_keys p keys) keys
         (home (zlen (x_slots x)) (hash_keys p keys)).
(** The probe finds what the linear search finds. *)
Lemma lookup_group_spec x keys : groups_ok x → typed_keys keys →
  lookup_group x keys = Z.of_nat <$> ref_find keys (map view (x_groups x)) 0.
Proof.
  intros Hok Hk. pose proof (ref_find_view keys (x_groups x) 0) as Hr. unfold lookup_group.
  destruct (go_table _ Hok) as [[-> ->]|Ht]; [done|].
  pose proof (pow2_pos _ (t_pow2 _ _ Ht)) as Hpos. destruct (Z.eqb_spec (zlen (x_slots x)) 0); [lia|].
  destruct (probe_group _ _ _ _ _ _ _) as [i|] eqn:E.
  - apply probe_sound in E as (g&Hi&Hg&Heq); [|done].
    destruct (ref_find keys (map view (x_groups x)) 0) as [i'|]; [|by rewrite (Hr _ _ Hg) in Heq].
    destruct Hr as (j&g'&->&Hg'&Heq'). cbn [fmap option_fmap option_map]. f_equal.
    assert (Hj : Z.to_nat i = j); [|lia]. pose proof (go_keys _ Hok) as Hf. rewrite Forall_lookup in Hf.
    destruct (Hf _ _ Hg) as [? _], (Hf _ _ Hg') as [? _].
    apply (go_distinct _ Hok _ _ g g' Hg Hg'). apply (keys_equal_trans _ keys); try done. by apply keys_equal_sym.
  - destruct (ref_find keys (map view (x_groups x)) 0) as [i'|]; [|done]. exfalso.
    destruct Hr as (j&g&_&Hg&Heq). pose proof (go_keys _ Hok) as Hf. rewrite Forall_lookup in Hf.
    destruct (Hf _ _ Hg) as [Htk Hh].
    assert (Hhash : gr_hash g = hash_keys p keys) by (rewrite Hh; by apply keys_equal_hash).
    destruct (t_paths _ _ Ht j (gr_hash g)) as (k&Hk'&Hv&Hnz); [by rewrite list_lookup_fmap, Hg|].
    destruct (probe_path (length (x_slots x)) (x_slots x) (x_groups x) (hash_keys p keys) keys
      (home (zlen (x_slots x)) (hash_keys p keys)) k j g) as [? Hs]; try done;
      rewrite ?home_mod by apply (t_pow2 _ _ Ht).
    + by apply Z.mod_pos_bound.
    + by rewrite Zplus_mod_idemp_l, <-Hhash.
    + intros j' Hj'. rewrite Zplus_mod_idemp_l, <-Hhash. by apply Hnz.
    + by rewrite Hs in E.
Qed.

(** ** Adding a group *)

Definition resource_error (e : wadb_status) : Prop := e = WADB_LIMIT ∨ e = WADB_NOMEM.
(** Steps that use memory and leave the groups alone. *)
Definition frugal {A} (m : M execution A) (Q : A → Prop) (x : execution) : Prop :=
  wp m (λ r x', same_groups x x' ∧ match r with Ok a => Q a | Err e => resource_error e end) x.
Lemma charge_frugal n x : frugal (charge p n) (λ _, True) x.
Proof.
  unfold frugal, wp, charge, xget, xset, mbind, M_bind. destruct (n >? _); cbn; (split; [done|]); [by left|done].
Qed.
Lemma x_malloc_frugal x : frugal x_malloc (λ _, True) x.
Proof. done. Qed.
Lemma frugal_bind {A B} (m : M execution A) (f : A → M execution B) P Q x :
  frugal m P x → (∀ a x', same_groups x x' → P a → frugal (f a) Q x') → frugal (m ≫= f) Q x.
Proof.
  unfold frugal. intros H Hf. apply wp_bind. eapply wp_mono; [exact H|]. cbn beta. intros [a|e] x' [Hs HP]; [|done].
  eapply wp_mono; [by apply Hf|]. cbn beta. intros r x'' [[E1 E2] HQ]. destruct Hs as [E3 E4]. split; [|done].
  split; congruence.
Qed.
Lemma frugal_ret {A} (a : A) (Q : A → Prop) x : Q a → frugal (mret a) Q x.
Proof. done. Qed.
Lemma frugal_nomem {A} (Q : A → Prop) x : frugal (mfail WADB_NOMEM) Q x.
Proof. split; [done|by right]. Qed.
Lemma copy_values_frugal types vs x : length types = length vs → frugal (copy_values p types vs) (λ l, l = vs) x.
Proof.
  revert vs x. induction types as [|t types IH]; intros [|v vs] x Hl; try done; cbn [copy_values].
  eapply frugal_bind with (P := λ v', v' = v).
  { unfold copy_value. destruct (_ && _); [|by apply frugal_ret].
    eapply frugal_bind; [apply charge_frugal|]. intros _ x1 _ _. eapply frugal_bind; [apply x_malloc_frugal|].
    intros ok x2 _ _. destruct ok; [by apply frugal_ret|apply frugal_nomem]. }
  intros v' x' _ ->. eapply frugal_bind; [apply IH; by injection Hl|]. intros l x2 _ ->. by apply frugal_ret.
Qed.
Lemma frugal_get {A} (f : execution → M execution A) (Q : A → Prop) x : frugal (f x) Q x → frugal (xget ≫= f) Q x.
Proof. done. Qed.
Lemma grow_groups_frugal x : frugal (grow_groups p) (λ _, True) x.
Proof.
  unfold grow_groups. apply frugal_get. destruct (negb _); [by apply frugal_ret|].
  eapply frugal_bind; [apply charge_frugal|]. intros _ x1 _ _. eapply frugal_bind; [apply x_malloc_frugal|].
  intros [] x2 _ _; [done|apply frugal_nomem].
Qed.

Lemma place_ok slots groups h : table_ok slots (map gr_hash groups) → (length groups < length slots)%nat →
  zlen groups < UINT32_MAX →
  table_ok (place slots h (zlen groups)) (map gr_hash groups ++ [h]) ∧ zlen (place slots h (zlen groups)) = zlen slots.
Proof.
  intros Ht Hl Hu. pose proof (zlen_nonneg groups). unfold place. rewrite u32_id by mlia. split; [|apply zlen_wr].
  rewrite <-(zlen_map gr_hash groups). apply table_insert; [done|]. by rewrite length_map.
Qed.
Lemma rehash_groups_ok groups pre slots :
  table_ok slots (map gr_hash pre) → (length pre + length groups ≤ length slots)%nat →
  zlen pre + zlen groups ≤ UINT32_MAX →
  let slots' := rehash_groups groups (zlen pre) slots in
  zlen slots' = zlen slots ∧ table_ok slots' (map gr_hash (pre ++ groups)).
Proof.
  revert pre slots. induction groups as [|g groups IH]; intros pre slots Ht Hroom Hu; cbn [rehash_groups].
  { by rewrite app_nil_r. }
  cbn [length] in Hroom. rewrite zlen_cons in Hu. pose proof (zlen_nonneg groups).
  destruct (place_ok slots pre (gr_hash g) Ht) as [Ht' Hl']; [lia|lia|].
  destruct (IH (pre ++ [g]) (place slots (gr_hash g) (zlen pre))) as [Hl Hok].
  - by rewrite map_app.
  - rewrite length_app. apply Nat2Z.inj in Hl'. rewrite Hl'. cbn. lia.
  - rewrite zlen_app. change (zlen [g]) with 1. lia.
  - rewrite zlen_app in Hl, Hok. change (zlen [g]) with 1 in Hl, Hok. rewrite <-app_assoc in Hok.
    split; [by rewrite Hl|done].
Qed.

Context (Hmax : qo_max_groups (pl_options p) ≤ UINT32_MAX).

(** After growing, the table has a slot more than twice the groups. *)
Definition roomy (x : execution) : Prop :=
  table_ok (x_slots x) (map gr_hash (x_groups x)) ∧ 2 * (zlen (x_groups x) + 1) ≤ zlen (x_slots x).
Lemma grow_group_slots_spec x : groups_ok x → zlen (x_groups x) < qo_max_groups (pl_options p) →
  wp (grow_group_slots p) (λ r x', match r with
    | Ok _ => x_groups x' = x_groups x ∧ roomy x'
    | Err e => resource_error e
    end) x.
Proof using Hmax.
  intros Hok Hn. unfold grow_group_slots. apply wp_bind. unfold wp at 1, xget. cbn [fst snd].
  pose proof (zlen_nonneg (x_groups x)). pose proof (go_room _ Hok) as Hroom.
  destruct (Z.ltb_spec (zlen (x_slots x)) ((zlen (x_groups x) + 1) * 2)) as [Hs|Hs]; cbn [negb].
  2: { destruct (go_table _ Hok) as [[E _]|Ht]; [rewrite E, zlen_nil in Hs; lia|].
       apply wp_ret. unfold roomy. split_and!; [done|done|lia]. }
  set (count := if zlen (x_slots x) =? 0 then 32 else zlen (x_slots x) * 2).
  assert (Hc : pow2 count ∧ 2 * (zlen (x_groups x) + 1) ≤ count).
  { unfold count. destruct (Z.eqb_spec (zlen (x_slots x)) 0) as [E|E]; [split; [by exists 5|lia]|].
    destruct (go_table _ Hok) as [[E' _]|Ht]; [rewrite E', zlen_nil in E; lia|].
    destruct (t_pow2 _ _ Ht) as (k&Hk&Ek). pose proof (Z.pow_pos_nonneg 2 k). split; [|lia].
    exists (k + 1). rewrite Z.pow_add_r by lia. lia. }
  clearbody count. destruct Hc as [Hp Hc].
  apply wp_bind. eapply wp_mono; [apply charge_frugal|]. cbn beta. intros [_u|e] x1 [[E1 _] H1]; [|done].
  apply wp_bind. eapply wp_mono; [apply x_malloc_frugal|]. cbn beta. intros [ok|e] x2 [[E2 _] H2]; [|done].
  destruct ok; [|by right]. unfold wp, xset, mbind, M_bind. cbn.
  assert (E : x_groups x2 = x_groups x) by congruence. split; [done|]. unfold roomy. cbn. rewrite E.
  pose proof (pow2_pos _ Hp). destruct (rehash_groups_ok (x_groups x) [] (zrep count 0)) as [Hl Ht].
  - by apply table_zero.
  - cbn [length]. unfold zrep. rewrite length_replicate. unfold zlen in *. lia.
  - rewrite zlen_nil. lia.
  - rewrite zlen_nil in *. rewrite zlen_zrep in Hl by lia. cbn [app] in Ht. rewrite Hl. done.
Qed.

(** The position of the group of [keys], and the groups afterwards, are those of the reference. *)
Lemma group_for_spec keys x : groups_ok x → typed_keys keys →
  wp (group_for p keys) (λ r x', match r with
    | Ok i => groups_ok x' ∧ 0 ≤ i ∧ ref_enter keys (map view (x_groups x)) = (Z.to_nat i, map view (x_groups x'))
    | Err e => resource_error e
    end) x.
Proof using Hmax.
  intros Hok Hk. unfold group_for. apply wp_bind. unfold wp at 1, xget. cbn [fst snd].
  change (if zlen (x_slots x) =? 0 then None else probe_group p (length (x_slots x)) (x_slots x) (x_groups x) (hash_keys p keys)
    keys (home (zlen (x_slots x)) (hash_keys p keys))) with (lookup_group x keys).
  rewrite (lookup_group_spec x keys Hok Hk). unfold ref_enter. pose proof (ref_find_view keys (x_groups x) 0) as Hnew.
  destruct (ref_find keys (map view (x_groups x)) 0) as [i|]; cbn [fmap option_fmap option_map].
  { apply wp_ret. rewrite Nat2Z.id. split_and!; [done|lia|done]. }
  destruct (Z.eqb_spec (zlen (x_groups x)) (qo_max_groups (pl_options p))) as [|Hlim]; [apply wp_fail; by left|].
  pose proof (go_count _ Hok) as Hcount. pose proof (zlen_nonneg (x_groups x)) as Hnn.
  apply wp_bind. eapply wp_mono; [apply grow_groups_frugal|]. cbn beta. intros [_u|e] x1 [Hs1 H1]; [|done]. cbn beta iota.
  pose proof (groups_ok_same _ _ Hs1 Hok) as Hok1. destruct Hs1 as [E1 _].
  apply wp_bind. eapply wp_mono; [apply grow_group_slots_spec; [done|rewrite E1; lia]|]. cbn beta.
  intros [_u'|e] x2 H2; [|done]. cbn beta iota. destruct H2 as [E2 Hr2].
  apply wp_bind. eapply wp_mono; [apply copy_values_frugal; by apply Forall2_length in Hk|]. cbn beta.
  intros [copied|e] x3 [[E3 E3'] H3]; [|done]. cbn beta iota. subst copied.
  assert (E : x_groups x3 = x_groups x) by congruence. unfold wp, xset, mbind, M_bind, mret, M_ret. cbn.
  unfold roomy in Hr2. rewrite <-E3', <-E3, E in Hr2. destruct Hr2 as [Ht Hroom].
  destruct (place_ok (x_slots x3) (x_groups x) (hash_keys p keys) Ht) as [Ht' Hl']; [unfold zlen in *; lia|lia|].
  split_and!; [|done|rewrite E, map_app, length_map; unfold zlen; by rewrite Nat2Z.id].
  split; cbn; rewrite ?E.
  - right. by rewrite map_app.
  - rewrite Hl', zlen_app. change (zlen [_]) with 1. lia.
  - apply Forall_app. split; [apply (go_keys _ Hok)|]. by repeat constructor.
  - intros i j g g' Hi Hj Heq.
    pose proof (go_keys _ Hok) as Hf. rewrite Forall_lookup in Hf.
    apply lookup_app_Some in Hi as [Hi|[Hi0 Hi]], Hj as [Hj|[Hj0 Hj]].
    + by apply (go_distinct _ Hok i j g g').
    + apply list_lookup_singleton_Some in Hj as [? <-]. cbn in Heq. by rewrite (Hnew _ _ Hi) in Heq.
    + apply list_lookup_singleton_Some in Hi as [? <-]. cbn in Heq. destruct (Hf _ _ Hj) as [Htk _].
      apply keys_equal_sym in Heq; [|done..]. by rewrite (Hnew _ _ Hj) in Heq.
    + apply list_lookup_singleton_Some in Hj as [? _]. apply list_lookup_singleton_Some in Hi as [? _]. lia.
  - rewrite zlen_app. change (zlen [_]) with 1. lia.
Qed.

(** ** Rows *)

Lemma reduce_errors rs values outs counts e : reduce_loop p rs values outs counts = Err e → e = WADB_LIMIT.
Proof.
  revert outs counts. induction rs as [|r rs IH]; intros [|out outs] [|n counts]; cbn [reduce_loop]; try done.
  destruct (reduce_one _ _ _ _ _) as [[out' n']|e'] eqn:E; cbn [mbind result_bind].
  - destruct (reduce_loop _ _ _ _ _) as [[l ns]|e'] eqn:E'; cbn; [done|]. intros [= ->]. by apply IH in E'.
  - intros [= ->]. unfold reduce_one, sum_values in E. repeat case_match; cbn in *; by simplify_eq.
Qed.
Lemma reduce_spec i values x : groups_ok x → 0 ≤ i → (Z.to_nat i < length (x_groups x))%nat →
  wp (reduce p i values) (λ r x', match r with
    | Ok _ => groups_ok x' ∧ ∃ g outs counts, map view (x_groups x) !! Z.to_nat i = Some g ∧
        reduce_loop p (pl_aggregates p) values (rg_aggregates g) (rg_nonnull g) = Ok (outs, counts) ∧
        map view (x_groups x') = <[Z.to_nat i := RefGroup (rg_keys g) outs counts]> (map view (x_groups x))
    | Err e => resource_error e
    end) x.
Proof.
  intros Hok Hi Hl. apply lookup_lt_is_Some_2 in Hl as [g Hg]. unfold reduce. apply wp_bind. unfold wp at 1, xget.
  cbn [fst snd]. rewrite (list_lookup_total_correct _ _ _ Hg). apply wp_bind. unfold wp at 1, mlift. cbn [fst snd].
  destruct (reduce_loop _ _ _ _ _) as [[outs counts]|e] eqn:E; [|apply reduce_errors in E as ->; by left].
  unfold wp, xset. cbn [fst snd].
  assert (Hmap : ∀ {A} (f : query_group → A), f (Group (gr_hash g) (gr_keys g) outs counts) = f g →
    map f (<[Z.to_nat i := Group (gr_hash g) (gr_keys g) outs counts]> (x_groups x)) = map f (x_groups x)).
  { intros A f Hf. change (map f) with (fmap (M := list) f). rewrite list_fmap_insert, Hf. apply list_insert_id.
    by rewrite list_lookup_fmap, Hg. }
  split.
  - destruct Hok. split; cbn; unfold wr; rewrite ?(Hmap _ gr_hash) by done; unfold zlen; rewrite ?length_insert; try done.
    + destruct go_table0 as [[-> E0]|]; [|by right]. by rewrite E0 in Hg.
    + apply Forall_insert; [done|]. rewrite Forall_lookup in go_keys0. by apply (go_keys0 _ _ Hg).
    + assert (Hk : ∀ k h, <[Z.to_nat i := Group (gr_hash g) (gr_keys g) outs counts]> (x_groups x) !! k = Some h →
        ∃ h', x_groups x !! k = Some h' ∧ gr_keys h = gr_keys h').
      { intros k h [(<-&<-&_)|[_ ?]]%list_lookup_insert_Some; by eexists. }
      intros k j h h' Hkk Hj. destruct (Hk _ _ Hkk) as (h1&?&->), (Hk _ _ Hj) as (h2&?&->). by apply go_distinct0.
  - exists (view g), outs, counts. split_and!; [by rewrite list_lookup_fmap, Hg|done|].
    cbn. unfold wr. change (map view) with (fmap (M := list) view). by rewrite list_fmap_insert.
Qed.
Lemma ref_enter_lt keys l i l' : ref_enter keys l = (i, l') → (i < length l')%nat.
Proof.
  unfold ref_enter. destruct (ref_find keys l 0) as [k|] eqn:E; intros [= <- <-]; [|rewrite length_app; cbn; lia].
  assert (Hf : ∀ n, ref_find keys l n = Some k → (k < n + length l)%nat); [|by apply Hf in E].
  clear E. induction l as [|g l IH]; intros n; cbn [ref_find length]; [done|].
  case_match; [intros [= <-]; lia|]. intros Hk%IH. lia.
Qed.

Context (Hkeys : key_types p = (if qo_bucket_width_us (pl_options p) =? 0 then [] else [WADB_TIMESTAMP_US]) ++ map (field_type p) (pl_groups p)).
Context (Hfields : Forall (λ i, 0 ≤ i < zlen (fields (pl_schema p))) (pl_groups p)).
Context (Hwidth : 0 ≤ qo_bucket_width_us (pl_options p)).

(** A decoded row. *)
Definition typed_row (values : list wadb_value) : Prop := Forall2 typed (map f_type (fields (pl_schema p))) values.

Lemma typed_i64 t v : typed t v → is_i64 (as_i64 v).
Proof.
  destruct v; cbn [typed as_i64]; intros H; destruct_and?; try done; apply i64_of_u64_range; done.
Qed.
Lemma row_keys_typed values keys : typed_row values → row_keys p values = Ok keys → typed_keys keys.
Proof using Hkeys Hfields Hwidth.
  intros Hr. unfold row_keys, typed_keys. rewrite Hkeys.
  assert (Hg : Forall2 typed (map (field_type p) (pl_groups p)) (map (λ i, nth (Z.to_nat i) values VNull) (pl_groups p))).
  { pose proof Hfields as Hl. revert Hl. generalize (pl_groups p). intros l Hl.
    induction Hl as [|i l Hi _ IH]; cbn [map]; [constructor|]. constructor; [|exact IH].
    unfold field_type, znth. destruct (Z.ltb_spec i 0); [lia|].
    destruct (lookup_lt_is_Some_2 (fields (pl_schema p)) (Z.to_nat i)) as [fd Hfd]; [unfold zlen in *; lia|].
    rewrite Hfd. destruct (Forall2_lookup_l _ _ _ (Z.to_nat i) (f_type fd) Hr) as (v&Hv&Ht); [by rewrite list_lookup_fmap, Hfd|].
    by rewrite (nth_lookup_Some _ _ _ _ Hv). }
  destruct (Z.eqb_spec (qo_bucket_width_us (pl_options p)) 0) as [_|Hw]; cbn [mbind result_bind].
  { intros [= <-]. done. }
  destruct (wadb_bucket_floor _ _ _) as [b|e] eqn:E; cbn [mbind result_bind]; [|done]. intros [= <-].
  cbn [app]. constructor; [|done]. split; [done|]. rewrite bucket_floor_start in E by lia.
  case_match eqn:Hb; [done|]. injection E as <-. apply Z.ltb_ge in Hb.
  pose proof (proj1 (bucket_start_spec (as_i64 (nth 0 values VNull)) (qo_bucket_width_us (pl_options p))
    (qo_bucket_origin_us (pl_options p)) ltac:(lia))).
  assert (is_i64 (as_i64 (nth 0 values VNull))) as [? ?]; [|split; lia].
  destruct Hr as [|t v ts vs Hv _]; [by cbn|]. cbn [nth]. by apply (typed_i64 t).
Qed.
Lemma row_keys_errors values e : row_keys p values = Err e → e = WADB_LIMIT.
Proof.
  unfold row_keys, wadb_bucket_floor. case_match; cbn; [done|]. case_match; cbn; [|done]. by intros [= <-].
Qed.

Context (Hagg : aggregated p = true).

Lemma consume_spec sequence values x : groups_ok x → typed_row values →
  wp (consume p sequence values) (λ r x', match r with
    | Ok _ => groups_ok x' ∧ ref_row values (map view (x_groups x)) = Ok (map view (x_groups x'))
    | Err e => resource_error e
    end) x.
Proof using Hmax Hkeys Hfields Hwidth Hagg.
  intros Hok Hr. unfold consume, ref_row. apply wp_bind. unfold wp at 1, xset. cbn [fst snd].
  set (x1 := with_progress _ _ _ _ x). assert (Hs1 : same_groups x x1) by done. clearbody x1.
  pose proof (groups_ok_same _ _ Hs1 Hok) as Hok1. destruct Hs1 as [E1 _]. rewrite <-E1. clear Hok E1 x.
  destruct (matches_filters p values); cbn [negb]; [|by apply wp_ret].
  apply wp_bind. unfold wp at 1, xget. cbn [fst snd]. destruct (x_matched_rows x1 =? UINT64_MAX); [apply wp_fail; by left|].
  apply wp_bind. unfold wp at 1, xset. cbn [fst snd].
  set (x2 := with_progress _ _ _ _ x1). assert (Hs2 : same_groups x1 x2) by done. clearbody x2.
  pose proof (groups_ok_same _ _ Hs2 Hok1) as Hok2. destruct Hs2 as [E2 _]. rewrite <-E2. clear Hok1 E2 x1.
  unfold consume_match. rewrite Hagg. cbn [negb]. apply wp_bind. unfold wp at 1, mlift. cbn [fst snd].
  destruct (row_keys p values) as [keys|e] eqn:Ek; [|apply row_keys_errors in Ek as ->; by left].
  apply row_keys_typed in Ek; [|done]. cbn [mbind result_bind].
  apply wp_bind. eapply wp_mono; [by apply group_for_spec|]. cbn beta. intros [i|e] x3 H3; [|done]. cbn beta iota.
  destruct H3 as (Hok3&Hi&Hen). rewrite Hen. pose proof (ref_enter_lt _ _ _ _ Hen) as Hlt. rewrite length_map in Hlt.
  eapply wp_mono; [by apply reduce_spec|]. cbn beta. intros [_u|e] x4 H4; [|done].
  destruct H4 as (Hok4&g&outs&counts&Hg&Hred&Hv). split; [done|]. rewrite Hg, Hred, Hv. done.
Qed.

(** A run of the callback over the rows a scan delivers. *)
Fixpoint consume_rows (rows : list (Z * list wadb_value)) : M execution unit :=
  match rows with
  | [] => mret ()
  | (sequence, values) :: rows' => _ ← consume p sequence values; consume_rows rows'
  end.
Lemma consume_rows_spec rows x : groups_ok x → Forall (λ r, typed_row r.2) rows →
  wp (consume_rows rows) (λ r x', match r with
    | Ok _ => groups_ok x' ∧ ref_rows rows (map view (x_groups x)) = Ok (map view (x_groups x'))
    | Err e => resource_error e
    end) x.
Proof using Hmax Hkeys Hfields Hwidth Hagg.
  intros Hok Hr. revert x Hok. induction Hr as [|[sequence values] rows Hv Hr IH]; intros x Hok; cbn [consume_rows ref_rows].
  { by apply wp_ret. }
  apply wp_bind. eapply wp_mono; [by apply consume_spec|]. cbn beta. intros [_u|e] x' H; [|done]. cbn beta iota.
  destruct H as [Hok' ->]. cbn [mbind result_bind]. by apply IH.
Qed.

(** ** Groups that exist from the start *)

Definition seed_keys (bucket : Z) : list wadb_value :=
  if qo_bucket_width_us (pl_options p) =? 0 then [] else [VI64 bucket].
Fixpoint ref_seeds (n : nat) (bucket : Z) (l : list ref_group) : list ref_group :=
  match n with
  | O => l
  | S n' => ref_seeds n' (bucket + qo_bucket_width_us (pl_options p)) (ref_enter (seed_keys bucket) l).2
  end.
Lemma seed_keys_typed bucket : pl_groups p = [] → is_i64 bucket → typed_keys (seed_keys bucket).
Proof using Hkeys.
  intros Hng Hb. unfold typed_keys. rewrite Hkeys, Hng. unfold seed_keys. destruct (_ =? 0); repeat constructor; apply Hb.
Qed.
Lemma seed_groups_spec n deadline bucket i x w :
  pl_groups p = [] → groups_ok x → (∀ k, 0 ≤ k < Z.of_nat n → is_i64 (bucket + k * qo_bucket_width_us (pl_options p))) →
  wp (seed_groups n p deadline bucket i x) (λ r _, match r with
    | Ok (Ok _, x') => groups_ok x' ∧ map view (x_groups x') = ref_seeds n bucket (map view (x_groups x))
    | Ok (Err e, _) => resource_error e
    | Err _ => False
    end) w.
Proof using Hmax Hkeys.
  intros Hng. revert bucket i x w. induction n as [|n IH]; intros bucket i x w Hok Hb; cbn [seed_groups ref_seeds].
  { by apply wp_ret. }
  apply wp_bind.
  assert (Hlate : wp (if i `mod` 256 =? 0 then now ← wadb_monotonic_ns; mret (now >=? deadline) else mret false)
    (λ r _, ∃ b : bool, r = Ok b) w).
  { destruct (i `mod` 256 =? 0); [|by exists false]. unfold wp, wadb_monotonic_ns. cbn. by eexists. }
  eapply wp_mono; [exact Hlate|]. cbn beta. intros r w' [late ->]. destruct late; [by left|].
  assert (Hk : typed_keys (seed_keys bucket)).
  { apply seed_keys_typed; [done|]. specialize (Hb 0 ltac:(lia)). by rewrite Z.mul_0_l, Z.add_0_r in Hb. }
  fold (seed_keys bucket). destruct (group_for p (seed_keys bucket) x) as [[j|e] x'] eqn:E.
  - eapply wp_out in E; [|by apply group_for_spec]. cbn beta iota in E.
    destruct E as (Hok'&_&Hen). eapply wp_mono; [apply IH; [done|]|].
    + intros k Hk0. case_bool_decide; [lia|]. specialize (Hb (k + 1) ltac:(lia)).
        by replace (bucket + qo_bucket_width_us (pl_options p) + k * qo_bucket_width_us (pl_options p))
          with (bucket + (k + 1) * qo_bucket_width_us (pl_options p)) by lia.
    + cbn beta. intros [[[_u|e] x'']|e] w2 H; [|done..]. destruct H as [Hok'' ->]. split; [done|].
        rewrite Hen. cbn [snd]. case_bool_decide as Hn; [by subst n|done].
  - apply wp_ret. by eapply wp_out in E; [|by apply group_for_spec].
Qed.
End grouping.

(** ** Compiled plans *)

Lemma add_column_app columns name type columns' :
  add_column columns name type = Ok columns' → columns' = columns ++ [Column name type].
Proof. unfold add_column. repeat case_match; by intros [= <-]. Qed.
Lemma field_columns_types s l columns columns' : field_columns s l columns = Ok columns' →
  map rc_type columns' = map rc_type columns ++
    map (λ i, match znth (fields s) i with Some fd => f_type fd | None => WADB_TYPE_OTHER 0 end) l ∧
  Forall (λ i, 0 ≤ i < zlen (fields s)) l.
Proof.
  revert columns. induction l as [|i l IH]; intros columns; cbn [field_columns map].
  { intros [= <-]. by rewrite app_nil_r. }
  destruct (znth (fields s) i) as [fd|] eqn:Ei; [|done].
  destruct (add_column _ _ _) as [columns1|] eqn:E; cbn [mbind result_bind]; [|done]. intros [Ht Hf]%IH.
  apply add_column_app in E as ->. rewrite Ht, map_app, <-app_assoc. split; [done|]. constructor; [|done].
  unfold znth in Ei. destruct (Z.ltb_spec i 0); [done|]. apply lookup_lt_Some in Ei. unfold zlen. lia.
Qed.
Lemma compile_aggregates_prefix s l columns rs columns' :
  compile_aggregates s l columns = Ok (rs, columns') → columns `prefix_of` columns'.
Proof.
  revert columns rs. induction l as [|a l IH]; intros columns rs; cbn [compile_aggregates]; [by intros [= _ <-]|].
  destruct (znth _ _); [|done]. destruct (_ && _); [done|].
  destruct (add_column _ _ _) as [columns1|] eqn:E; cbn [mbind result_bind]; [|done].
  destruct (compile_aggregates _ _ _) as [[rs' columns2]|] eqn:E'; cbn [mbind result_bind]; [|done].
  intros [= _ <-]. apply IH in E'. apply add_column_app in E as ->. etrans; [|exact E']. by apply prefix_app_r.
Qed.
(** What a plan with aggregates promises to the executor. *)
Record grouping_plan (s : wadb_schema) (o : wadb_query_options) (p : wadb_query_plan) : Prop := {
  gp_schema : pl_schema p = s;
  gp_options : pl_options p = o;
  gp_keys : key_types p = (if qo_bucket_width_us o =? 0 then [] else [WADB_TIMESTAMP_US]) ++ map (field_type p) (pl_groups p);
  gp_fields : Forall (λ i, 0 ≤ i < zlen (fields s)) (pl_groups p);
  gp_groups : pl_groups p = map (wadb_schema_find s) (qo_group_by o);
  gp_width : 0 ≤ qo_bucket_width_us o;
  gp_max : qo_max_groups o ≤ 1000000;
  gp_buckets : qo_bucket_width_us o ≠ 0 → bucket_range o = Ok (pl_first_bucket p, pl_bucket_count p);
  gp_unbucketed : qo_bucket_width_us o = 0 → pl_first_bucket p = 0;
  gp_max_buckets : qo_max_buckets o ≤ 1000000;
}.
Lemma compile_grouping_plan s o ps a p : shape_invalid o = false → compile_grouping s o ps a = Ok p → grouping_plan s o p.
Proof.
  intros Hs. unfold compile_grouping.
  destruct (if negb (qo_bucket_width_us o =? 0) then add_column [] _ WADB_TIMESTAMP_US else Ok []) as [c0|] eqn:E0; cbn [mbind result_bind]; [|done].
  destruct (if negb (qo_bucket_width_us o =? 0) then bucket_range o else Ok (0, 0)) as [[first count]|] eqn:Er; cbn [mbind result_bind]; [|done].
  destruct (field_columns _ _ _) as [c1|] eqn:E1; cbn [mbind result_bind]; [|done].
  destruct (compile_aggregates _ _ _) as [[rs c2]|] eqn:E2; cbn [mbind result_bind]; [|done].
  destruct (find_order _ _) as [order|]; cbn [mbind result_bind]; [|done]. intros [= <-].
  apply field_columns_types in E1 as [Ht Hf]. apply compile_aggregates_prefix in E2 as [c3 ->].
  unfold shape_invalid in Hs. repeat apply orb_false_iff in Hs as [Hs ?].
  split; cbn; try done; [|lia|lia|by destruct (Z.eqb_spec (qo_bucket_width_us o) 0)| |lia].
  2: { intros E. rewrite E in Er. cbn in Er. by simplify_eq. }
  unfold key_types, field_type. cbn. unfold zlen. rewrite Nat2Z.id, take_app_length, Ht. f_equal.
  destruct (qo_bucket_width_us o =? 0); cbn [negb] in E0; [by injection E0 as <-|]. by apply add_column_app in E0 as ->.
Qed.
Lemma compile_plan s o w p w' : wadb_query_compile s o w = (Ok p, w') → aggregated p = true → grouping_plan s o p.
Proof.
  unfold wadb_query_compile. destruct (shape_invalid o) eqn:Hs; [done|]. unfold mbind at 1, M_bind at 1.
  destruct (os_malloc w) as [[[]|] w1]; cbn [negb]; [|done..]. unfold mbind, M_bind.
  destruct (compile_filters _ _ _ _ _) as [[[ps a]|] w2]; [|done]. unfold mlift.
  destruct (Z.eqb_spec (zlen (qo_aggregates o)) 0) as [Hz|Hz]; intros [= Hp _] Ha; [|by eapply compile_grouping_plan].
  exfalso. revert Hp Ha. unfold compile_scan. destruct (field_columns _ _ _); cbn [mbind result_bind]; [|done]. intros [= <-].
  unfold aggregated. cbn. by rewrite Hz.
Qed.

(** The last bucket starts before the end of the range. *)
Lemma bucket_range_i64 o first count k : 0 < qo_bucket_width_us o → qo_max_buckets o ≤ 1000000 →
  is_i64 (so_start_time (qo_scan o)) → is_i64 (so_end_time (qo_scan o)) → so_start_time (qo_scan o) ≤ so_end_time (qo_scan o) →
  bucket_range o = Ok (first, count) → 0 ≤ k < count → is_i64 (first + k * qo_bucket_width_us o).
Proof.
  intros Hw Hmax Hst Hen Hle. unfold bucket_range. destruct (Z.eqb_spec (so_start_time (qo_scan o)) (so_end_time (qo_scan o))) as [|Hne].
  { intros [= <- <-]. lia. }
  rewrite !bucket_floor_start by done.
  destruct (bucket_start_steps (so_start_time (qo_scan o)) (so_end_time (qo_scan o) - 1) _ (qo_bucket_origin_us o) Hw ltac:(lia)) as [Hs Hb].
  pose proof (proj1 (bucket_start_spec (so_start_time (qo_scan o)) _ (qo_bucket_origin_us o) Hw)) as H1.
  pose proof (proj1 (bucket_start_spec (so_end_time (qo_scan o) - 1) _ (qo_bucket_origin_us o) Hw)) as H2.
  generalize dependent (bucket_start (so_start_time (qo_scan o)) (qo_bucket_width_us o) (qo_bucket_origin_us o)). intros a Ha Hb Ha'.
  generalize dependent (bucket_start (so_end_time (qo_scan o) - 1) (qo_bucket_width_us o) (qo_bucket_origin_us o)). intros b Hab Hb Hb'.
  destruct (Z.ltb_spec a INT64_MIN) as [|Hamin]; cbn [mbind result_bind]; [done|].
  destruct (Z.ltb_spec b INT64_MIN) as [|Hbmin]; cbn [mbind result_bind]; [done|].
  assert (E : u64 (u64 b - u64 a) = b - a) by (unfold u64; mlia). rewrite E.
  destruct (Z.geb_spec ((b - a) / qo_bucket_width_us o) (qo_max_buckets o)) as [|Hlt]; [done|]. intros [= <- <-] Hk.
  pose proof (Z.div_pos (b - a) (qo_bucket_width_us o) ltac:(lia) Hw). rewrite u32_id in Hk by (unfold is_u32, UINT32_MAX; lia).
  assert (k * qo_bucket_width_us o ≤ (b - a) / qo_bucket_width_us o * qo_bucket_width_us o) by (apply Z.mul_le_mono_nonneg_r; lia).
  assert (0 ≤ k * qo_bucket_width_us o) by (apply Z.mul_nonneg_nonneg; lia). split; [lia|]. unfold is_i64 in *. lia.
Qed.
(** The groups of the reference before the first row. *)
Definition ref_start (p : wadb_query_plan) : list ref_group :=
  if aggregated p && (zlen (qo_group_by (pl_options p)) =? 0) then
    ref_seeds p (Z.to_nat (if qo_bucket_width_us (pl_options p) =? 0 then 1 else pl_bucket_count p)) (pl_first_bucket p) []
  else [].

(** C1: Grouping by hash table is grouping by linear search: after a plan with aggregates
    was compiled and its initial groups were created, running the callback over decoded
    rows either yields exactly the groups that the reference computes by comparing keys
    from the front, with the same keys, aggregates and order, or stops with a limit or
    for lack of memory. *)
Theorem grouping_refines s o w p w1 deadline after allocs w2 w3 x rows r x' :
  is_i64 (so_start_time (qo_scan o)) → is_i64 (so_end_time (qo_scan o)) → is_u32 (qo_max_groups o) →
  wadb_query_compile s o w = (Ok p, w1) → aggregated p = true →
  create_seeds p deadline (initial_exec p after allocs) w2 = (Ok (Ok (), x), w3) →
  Forall (λ row, typed_row p row.2) rows → consume_rows p rows x = (r, x') →
  match r with
  | Ok _ => ref_rows p rows (ref_start p) = Ok (map view (x_groups x'))
  | Err e => e = WADB_LIMIT ∨ e = WADB_NOMEM
  end.
Proof.
  intros Hst Hen Hu Hc Ha Hseed Hrows Hrun.
  assert (Hle : so_start_time (qo_scan o) ≤ so_end_time (qo_scan o)).
  { unfold wadb_query_compile in Hc. destruct (shape_invalid o) eqn:Hs; [done|]. unfold shape_invalid in Hs.
    repeat apply orb_false_iff in Hs as [Hs ?]. lia. }
  apply compile_plan in Hc as [Es Eo Hk Hf Hg Hw Hm Hb Hn Hmb]; [|done]. subst s o.
  assert (Hmax : qo_max_groups (pl_options p) ≤ UINT32_MAX) by apply Hu.
  assert (Hinit : groups_ok p (initial_exec p after allocs)).
  { split; cbn; [by left|done|constructor|done|apply Hu]. }
  assert (Hx : groups_ok p x ∧ map view (x_groups x) = ref_start p).
  { revert Hseed. unfold create_seeds, ref_start. rewrite Ha. cbn [andb].
    destruct (Z.eqb_spec (zlen (qo_group_by (pl_options p))) 0) as [Hz|Hz]; [|by intros [= <- _]].
    cbv zeta. intros Hseed. eapply wp_out in Hseed; [|apply seed_groups_spec; try done]; [done|..].
    - rewrite Hg. destruct (qo_group_by (pl_options p)) as [|g l]; [done|]. rewrite zlen_cons in Hz. pose proof (zlen_nonneg l). lia.
    - intros k. destruct (Z.eqb_spec (qo_bucket_width_us (pl_options p)) 0) as [E|Hne].
      + intros _. rewrite Hn, E, Z.mul_0_r by done. by vm_compute.
      + intros Hkk. apply (bucket_range_i64 _ _ (pl_bucket_count p)); auto; lia. }
  destruct Hx as [Hok Hv]. eapply wp_out in Hrun; [|by apply consume_rows_spec].
  cbn beta in Hrun. rewrite <-Hv. destruct r; apply Hrun.
Qed.

Definition gr_schema : wadb_schema :=
  Schema 20 1 0 [time_field; Field [120] WADB_F64 0 true 8 8 0; Field [110] WADB_U32 0 false 16 4 UINT32_MAX].
(** Rows per [x] in hours of ten units, those with [n] of at least 100 left out. *)
Definition gr_options : wadb_query_options :=
  QueryOptions (ScanOptions 0 100 0 1000 10 10) [] [Filter [110] WADB_LT (VU64 100)] [[120]]
    [Aggregate WADB_COUNT_ALL None [99]; Aggregate WADB_SUM (Some [110]) [115]] 10 3 10 20 30000 None false.
Definition gr_os : os := Os ∅ ∅ [] [true; true] [1; 2; 3] [].
Definition gr_plan : wadb_query_plan :=
  match wadb_query_compile gr_schema gr_options gr_os with (Ok p, _) => p | _ => Plan gr_schema gr_options [] [] [] [] [] 0 0 0 0 0 end.
(** Plus and minus zero are one key, null is another. *)
Definition gr_rows : list (Z * list wadb_value) :=
  [(1, [VI64 21; VF64 0; VU64 5]); (2, [VI64 22; VF64 (2 ^ 63); VU64 7]); (3, [VI64 22; VNull; VU64 1]);
   (4, [VI64 22; VNull; VU64 100]); (5, [VI64 23; VF64 0; VU64 9])].
Definition gr_start : execution := initial_exec gr_plan 0 [].
Lemma grouping_refines_witness :
  (consume_rows gr_plan gr_rows gr_start).1 = Ok () ∧
  ref_rows gr_plan gr_rows (ref_start gr_plan) = Ok (map view (x_groups (consume_rows gr_plan gr_rows gr_start).2)) ∧
  map view (x_groups (consume_rows gr_plan gr_rows gr_start).2) =
    [RefGroup [VI64 13; VF64 0] [VU64 2; VU64 12] [2; 2]; RefGroup [VI64 13; VNull] [VU64 1; VU64 1] [1; 1];
     RefGroup [VI64 23; VF64 0] [VU64 1; VU64 9] [1; 1]].
Proof.
  split; [vm_compute; reflexivity|]. split; [|vm_compute; reflexivity].
  refine (grouping_refines gr_schema gr_options gr_os gr_plan (wadb_query_compile gr_schema gr_options gr_os).2 50 0 [] gr_os gr_os
    gr_start gr_rows (Ok ()) (consume_rows gr_plan gr_rows gr_start).2 _ _ _ _ _ _ _ _).
  - vm_compute; split; discriminate.
  - vm_compute; split; discriminate.
  - vm_compute; split; discriminate.
  - vm_compute. reflexivity.
  - vm_compute. reflexivity.
  - vm_compute. reflexivity.
  - repeat constructor; vm_compute; try reflexivity; discriminate.
  - vm_compute. reflexivity.
Defined.
