(* ===== verification/Integrity.v ===== *)
(** * Integrity checks (src/storage/integrity.c)

    Every committed byte of a snapshot is read again and checked against the segment
    records, within a byte budget and a deadline; corruption makes the table read-only. *)

From stdpp Require Import base numbers list list_numbers gmap.
From S2P Require Import Prelude Encoding Schema Format Rows Dictionary Files Engine Stats Metadata Paths Index Segments Reader Retention Snapshot Scan.

Record wadb_integrity_options := IntegrityOptions {
  io_max_scan_bytes : Z;
  io_timeout_ms : Z;
}.
Definition wadb_integrity_options_default : wadb_integrity_options := IntegrityOptions (1024 * 1024 * 1024) 60000.
Record wadb_integrity_stats := IntegrityStats {
  is_segments : Z;
  is_frames : Z;
  is_rows : Z;
  is_bytes : Z;
  is_snapshot_sequence : Z;
}.

(** The state of a check: the statistics, which survive an error, the answers of the
    caller's [cancelled] function, and the engine. *)
Record check_state := CheckState {
  ck_stats : wadb_integrity_stats;
  ck_cancelled : list bool;
  ck_os : os;
}.
Definition ck_step {A} (m : M os A) : M check_state A := λ k,
  let '(r, w) := m (ck_os k) in (r, CheckState (ck_stats k) (ck_cancelled k) w).
Definition ck_get : M check_state wadb_integrity_stats := λ k, (Ok (ck_stats k), k).
Definition ck_count (segs frames rows nbytes : Z) : M check_state unit := λ k,
  let s := ck_stats k in
  (Ok (), CheckState (IntegrityStats (u64 (is_segments s + segs)) (u64 (is_frames s + frames)) (u64 (is_rows s + rows))
             (u64 (is_bytes s + nbytes)) (is_snapshot_sequence s)) (ck_cancelled k) (ck_os k)).
Definition ask_cancelled : M check_state bool := λ k,
  (Ok (hd false (ck_cancelled k)), CheckState (ck_stats k) (tl (ck_cancelled k)) (ck_os k)).

Definition check_limits (deadline : Z) : M check_state unit :=
  cancelled ← ask_cancelled;
  if cancelled : bool then mfail WADB_CANCELLED
  else
    now ← ck_step wadb_monotonic_ns;
    if now >=? deadline then mfail WADB_LIMIT else mret ().

(** ** One segment *)

Record check_position := Position {
  cp_offset : Z;
  cp_last_sequence : Z;
  cp_last_time : Z;
  cp_dictionary : wadb_dictionary;
}.
Definition check_frame_fits (t : table_identity) (s : wadb_segment_meta) (cp : check_position) (f : wadb_frame) : bool :=
  negb (negb (fr_schema_hash f =? fingerprint (t_schema t)) || negb (fr_row_width f =? row_width (t_schema t)) ||
    (cp_last_sequence cp =? UINT64_MAX) || negb (fr_first_sequence f =? cp_last_sequence cp + 1) ||
    (fr_min_time f <? cp_last_time cp) || (fr_max_time f >? sg_max_time s) ||
    negb (Z.quot (fr_min_time f) WADB_DAY_US =? Z.quot (sg_day_start s) WADB_DAY_US) ||
    ((cp_offset cp =? WADB_SEGMENT_HEADER_BYTES) && negb (fr_min_time f =? sg_min_time s))).
Fixpoint check_rows (n : nat) (sch : wadb_schema) (d : wadb_dictionary) (f : wadb_frame) (deadline row : Z)
    : M check_state unit :=
  match n with
  | O => mret ()
  | S n' =>
      _ ← (if row `mod` 256 =? 0 then check_limits deadline else mret ());
      _ ← mlift (wadb_validate_row sch (sub (fr_rows f) (row * fr_row_width f) (fr_row_width f))
                   (Some (wadb_dictionary_resolve d)));
      check_rows n' sch d f deadline (row + 1)
  end.
Definition check_frame (t : table_identity) (s : wadb_segment_meta) (content : list Z) (deadline : Z)
    (cp : check_position) : M check_state check_position :=
  _ ← check_limits deadline;
  if sg_committed_bytes s - cp_offset cp <? WADB_FRAME_HEADER_BYTES then mfail WADB_CORRUPT
  else
    header ← ck_step (wadb_pread_all content WADB_FRAME_HEADER_BYTES (cp_offset cp));
    f ← mlift (wadb_frame_inspect header);
    if fr_frame_bytes f >? sg_committed_bytes s - cp_offset cp then mfail WADB_CORRUPT
    else
      buffer ← ck_step os_malloc;
      if negb buffer then mfail WADB_NOMEM
      else
        bytes ← ck_step (wadb_pread_all content (fr_frame_bytes f) (cp_offset cp));
        _ ← ck_count 0 0 0 (fr_frame_bytes f);
        f ← mlift (wadb_frame_decode bytes);
        if negb (check_frame_fits t s cp f) then mfail WADB_CORRUPT
        else
          '(applied, d) ← ck_step (run_dictionary (cp_dictionary cp) (wadb_dictionary_apply f));
          _ ← mlift applied;
          _ ← check_rows (Z.to_nat (fr_row_count f)) (t_schema t) d f deadline 0;
          _ ← ck_count 0 1 (fr_row_count f) 0;
          mret (Position (cp_offset cp + fr_frame_bytes f) (u64 (fr_first_sequence f + fr_row_count f - 1))
                  (fr_max_time f) d).
(** The loop over the frames; a frame has at least 96 bytes, which bounds the fuel. *)
Fixpoint check_frames (fuel : nat) (t : table_identity) (s : wadb_segment_meta) (content : list Z) (deadline : Z)
    (cp : check_position) : M check_state check_position :=
  if cp_offset cp >=? sg_committed_bytes s then mret cp
  else
    match fuel with
    | O => mret cp
    | S fuel' =>
        cp' ← check_frame t s content deadline cp;
        check_frames fuel' t s content deadline cp'
    end.
Definition size_contradicts (s : wadb_segment_meta) (size : Z) : bool :=
  (size <? sg_committed_bytes s) ||
  (bool_decide (sg_state s = WADB_SEG_SEALED) && negb (size =? sg_committed_bytes s)).
Definition check_segment (t : table_identity) (limit : Z) (s : wadb_segment_meta) (max_scan_bytes deadline : Z)
    : M check_state unit :=
  st ← ck_get;
  if sg_committed_bytes s >? u64 (max_scan_bytes - is_bytes st) then mfail WADB_LIMIT
  else
    content ← ck_step (open_segment t s);
    header ← ck_step (wadb_pread_all content WADB_SEGMENT_HEADER_BYTES 0);
    _ ← ck_count 0 0 0 WADB_SEGMENT_HEADER_BYTES;
    h ← mlift (wadb_segment_decode header);
    if negb (identity_matches t s h) then mfail WADB_CORRUPT
    else
      stat ← ck_step syscall;
      if negb stat || size_contradicts s (zlen content) then mfail WADB_CORRUPT
      else
        d ← ck_step (new_dictionary (t_schema t) limit);
        cp ← check_frames (Z.to_nat (sg_committed_bytes s / 96)) t s content deadline
               (Position WADB_SEGMENT_HEADER_BYTES (u64 (sg_first_sequence s - 1)) (sg_min_time s) d);
        if negb (cp_last_sequence cp =? sg_last_sequence s) || negb (cp_last_time cp =? sg_max_time s)
        then mfail WADB_CORRUPT
        else ck_count 1 0 0 0.

(** ** A table *)

Definition follows_previous (previous : option wadb_segment_meta) (s : wadb_segment_meta) : bool :=
  match previous with
  | None => true
  | Some q => (sg_first_sequence s =? u64 (sg_last_sequence q + 1)) && (sg_max_time q <=? sg_min_time s)
  end.
Fixpoint check_segments (t : table_identity) (limit max_scan_bytes deadline : Z)
    (previous : option wadb_segment_meta) (l : list wadb_segment_meta) : M check_state unit :=
  match l with
  | [] => mret ()
  | s :: l' =>
      if negb (follows_previous previous s) then mfail WADB_CORRUPT
      else
        _ ← check_limits deadline;
        _ ← check_segment t limit s max_scan_bytes deadline;
        check_segments t limit max_scan_bytes deadline (Some s) l'
  end.
(** [wadb_integrity_check] after the expiry of cursors. *)
Definition integrity_check (o : wadb_integrity_options) (cancelled : list bool)
    : M engine (wadb_integrity_stats * result unit) :=
  t ← get_table;
  db ← get_db;
  now ← in_os wadb_monotonic_ns;
  let deadline := u64 (now + io_timeout_ms o * 1000000) in
  acquired ← mtry (wadb_snapshot_acquire None);
  '(st, status) ← (match acquired with
    | Err e => mret (IntegrityStats 0 0 0 0 0, Err e)
    | Ok sn =>
        '(st, status) ← in_os (λ w,
          let '(r, k) := check_segments (identity t) (o_dictionary_limit_bytes (db_options db)) (io_max_scan_bytes o)
              deadline None (sn_segments sn) (CheckState (IntegrityStats 0 0 0 0 (sn_sequence sn)) cancelled w) in
          (Ok (ck_stats k, r), ck_os k));
        _ ← wadb_snapshot_release sn;
        mret (st, status)
    end);
  _ ← (match status with Err WADB_CORRUPT => set_table (with_read_only true) | _ => mret () end);
  mret (st, status).
Definition integrity_options_invalid (o : wadb_integrity_options) : bool :=
  (io_max_scan_bytes o =? 0) || (io_timeout_ms o =? 0) || (io_timeout_ms o >? 3600000).
