(* ===== verification/Database.v ===== *)
(** * The database: catalog, tables and opening (src/core/database.c, src/storage/metadata.c)

    The state of a whole database: the shared record, its tables, the open cursors
    and the environment. Operations on one table are run on it by position, which
    stands for the table pointer. *)

From Stdlib Require Import String.
From stdpp Require Import base numbers list list_numbers gmap.
From S2P Require Import Prelude Encoding Schema Format Rows Dictionary Files Engine Stats Metadata Paths Index Segments Reader Retention Recovery Snapshot Plan.

(** ** State *)

Record cursor := Cursor {
  cu_table : Z;
  cu_plan : wadb_query_plan;
  cu_snapshot : wadb_snapshot;
  cu_id : Z;
  cu_deadline : Z;
  cu_after : Z;
  cu_remaining_bytes : Z;
  cu_busy : bool;
}.
Record database := Database {
  g_db : wadb_db;
  g_tables : list wadb_table;
  g_cursors : list cursor;
  g_next_cursor_id : Z;
  g_writer_started : bool;
  g_os : os;
}.
Definition g_step {A} (m : M os A) : M database A := λ g,
  let '(r, w) := m (g_os g) in
  (r, Database (g_db g) (g_tables g) (g_cursors g) (g_next_cursor_id g) (g_writer_started g) w).
Definition get_database : M database database := λ g, (Ok g, g).
Definition update_db (f : wadb_db → wadb_db) : M database unit := λ g,
  (Ok (), Database (f (g_db g)) (g_tables g) (g_cursors g) (g_next_cursor_id g) (g_writer_started g) (g_os g)).
Definition push_table (t : wadb_table) : M database unit := λ g,
  (Ok (), Database (g_db g) (g_tables g ++ [t]) (g_cursors g) (g_next_cursor_id g) (g_writer_started g) (g_os g)).
(** An operation of the table at position [i]. *)
Definition on_table {A} (i : Z) (m : M engine A) : M database A := λ g,
  match g_tables g !! Z.to_nat i with
  | None => (Err WADB_INVALID, g)
  | Some t =>
      let '(r, e) := m (Eng (g_db g) t (g_os g)) in
      (r, Database (e_db e) (<[Z.to_nat i := e_table e]> (g_tables g)) (g_cursors g) (g_next_cursor_id g)
            (g_writer_started g) (e_os e))
  end.

(** A table as [calloc] leaves it, with what its metadata files say. *)
Definition new_table (t : table_identity) (m : table_manifest) : wadb_table :=
  Table t m (Tail None None empty_index 0 0) (Readable [] 0) (Counters 0 0 0 0 0 0 0) 0 false false WADB_OK.

(** ** Loading the catalog *)

Definition catalog_id (p : list Z) (i : Z) : Z := wadb_get_u64 p (32 + i * 8).
(** Schema, manifest and recovery of one table that is not yet in the database. *)
Definition load_metadata (id : Z) (directory : path) : M os (table_identity * table_manifest) :=
  t ← wadb_load_schema id directory;
  m ← wadb_load_manifest t;
  mret (t, m).
Definition recover_table (db : wadb_db) (t : table_identity) (m : table_manifest) : M os wadb_table := λ w,
  let '(r, e) := wadb_storage_recover (Eng db (new_table t m) w) in
  (match r with Ok _ => Ok (e_table e) | Err s => Err s end, e_os e).
Definition missing_is_corrupt {A} (r : result A) : result A :=
  match r with Err WADB_NOT_FOUND => Err WADB_CORRUPT | r => r end.
Definition load_table (db : wadb_db) (tables : path) (id : Z) : M os wadb_table :=
  allocated ← os_malloc;
  if negb allocated then mfail WADB_NOMEM
  else
    directory ← wadb_id_path tables id;
    match directory with
    | None => mfail WADB_NOMEM
    | Some directory =>
        loaded ← mtry ('(t, m) ← load_metadata id directory; recover_table db t m);
        mlift (missing_is_corrupt loaded)
    end.
Definition name_taken (tables : list wadb_table) (name : list Z) : bool :=
  existsb (λ t, bytes_eqb (t_name (identity t)) name) tables.
Fixpoint load_tables (n : nat) (p : list Z) (tables : path) (i next previous : Z) : M database unit :=
  match n with
  | O => mret ()
  | S n' =>
      let id := catalog_id p i in
      if (id <=? previous) || (id >=? next) then mfail WADB_CORRUPT
      else
        g ← get_database;
        t ← g_step (load_table (g_db g) tables id);
        if name_taken (g_tables g) (t_name (identity t)) then mfail WADB_CORRUPT
        else
          _ ← push_table t;
          load_tables n' p tables (i + 1) next id
  end.
Definition wadb_load_catalog : M database unit :=
  g ← get_database;
  p ← g_step (load (db_directory (g_db g)) (cstr "catalog") (36 + WADB_MAX_TABLES * 8));
  '(next, count) ← mlift (catalog_header p);
  if count >? o_max_tables (db_options (g_db g)) then mfail WADB_LIMIT
  else
    tables ← g_step (wadb_path (db_directory (g_db g)) (cstr "tables"));
    match tables with
    | None => mfail WADB_NOMEM
    | Some tables =>
        _ ← load_tables (Z.to_nat count) p tables 0 next 0;
        update_db (with_next_table_id next)
    end.

(** ** Creating a table *)

Definition add_directory (p : path) : M os unit := λ w, (Ok (), with_directories ({[p]} ∪ directories w) w).
(** [mkdir] of a new directory: [Some false] when the name is taken. *)
Definition create_directory (p : path) : M os bool :=
  ok ← syscall;
  if negb ok then mfail WADB_IO
  else
    w ← get_os;
    if bool_decide (is_Some (files w !! p)) || bool_decide (p ∈ directories w) then mret false
    else
      _ ← add_directory p;
      mret true.
(** Directories of interrupted creations are skipped; each pass that goes on found
    another existing name, so the number of names is fuel enough. *)
Fixpoint claim_directory (fuel : nat) (tables : path) : M database (Z * path) :=
  match fuel with
  | O => mfail WADB_INVALID
  | S fuel' =>
      g ← get_database;
      let id := db_next_table_id (g_db g) in
      if id =? UINT64_MAX then mfail WADB_LIMIT
      else
        _ ← update_db (with_next_table_id (id + 1));
        directory ← g_step (wadb_id_path tables id);
        match directory with
        | None => mfail WADB_NOMEM
        | Some directory =>
            created ← g_step (create_directory directory);
            if created : bool then mret (id, directory) else claim_directory fuel' tables
        end
  end.
Definition name_fuel (w : os) : nat := S (size (files w) + size (directories w)).
Definition table_ids (g : database) : list Z := map table_id (g_tables g).
(** The files of the new table, the catalog last. *)
Definition store_table (t : table_identity) (m : table_manifest) : M database unit :=
  _ ← g_step (wadb_save_schema t);
  _ ← g_step (wadb_save_manifest t m);
  g ← get_database;
  g_step (wadb_save_catalog (db_directory (g_db g)) (db_next_table_id (g_db g)) (table_ids g) (Some (t_id t))).
Definition create_in (tables : path) (name : list Z) (s : wadb_schema) (m : table_manifest) : M database wadb_table :=
  g ← get_database;
  '(id, directory) ← claim_directory (name_fuel (g_os g)) tables;
  _ ← g_step (wadb_sync_directory tables);
  let t := Identity id name directory s in
  _ ← store_table t m;
  mret (new_table t m).
Definition wadb_create_table (name : list Z) (defs : list wadb_field_def) (retention_us : Z) : M database Z :=
  if negb (wadb_identifier name) || (retention_us >? INT64_MAX) then mfail WADB_INVALID
  else
    allocated ← g_step os_malloc;
    if negb allocated then mfail WADB_NOMEM
    else
      s ← mlift (wadb_schema_build defs);
      g ← get_database;
      if db_read_only (g_db g) then mfail WADB_READ_ONLY
      else if zlen (g_tables g) >=? o_max_tables (db_options (g_db g)) then mfail WADB_LIMIT
      else if name_taken (g_tables g) name then mfail WADB_EXISTS
      else
        tables ← g_step (wadb_path (db_directory (g_db g)) (cstr "tables"));
        match tables with
        | None => mfail WADB_NOMEM
        | Some tables =>
            created ← mtry (create_in tables name s (Manifest 1 0 0 retention_us 1 []));
            match created with
            | Ok t =>
                _ ← push_table t;
                mret (zlen (g_tables g))
            | Err e =>
                _ ← (if decide (e = WADB_INDETERMINATE) then update_db (with_db_read_only true) else mret ());
                mfail e
            end
        end.

(** ** Finding tables *)

Fixpoint find_table (f : wadb_table → bool) (l : list wadb_table) (i : Z) : result Z :=
  match l with
  | [] => Err WADB_NOT_FOUND
  | t :: l' => if f t then Ok i else find_table f l' (i + 1)
  end.
Definition wadb_get_table (g : database) (id : Z) : result Z := find_table (λ t, table_id t =? id) (g_tables g) 0.
Definition wadb_find_table (g : database) (name : list Z) : result Z :=
  find_table (λ t, bytes_eqb (t_name (identity t)) name) (g_tables g) 0.
(** The count, and the tables when an array of [cap] entries was given. *)
Definition wadb_list_tables (g : database) (cap : option Z) : Z * result (list Z) :=
  (zlen (g_tables g),
   match cap with
   | None => Ok []
   | Some cap => if cap <? zlen (g_tables g) then Err WADB_LIMIT else Ok (seqZ 0 (zlen (g_tables g)))
   end).

(** ** Opening *)

Definition options_invalid (o : wadb_options) : bool :=
  (o_max_tables o =? 0) || (o_max_tables o >? WADB_MAX_TABLES) || (o_segment_target_bytes o <? 256) ||
  (o_segment_target_bytes o >? INT64_MAX) || (o_queue_limit_bytes o <? WADB_MAX_FRAME_BYTES) ||
  (o_dictionary_limit_bytes o <? 1024) || (o_dictionary_limit_bytes o >? 64 * 1024 * 1024) ||
  (o_batch_target_bytes o <? 256) || (o_batch_target_bytes o >? WADB_MAX_FRAME_BYTES) || (o_batch_delay_ms o >? 1000) ||
  (o_read_cache_bytes o <? o_dictionary_limit_bytes o + SIZEOF_CACHE_ENTRY) ||
  (o_snapshot_limit_bytes o <? 1024) || (o_max_readers o =? 0) || (o_max_readers o >? 1024).
(** Nothing is directly inside of the directory [p]. *)
Definition directory_empty (w : os) (p : path) : bool :=
  forallb (λ q, negb (bytes_eqb (dirname q) p)) (elements (directories w)) &&
  forallb (λ kv, negb (bytes_eqb (dirname (fst kv)) p)) (map_to_list (files w)).
Definition take_lock (directory : path) : M os unit :=
  p ← wadb_path directory (cstr "LOCK");
  match p with
  | None => mfail WADB_NOMEM
  | Some p =>
      opened ← syscall;
      if negb opened then mfail WADB_IO
      else
        w ← get_os;
        _ ← set_file p (default [] (files w !! p));
        locked ← syscall;
        if locked : bool then mret () else mfail WADB_LOCKED
  end.
Definition make_tables_directory (directory : path) : M os unit :=
  p ← wadb_path directory (cstr "tables");
  match p with
  | None => mfail WADB_NOMEM
  | Some p =>
      _ ← wadb_mkdir p;
      wadb_sync_directory directory
  end.
(** A missing catalog starts an empty database, unless there are tables. *)
Definition initialize_catalog : M database unit :=
  g ← get_database;
  let directory := db_directory (g_db g) in
  p ← g_step (wadb_path directory (cstr "tables"));
  listed ← g_step syscall;
  match p with
  | None => mfail WADB_IO
  | Some p =>
      if negb listed then mfail WADB_IO
      else if negb (directory_empty (g_os g) p) then mfail WADB_CORRUPT
      else g_step (wadb_save_catalog directory (db_next_table_id (g_db g)) (table_ids g) None)
  end.
Definition set_writer_started (b : bool) : M database unit := λ g,
  (Ok (), Database (g_db g) (g_tables g) (g_cursors g) (g_next_cursor_id g) b (g_os g)).
Definition start_writer : M database unit :=
  condition ← g_step syscall;
  thread ← (if condition : bool then g_step syscall else mret false);
  if thread : bool then set_writer_started true else mfail WADB_IO.
Definition open_database : M database unit :=
  g ← get_database;
  let directory := db_directory (g_db g) in
  _ ← g_step (wadb_sync_directory (parent_directory directory));
  _ ← g_step (take_lock directory);
  _ ← g_step (make_tables_directory directory);
  loaded ← mtry wadb_load_catalog;
  _ ← (match loaded with Err WADB_NOT_FOUND => initialize_catalog | r => mlift r end);
  start_writer.
Definition run_open (db : wadb_db) : M os database := λ w,
  let '(r, g) := open_database (Database db [] [] 0 false w) in
  (match r with Ok _ => Ok g | Err e => Err e end, g_os g).
(** [resolved] is what [realpath] returns for the directory. *)
Definition wadb_open (directory : path) (o : wadb_options) (resolved : option path) : M os database :=
  if zlen directory =? 0 then mfail WADB_INVALID
  else if options_invalid o then mfail WADB_INVALID
  else
    _ ← wadb_mkdir directory;
    db ← os_malloc;
    if negb db then mfail WADB_NOMEM
    else
      boot ← wadb_monotonic_ns;
      tables ← os_malloc;
      mutexes ← syscall;
      match resolved with
      | None => mfail WADB_NOMEM
      | Some resolved =>
          if negb tables || negb mutexes then mfail WADB_NOMEM
          else
            parent ← os_malloc;
            if negb parent then mfail WADB_NOMEM
            else run_open (new_db resolved o boot)
      end.

(** ** Statistics of the database ([wadb_get_stats] of src/core/stats.c) *)

Record wadb_stats := Stats {
  st_uptime_us : Z;
  st_table_count : Z;
  st_ingest : db_ingest;
  st_queue_limit_bytes : Z;
  st_cache_bytes : Z;
  st_cache_hits : Z;
  st_cache_misses : Z;
  st_readers : Z;
  st_snapshot_bytes : Z;
  st_totals : db_totals;
  st_latest_notification : Z;
  st_read_only : bool;
  st_append_latency : wadb_latency_stats;
  st_sync_latency : wadb_latency_stats;
  st_query_latency : wadb_latency_stats;
  st_disk_free : option Z;
}.
(** [disk] is what [statvfs] says: the available blocks and their size. *)
Definition disk_free (disk : option (Z * Z)) : option Z :=
  match disk with
  | Some (blocks, size) => if (size =? 0) || (blocks <=? UINT64_MAX / size) then Some (u64 (blocks * size)) else None
  | None => None
  end.
Definition wadb_get_stats (disk : option (Z * Z)) : M database wadb_stats :=
  now ← g_step wadb_monotonic_ns;
  g ← get_database;
  let db := g_db g in
  mret (Stats (u64 (now - db_boot_ns db) / 1000) (zlen (g_tables g)) (ingest db) (o_queue_limit_bytes (db_options db))
          (c_bytes (cache db)) (c_hits (cache db)) (c_misses (cache db)) (db_reader_count db) (db_snapshot_bytes db) (totals db)
          (latest_notification (ring db)) (db_read_only db || existsb t_read_only (g_tables g))
          (summarize (append_latency (latencies db))) (summarize (sync_latency (latencies db)))
          (summarize (query_latency (latencies db))) (disk_free disk)).
