(* ===== verification/Cursors.v ===== *)
(** * Cursors and the table operations of the public interface (src/query/cursor.c)

    A cursor keeps a snapshot and serves a scan in pages until it is finished, closed
    or expired. Scans, queries, integrity checks and retention first expire cursors. *)

From stdpp Require Import base numbers list list_numbers gmap.
From S2P Require Import Prelude Encoding Schema Rows Dictionary Files Engine Stats Retention Snapshot Scan Plan Query Integrity Database.

Definition set_cursors (l : list cursor) : M database unit := λ g,
  (Ok (), Database (g_db g) (g_tables g) l (g_next_cursor_id g) (g_writer_started g) (g_os g)).
(** Nothing is reported. *)
Definition destroy (c : cursor) : M database unit :=
  _ ← mtry (on_table (cu_table c) (wadb_snapshot_release (cu_snapshot c)));
  mret ().
Fixpoint destroy_all (l : list cursor) : M database unit :=
  match l with
  | [] => mret ()
  | c :: l' =>
      _ ← destroy c;
      destroy_all l'
  end.

(** ** Expiry *)

Definition expired (now : Z) (c : cursor) : bool := negb (cu_busy c) && (cu_deadline c <=? now).
(** The expired cursors are unlinked in one step, then destroyed, the last one first. *)
Definition wadb_cursor_expire : M database unit :=
  now ← g_step wadb_monotonic_ns;
  g ← get_database;
  _ ← set_cursors (filter (λ c, expired now c = false) (g_cursors g));
  destroy_all (reverse (filter (λ c, expired now c = true) (g_cursors g))).
Definition wadb_cursor_clear : M database unit :=
  g ← get_database;
  _ ← set_cursors [];
  destroy_all (g_cursors g).

(** ** Opening *)

Definition SIZEOF_CURSOR : Z := 120.
Definition charge_snapshot (n : Z) (sn : wadb_snapshot) : wadb_snapshot :=
  Snap (sn_segments sn) (sn_charge sn + n) (sn_active sn) (sn_sequence sn).
(** Linking a prepared cursor, under the mutex. *)
Definition link_cursor (c : cursor) : M database Z :=
  g ← get_database;
  let db := g_db g in
  let charge := pl_allocated_bytes (cu_plan c) + SIZEOF_CURSOR in
  if (g_next_cursor_id g =? UINT64_MAX) ||
     (charge >? o_snapshot_limit_bytes (db_options db) - db_snapshot_bytes db)
  then mfail WADB_BACKPRESSURE
  else λ g,
    let id := g_next_cursor_id g + 1 in
    let c := Cursor (cu_table c) (cu_plan c) (charge_snapshot charge (cu_snapshot c)) id (cu_deadline c) (cu_after c)
               (cu_remaining_bytes c) false in
    (Ok id, Database (with_snapshots (db_snapshot_bytes db + charge) (db_reader_count db) db) (g_tables g)
              (c :: g_cursors g) id (g_writer_started g) (g_os g)).
Definition prepare_cursor (o : wadb_query_options) : M engine (wadb_query_plan * wadb_snapshot) :=
  t ← get_table;
  p ← in_os (wadb_query_compile (schema t) o);
  sn ← wadb_snapshot_acquire (Some (qo_scan (pl_options p)));
  mret (p, sn).
Definition wadb_cursor_open (table : Z) (o : wadb_query_options) (ttl_ms : Z) : M database Z :=
  if (ttl_ms =? 0) || (ttl_ms >? 300000) || negb (zlen (qo_aggregates o) =? 0) then mfail WADB_INVALID
  else
    _ ← wadb_cursor_expire;
    allocated ← g_step os_malloc;
    if negb allocated then mfail WADB_NOMEM
    else
      '(p, sn) ← on_table table (prepare_cursor o);
      now ← g_step wadb_monotonic_ns;
      let scan := qo_scan (pl_options p) in
      let c := Cursor table p sn 0 (u64 (now + ttl_ms * 1000000)) (so_after_sequence scan) (so_max_scan_bytes scan) false in
      linked ← mtry (link_cursor c);
      match linked with
      | Ok id => mret id
      | Err e =>
          _ ← destroy c;
          mfail e
      end.

(** ** Reading a page *)

Fixpoint find_cursor (id : Z) (l : list cursor) : option cursor :=
  match l with
  | [] => None
  | c :: l' => if cu_id c =? id then Some c else find_cursor id l'
  end.
(** The list with the cursor [id] replaced, or unlinked when there is no replacement. *)
Fixpoint replace_cursor (id : Z) (new : option cursor) (l : list cursor) : list cursor :=
  match l with
  | [] => []
  | c :: l' =>
      if cu_id c =? id then match new with Some c' => c' :: l' | None => l' end
      else c :: replace_cursor id new l'
  end.
Definition update_cursors (f : list cursor → list cursor) : M database unit := λ g,
  (Ok (), Database (g_db g) (g_tables g) (f (g_cursors g)) (g_next_cursor_id g) (g_writer_started g) (g_os g)).
Definition with_busy (busy : bool) (c : cursor) : cursor :=
  Cursor (cu_table c) (cu_plan c) (cu_snapshot c) (cu_id c) (cu_deadline c) (cu_after c) (cu_remaining_bytes c) busy.
Definition advance (r : wadb_result) (c : cursor) : cursor :=
  Cursor (cu_table c) (cu_plan c) (cu_snapshot c) (cu_id c) (cu_deadline c) (ss_last_sequence (re_stats r))
    (u64 (cu_remaining_bytes c - ss_bytes_scanned (re_stats r))) false.
(** The first critical section: the cursor becomes busy. *)
Definition claim_cursor (id : Z) : M database cursor :=
  g ← get_database;
  match find_cursor id (g_cursors g) with
  | None => mfail WADB_EXPIRED
  | Some c =>
      if cu_busy c then mfail WADB_BACKPRESSURE
      else
        _ ← update_cursors (replace_cursor id (Some (with_busy true c)));
        mret (with_busy true c)
  end.
Definition page_timeout (c : cursor) (now : Z) : Z :=
  let remaining_ms := (cu_deadline c - now + 999999) / 1000000 in
  let timeout := so_timeout_ms (qo_scan (pl_options (cu_plan c))) in
  if remaining_ms <? timeout then u32 remaining_ms else timeout.
Definition read_page (c : cursor) (allocs : list bool) : M database wadb_result :=
  now ← g_step wadb_monotonic_ns;
  if now >=? cu_deadline c then mfail WADB_EXPIRED
  else
    r ← mtry (on_table (cu_table c) (wadb_query_execute (cu_plan c) (cu_snapshot c) (cu_after c)
                (cu_remaining_bytes c) (page_timeout c now) allocs));
    later ← g_step wadb_monotonic_ns;
    if later >=? cu_deadline c then mfail WADB_EXPIRED else mlift r.
Definition wadb_cursor_next (id : Z) (allocs : list bool) : M database wadb_result :=
  if id =? 0 then mfail WADB_INVALID
  else
    _ ← wadb_cursor_expire;
    c ← claim_cursor id;
    page ← mtry (read_page c allocs);
    match page with
    | Ok r =>
        if re_has_more r then
          _ ← update_cursors (replace_cursor id (Some (advance r c)));
          mret r
        else
          _ ← update_cursors (replace_cursor id None);
          _ ← destroy c;
          mret r
    | Err e =>
        _ ← update_cursors (replace_cursor id None);
        _ ← destroy c;
        mfail e
    end.
Definition wadb_cursor_close (id : Z) : M database unit :=
  if id =? 0 then mfail WADB_INVALID
  else
    g ← get_database;
    match find_cursor id (g_cursors g) with
    | None => mret ()
    | Some c =>
        if cu_busy c then mfail WADB_BACKPRESSURE
        else
          _ ← update_cursors (replace_cursor id None);
          destroy c
    end.

(** ** Operations that expire cursors first *)

Definition wadb_retention_apply (table now : Z) : M database (wadb_retention_stats * result unit) :=
  if now <? 0 then mfail WADB_INVALID
  else
    _ ← wadb_cursor_expire;
    on_table table (retention_apply now).
Definition wadb_scan {C} (consume : Z → list wadb_value → M C unit) (table : Z) (o : wadb_scan_options) (c : C)
    : M database (result unit * wadb_scan_stats * C) :=
  if scan_options_invalid o then mfail WADB_INVALID
  else
    _ ← wadb_cursor_expire;
    on_table table (scan_table consume o c).
Definition wadb_integrity_check (table : Z) (o : wadb_integrity_options) (cancelled : list bool)
    : M database (wadb_integrity_stats * result unit) :=
  if integrity_options_invalid o then mfail WADB_INVALID
  else
    _ ← wadb_cursor_expire;
    on_table table (integrity_check o cancelled).
Definition compile_on (table : Z) (o : wadb_query_options) : M database wadb_query_plan :=
  on_table table (t ← get_table; in_os (wadb_query_compile (schema t) o)).
Definition wadb_query (table : Z) (o : wadb_query_options) (allocs : list bool) : M database wadb_result :=
  p ← compile_on table o;
  _ ← wadb_cursor_expire;
  on_table table (query_plan p allocs).
