(* ===== verification/Writer.v ===== *)
(** * The ingestion queue and the writer (src/ingest/writer.c)

    Producers validate and encode their rows and enqueue a request; the writer thread
    takes requests of one table in order, stamps them, commits them as a group and
    completes them. A producer's call is split at the wait: [append_submit] enqueues,
    and a request that the writer completed carries its status and receipt. *)

From stdpp Require Import base numbers list list_numbers gmap sorting.
From S2P Require Import Prelude Encoding Schema Format Rows Dictionary Files Engine Stats Metadata Retention Recovery Commit Database.

(** ** State *)

(** [iw_realtime] are the coming readings of the wall clock, in microseconds or negative;
    [iw_done] are the completed requests, the latest first. *)
Record ingestion := Ingestion {
  iw_database : database;
  iw_queue : list wadb_append_request;
  iw_done : list wadb_append_request;
  iw_realtime : list Z;
  iw_stopping : bool;
}.
Definition iw_get : M ingestion ingestion := λ s, (Ok s, s).
Definition iw_step {A} (m : M database A) : M ingestion A := λ s,
  let '(r, g) := m (iw_database s) in (r, Ingestion g (iw_queue s) (iw_done s) (iw_realtime s) (iw_stopping s)).
Definition set_queue (q : list wadb_append_request) : M ingestion unit := λ s,
  (Ok (), Ingestion (iw_database s) q (iw_done s) (iw_realtime s) (iw_stopping s)).
Definition push_done (l : list wadb_append_request) : M ingestion unit := λ s,
  (Ok (), Ingestion (iw_database s) (iw_queue s) (rev l ++ iw_done s) (iw_realtime s) (iw_stopping s)).
Definition read_realtime : M ingestion Z := λ s,
  (Ok (hd 0 (iw_realtime s)), Ingestion (iw_database s) (iw_queue s) (iw_done s) (tl (iw_realtime s)) (iw_stopping s)).
Definition update_ingest (f : db_ingest → db_ingest) : M ingestion unit :=
  iw_step (update_db (λ d, with_ingest (f (ingest d)) d)).

(** ** Submitting *)

Definition validate_symbol : symbol_encode_fn unit := λ _ _, mret 1.
Fixpoint encode_batch (n : nat) (s : wadb_schema) (values : list wadb_value) : result (list Z) :=
  match n with
  | O => Ok []
  | S n' =>
      row ← fst (wadb_encode_row s (take (Z.to_nat (field_count s - 1)) values) 0 (Some validate_symbol)
                   (zrep (row_width s) 0) ());
      rows ← encode_batch n' s (drop (Z.to_nat (field_count s - 1)) values);
      Ok (row ++ rows)
  end.
Definition reserve_bytes (n : Z) (q : db_ingest) : db_ingest :=
  Ingest (u64 (q_queue_bytes q + n)) (q_ready_bytes q) (q_rejected_appends q) (q_failed_appends q) (q_clock_adjustments q).
Definition reject (q : db_ingest) : db_ingest :=
  Ingest (q_queue_bytes q) (q_ready_bytes q) (u64 (q_rejected_appends q + 1)) (q_failed_appends q) (q_clock_adjustments q).
Definition add_ready (n : Z) (q : db_ingest) : db_ingest :=
  Ingest (q_queue_bytes q) (u64 (q_ready_bytes q + n)) (q_rejected_appends q) (q_failed_appends q) (q_clock_adjustments q).
(** The staging buffer, the rows and the condition variable. *)
Definition stage_rows (s : wadb_schema) (count : Z) (values : list wadb_value) : M ingestion (list Z) :=
  buffer ← iw_step (g_step os_malloc);
  if negb buffer then mfail WADB_NOMEM
  else
    rows ← mlift (encode_batch (Z.to_nat count) s values);
    condition ← iw_step (g_step syscall);
    if condition : bool then mret rows else mfail WADB_IO.
(** [wadb_append_batch] up to the wait for completion. *)
Definition append_submit (table : Z) (values : list wadb_value) (count : Z) : M ingestion unit :=
  started ← iw_step (g_step wadb_monotonic_ns);
  if (count =? 0) || (count >? UINT32_MAX) then mfail WADB_INVALID
  else
    t ← iw_step (on_table table get_table);
    match wadb_mul_size count (row_width (schema t)) with
    | None => mfail WADB_LIMIT
    | Some row_bytes =>
        if row_bytes >? WADB_MAX_FRAME_BYTES - 96 then mfail WADB_LIMIT
        else
          let charge := row_bytes + SIZEOF_APPEND_REQUEST in
          s ← iw_get;
          let db := g_db (iw_database s) in
          if iw_stopping s || negb (g_writer_started (iw_database s)) then mfail WADB_CANCELLED
          else if charge >? u64 (o_queue_limit_bytes (db_options db) - q_queue_bytes (ingest db)) then
            _ ← update_ingest reject;
            mfail WADB_BACKPRESSURE
          else
            _ ← update_ingest (reserve_bytes charge);
            staged ← mtry (stage_rows (schema t) count values);
            match staged with
            | Err e =>
                _ ← update_ingest (λ q, reject (reserve_bytes (- charge) q));
                mfail e
            | Ok rows =>
                submitted ← iw_step (g_step wadb_monotonic_ns);
                s ← iw_get;
                _ ← set_queue (iw_queue s ++ [Request table values rows count row_bytes charge submitted started 0
                                                (Receipt 0 0 0 0) WADB_OK false]);
                update_ingest (add_ready row_bytes)
            end
    end.

(** ** Committing a group *)

Definition with_outcome (status : wadb_status) (receipt : wadb_append_receipt) (r : wadb_append_request)
    : wadb_append_request :=
  Request (rq_table r) (rq_values r) (rq_rows r) (rq_row_count r) (rq_row_bytes r) (rq_charge r) (rq_submitted_ns r)
    (rq_started_ns r) (rq_ingestion_time r) receipt status (rq_done r).
(** A group that is too large for one frame is split between requests. The halves are
    smaller, so the number of requests is fuel enough. *)
Fixpoint commit_group (fuel : nat) (requests : list wadb_append_request) : M engine (list wadb_append_request) :=
  status ← mtry (wadb_commit_requests requests);
  match status, fuel with
  | Ok receipts, _ => mret (zip_with (λ r rc, with_outcome WADB_OK rc r) requests receipts)
  | Err e, S fuel' =>
      if bool_decide (e = WADB_LIMIT) && (1 <? zlen requests) then
        let half := (length requests `div` 2)%nat in
        a ← commit_group fuel' (take half requests);
        b ← commit_group fuel' (drop half requests);
        mret (a ++ b)
      else mret (map (λ r, with_outcome e (rq_receipt r) r) requests)
  | Err e, O => mret (map (λ r, with_outcome e (rq_receipt r) r) requests)
  end.

(** ** Taking a batch *)

Definition stamp (time : Z) (r : wadb_append_request) : wadb_append_request :=
  Request (rq_table r) (rq_values r) (rq_rows r) (rq_row_count r) (rq_row_bytes r) (rq_charge r) (rq_submitted_ns r)
    (rq_started_ns r) time (rq_receipt r) (rq_status r) (rq_done r).
Definition adjust_clock (q : db_ingest) : db_ingest :=
  Ingest (q_queue_bytes q) (q_ready_bytes q) (q_rejected_appends q) (q_failed_appends q) (u64 (q_clock_adjustments q + 1)).
Definition batch_full (target nbytes : Z) (r : wadb_append_request) : bool :=
  (nbytes >=? target) || (rq_row_bytes r >? WADB_MAX_FRAME_BYTES - 96 - nbytes).
Definition day_of (now : Z) : Z := if now <? 0 then -1 else now / WADB_DAY_US.
(** The loop over the queue: [batch] is what was taken so far, [previous] the last stamp
    and [day] its day. At most 64 requests are taken, which bounds the fuel. *)
Fixpoint take_batch (fuel : nat) (target table previous day nbytes : Z) (batch : list wadb_append_request)
    : M ingestion (list wadb_append_request) :=
  match fuel with
  | O => mret batch
  | S fuel' =>
      s ← iw_get;
      match iw_queue s with
      | [] => mret batch
      | r :: queue =>
          let first := bool_decide (batch = []) in
          if negb (rq_table r =? table) then mret batch
          else if negb first && batch_full target nbytes r then mret batch
          else
            reading ← read_realtime;
            let back := (reading >=? 0) && (reading <? previous) in
            let now := if back then previous else reading in
            _ ← (if back then update_ingest adjust_clock else mret ());
            if negb first && ((now <? 0) || negb (now / WADB_DAY_US =? day)) then mret batch
            else
              _ ← set_queue queue;
              _ ← update_ingest (add_ready (- rq_row_bytes r));
              let batch := batch ++ [stamp now r] in
              if now <? 0 then mret batch
              else take_batch fuel' target table now (day_of now) (nbytes + rq_row_bytes r) batch
      end
  end.

(** ** One round of the writer *)

Definition fail_append (q : db_ingest) : db_ingest :=
  Ingest (q_queue_bytes q) (q_ready_bytes q) (q_rejected_appends q) (u64 (q_failed_appends q + 1)) (q_clock_adjustments q).
Definition complete (r : wadb_append_request) : M ingestion unit :=
  _ ← update_ingest (reserve_bytes (- rq_charge r));
  if decide (rq_status r = WADB_OK) then
    now ← iw_step (g_step wadb_monotonic_ns);
    iw_step (update_db (record_append (u64 (now - rq_started_ns r))))
  else update_ingest fail_append.
Fixpoint complete_all (l : list wadb_append_request) : M ingestion unit :=
  match l with
  | [] => mret ()
  | r :: l' =>
      _ ← complete r;
      complete_all l'
  end.
Definition finished (r : wadb_append_request) : wadb_append_request :=
  Request (rq_table r) (rq_values r) [] (rq_row_count r) (rq_row_bytes r) (rq_charge r) (rq_submitted_ns r)
    (rq_started_ns r) (rq_ingestion_time r) (rq_receipt r) (rq_status r) true.
(** The body of the loop of [writer_main] once there is work; how long it waits for more
    is left to the schedule. *)
Definition writer_round : M ingestion unit :=
  s ← iw_get;
  match iw_queue s with
  | [] => mret ()
  | r :: _ =>
      let table := rq_table r in
      t ← iw_step (on_table table get_table);
      batch ← take_batch 64 (o_batch_target_bytes (db_options (g_db (iw_database s)))) table (last_time t) (-1) 0 [];
      committed ← iw_step (on_table table (commit_group (length batch) batch));
      _ ← complete_all committed;
      push_done (map finished committed)
  end.

(** ** Batches *)

(** What identifies a request: everything but its stamp and its outcome. *)
Definition request_key (r : wadb_append_request) : Z * list wadb_value * Z * Z * Z * Z * Z :=
  (rq_table r, rq_values r, rq_row_count r, rq_row_bytes r, rq_charge r, rq_submitted_ns r, rq_started_ns r).
Fixpoint batch_bytes (l : list wadb_append_request) : Z :=
  match l with [] => 0 | r :: l' => rq_row_bytes r + batch_bytes l' end.
Definition FRAME_ROWS_LIMIT : Z := WADB_MAX_FRAME_BYTES - 96.

(** The first [k] requests of the queue were taken and stamped with [times]. *)
Record taken (s s' : ingestion) (k : nat) (times : list Z) : Prop := {
  tk_count : length times = k ∧ (k ≤ length (iw_queue s))%nat;
  tk_queue : iw_queue s' = drop k (iw_queue s);
  tk_done : iw_done s' = iw_done s;
  tk_tables : g_tables (iw_database s') = g_tables (iw_database s);
}.
(** Stamps: one reading of a clock that failed, or times in order and of one day. *)
Definition stamps_ok (previous : Z) (day : option Z) (times : list Z) : Prop :=
  (day = None ∧ ∃ x, times = [x] ∧ x < 0) ∨
  StronglySorted Z.le (previous :: times) ∧ Forall (λ x, 0 ≤ x) times ∧
  ∃ d, (day = None ∨ day = Some d) ∧ Forall (λ x, x / WADB_DAY_US = d) times.

Lemma taken_none s s' : iw_queue s' = iw_queue s → iw_done s' = iw_done s →
  g_tables (iw_database s') = g_tables (iw_database s) → taken s s' 0 [].
Proof. intros H ??. split; [split; [done|lia]|by rewrite H|done|done]. Qed.
Lemma stamps_none previous day : stamps_ok previous day [].
Proof.
  right. split_and!; [repeat constructor|constructor|]. exists (default 0 day). split; [destruct day; auto|constructor].
Qed.
(** Reading the clock: only the clock readings and the counters of the database change. *)
Definition clock_only (s s' : ingestion) : Prop :=
  iw_queue s' = iw_queue s ∧ iw_done s' = iw_done s ∧ g_tables (iw_database s') = g_tables (iw_database s).

Definition batch_taken (fuel : nat) (table previous day nbytes : Z) (batch : list wadb_append_request) (s : ingestion)
    (r : result (list wadb_append_request)) (s' : ingestion) : Prop :=
  ∃ k times, r = Ok (batch ++ zip_with stamp times (take k (iw_queue s))) ∧ taken s s' k times ∧ (k ≤ fuel)%nat ∧
    Forall (λ r, rq_table r = table) (take k (iw_queue s)) ∧
    nbytes + batch_bytes (take k (iw_queue s)) ≤ FRAME_ROWS_LIMIT ∧
    stamps_ok previous (if decide (batch = []) then None else Some day) times ∧
    (batch = [] → ∀ q l, fuel ≠ 0%nat → iw_queue s = q :: l → rq_table q = table → k ≠ 0%nat).
Lemma batch_taken_none fuel table previous day nbytes batch s s' : nbytes ≤ FRAME_ROWS_LIMIT → clock_only s s' →
  (batch = [] → ∀ q l, fuel ≠ 0%nat → iw_queue s = q :: l → rq_table q = table → False) →
  batch_taken fuel table previous day nbytes batch s (Ok batch) s'.
Proof.
  intros Hn (E1&E2&E3) Hne. exists 0%nat, []. rewrite !take_0. cbn [zip_with batch_bytes]. rewrite app_nil_r.
  split_and!; [done|by apply taken_none|lia|constructor|lia|apply stamps_none|]. intros Hb0 q l Hf Hs Ht. by destruct (Hne Hb0 q l Hf Hs Ht).
Qed.

Lemma take_batch_spec fuel target table previous day nbytes batch s :
  Forall (λ r, 0 ≤ rq_row_bytes r ≤ FRAME_ROWS_LIMIT) (iw_queue s) → 0 ≤ nbytes ≤ FRAME_ROWS_LIMIT →
  (batch = [] → nbytes = 0) →
  wp (take_batch fuel target table previous day nbytes batch) (batch_taken fuel table previous day nbytes batch s) s.
Proof.
  revert previous day nbytes batch s. induction fuel as [|fuel IH]; intros previous day nbytes batch s Hq Hn Hb; cbn [take_batch].
  { apply wp_ret, batch_taken_none; [lia|done|done]. }
  apply wp_bind. unfold wp at 1, iw_get. cbn [fst snd]. destruct (iw_queue s) as [|r queue] eqn:Eq.
  { apply wp_ret, batch_taken_none; [lia|done|]. intros _ q l _. by rewrite Eq. }
  destruct (Z.eqb_spec (rq_table r) table) as [Ht|Ht]; cbn [negb].
  2: { apply wp_ret, batch_taken_none; [lia|done|]. intros _ q l _. rewrite Eq. by intros [= <- <-]. }
  set (first := bool_decide (batch = [])). destruct (negb first && batch_full target nbytes r) eqn:Hfull.
  { apply wp_ret, batch_taken_none; [lia|done|]. intros ->. unfold first in Hfull. by rewrite bool_decide_true in Hfull. }
  apply wp_bind. unfold wp at 1, read_realtime. cbn [fst snd].
  set (s1 := Ingestion _ _ _ _ _). assert (H1 : clock_only s s1) by done. clearbody s1.
  cbv zeta. set (now := if (_ && _) : bool then previous else _).
  assert (Hnow : now < 0 ∨ previous ≤ now).
  { unfold now. destruct (Z.geb_spec (hd 0 (iw_realtime s)) 0), (Z.ltb_spec (hd 0 (iw_realtime s)) previous); cbn [andb]; lia. }
  apply wp_bind.
  assert (Hadj : ∀ b : bool, wp (if b then update_ingest adjust_clock else mret ()) (λ r s2, r = Ok () ∧ clock_only s s2) s1).
  { intros []; [|by apply wp_ret]. unfold update_ingest, iw_step, update_db, wp. cbn. split; [done|]. apply H1. }
  eapply wp_mono; [apply Hadj|]. cbn beta. intros ? s2 [-> H2]. clearbody now. clear Hadj H1 s1.
  destruct (negb first && ((now <? 0) || negb (now / WADB_DAY_US =? day))) eqn:Hday.
  { apply wp_ret, batch_taken_none; [lia|done|]. intros ->. unfold first in Hday. by rewrite bool_decide_true in Hday. }
  apply wp_bind. unfold wp at 1, set_queue. cbn [fst snd]. apply wp_bind. unfold wp at 1, update_ingest, iw_step, update_db.
  cbn [fst snd]. set (s3 := Ingestion _ _ _ _ _). destruct H2 as (E1&E2&E3).
  assert (Hs3 : iw_queue s3 = queue ∧ iw_done s3 = iw_done s ∧ g_tables (iw_database s3) = g_tables (iw_database s)) by done.
  clearbody s3. apply Forall_cons in Hq as [Hr Hq]. destruct Hs3 as (F1&F2&F3).
  assert (Hroom : nbytes + rq_row_bytes r ≤ FRAME_ROWS_LIMIT).
  { unfold first, batch_full, FRAME_ROWS_LIMIT in *. case_bool_decide as Hb0; cbn [negb andb] in Hfull; [rewrite (Hb Hb0); lia|lia]. }
  assert (Htk : ∀ k times s', taken s3 s' k times → taken s s' (S k) (now :: times)).
  { intros k times s' [[Hc1 Hc2] Hqu Hdo Hta]. rewrite F1 in *. split; [|by rewrite Eq|congruence|congruence].
    rewrite Eq. cbn [length]. split; lia. }
  assert (Hfirst : first = true ∨ 0 ≤ now ∧ now / WADB_DAY_US = day).
  { destruct first; [by left|]. cbn [negb andb] in Hday. apply orb_false_iff in Hday as [? ?%negb_false_iff]. right. lia. }
  destruct (Z.ltb_spec now 0) as [Hneg|Hpos].
  - destruct Hfirst as [Hf|]; [|lia]. apply bool_decide_eq_true in Hf. subst batch. apply wp_ret. exists 1%nat, [now].
    rewrite Eq. cbn [take]. rewrite take_0. cbn [zip_with app batch_bytes].
    split_and!; [done|by apply Htk, taken_none|lia|by repeat constructor|lia| |done].
    left. split; [done|]. by exists now.
  - eapply wp_mono; [apply IH; [by rewrite F1|lia|by destruct batch]|]. cbn beta.
    intros res s' (k&times&->&Hk&Hle&Htab&Hbytes&Hst&_). exists (S k), (now :: times). rewrite F1 in *. rewrite Eq.
    cbn [take zip_with batch_bytes]. split_and!; [by rewrite <-app_assoc|by apply Htk|lia|by constructor|lia| |done].
    rewrite decide_False in Hst by (by destruct batch). destruct Hst as [[? _]|(Hss&Hnn&d&Hd&Hf)]; [done|].
    destruct Hd as [|[= <-]]; [done|]. right. split_and!.
    + constructor; [done|]. inversion Hss as [|? ? _ Hall]; subst. constructor; [lia|].
      eapply Forall_impl; [exact Hall|]. cbn beta. lia.
    + by constructor.
    + exists (now / WADB_DAY_US). unfold day_of in Hf. destruct (Z.ltb_spec now 0); [lia|]. split; [|by constructor].
      case_decide as Hb0; [by left|right]. destruct Hfirst as [Hf1|[_ ->]]; [|done]. by apply bool_decide_eq_true in Hf1.
Qed.

(** C18: The writer takes a batch from the front of the queue, in order: at least one
    request of the table and at most 64, whose rows fit into one frame; all are stamped
    with times that do not go back, neither behind each other nor behind the table's
    last time, and that belong to one day, unless the clock cannot be read, in which
    case one request is taken alone. *)
Theorem batch_well_formed target table previous s r s' :
  Forall (λ r, 0 ≤ rq_row_bytes r ≤ FRAME_ROWS_LIMIT) (iw_queue s) →
  take_batch 64 target table previous (-1) 0 [] s = (r, s') →
  ∃ k times, r = Ok (zip_with stamp times (take k (iw_queue s))) ∧ length times = k ∧
    iw_queue s' = drop k (iw_queue s) ∧ (k ≤ 64)%nat ∧
    Forall (λ r, rq_table r = table) (take k (iw_queue s)) ∧
    batch_bytes (take k (iw_queue s)) ≤ FRAME_ROWS_LIMIT ∧
    (∀ q l, iw_queue s = q :: l → rq_table q = table → k ≠ 0%nat) ∧
    ((∃ x, times = [x] ∧ x < 0) ∨
     StronglySorted Z.le (previous :: times) ∧ ∃ d, Forall (λ x, 0 ≤ x ∧ x / WADB_DAY_US = d) times).
Proof.
  intros Hq Hrun. destruct (wp_out _ _ _ _ _ (take_batch_spec 64 target table previous (-1) 0 [] s Hq ltac:(vm_compute; split; congruence) ltac:(done)) Hrun)
    as (k&times&->&[[Hl _] Hqu _ _]&Hk&Ht&Hb&Hst&Hne).
  exists k, times. split_and!; [done|done|done|done|done|lia| |].
  - intros q l Hq0 Hqt. by apply (Hne eq_refl q l).
  - destruct Hst as [[_ Hx]|(Hss&Hnn&d&_&Hd)]; [by left|right]. split; [done|]. exists d. by apply Forall_and.
Qed.
Definition wr_request (rows value : Z) : wadb_append_request :=
  Request 0 [VU64 value] [] rows (rows * 16) (rows * 16 + 200) 0 0 0 (Receipt 0 0 0 0) WADB_OK false.
Definition wr_state : ingestion :=
  Ingestion (Database (new_db [47] wadb_options_default 0) [] [] 0 true (Os ∅ ∅ [] [] [] []))
    [wr_request 1 7; wr_request 2 8; wr_request 1 9] [] [100; 90; 86400000001] false.
Lemma batch_well_formed_witness : ∃ s',
  take_batch 64 262144 0 95 (-1) 0 [] wr_state = (Ok [stamp 100 (wr_request 1 7); stamp 100 (wr_request 2 8)], s') ∧
  iw_queue s' = [wr_request 1 9].
Proof.
  destruct (take_batch 64 262144 0 95 (-1) 0 [] wr_state) as [r s'] eqn:E.
  destruct (batch_well_formed 262144 0 95 wr_state r s') as (k&times&->&Hl&Hq&_).
  - repeat constructor; vm_compute; congruence.
  - exact E.
  - assert (Hr : Ok (zip_with stamp times (take k (iw_queue wr_state))) = Ok [stamp 100 (wr_request 1 7); stamp 100 (wr_request 2 8)])
      by (apply (f_equal fst) in E; cbn [fst] in E; rewrite <-E; vm_compute; reflexivity).
    exists s'. split; [by rewrite Hr|]. apply (f_equal snd) in E. cbn [snd] in E. rewrite <-E. vm_compute. reflexivity.
Defined.

(** ** Every request is completed *)

Section lengths.
Context (requests : list wadb_append_request).
(** Success comes with one receipt per request. *)
Definition full {A} (f : A → Prop) (m : M engine A) : Prop := ∀ g, wp m (λ r _, ∀ a, r = Ok a → f a) g.
Lemma full_bind {A B} (f : B → Prop) (m : M engine A) (k : A → M engine B) : (∀ a, full f (k a)) → full f (m ≫= k).
Proof. intros H g. apply wp_bind, wp_in. intros [a|e] g' _; [apply H|done]. Qed.
Lemma full_fail {A} (f : A → Prop) e : full f (mfail e).
Proof. intros g. by apply wp_fail. Qed.
Lemma full_ret {A} (f : A → Prop) a : f a → full f (mret a).
Proof. intros H g. apply wp_ret. by intros a' [= <-]. Qed.
Lemma receipts_length sequence l : length (receipts sequence l) = length l.
Proof. revert sequence. induction l as [|r l IH]; intros sequence; cbn; [done|]. by rewrite IH. Qed.
Lemma commit_frame_full g d ft lt n : full (λ l, length l = length requests) (commit_frame g d ft lt n requests).
Proof.
  unfold commit_frame. apply full_bind. intros active. apply full_bind. intros [_u|e].
  - do 4 (apply full_bind; intros ?). apply full_ret, receipts_length.
  - apply full_bind. intros _. apply full_fail.
Qed.
Lemma full_bind_with {A B} (h : A → Prop) (f : B → Prop) (m : M engine A) (k : A → M engine B) :
  full h m → (∀ a, h a → full f (k a)) → full f (m ≫= k).
Proof.
  intros Hm H g. apply wp_bind. eapply wp_mono; [apply Hm|]. cbn beta. intros [a|e] g' Ha; [by apply H, Ha|done].
Qed.
Lemma full_try {A} (h : A → Prop) (m : M engine A) : full h m → full (λ r, ∀ a, r = Ok a → h a) (mtry m).
Proof. intros Hm g. apply wp_try. eapply wp_mono; [apply Hm|]. cbn beta. by intros r g' H a [= <-]. Qed.
Definition one_each (o : option (list wadb_append_receipt) * list Z) : Prop :=
  match o.1 with Some l => length l = length requests | None => True end.
Lemma attempt_full fresh ft lt n nbytes rows : full one_each (attempt fresh ft lt n nbytes requests rows).
Proof.
  unfold attempt. do 3 (apply full_bind; intros ?). cbv zeta. apply full_bind. intros [[encoded rows'] d].
  destruct (_ && _).
  { apply full_bind. intros _. by apply full_ret. }
  apply full_bind. intros _. apply full_bind. intros [g|e]; [|apply full_bind; intros _; apply full_fail].
  eapply full_bind_with; [apply full_try, commit_frame_full|]. cbn beta. intros [l|e] Hl.
  - apply full_ret. by apply Hl.
  - apply full_bind. intros _. apply full_fail.
Qed.
Lemma commit_requests_full : full (λ l, length l = length requests) (wadb_commit_requests requests).
Proof.
  unfold wadb_commit_requests. destruct (group_sizes _ _ _) as [[row_count row_bytes]|]; [|apply full_fail].
  destruct (_ || _); [apply full_fail|]. destruct (group_time requests) as [ft lt]. destruct (clock_invalid _ _); [apply full_fail|].
  apply full_bind. intros []; cbn [negb]; [|apply full_fail]. do 2 (apply full_bind; intros ?). cbv zeta.
  destruct (_ || _); [apply full_fail|]. destruct (_ >? _); [apply full_fail|].
  eapply full_bind_with; [apply attempt_full|]. intros [[l|] rows] Hl; [by apply full_ret|].
  eapply full_bind_with; [apply attempt_full|]. intros [[l|] rows'] Hl'; [by apply full_ret|apply full_fail].
Qed.
End lengths.

(** Committing keeps the requests and gives each of them an outcome. *)
Lemma with_outcome_keys l receipts : length receipts = length l →
  map request_key (zip_with (λ r rc, with_outcome WADB_OK rc r) l receipts) = map request_key l.
Proof.
  revert receipts. induction l as [|r l IH]; intros [|rc receipts] Hl; try done. cbn. injection Hl as Hl. by rewrite IH.
Qed.
Lemma commit_group_keys fuel requests g :
  wp (commit_group fuel requests) (λ r _, ∃ l, r = Ok l ∧ map request_key l = map request_key requests) g.
Proof.
  assert (Hfail : ∀ e (l : list wadb_append_request), map request_key (map (λ r, with_outcome e (rq_receipt r) r) l) = map request_key l).
  { intros e l. rewrite map_map. done. }
  revert requests g. induction fuel as [|fuel IH]; intros requests g; cbn [commit_group]; apply wp_bind, wp_try;
    (eapply wp_mono; [apply commit_requests_full|]); cbn beta; intros [receipts|e] g1 Hl.
  - apply wp_ret. eexists. split; [done|]. apply with_outcome_keys. by apply Hl.
  - apply wp_ret. eexists. split; [done|]. apply Hfail.
  - apply wp_ret. eexists. split; [done|]. apply with_outcome_keys. by apply Hl.
  - destruct (_ && _); [|apply wp_ret; eexists; split; [done|]; apply Hfail].
    cbv zeta. apply wp_bind. eapply wp_mono; [apply IH|]. cbn beta. intros ? g2 (a&->&Ha). cbn beta iota.
    apply wp_bind. eapply wp_mono; [apply IH|]. cbn beta. intros ? g3 (b&->&Hb). cbn beta iota. apply wp_ret.
    eexists. split; [done|]. rewrite map_app, Ha, Hb, <-map_app. by rewrite take_drop.
Qed.

(** Steps that leave the queue and the completed requests alone. *)
Definition aside (s s' : ingestion) : Prop :=
  iw_queue s' = iw_queue s ∧ iw_done s' = iw_done s ∧
  length (g_tables (iw_database s')) = length (g_tables (iw_database s)).
#[local] Instance aside_trans : Transitive aside.
Proof. intros s1 s2 s3 (?&?&?) (?&?&?). split_and!; congruence. Qed.
Lemma on_table_aside {A} i (m : M engine A) (Q : result A → Prop) s :
  (Z.to_nat i < length (g_tables (iw_database s)))%nat → (∀ g, wp m (λ r _, Q r) g) →
  wp (iw_step (on_table i m)) (λ r s', Q r ∧ aside s s') s.
Proof.
  intros Hi Hm. unfold wp, iw_step, on_table. apply lookup_lt_is_Some_2 in Hi as [t Ht]. rewrite Ht.
  specialize (Hm (Eng (g_db (iw_database s)) t (g_os (iw_database s)))). unfold wp in Hm. destruct (m _) as [r e]. cbn in *.
  split; [done|]. split_and!; [done|done|]. cbn. by rewrite length_insert.
Qed.
Lemma complete_all_aside l s : wp (complete_all l) (λ r s', r = Ok () ∧ aside s s') s.
Proof.
  revert s. induction l as [|r l IH]; intros s; cbn [complete_all]; [by apply wp_ret|].
  assert (Hc : wp (complete r) (λ r s', r = Ok () ∧ aside s s') s).
  { unfold complete, wp. by destruct (decide (rq_status r = WADB_OK)). }
  apply wp_bind. eapply wp_mono; [exact Hc|]. cbn beta. intros ? s1 [-> H1]. cbn beta iota.
  eapply wp_mono; [apply IH|]. cbn beta. intros ? s2 [-> H2]. split; [done|by etrans].
Qed.
Lemma stamped_keys times l : length times = length l → map request_key (zip_with stamp times l) = map request_key l.
Proof. revert times. induction l as [|r l IH]; intros [|x times] Hl; try done. cbn. injection Hl as Hl. by rewrite IH. Qed.

(** Requests as [append_submit] enqueues them, for tables of the database. *)
Definition queue_ok (s : ingestion) : Prop :=
  Forall (λ r, 0 ≤ rq_row_bytes r ≤ FRAME_ROWS_LIMIT ∧
    (Z.to_nat (rq_table r) < length (g_tables (iw_database s)))%nat) (iw_queue s).
Definition round_done (s s' : ingestion) : Prop := ∃ k completed,
  (k ≠ 0 ∧ k ≤ length (iw_queue s))%nat ∧ iw_queue s' = drop k (iw_queue s) ∧ iw_done s' = rev completed ++ iw_done s ∧
  map request_key completed = map request_key (take k (iw_queue s)) ∧ Forall (λ r, rq_done r = true) completed ∧
  length (g_tables (iw_database s')) = length (g_tables (iw_database s)).
Lemma writer_round_spec s : queue_ok s → iw_queue s ≠ [] →
  wp writer_round (λ r s', r = Ok () ∧ round_done s s') s.
Proof.
  intros Hok Hne. unfold writer_round. apply wp_bind. unfold wp at 1, iw_get. cbn [fst snd].
  destruct (iw_queue s) as [|q l] eqn:Eq; [done|]. pose proof Hok as Hok'. unfold queue_ok in Hok'. rewrite Eq in Hok'.
  apply Forall_cons in Hok' as [[_ Ht] _]. cbv zeta. apply wp_bind.
  eapply wp_mono; [apply (on_table_aside _ get_table (λ r, ∃ t, r = Ok t) s Ht); intros g; by eexists|]. cbn beta.
  intros ? s1 [[t ->] (A1&A2&A3)]. cbn beta iota. apply wp_bind.
  eapply wp_mono; [apply take_batch_spec|].
  { rewrite A1. eapply Forall_impl; [exact Hok|]. by intros r [? _]. }
  { vm_compute. split; congruence. }
  { done. }
  cbn beta. intros ? s2 (k&times&->&[[Hl Hk] Hqu Hdo Hta]&_&_&_&_&Hz). cbn beta iota. rewrite A1 in *.
  assert (Hk0 : k ≠ 0%nat) by (by apply (Hz eq_refl q l)). clear Hz. cbn [app].
  set (batch := zip_with stamp times (take k (iw_queue s))).
  assert (Hkeys : map request_key batch = map request_key (take k (iw_queue s))).
  { apply stamped_keys. rewrite length_take. lia. }
  apply wp_bind. eapply wp_mono.
  { apply (on_table_aside (rq_table q) (commit_group (length batch) batch)
      (λ r, ∃ l, r = Ok l ∧ map request_key l = map request_key batch) s2); [by rewrite Hta, A3|]. intros g. apply commit_group_keys. }
  cbn beta. intros ? s3 [(committed&->&Hc) (B1&B2&B3)]. cbn beta iota. apply wp_bind.
  eapply wp_mono; [apply complete_all_aside|]. cbn beta. intros ? s4 [-> (C1&C2&C3)]. cbn beta iota.
  unfold wp, push_done. cbn [fst snd]. split; [done|]. exists k, (map finished committed). cbn.
  split_and!; [done|done|by rewrite C1, B1, Hqu|by rewrite C2, B2, Hdo, A2| | |by rewrite C3, B3, Hta, A3].
  - rewrite <-Hkeys, <-Hc, map_map. done.
  - apply Forall_map, Forall_true. done.
Qed.

(** The writer thread for [n] rounds. *)
Fixpoint writer_rounds (n : nat) : M ingestion unit :=
  match n with O => mret () | S n' => _ ← writer_round; writer_rounds n' end.
Lemma writer_rounds_idle n s : iw_queue s = [] → writer_rounds n s = (Ok (), s).
Proof.
  intros Hq. induction n as [|n IH]; [done|]. cbn [writer_rounds]. unfold mbind, M_bind, writer_round, mbind, M_bind, iw_get.
  rewrite Hq. apply IH.
Qed.
(** C30: The writer makes progress whatever the clock, the memory and the disk do: as many
    rounds as there are requests empty the queue, and every request has then been
    completed, in the order of the queue, with an outcome of its own. *)
Theorem queue_drains s : queue_ok s →
  ∃ s' completed, writer_rounds (length (iw_queue s)) s = (Ok (), s') ∧ iw_queue s' = [] ∧
    iw_done s' = rev completed ++ iw_done s ∧
    map request_key completed = map request_key (iw_queue s) ∧ Forall (λ r, rq_done r = true) completed.
Proof.
  assert (Hn : ∀ n s, (length (iw_queue s) ≤ n)%nat → queue_ok s →
    ∃ s' completed, writer_rounds n s = (Ok (), s') ∧ iw_queue s' = [] ∧ iw_done s' = rev completed ++ iw_done s ∧
      map request_key completed = map request_key (iw_queue s) ∧ Forall (λ r, rq_done r = true) completed); [|by apply Hn].
  intros n. induction n as [|n IH]; intros s0 Hl Hok.
  - destruct (iw_queue s0) eqn:E; [|cbn in Hl; lia]. exists s0, []. by rewrite E.
  - destruct (decide (iw_queue s0 = [])) as [Hq|Hq].
    { exists s0, []. rewrite writer_rounds_idle, Hq by done. done. }
    pose proof (writer_round_spec s0 Hok Hq) as Hw. unfold wp in Hw. cbn [writer_rounds]. unfold mbind, M_bind.
    destruct (writer_round s0) as [r s1]. destruct Hw as [Hr (k&done_&Hk&Hqu&Hdo&Hkeys&Hall&Hta)]. cbn [fst snd] in *. subst r.
    destruct (IH s1) as (s'&completed&E&Hq'&Hd'&Hk'&Ha').
    + rewrite Hqu, length_drop. lia.
    + unfold queue_ok in *. rewrite Hqu, Hta. by apply Forall_drop.
    + exists s', (done_ ++ completed). split_and!; [done|done| | |by apply Forall_app].
      * by rewrite Hd', Hdo, rev_app_distr, app_assoc.
      * by rewrite map_app, Hkeys, Hk', Hqu, <-map_app, take_drop.
Qed.

(** Three requests of page views, the last one on the next day. *)
Definition dr_values : list wadb_value :=
  [VU64 7; VBytes (zrep 16 171); VBytes [47; 97]; VBytes [47]; VU64 250; VU64 200; VBytes [68; 69]; VU64 1; VU64 0].
Definition dr_request : wadb_append_request :=
  Request 0 dr_values (zrep 48 0) 1 48 248 0 0 0 (Receipt 0 0 0 0) WADB_OK false.
Definition dr_state : ingestion :=
  Ingestion (Database (new_db [47] wadb_options_default 0) [new_table md_identity (Manifest 1 0 0 0 1 [])] [] 0 true
      (Os ∅ {[t_directory md_identity]} [] [] [] []))
    [dr_request; dr_request; dr_request] [] [100; 90; 86400000001; 86400000001] false.
Lemma queue_drains_witness : ∃ s' (completed : list wadb_append_request),
  writer_rounds 3 dr_state = (Ok (), s') ∧ iw_queue s' = [] ∧ length completed = 3%nat ∧
  map rq_status (iw_done s') = [WADB_OK; WADB_OK; WADB_OK] ∧
  map (λ r, rc_first_sequence (rq_receipt r)) (iw_done s') = [3; 2; 1].
Proof.
  destruct (queue_drains dr_state) as (s'&completed&E&Hq&_&Hk&_).
  - repeat constructor; vm_compute; congruence.
  - exists s', completed. split_and!; [exact E|exact Hq| |..].
    + apply (f_equal length) in Hk. by rewrite !length_map in Hk.
    + apply (f_equal snd) in E. cbn [snd] in E. rewrite <-E. vm_compute. reflexivity.
    + apply (f_equal snd) in E. cbn [snd] in E. rewrite <-E. vm_compute. reflexivity.
Defined.
