(* ===== verification/Findings.v ===== *)
(** * A history that leaves a database that cannot be opened

    An append that fails for lack of memory after its segment was created leaves an
    empty active segment behind. The next day's append seals it empty and starts a
    segment with the same first sequence number. Retention skips the empty segment,
    retires the one after it and moves the preserved sequence past both; the next
    recovery finds the empty segment out of order. *)

From Stdlib Require Import String.
From stdpp Require Import base numbers list list_numbers gmap.
From S2P Require Import Prelude Encoding Schema Rows Dictionary Files Engine Metadata Retention Commit Database Cursors Writer.

Definition hits_defs : list wadb_field_def := [FieldDef (cstr "hits") WADB_U32 0 false].
Definition open_db : M os database := wadb_open (cstr "/db") wadb_options_default (Some (cstr "/db")).
(** One row a day on two days, then retention of a millisecond on the fifth day: the
    outcomes of the two appends, and of the retention. *)
Definition two_days : M ingestion (list wadb_status * result unit) :=
  t ← iw_step (wadb_create_table (cstr "views") hits_defs 1000);
  _ ← append_submit t [VU64 3] 1;
  _ ← writer_round;
  _ ← append_submit t [VU64 4] 1;
  _ ← writer_round;
  '(_, applied) ← iw_step (wadb_retention_apply t (5 * 86400000000));
  s ← iw_get;
  mret (map rq_status (rev (iw_done s)), applied).
(** The history in an empty file system where every call succeeds, except for the
    allocation number [failing]. *)
Definition two_days_run (failing : nat) : result (list wadb_status * result unit) * os :=
  match open_db (Os ∅ {[cstr "/"]} [] (repeat true failing ++ [false]) [] []) with
  | (Ok g, _) =>
      let '(r, s) := two_days (Ingestion g [] [] [1000; 86400000005] false) in (r, g_os (iw_database s))
  | (Err e, w) => (Err e, w)
  end.

(** C28: An append that runs out of memory after its segment was created, a successful
    append on the next day and a successful retention run leave a database that the
    next open rejects as corrupt, although every operation after the first reported
    success; with the same operations and enough memory the database opens. *)
Theorem empty_segment_retention_unopenable :
  (two_days_run 40).1 = Ok ([WADB_NOMEM; WADB_OK], Ok ()) ∧
  (open_db (rebooted (two_days_run 40).2)).1 = Err WADB_CORRUPT ∧
  (two_days_run 1000).1 = Ok ([WADB_OK; WADB_OK], Ok ()) ∧
  status_of (open_db (rebooted (two_days_run 1000).2)).1 = WADB_OK.
Proof. vm_compute. repeat split. Qed.
