(* ===== verification/Auth.v ===== *)
(** * Authentication of the HTTP server (src/server/auth.c)

    The administrator's token, which is read from a file or created, and the sessions
    that a login with it opens. A C string in an array is the list of its characters
    before the terminator; a pointer that may be null is an [option]. The bytes that
    /dev/urandom yields are arguments, and so is what [fstat] says of the owner and the
    mode of the token file. *)

From Stdlib Require Import String Sorting.Sorted.
From stdpp Require Import base numbers list list_numbers gmap.
From S2P Require Import Prelude Encoding Files.

Definition WADB_SECRET_LENGTH : Z := 64.
Definition WADB_SESSION_LIMIT : Z := 32.
Definition LOGIN_WINDOW_NS : Z := 1000000000.
Definition SESSION_NS : Z := 43200000000000.

Record wadb_credentials := Credentials {
  cr_session : list Z;
  cr_csrf : list Z;
  cr_expires_ns : Z;
}.
#[global] Instance credentials_eq_dec : EqDecision wadb_credentials.
Proof. solve_decision. Defined.
(** [{0}], which is also what [memset] leaves. *)
Definition no_credentials : wadb_credentials := Credentials [] [] 0.

Record wadb_auth := Auth {
  a_token : list Z;
  a_sessions : list wadb_credentials;
  a_login_window : Z;
  a_login_attempts : Z;
}.

(** What [strlen] and [memcpy] see of the characters at a pointer: those before the
    first terminator. *)
Fixpoint c_string (l : list Z) : list Z :=
  match l with
  | [] => []
  | c :: l' => if c =? 0 then [] else c :: c_string l'
  end.

(** ** Secrets *)

Definition HEX_DIGITS : list Z := cstr "0123456789abcdef".
Definition hex_byte (b : Z) : list Z := [rd HEX_DIGITS (Z.shiftr b 4); rd HEX_DIGITS (Z.land b 15)].
Definition hex_text (l : list Z) : list Z := concat (map hex_byte l).

(** [nbytes] random bytes in hexadecimal; [None] is [false]. The loop over [read] is that
    of [pread], on the bytes the device is going to yield. *)
Definition wadb_random_hex (nbytes : Z) (random : list Z) : M os (option (list Z)) :=
  if nbytes >? 64 then mret None
  else
    opened ← syscall;
    if negb opened then mret None
    else λ w,
      let '(r, cs) := pread_loop (calls w) random 0 nbytes [] in
      (Ok (match r with Ok buffer => Some (hex_text buffer) | Err _ => None end), with_calls cs w).

Definition difference (a b : list Z) : Z :=
  fold_left (λ d i, Z.lor d (Z.lxor (rd a i) (rd b i))) (seqZ 0 WADB_SECRET_LENGTH) 0.
Definition secret_equal (a b : option (list Z)) : bool :=
  match a, b with
  | Some a, Some b =>
      if negb (zlen a =? WADB_SECRET_LENGTH) || negb (zlen b =? WADB_SECRET_LENGTH) then false
      else difference a b =? 0
  | _, _ => false
  end.

(** ** The token file *)

Definition lower_hex (c : Z) : bool := ((48 <=? c) && (c <=? 57)) || ((97 <=? c) && (c <=? 102)).
Definition NEWLINE : Z := 10.

(** The file is missing: a token is drawn and written. A file that could not be written
    completely stays behind. *)
Definition create_token (p : path) (random : list Z) : M os (list Z) :=
  token ← wadb_random_hex 32 random;
  match token with
  | None => mfail WADB_IO
  | Some token =>
      created ← syscall;
      if negb created then mfail WADB_IO
      else
        '(done, written) ← write_buffer (token ++ [NEWLINE]);
        _ ← set_file p written;
        if negb done then mfail WADB_IO
        else
          synced ← syscall;
          if negb synced then mfail WADB_IO else mret token
  end.
Definition load_token (p : path) (owner_only : bool) (random : list Z) : M os (list Z) :=
  opened ← syscall;
  w ← get_os;
  if negb opened then mfail WADB_IO
  else
    match files w !! p with
    | None => if bool_decide (p ∈ directories w) then mfail WADB_INVALID else create_token p random
    | Some content =>
        stat ← syscall;
        let size := zlen content in
        if negb stat || negb owner_only || (negb (size =? 64) && negb (size =? 65)) then mfail WADB_INVALID
        else
          text ← (λ w, let '(r, cs) := pread_loop (calls w) content 0 size [] in
                       (match r with Ok t => Ok t | Err _ => Err WADB_IO end, with_calls cs w));
          if negb (forallb lower_hex (sub text 0 64)) then mfail WADB_INVALID
          else if (size =? 65) && negb (rd text 64 =? NEWLINE) then mfail WADB_INVALID
          else mret (sub text 0 64)
    end.

Definition new_auth (token : list Z) : wadb_auth := Auth token (zrep WADB_SESSION_LIMIT no_credentials) 0 0.
Definition wadb_auth_open (p : path) (owner_only : bool) (random : list Z) : M os wadb_auth :=
  a ← os_malloc;
  if negb a then mfail WADB_NOMEM
  else
    token ← load_token p owner_only random;
    mutex ← syscall;
    if negb mutex then mfail WADB_IO else mret (new_auth token).

(** ** Sessions *)

(** The slot of a new session: the first one that expires first. *)
Fixpoint oldest_slot (l : list wadb_credentials) (i slot best : Z) : Z :=
  match l with
  | [] => slot
  | c :: l' =>
      if cr_expires_ns c <? best then oldest_slot l' (i + 1) i (cr_expires_ns c)
      else oldest_slot l' (i + 1) slot best
  end.
Definition session_slot (l : list wadb_credentials) : Z :=
  match l with [] => 0 | c :: l' => oldest_slot l' 1 0 (cr_expires_ns c) end.

Definition auth_state : Type := wadb_auth * os.
Definition in_auth_os {A} (m : M os A) : M auth_state A := λ s,
  let '(r, w) := m s.2 in (r, (s.1, w)).
Definition get_auth : M auth_state wadb_auth := λ s, (Ok s.1, s).
Definition set_auth (a : wadb_auth) : M auth_state unit := λ s, (Ok (), (a, s.2)).

(** The window of ten attempts per second. *)
Definition count_attempt (now : Z) (a : wadb_auth) : wadb_auth :=
  let a := if u64 (now - a_login_window a) >=? LOGIN_WINDOW_NS
           then Auth (a_token a) (a_sessions a) now 0 else a in
  Auth (a_token a) (a_sessions a) (a_login_window a) (u32 (a_login_attempts a + 1)).
Definition open_session (c : wadb_credentials) (a : wadb_auth) : wadb_auth :=
  Auth (a_token a) (wr (a_sessions a) (session_slot (a_sessions a)) c) (a_login_window a) (a_login_attempts a).

(** [token] are the characters of the JSON string, [length] of them. *)
Definition wadb_auth_login (token : option (list Z)) (random_session random_csrf : list Z)
    : M auth_state wadb_credentials :=
  now ← in_auth_os wadb_monotonic_ns;
  a ← get_auth;
  let a := count_attempt now a in
  _ ← set_auth a;
  if a_login_attempts a >? 10 then mfail WADB_BACKPRESSURE
  else if negb (match token with
                | Some t => (zlen t =? 64) && secret_equal (Some (a_token a)) (Some (c_string t))
                | None => false end)
  then mfail WADB_INVALID
  else
    session ← in_auth_os (wadb_random_hex 32 random_session);
    match session with
    | None => mfail WADB_IO
    | Some session =>
        csrf ← in_auth_os (wadb_random_hex 32 random_csrf);
        match csrf with
        | None => mfail WADB_IO
        | Some csrf =>
            let c := Credentials session csrf (u64 (now + SESSION_NS)) in
            _ ← set_auth (open_session c a);
            mret c
        end
    end.

Definition wadb_auth_bearer (a : wadb_auth) (header : option (list Z)) : bool :=
  match header with
  | Some h => bytes_eqb (take 7 h) (cstr "Bearer ") && secret_equal (Some (a_token a)) (Some (drop 7 h))
  | None => false
  end.

Definition session_accepts (now : Z) (session csrf : option (list Z)) (mutation : bool) (c : wadb_credentials) : bool :=
  (cr_expires_ns c >? now) && secret_equal (Some (cr_session c)) session &&
  (negb mutation || secret_equal (Some (cr_csrf c)) csrf).
Definition wadb_auth_session (session csrf : option (list Z)) (mutation : bool)
    : M auth_state (option wadb_credentials) :=
  now ← in_auth_os wadb_monotonic_ns;
  a ← get_auth;
  mret (List.find (session_accepts now session csrf mutation) (a_sessions a)).

Definition close_session (session : option (list Z)) (c : wadb_credentials) : wadb_credentials :=
  if secret_equal (Some (cr_session c)) session then no_credentials else c.
Definition wadb_auth_logout (session : option (list Z)) : M auth_state unit :=
  a ← get_auth;
  set_auth (Auth (a_token a) (map (close_session session) (a_sessions a)) (a_login_window a) (a_login_attempts a)).

(** ** What a session stands for

    A login that succeeded is kept in a history, the latest first, until the session is
    logged out; the history is not part of the program. *)

Record login := Login {
  lg_token : option (list Z);
  lg_time : Z;
  lg_credentials : wadb_credentials;
  lg_live : bool;
}.
Record auth_trace := Trace {
  tr_auth : wadb_auth;
  tr_history : list login;
  tr_last : Z;
}.
Definition revoke (session : option (list Z)) (l : login) : login :=
  if secret_equal (Some (cr_session (lg_credentials l))) session
  then Login (lg_token l) (lg_time l) (lg_credentials l) false else l.

(** Logins are handled by one thread, so that their clock readings follow each other. *)
Inductive auth_step : auth_trace → auth_trace → Prop :=
  | step_login a h last t r1 r2 w c a' w' :
      wadb_auth_login t r1 r2 (a, w) = (Ok c, (a', w')) →
      last < hd 0 (clock w) → hd 0 (clock w) + SESSION_NS ≤ UINT64_MAX →
      auth_step (Trace a h last) (Trace a' (Login t (hd 0 (clock w)) c true :: h) (hd 0 (clock w)))
  | step_refused a h last t r1 r2 w e a' w' :
      wadb_auth_login t r1 r2 (a, w) = (Err e, (a', w')) →
      auth_step (Trace a h last) (Trace a' h last)
  | step_logout a h last session w a' w' :
      wadb_auth_logout session (a, w) = (Ok (), (a', w')) →
      auth_step (Trace a h last) (Trace a' (map (revoke session) h) last).
Inductive auth_reachable (token : list Z) : auth_trace → Prop :=
  | auth_initial : auth_reachable token (Trace (new_auth token) [] 0)
  | auth_next s s' : auth_reachable token s → auth_step s s' → auth_reachable token s'.

(** *** Secrets *)

Lemma difference_spec a b : difference a b = 0 ↔ ∀ i, 0 ≤ i < WADB_SECRET_LENGTH → rd a i = rd b i.
Proof.
  unfold difference. assert (H : ∀ l d, fold_left (λ d i, Z.lor d (Z.lxor (rd a i) (rd b i))) l d = 0 ↔
    d = 0 ∧ ∀ i, i ∈ l → rd a i = rd b i).
  { induction l as [|j l IH]; intros d; cbn [fold_left].
    - split; [|tauto]. intros ->. split; [done|]. intros i Hi. by apply elem_of_nil in Hi.
    - rewrite IH, Z.lor_eq_0_iff, Z.lxor_eq_0_iff. set_solver. }
  rewrite H. split.
  - intros [_ Hi] i Hr. apply Hi, elem_of_seqZ. lia.
  - intros Hi. split; [done|]. intros i Hr%elem_of_seqZ. apply Hi. lia.
Qed.
Lemma secret_equal_spec a b : secret_equal a b = true ↔ ∃ s, a = Some s ∧ b = Some s ∧ zlen s = WADB_SECRET_LENGTH.
Proof.
  unfold secret_equal. destruct a as [a|], b as [b|]; try (split; [done|intros (?&?&?&?); done]).
  destruct (Z.eqb_spec (zlen a) WADB_SECRET_LENGTH) as [Ha|Ha]; cbn [negb orb];
    [|split; [done|intros (?&[= <-]&[= <-]&?); done]].
  destruct (Z.eqb_spec (zlen b) WADB_SECRET_LENGTH) as [Hb|Hb]; cbn [negb orb];
    [|split; [done|intros (?&[= <-]&[= <-]&?); done]].
  rewrite Z.eqb_eq, difference_spec. split.
  - intros H. exists a. split_and!; [done| |done]. f_equal. symmetry. apply list_eq_rd; [lia|]. intros i Hi. apply H. lia.
  - intros (s&[= <-]&[= <-]&_). done.
Qed.
Lemma zlen_hex_text l : zlen (hex_text l) = 2 * zlen l.
Proof.
  unfold hex_text. induction l as [|b l IH]; [done|]. cbn [map concat]. rewrite zlen_app, IH, zlen_cons. change (zlen (hex_byte b)) with 2. lia.
Qed.
Lemma c_string_full l : zlen (c_string l) = zlen l → c_string l = l.
Proof.
  assert (Hle : ∀ l, zlen (c_string l) ≤ zlen l).
  { induction l0 as [|c l0 IH]; cbn; [done|]. destruct (c =? 0); rewrite ?zlen_cons, ?zlen_nil; pose proof (zlen_nonneg l0); lia. }
  induction l as [|c l IH]; cbn; [done|]. destruct (c =? 0); rewrite ?zlen_cons, ?zlen_nil.
  - pose proof (zlen_nonneg l). lia.
  - intros H. f_equal. apply IH. lia.
Qed.
Lemma random_hex_spec n random w : 0 ≤ n → wp (wadb_random_hex n random)
  (λ r w', ∃ o, r = Ok o ∧ clock w' = clock w ∧ ∀ s, o = Some s → zlen s = 2 * n) w.
Proof.
  intros Hn. unfold wadb_random_hex. destruct (n >? 64); [apply wp_ret; by exists None|].
  apply wp_bind. unfold wp at 1, syscall. cbn [fst snd]. destruct (negb _); [apply wp_ret; by exists None|].
  unfold wp. cbn [calls with_calls]. destruct (pread_loop _ _ _ _ _) as [r cs] eqn:E. cbn [fst snd].
  eexists. split; [done|]. split; [done|]. intros s Hs. destruct r as [buffer|e]; [|done]. injection Hs as <-.
  rewrite zlen_hex_text. f_equal. pose proof (zlen_nonneg random).
  destruct (pread_loop_spec _ random 0 n [] _ _ ltac:(done) ltac:(done) ltac:(exact Hn)
    ltac:(exact H) E) as [[?|[[Hc [= ->]]|[_ ?]]] _]; [done| |done]. by rewrite zlen_sub by lia.
Qed.
(** What a login does, on every branch. *)
Lemma login_spec t r1 r2 a w r a' w' :
  wadb_auth_login t r1 r2 (a, w) = (r, (a', w')) →
  let b := count_attempt (hd 0 (clock w)) a in
  match r with
  | Ok c => a_login_attempts b ≤ 10 ∧ t = Some (a_token a) ∧ a' = open_session c b ∧
      cr_expires_ns c = u64 (hd 0 (clock w) + SESSION_NS) ∧
      zlen (cr_session c) = WADB_SECRET_LENGTH ∧ zlen (cr_csrf c) = WADB_SECRET_LENGTH
  | Err e => a' = b ∧ (e = WADB_BACKPRESSURE ∧ 10 < a_login_attempts b ∨
                       (e = WADB_INVALID ∨ e = WADB_IO) ∧ a_login_attempts b ≤ 10)
  end.
Proof.
  intros Hrun b. unfold wadb_auth_login, mbind, M_bind, in_auth_os, get_auth, set_auth, wadb_monotonic_ns in Hrun.
  cbn [fst snd] in Hrun. fold b in Hrun. destruct (Z.gtb_spec (a_login_attempts b) 10) as [Hl|Hl]; [injection Hrun as <- <- <-; auto|].
  assert (Ht : a_token b = a_token a) by (unfold b, count_attempt; cbn [a_token]; by destruct (u64 _ >=? _)). clearbody b.
  destruct t as [t|]; [|injection Hrun as <- <- <-; auto].
  destruct ((zlen t =? 64) && _) eqn:Es; cbn [negb] in Hrun; [|injection Hrun as <- <- <-; auto].
  apply andb_true_iff in Es as [H64 (s&[= Hs]&[= Hc]&Hlen)%secret_equal_spec]. apply Z.eqb_eq in H64.
  assert (Htok : t = a_token a) by (rewrite <-Ht, Hs, <-(c_string_full t); [done|unfold WADB_SECRET_LENGTH in *; congruence]).
  set (w1 := Os _ _ _ _ _ _) in Hrun. unfold mfail, mret, M_ret in Hrun. cbn [fst snd] in Hrun.
  pose proof (random_hex_spec 32 r1 w1 ltac:(done)) as H1. unfold wp in H1.
  destruct (wadb_random_hex 32 r1 w1) as [o1 w2]. cbn [fst snd] in H1. destruct H1 as (s1&->&_&Hl1).
  cbn [fst snd] in Hrun. destruct s1 as [s1|]; [|injection Hrun as <- <- <-; auto].
  cbn [fst snd] in Hrun. pose proof (random_hex_spec 32 r2 w2 ltac:(done)) as H2. unfold wp in H2.
  destruct (wadb_random_hex 32 r2 w2) as [o2 w3]. cbn [fst snd] in H2. destruct H2 as (s2&->&_&Hl2).
  cbn [fst snd] in Hrun. destruct s2 as [s2|]; injection Hrun as <- <- <-; [|auto].
  cbn. split_and!; [done|by f_equal|done|done|by apply Hl1|by apply Hl2].
Qed.

(** *** The session table *)

Lemma oldest_slot_spec l i slot best pre :
  i = zlen pre → 0 ≤ slot < i → cr_expires_ns <$> pre !! Z.to_nat slot = Some best →
  Forall (λ c, best ≤ cr_expires_ns c) pre →
  ∃ c, (pre ++ l) !! Z.to_nat (oldest_slot l i slot best) = Some c ∧
    0 ≤ oldest_slot l i slot best ∧ Forall (λ c', cr_expires_ns c ≤ cr_expires_ns c') (pre ++ l).
Proof.
  revert i slot best pre. induction l as [|c l IH]; intros i slot best pre -> Hs Hb Hall; cbn [oldest_slot].
  - apply fmap_Some in Hb as (c&Hc&->). exists c. rewrite app_nil_r. split_and!; [done|lia|done].
  - replace (pre ++ c :: l) with ((pre ++ [c]) ++ l) by (by rewrite <-app_assoc).
    assert (Hlen : zlen pre + 1 = zlen (pre ++ [c])) by (by rewrite zlen_app).
    destruct (Z.ltb_spec (cr_expires_ns c) best).
    + apply IH; [done|lia| |].
      * unfold zlen. rewrite Nat2Z.id, lookup_app_r, Nat.sub_diag by lia. done.
      * apply Forall_app. split; [|by repeat constructor]. eapply Forall_impl; [exact Hall|]. cbn. lia.
    + apply IH; [done|lia| |].
      * rewrite lookup_app_l; [done|]. unfold zlen in Hs. lia.
      * apply Forall_app. split; [done|by repeat constructor].
Qed.
Lemma session_slot_spec l : l ≠ [] → ∃ c, l !! Z.to_nat (session_slot l) = Some c ∧ 0 ≤ session_slot l ∧
  Forall (λ c', cr_expires_ns c ≤ cr_expires_ns c') l.
Proof.
  destruct l as [|c l]; [done|]. intros _. cbn [session_slot].
  apply (oldest_slot_spec l 1 0 (cr_expires_ns c) [c]); [done|lia|done|by repeat constructor].
Qed.

Definition expires (l : login) : Z := cr_expires_ns (lg_credentials l).
Record auth_inv (token : list Z) (s : auth_trace) : Prop := {
  inv_token : a_token (tr_auth s) = token;
  inv_slots : length (a_sessions (tr_auth s)) = 32%nat;
  inv_logins : Forall (λ l, lg_token l = Some token ∧ 0 < lg_time l ≤ tr_last s ∧ expires l = lg_time l + SESSION_NS ∧
    zlen (cr_session (lg_credentials l)) = WADB_SECRET_LENGTH ∧ zlen (cr_csrf (lg_credentials l)) = WADB_SECRET_LENGTH) (tr_history s);
  inv_order : StronglySorted (λ l l', lg_time l' < lg_time l) (tr_history s);
  inv_sound c : c ∈ a_sessions (tr_auth s) → c = no_credentials ∨
    ∃ l, l ∈ tr_history s ∧ lg_live l = true ∧ lg_credentials l = c;
  inv_distinct i j c c' : i ≠ j → a_sessions (tr_auth s) !! i = Some c → a_sessions (tr_auth s) !! j = Some c' →
    0 < cr_expires_ns c → cr_expires_ns c ≠ cr_expires_ns c';
  inv_kept l : l ∈ take 32 (tr_history s) → lg_live l = true → lg_credentials l ∈ a_sessions (tr_auth s);
}.
Lemma in_take {A} n (l : list A) x : x ∈ take n l → x ∈ l.
Proof. intros H. rewrite <-(take_drop n l). apply elem_of_app. by left. Qed.
Lemma sorted_take {A} (R : A → A → Prop) n (l : list A) x y :
  StronglySorted R l → x ∈ take n l → y ∈ l → ¬ R x y → y ∈ take n l.
Proof.
  intros Hs Hx Hy Hn. rewrite <-(take_drop n l) in Hy, Hs. apply elem_of_app in Hy as [?|Hy]; [done|].
  destruct Hn. revert Hs Hx. generalize (take n l) as k. induction k as [|z k IH]; intros Hs Hx; [by apply elem_of_nil in Hx|].
  apply StronglySorted_inv in Hs as [Hs Hz]. apply elem_of_cons in Hx as [->|Hx]; [|by apply IH].
  rewrite Forall_forall in Hz. apply Hz, elem_of_app. by right.
Qed.
Lemma NoDup_lookup_ne {A} (l : list A) : (∀ i j x y, i ≠ j → l !! i = Some x → l !! j = Some y → x ≠ y) → NoDup l.
Proof. intros H. apply NoDup_alt. intros i j x Hi Hj. destruct (decide (i = j)) as [|Hne]; [done|]. by destruct (H i j x x Hne Hi Hj). Qed.

(** The slot that is reused never holds one of the 31 latest sessions. *)
Lemma slot_not_recent token s l c : auth_inv token s →
  a_sessions (tr_auth s) !! Z.to_nat (session_slot (a_sessions (tr_auth s))) = Some c →
  Forall (λ c', cr_expires_ns c ≤ cr_expires_ns c') (a_sessions (tr_auth s)) →
  l ∈ take 31 (tr_history s) → lg_credentials l = c → False.
Proof.
  intros Hinv Hc Hmin Hl <-. pose proof (inv_logins _ _ Hinv) as Hlog. rewrite Forall_forall in Hlog.
  assert (Hpos : 0 < expires l).
  { assert (Hin : l ∈ tr_history s) by (by eapply in_take). destruct (Hlog l Hin) as (_&?&->&_). unfold SESSION_NS. lia. }
  set (xs := cr_expires_ns <$> a_sessions (tr_auth s)). set (ys := expires <$> take 31 (tr_history s)).
  assert (Hnd : NoDup xs).
  { apply NoDup_lookup_ne. intros i j x y Hij Hi Hj. unfold xs in Hi, Hj.
    apply list_lookup_fmap_Some in Hi as (a&->&Ha), Hj as (b&->&Hb). apply (inv_distinct _ _ Hinv i j a b Hij Ha Hb).
    rewrite Forall_forall in Hmin. specialize (Hmin a (list_elem_of_lookup_2 _ _ _ Ha)). unfold expires in *. lia. }
  assert (Hsub : xs ⊆ ys).
  { intros x (a&->&Ha)%list_elem_of_fmap. rewrite Forall_forall in Hmin. specialize (Hmin a Ha).
    destruct (inv_sound _ _ Hinv a Ha) as [->|(l'&Hl'&_&<-)]; [unfold expires in *; cbn in Hmin; lia|].
    apply list_elem_of_fmap. exists l'. split; [done|]. eapply sorted_take; [apply (inv_order _ _ Hinv)|exact Hl|exact Hl'|].
    destruct (Hlog l' Hl') as (_&_&E'&_). destruct (Hlog l) as (_&_&E&_); [by eapply in_take|]. unfold expires in *. lia. }
  apply (NoDup_submseteq xs ys Hnd) in Hsub. apply submseteq_length in Hsub. unfold xs, ys in Hsub.
  rewrite !length_fmap, (inv_slots _ _ Hinv), length_take in Hsub. lia.
Qed.

Lemma inv_initial token : auth_inv token (Trace (new_auth token) [] 0).
Proof.
  split; cbn [tr_auth tr_history tr_last new_auth a_token a_sessions]; try done.
  - constructor.
  - intros c Hc. left. by apply elem_of_replicate in Hc as [-> _].
  - intros i j c c' _ Hi _. apply lookup_replicate in Hi as [-> _]. cbn. lia.
  - intros l Hl. rewrite take_nil in Hl. by apply elem_of_nil in Hl.
Qed.
Lemma count_attempt_sessions now a :
  a_token (count_attempt now a) = a_token a ∧ a_sessions (count_attempt now a) = a_sessions a.
Proof. unfold count_attempt. cbn [a_token a_sessions]. by destruct (_ >=? _). Qed.
Lemma inv_attempt token now a h last :
  auth_inv token (Trace a h last) → auth_inv token (Trace (count_attempt now a) h last).
Proof.
  destruct (count_attempt_sessions now a) as [Ht Hs]. intros [????? Hd ?].
  split; cbn [tr_auth tr_history tr_last] in *; rewrite ?Ht, ?Hs; try done.
Qed.
Lemma inv_login token a h last now c :
  auth_inv token (Trace a h last) → 0 ≤ last → last < now → cr_expires_ns c = now + SESSION_NS →
  zlen (cr_session c) = WADB_SECRET_LENGTH → zlen (cr_csrf c) = WADB_SECRET_LENGTH →
  auth_inv token (Trace (open_session c a) (Login (Some token) now c true :: h) now).
Proof.
  intros Hinv H0 Hlt He Hs Hcs. pose proof Hinv as [Ht Hlen Hlog Hord Hsound Hdist Hkept].
  cbn [tr_auth tr_history tr_last] in *. destruct (session_slot_spec (a_sessions a)) as (v&Hv&Hslot&Hmin).
  { intros E. by rewrite E in Hlen. }
  assert (Hbound : (Z.to_nat (session_slot (a_sessions a)) < length (a_sessions a))%nat) by (by eapply lookup_lt_Some).
  rewrite Forall_forall in Hlog.
  assert (Hnew : ∀ x, x ∈ a_sessions a → cr_expires_ns x ≠ cr_expires_ns c).
  { intros x Hx. destruct (Hsound x Hx) as [->|(l&Hl&_&<-)]; [cbn; unfold SESSION_NS in *; lia|].
    destruct (Hlog l Hl) as (_&?&E&_). unfold expires in E. lia. }
  split; cbn [tr_auth tr_history tr_last open_session a_token a_sessions].
  - done.
  - unfold wr. by rewrite length_insert.
  - constructor; [cbn; split_and!; done || lia|]. apply Forall_forall. intros l Hl. destruct (Hlog l Hl) as (?&?&?&?&?). split_and!; done || lia.
  - constructor; [done|]. apply Forall_forall. intros l Hl. destruct (Hlog l Hl) as (_&?&_). cbn. lia.
  - intros x Hx. unfold wr in Hx. apply list_elem_of_lookup in Hx as [i [(_&<-&_)|[_ Hx%list_elem_of_lookup_2]]%list_lookup_insert_Some].
    + right. eexists. split; [by apply elem_of_cons; left|done].
    + destruct (Hsound x Hx) as [?|(l&?&?&?)]; [by left|right]. exists l. split; [by apply elem_of_cons; right|done].
  - intros i j x y Hij Hi Hj Hpos. unfold wr in Hi, Hj. apply list_lookup_insert_Some in Hi as [(<-&->&_)|[Hi1 Hi]], Hj as [(Ej&->&_)|[Hj1 Hj]].
    + congruence.
    + apply not_eq_sym, Hnew. by eapply list_elem_of_lookup_2.
    + apply Hnew. by eapply list_elem_of_lookup_2.
    + by eapply (Hdist i j).
  - intros l Hl Hlive. unfold wr. cbn [take] in Hl. apply elem_of_cons in Hl as [->|Hl].
    { apply list_elem_of_lookup. eexists. by apply list_lookup_insert_eq. }
    assert (Hl32 : l ∈ take 32 h).
    { rewrite <-(take_drop 31 h), take_app_ge by (rewrite length_take; lia). apply elem_of_app. by left. }
    specialize (Hkept l Hl32 Hlive). apply list_elem_of_lookup in Hkept as [i Hi].
    destruct (decide (i = Z.to_nat (session_slot (a_sessions a)))) as [->|Hne].
    + exfalso. eapply (slot_not_recent token (Trace a h last) l v Hinv Hv Hmin Hl). cbn in Hi, Hv. congruence.
    + apply list_elem_of_lookup. exists i. by rewrite list_lookup_insert_ne.
Qed.
Lemma revoke_facts session l :
  lg_token (revoke session l) = lg_token l ∧ lg_time (revoke session l) = lg_time l ∧
  lg_credentials (revoke session l) = lg_credentials l.
Proof. unfold revoke. by destruct (secret_equal _ _). Qed.
Lemma revoke_live session l : lg_live (revoke session l) = true ↔
  lg_live l = true ∧ close_session session (lg_credentials l) = lg_credentials l.
Proof.
  unfold revoke, close_session. destruct (secret_equal _ session) eqn:E; cbn; [|tauto]. split; [done|].
  intros [_ H]. apply secret_equal_spec in E as (s&[= Hs]&_&Hl). rewrite <-H in Hs. cbn in Hs. by rewrite <-Hs in Hl.
Qed.
Lemma close_session_cases session c : close_session session c = no_credentials ∨ close_session session c = c.
Proof. unfold close_session. destruct (secret_equal _ _); auto. Qed.
Lemma inv_logout token a h last session :
  auth_inv token (Trace a h last) →
  auth_inv token (Trace (Auth (a_token a) (map (close_session session) (a_sessions a)) (a_login_window a) (a_login_attempts a))
    (map (revoke session) h) last).
Proof.
  intros [Ht Hlen Hlog Hord Hsound Hdist Hkept]. cbn [tr_auth tr_history tr_last] in *.
  split; cbn [tr_auth tr_history tr_last a_token a_sessions].
  - done.
  - by rewrite length_map.
  - apply Forall_map. eapply Forall_impl; [exact Hlog|]. intros l Hl. unfold compose, expires in *.
    destruct (revoke_facts session l) as (->&->&->). done.
  - clear -Hord. induction Hord as [|l h _ IH Hall]; [constructor|]. cbn [map]. constructor; [done|].
    apply Forall_map. eapply Forall_impl; [exact Hall|]. intros l' Hl'. unfold compose.
    destruct (revoke_facts session l) as (_&->&_), (revoke_facts session l') as (_&->&_). done.
  - intros c (c0&->&Hc0)%list_elem_of_fmap. destruct (close_session_cases session c0) as [->|Hsame]; [by left|].
    destruct (Hsound c0 Hc0) as [->|(l&Hl&Hlive&<-)]; [left; by rewrite Hsame|right].
    exists (revoke session l). split; [apply list_elem_of_fmap; eauto|]. destruct (revoke_facts session l) as (_&_&->).
    by rewrite revoke_live.
  - intros i j c c' Hij (c0&->&Hi)%list_lookup_fmap_Some (c1&->&Hj)%list_lookup_fmap_Some Hpos.
    destruct (close_session_cases session c0) as [E|E]; rewrite E in *; [cbn in Hpos; lia|].
    destruct (close_session_cases session c1) as [E'|E']; rewrite E'; [cbn; lia|]. by apply (Hdist i j).
  - intros l Hl Hlive. change (map (revoke session) h) with (revoke session <$> h) in Hl. rewrite <-fmap_take in Hl.
    apply list_elem_of_fmap in Hl as (l0&->&Hl0). apply revoke_live in Hlive as [Hlive Hsame].
    destruct (revoke_facts session l0) as (_&_&->). rewrite <-Hsame. apply list_elem_of_fmap. eauto.
Qed.
Lemma reachable_inv token s : auth_reachable token s → auth_inv token s ∧ 0 ≤ tr_last s.
Proof.
  induction 1 as [|s s' _ [IH H0] Hstep]; [split; [apply inv_initial|done]|].
  destruct Hstep as [a h last t r1 r2 w c a' w' Hrun Hlt Hmax|a h last t r1 r2 w e a' w' Hrun|a h last session w a' w' Hrun];
    cbn [tr_last] in *.
  - apply login_spec in Hrun as (_&->&->&He&Hs&Hc). rewrite u64_id in He by (unfold is_u64, SESSION_NS in *; lia).
    pose proof (inv_token _ _ IH) as Et. cbn in Et. rewrite Et. split; [|lia]. apply (inv_login token _ h last); [by apply inv_attempt|done..].
  - apply login_spec in Hrun as [-> _]. split; [by apply inv_attempt|done].
  - unfold wadb_auth_logout, get_auth, set_auth, mbind, M_bind in Hrun. cbn in Hrun. injection Hrun as <- <-.
    split; [by apply inv_logout|done].
Qed.

Lemma session_accepts_spec now session csrf mutation c :
  session_accepts now session csrf mutation c = true ↔
  now < cr_expires_ns c ∧ session = Some (cr_session c) ∧ zlen (cr_session c) = WADB_SECRET_LENGTH ∧
  (mutation = true → csrf = Some (cr_csrf c) ∧ zlen (cr_csrf c) = WADB_SECRET_LENGTH).
Proof.
  unfold session_accepts. rewrite !andb_true_iff, orb_true_iff, negb_true_iff, !secret_equal_spec, Z.gtb_lt. split.
  - intros [[? (s&[= <-]&->&?)] Hm]. split_and!; [done|done|done|]. intros ->. destruct Hm as [|(s&[= <-]&->&?)]; done.
  - intros (?&->&?&Hm). split; [split; [done|eauto]|]. destruct mutation; [right|by left]. destruct Hm as [-> ?]; [done|eauto].
Qed.

(** C13: A session is accepted only for credentials that a login with the administrator's
    token handed out less than twelve hours ago and that were not logged out since; a
    request that changes something must show the CSRF token of that login too. The
    sessions of the 32 latest logins are all accepted until they are logged out or
    expire, for reads without any CSRF token. *)
Theorem sessions_exact token s session csrf mutation w :
  auth_reachable token s →
  let now := hd 0 (clock w) in
  let r := (wadb_auth_session session csrf mutation (tr_auth s, w)).1 in
  (∀ c, r = Ok (Some c) → ∃ l, l ∈ tr_history s ∧ lg_live l = true ∧ lg_credentials l = c ∧
     lg_token l = Some token ∧ now < lg_time l + SESSION_NS ∧ session = Some (cr_session c) ∧
     (mutation = true → csrf = Some (cr_csrf c))) ∧
  (∀ l, l ∈ take 32 (tr_history s) → lg_live l = true → now < lg_time l + SESSION_NS →
     session = Some (cr_session (lg_credentials l)) → (mutation = true → csrf = Some (cr_csrf (lg_credentials l))) →
     ∃ c, r = Ok (Some c)).
Proof.
  intros Hr now r. destruct (reachable_inv token s Hr) as [[Ht Hlen Hlog Hord Hsound Hdist Hkept] _].
  assert (Er : r = Ok (List.find (session_accepts now session csrf mutation) (a_sessions (tr_auth s)))) by done.
  rewrite Forall_forall in Hlog. clearbody r. subst r. split.
  - intros c [= Hf]. apply find_some in Hf as [Hin (Hnow&->&H64&Hm)%session_accepts_spec]. apply list_elem_of_In in Hin.
    destruct (Hsound c Hin) as [->|(l&Hl&Hlive&<-)].
    { exfalso. done. }
    destruct (Hlog l Hl) as (?&?&He&_). exists l. unfold expires in He. split_and!; [done|done|done|done|lia|done|]. intros Hmu. by apply Hm.
  - intros l Hl Hlive Hnow -> Hcsrf. pose proof (Hkept l Hl Hlive) as Hin.
    destruct (Hlog l (in_take _ _ _ Hl)) as (_&_&He&Hs&Hc). unfold expires in He.
    destruct (List.find _ _) as [c|] eqn:Hf; [eauto|]. exfalso. apply list_elem_of_In in Hin.
    pose proof (find_none _ _ Hf _ Hin) as Hno. apply not_true_iff_false in Hno. apply Hno, session_accepts_spec.
    split_and!; [lia|done|done|]. intros Hmu. split; [by apply Hcsrf|done].
Qed.

(** One login, and a request with its session that changes something. *)
Definition au_token : list Z := zrep 64 97.
Definition au_os (now : Z) : os := Os ∅ ∅ [] [] [now] [].
Definition au_login := wadb_auth_login (Some au_token) (zrep 32 17) (zrep 32 34) (new_auth au_token, au_os 5).
Definition au_credentials : wadb_credentials := Credentials (zrep 64 49) (zrep 64 50) (5 + SESSION_NS).
Lemma au_login_ok : au_login = (Ok au_credentials, (open_session au_credentials (count_attempt 5 (new_auth au_token)), snd (snd au_login))).
Proof. vm_compute. reflexivity. Qed.
Definition au_trace : auth_trace :=
  Trace (open_session au_credentials (count_attempt 5 (new_auth au_token))) [Login (Some au_token) 5 au_credentials true] 5.
Lemma au_reachable : auth_reachable au_token au_trace.
Proof.
  eapply auth_next; [apply auth_initial|]. apply (step_login _ _ _ (Some au_token) (zrep 32 17) (zrep 32 34) (au_os 5) _ _ (snd (snd au_login))).
  - exact au_login_ok.
  - reflexivity.
  - vm_compute. congruence.
Qed.
Lemma sessions_exact_witness : ∃ c,
  fst (wadb_auth_session (Some (zrep 64 49)) (Some (zrep 64 50)) true (tr_auth au_trace, au_os 100)) = Ok (Some c) ∧
  fst (wadb_auth_session (Some (zrep 64 49)) None true (tr_auth au_trace, au_os 100)) = Ok None.
Proof.
  destruct (sessions_exact au_token au_trace (Some (zrep 64 49)) (Some (zrep 64 50)) true (au_os 100) au_reachable) as [_ H].
  destruct (H (Login (Some au_token) 5 au_credentials true)) as [c Hc].
  - left.
  - reflexivity.
  - vm_compute. reflexivity.
  - reflexivity.
  - reflexivity.
  - exists c. split; [exact Hc|vm_compute; reflexivity].
Defined.
