(* ===== verification/JsonMemory.v ===== *)
(** * The memory budget of a JSON request (first part of src/server/json.c)

    The allocator the JSON library is given: every block has a header with its size and
    the links of a doubly linked list, and the sizes are counted against a limit. Memory
    is a map from addresses to headers; what [malloc] and [realloc] return is an
    argument, an address or a null pointer. The operations are shown to keep a list of
    blocks, whatever the order in which the library gives them back. *)

From stdpp Require Import base numbers list list_numbers gmap.
From S2P Require Import Prelude.

(** [sizeof(wadb_json_block)]: the union has the size of [max_align_t]. *)
Definition SIZEOF_BLOCK : Z := 32.

Record wadb_json_block := Block {
  b_bytes : Z;
  b_previous : option Z;
  b_next : option Z;
}.
Record wadb_json_memory := Memory {
  jm_used : Z;
  jm_limit : Z;
  jm_blocks : option Z;
  jm_failure : wadb_status;
  jm_heap : gmap Z wadb_json_block;
}.
Definition with_failure (e : wadb_status) (m : wadb_json_memory) : wadb_json_memory :=
  Memory (jm_used m) (jm_limit m) (jm_blocks m) e (jm_heap m).
Definition set_previous (q : option Z) (b : wadb_json_block) : wadb_json_block := Block (b_bytes b) q (b_next b).
Definition set_next (q : option Z) (b : wadb_json_block) : wadb_json_block := Block (b_bytes b) (b_previous b) q.
(** [if (p) p->header.previous = q], and the same for [next]. *)
Definition link_previous (p q : option Z) (h : gmap Z wadb_json_block) : gmap Z wadb_json_block :=
  match p with Some p => alter (set_previous q) p h | None => h end.
Definition link_next (p q : option Z) (h : gmap Z wadb_json_block) : gmap Z wadb_json_block :=
  match p with Some p => alter (set_next q) p h | None => h end.

Definition allocate (n : Z) (address : option Z) (m : wadb_json_memory) : option Z * wadb_json_memory :=
  if (n >? SIZE_MAX - SIZEOF_BLOCK) || (u64 (n + SIZEOF_BLOCK) >? u64 (jm_limit m - jm_used m))
  then (None, with_failure WADB_LIMIT m)
  else
    match address with
    | None => (None, with_failure WADB_NOMEM m)
    | Some p =>
        let heap := <[p := Block (n + SIZEOF_BLOCK) None (jm_blocks m)]> (jm_heap m) in
        let heap := link_previous (jm_blocks m) (Some p) heap in
        (Some p, Memory (u64 (jm_used m + (n + SIZEOF_BLOCK))) (jm_limit m) (Some p) (jm_failure m) heap)
    end.
Definition block_at (m : wadb_json_memory) (p : Z) : wadb_json_block :=
  default (Block 0 None None) (jm_heap m !! p).
Definition release (ptr : option Z) (m : wadb_json_memory) : wadb_json_memory :=
  match ptr with
  | None => m
  | Some p =>
      let b := block_at m p in
      let heap := link_next (b_previous b) (b_next b) (jm_heap m) in
      let blocks := match b_previous b with Some _ => jm_blocks m | None => b_next b end in
      let heap := link_previous (b_next b) (b_previous b) heap in
      Memory (u64 (jm_used m - b_bytes b)) (jm_limit m) blocks (jm_failure m) (delete p heap)
  end.
(** [realloc] moves the block, header included, to [address]. *)
Definition resize (ptr : option Z) (n : Z) (address : option Z) (m : wadb_json_memory) : option Z * wadb_json_memory :=
  match ptr with
  | None => allocate n address m
  | Some p =>
      if n =? 0 then (None, release (Some p) m)
      else
        let b := block_at m p in
        let old := b_bytes b in
        if (n >? SIZE_MAX - SIZEOF_BLOCK) || (u64 (n + SIZEOF_BLOCK) >? u64 (jm_limit m - u64 (jm_used m - old)))
        then (None, with_failure WADB_LIMIT m)
        else
          match address with
          | None => (None, with_failure WADB_NOMEM m)
          | Some p' =>
              let heap := <[p' := Block (n + SIZEOF_BLOCK) (b_previous b) (b_next b)]> (delete p (jm_heap m)) in
              let heap := link_next (b_previous b) (Some p') heap in
              let blocks := match b_previous b with Some _ => jm_blocks m | None => Some p' end in
              let heap := link_previous (b_next b) (Some p') heap in
              (Some p', Memory (u64 (u64 (jm_used m - old) + (n + SIZEOF_BLOCK))) (jm_limit m) blocks (jm_failure m) heap)
          end
  end.
(** The loop of [wadb_json_destroy] that gives every block back; the number of blocks is
    fuel enough. *)
Fixpoint release_all (fuel : nat) (m : wadb_json_memory) : wadb_json_memory :=
  match fuel, jm_blocks m with
  | S fuel', Some p => release_all fuel' (release (Some p) m)
  | _, _ => m
  end.

(** ** The list of blocks *)

(** A stretch of the doubly linked list: from [p] on the heap holds the blocks of [l],
    addresses with their sizes; [prev] lies before and [next] behind them. *)
Fixpoint seg (h : gmap Z wadb_json_block) (prev p : option Z) (l : list (Z * Z)) (next : option Z) : Prop :=
  match l with
  | [] => p = next
  | (a, n) :: l' => p = Some a ∧ ∃ q, h !! a = Some (Block n prev q) ∧ seg h (Some a) q l' next
  end.
Definition sizes (l : list (Z * Z)) : Z := foldr (λ b s, b.2 + s) 0 l.
(** The address before what follows [l]. *)
Definition last_address (prev : option Z) (l : list (Z * Z)) : option Z := fold_left (λ _ b, Some b.1) l prev.
Record memory_holds (m : wadb_json_memory) (l : list (Z * Z)) : Prop := {
  mh_seg : seg (jm_heap m) None (jm_blocks m) l None;
  mh_nodup : NoDup (map fst l);
  mh_dom : dom (jm_heap m) = list_to_set (map fst l);
  mh_used : jm_used m = sizes l;
  mh_sizes : Forall (λ b, SIZEOF_BLOCK ≤ b.2) l;
  mh_limit : sizes l ≤ jm_limit m;
  mh_size_t : jm_limit m ≤ SIZE_MAX;
}.

Lemma sizes_cons b l : sizes (b :: l) = b.2 + sizes l.
Proof. done. Qed.
Lemma sizes_app l k : sizes (l ++ k) = sizes l + sizes k.
Proof. induction l as [|b l IH]; [done|]. cbn [app]. rewrite !sizes_cons, IH. lia. Qed.
Lemma sizes_nonneg l : Forall (λ b, SIZEOF_BLOCK ≤ b.2) l → 0 ≤ sizes l.
Proof. induction 1 as [|b l Hb _ IH]; [done|]. rewrite sizes_cons. unfold SIZEOF_BLOCK in Hb. lia. Qed.
Lemma seg_app h prev p l k next :
  seg h prev p (l ++ k) next ↔ ∃ mid, seg h prev p l mid ∧ seg h (last_address prev l) mid k next.
Proof.
  revert prev p. induction l as [|[a n] l IH]; intros prev p; cbn; [naive_solver|].
  setoid_rewrite IH. naive_solver.
Qed.
Lemma seg_frame h h' prev p l next :
  (∀ a, a ∈ map fst l → h' !! a = h !! a) → seg h prev p l next → seg h' prev p l next.
Proof.
  revert prev p. induction l as [|[a n] l IH]; intros prev p Hf; [done|]. cbn. intros (->&q&Hq&Hs). split; [done|].
  exists q. rewrite Hf by (cbn; set_solver). split; [done|]. apply IH; [|done]. intros b Hb. apply Hf. cbn. set_solver.
Qed.
(** Writing the links at the ends of a stretch. *)
Lemma seg_link_previous h prev prev' p l next : NoDup (map fst l) →
  seg h prev p l next → seg (link_previous p prev' h) prev' p l next.
Proof.
  destruct l as [|[a n] l]; [done|]. intros [Ha Hnd]%NoDup_cons (->&q&Hq&Hs). split; [done|]. exists q. cbn. split.
  - by rewrite lookup_alter_eq, Hq.
  - eapply seg_frame; [|exact Hs]. intros b Hb. rewrite lookup_alter_ne; [done|]. intros ->. done.
Qed.
Lemma seg_link_next h prev p l next next' : NoDup (map fst l) → l ≠ [] →
  seg h prev p l next → seg (link_next (last_address prev l) next' h) prev p l next'.
Proof.
  revert prev p. induction l as [|[a n] l IH]; intros prev p Hnd Hne; [done|]. cbn [map] in Hnd. apply NoDup_cons in Hnd as [Ha Hnd].
  cbn. intros (->&q&Hq&Hs). split; [done|]. destruct l as [|[a' n'] l].
  - cbn in *. exists next'. by rewrite lookup_alter_eq, Hq.
  - exists q. split; [|by apply IH]. assert (Hlast : ∀ k prev, ∃ x, last_address prev ((a', n') :: k) = Some x ∧ x ∈ map fst ((a', n') :: k)).
    { clear. induction k as [|[b nb] k IH] using rev_ind; intros prev; [cbn; set_solver|].
      unfold last_address. rewrite app_comm_cons, fold_left_app. cbn [fold_left]. eexists. split; [done|].
      rewrite map_app. apply elem_of_app. right. cbn. set_solver. }
    destruct (Hlast l (Some a)) as (x&Hx&Hin). unfold last_address in *. cbn [fold_left] in *. rewrite Hx. cbn.
    rewrite lookup_alter_ne; [done|]. intros ->. done.
Qed.
Lemma last_address_cons l b : last_address None (l ++ [b]) = Some b.1.
Proof. unfold last_address. by rewrite fold_left_app. Qed.
Lemma last_address_nil l : last_address None l = None → l = [].
Proof. induction l as [|b l _] using rev_ind; [done|]. by rewrite last_address_cons. Qed.
Lemma last_address_in l a : last_address None l = Some a → a ∈ map fst l.
Proof.
  induction l as [|b l _] using rev_ind; [done|]. rewrite last_address_cons, map_app. intros [= <-].
  apply elem_of_app. right. cbn. set_solver.
Qed.
Lemma dom_link_previous p q h : dom (link_previous p q h) = dom h.
Proof. destruct p; [apply dom_alter_L|done]. Qed.
Lemma dom_link_next p q h : dom (link_next p q h) = dom h.
Proof. destruct p; [apply dom_alter_L|done]. Qed.

(** ** The operations *)

Lemma budget_check n left : 0 ≤ n ≤ SIZE_MAX → 0 ≤ left ≤ SIZE_MAX →
  (n >? SIZE_MAX - SIZEOF_BLOCK) || (u64 (n + SIZEOF_BLOCK) >? u64 left) = bool_decide (¬ n + SIZEOF_BLOCK ≤ left).
Proof.
  intros Hn Hl. rewrite (u64_id left) by (unfold is_u64, SIZE_MAX in *; lia).
  destruct (Z.gtb_spec n (SIZE_MAX - SIZEOF_BLOCK)).
  - symmetry. apply bool_decide_eq_true. unfold SIZEOF_BLOCK in *. lia.
  - rewrite u64_id by (unfold is_u64, SIZE_MAX, SIZEOF_BLOCK in *; lia). cbn [orb].
    rewrite Z.gtb_ltb. symmetry. destruct (Z.ltb_spec left (n + SIZEOF_BLOCK));
      [apply bool_decide_eq_true; lia|apply bool_decide_eq_false; intros Hx; apply Hx; lia].
Qed.
Lemma nodup_mid (l1 l2 : list (Z * Z)) p n : NoDup (map fst (l1 ++ (p, n) :: l2)) →
  NoDup (map fst (l1 ++ l2)) ∧ p ∉ map fst (l1 ++ l2).
Proof.
  rewrite !map_app. cbn [map fst]. intros (?&Hd&[??]%NoDup_cons)%NoDup_app. split; [|set_solver].
  apply NoDup_app. split_and!; [done| |done]. set_solver.
Qed.
Lemma block_allocated m l n address : memory_holds m l → 0 ≤ n ≤ SIZE_MAX →
  (∀ a, address = Some a → a ∉ map fst l) →
  if decide (n + SIZEOF_BLOCK ≤ jm_limit m - jm_used m) then
    match address with
    | Some p => ∃ m', allocate n address m = (Some p, m') ∧ memory_holds m' ((p, n + SIZEOF_BLOCK) :: l) ∧ jm_limit m' = jm_limit m
    | None => allocate n address m = (None, with_failure WADB_NOMEM m)
    end
  else allocate n address m = (None, with_failure WADB_LIMIT m).
Proof.
  intros [Hseg Hnd Hdom Hused Hsz Hlim Hst] Hn Hfresh. pose proof (sizes_nonneg l Hsz) as H0. unfold allocate.
  rewrite budget_check by (unfold SIZE_MAX in *; lia). destruct (decide _) as [Hd|Hd]; [|by rewrite bool_decide_eq_true_2]. rewrite bool_decide_eq_false_2 by tauto.
  destruct address as [p|]; [|done]. specialize (Hfresh p eq_refl). eexists. split; [done|]. split; [|done].
  assert (Hp : p ∉ dom (jm_heap m)) by (rewrite Hdom; set_solver).
  split; cbn [jm_heap jm_blocks jm_used jm_limit].
  - split; [done|]. exists (jm_blocks m). split.
    + destruct l as [|[a k] l]; [cbn in Hseg; rewrite Hseg; apply lookup_insert_eq|]. destruct Hseg as (->&_).
      cbn. rewrite lookup_alter_ne by (cbn in Hfresh; set_solver). apply lookup_insert_eq.
    + apply (seg_link_previous _ None); [done|]. eapply seg_frame; [|exact Hseg]. intros a Ha. apply lookup_insert_ne. by intros ->.
  - cbn. by constructor.
  - rewrite dom_link_previous, dom_insert_L, Hdom. done.
  - rewrite sizes_cons. cbn [snd]. rewrite u64_id; [lia|]. unfold is_u64, SIZEOF_BLOCK, SIZE_MAX in *. lia.
  - constructor; [cbn; lia|done].
  - rewrite sizes_cons. cbn [snd]. lia.
  - done.
Qed.
Lemma block_at_mid m l1 p n l2 : memory_holds m (l1 ++ (p, n) :: l2) → ∃ q,
  block_at m p = Block n (last_address None l1) q ∧
  seg (jm_heap m) None (jm_blocks m) l1 (Some p) ∧ seg (jm_heap m) (Some p) q l2 None.
Proof.
  intros Hm. pose proof (mh_seg _ _ Hm) as Hs. apply seg_app in Hs as (mid&Hl1&->&q&Hq&Hl2).
  exists q. unfold block_at. by rewrite Hq.
Qed.
(** The two stretches around a block that goes away, joined. *)
Lemma seg_join h l1 p0 p l2 q x : NoDup (map fst (l1 ++ l2)) →
  seg h None p0 l1 p → seg h x q l2 None →
  seg (link_previous q (last_address None l1) (link_next (last_address None l1) q h)) None
    (match last_address None l1 with Some _ => p0 | None => q end) (l1 ++ l2) None.
Proof.
  intros Hnd H1 H2. rewrite map_app in Hnd. apply NoDup_app in Hnd as (Hnd1&Hdisj&Hnd2). apply seg_app. exists q. split.
  - assert (H1' : seg (link_next (last_address None l1) q h) None (match last_address None l1 with Some _ => p0 | None => q end) l1 q).
    { destruct (last_address None l1) as [a|] eqn:E.
      - rewrite <-E. apply (seg_link_next h None p0 l1 p q); [done| |done]. intros ->. done.
      - by apply last_address_nil in E as ->. }
    destruct q as [q|]; [|done]. eapply seg_frame; [|exact H1']. intros a Ha. cbn. apply lookup_alter_ne. intros ->.
    destruct l2 as [|[b nb] l2]; [done|]. destruct H2 as ([= ->]&_). apply (Hdisj b Ha). cbn. set_solver.
  - apply (seg_link_previous _ x); [done|]. eapply seg_frame; [|exact H2]. intros a Ha.
    destruct (last_address None l1) as [b|] eqn:E; [|done]. apply last_address_in in E. apply lookup_alter_ne.
    intros ->. by apply (Hdisj a).
Qed.
Lemma release_spec m l1 p n l2 : memory_holds m (l1 ++ (p, n) :: l2) →
  memory_holds (release (Some p) m) (l1 ++ l2) ∧ jm_limit (release (Some p) m) = jm_limit m.
Proof.
  intros Hm. pose proof (block_at_mid m l1 p n l2 Hm) as (q&Hb&H1&H2). destruct Hm as [Hseg Hnd Hdom Hused Hsz Hlim Hst].
  split; [|done]. destruct (nodup_mid _ _ _ _ Hnd) as [Hnd' Hp]. rewrite sizes_app, sizes_cons in Hused, Hlim. cbn [snd] in *.
  rewrite Forall_app, Forall_cons in Hsz. destruct Hsz as (Hs1&Hsp&Hs2).
  pose proof (sizes_nonneg _ Hs1). pose proof (sizes_nonneg _ Hs2).
  split; cbn [release]; rewrite ?Hb; cbn [b_previous b_next b_bytes jm_heap jm_blocks jm_used jm_limit].
  - eapply seg_frame; [|exact (seg_join _ l1 (jm_blocks m) (Some p) l2 q (Some p) Hnd' H1 H2)].
    intros a Ha. apply lookup_delete_ne. intros ->. done.
  - done.
  - rewrite dom_delete_L, dom_link_previous, dom_link_next, Hdom, !map_app. cbn. rewrite !map_app in Hp. set_solver.
  - rewrite Hused, sizes_app. rewrite u64_id; [lia|]. unfold is_u64, SIZEOF_BLOCK, SIZE_MAX in *. cbn in Hsp. lia.
  - by apply Forall_app.
  - rewrite sizes_app. unfold SIZEOF_BLOCK in *. cbn in Hsp. lia.
  - done.
Qed.
Lemma link_next_ne p q a h : p ≠ Some a → link_next p q h !! a = h !! a.
Proof. destruct p as [b|]; [|done]. intros Hne. apply lookup_alter_ne. congruence. Qed.
Lemma link_previous_ne p q a h : p ≠ Some a → link_previous p q h !! a = h !! a.
Proof. destruct p as [b|]; [|done]. intros Hne. apply lookup_alter_ne. congruence. Qed.
(** A block that [realloc] moved, between the two stretches around it. *)
Lemma seg_replace h p0 l1 p l2 q x p' n : NoDup (map fst (l1 ++ l2)) → p' ∉ map fst (l1 ++ l2) →
  h !! p' = Some (Block n (last_address None l1) q) → seg h None p0 l1 p → seg h x q l2 None →
  seg (link_previous q (Some p') (link_next (last_address None l1) (Some p') h)) None
    (match last_address None l1 with Some _ => p0 | None => Some p' end) (l1 ++ (p', n) :: l2) None.
Proof.
  intros Hnd Hp' Hh H1 H2. rewrite map_app in Hnd, Hp'. apply NoDup_app in Hnd as (Hnd1&Hdisj&Hnd2). apply seg_app. exists (Some p').
  assert (Hq : ∀ a, q = Some a → a ∈ map fst l2).
  { intros a ->. destruct l2 as [|[b nb] l2]; [done|]. destruct H2 as ([= ->]&_). cbn. set_solver. }
  assert (Hlast : ∀ a, last_address None l1 = Some a → a ∈ map fst l1) by (intros a; apply last_address_in).
  split; [|split; [done|]].
  - assert (H1' : seg (link_next (last_address None l1) (Some p') h) None (match last_address None l1 with Some _ => p0 | None => Some p' end) l1 (Some p')).
    { destruct (last_address None l1) as [a|] eqn:E.
      - rewrite <-E. apply (seg_link_next h None p0 l1 p); [done| |done]. intros ->. done.
      - by apply last_address_nil in E as ->. }
    eapply seg_frame; [|exact H1']. intros a Ha. apply link_previous_ne. intros E. by apply (Hdisj a Ha), Hq.
  - exists q. split.
    + rewrite link_previous_ne by (intros E; set_solver). rewrite link_next_ne by (intros E; set_solver). done.
    + apply (seg_link_previous _ x); [done|]. eapply seg_frame; [|exact H2]. intros a Ha. apply link_next_ne.
      intros E. by apply (Hdisj a); [apply Hlast|].
Qed.
Lemma resize_spec m l1 p k l2 n address : memory_holds m (l1 ++ (p, k) :: l2) → 0 < n ≤ SIZE_MAX →
  (∀ a, address = Some a → a ∉ map fst (l1 ++ l2)) →
  if decide (n + SIZEOF_BLOCK ≤ jm_limit m - (jm_used m - k)) then
    match address with
    | Some p' => ∃ m', resize (Some p) n address m = (Some p', m') ∧
        memory_holds m' (l1 ++ (p', n + SIZEOF_BLOCK) :: l2) ∧ jm_limit m' = jm_limit m
    | None => resize (Some p) n address m = (None, with_failure WADB_NOMEM m)
    end
  else resize (Some p) n address m = (None, with_failure WADB_LIMIT m).
Proof.
  intros Hm Hn Hfresh. pose proof (block_at_mid m l1 p k l2 Hm) as (q&Hb&H1&H2).
  destruct Hm as [Hseg Hnd Hdom Hused Hsz Hlim Hst]. rewrite sizes_app, sizes_cons in Hused, Hlim. cbn [snd] in *.
  rewrite Forall_app, Forall_cons in Hsz. destruct Hsz as (Hs1&Hsp&Hs2). cbn in Hsp.
  pose proof (sizes_nonneg _ Hs1). pose proof (sizes_nonneg _ Hs2).
  destruct (nodup_mid _ _ _ _ Hnd) as [Hnd' Hp]. unfold resize. rewrite Hb. cbn [b_bytes b_previous b_next]. destruct (Z.eqb_spec n 0); [lia|].
  assert (Eu : u64 (jm_used m - k) = jm_used m - k) by (apply u64_id; unfold is_u64, SIZEOF_BLOCK, SIZE_MAX in *; lia).
  rewrite !Eu, budget_check by (unfold SIZE_MAX, SIZEOF_BLOCK in *; lia). destruct (decide _) as [Hd|Hd]; [|by rewrite bool_decide_eq_true_2]. rewrite bool_decide_eq_false_2 by tauto.
  destruct address as [p'|]; [|done]. specialize (Hfresh p' eq_refl). eexists. split; [done|]. split; [|done].
  split; cbn [jm_heap jm_blocks jm_used jm_limit].
  - apply (seg_replace _ (jm_blocks m) l1 (Some p) l2 q (Some p)); [done|done|apply lookup_insert_eq| |].
    all: eapply seg_frame; [|eassumption]; intros a Ha; rewrite lookup_insert_ne, lookup_delete_ne;
      [done|rewrite map_app in *; set_solver..].
  - rewrite map_app in Hnd', Hfresh |- *. cbn. apply NoDup_app in Hnd' as (?&?&?). apply NoDup_app. split_and!; [done| |].
    + set_solver.
    + constructor; [set_solver|done].
  - rewrite dom_link_previous, dom_link_next, dom_insert_L, dom_delete_L, Hdom, !map_app. cbn. rewrite map_app in Hp. set_solver.
  - rewrite sizes_app, sizes_cons. cbn [snd]. rewrite u64_id; [lia|]. unfold is_u64, SIZEOF_BLOCK, SIZE_MAX in *. lia.
  - apply Forall_app. split; [done|]. constructor; [cbn; lia|done].
  - rewrite sizes_app, sizes_cons. cbn [snd]. lia.
  - done.
Qed.
Lemma release_all_spec m l : memory_holds m l →
  release_all (length l) m = Memory 0 (jm_limit m) None (jm_failure m) ∅.
Proof.
  revert m. induction l as [|[p n] l IH]; intros m Hm; cbn [length release_all].
  - destruct Hm as [Hs _ Hdom Hused _ _ _]. cbn in *. apply dom_empty_inv_L in Hdom.
    destruct m; cbn in *; congruence.
  - pose proof (mh_seg _ _ Hm) as (->&_). destruct (release_spec m [] p n l Hm) as [Hr Hl].
    rewrite (IH _ Hr), Hl. done.
Qed.

(** ** Sequences of calls

    The JSON library gives back and resizes only what it holds, and [malloc] and [realloc]
    return addresses that are not in use. *)

Inductive memory_step : wadb_json_memory → gmap Z Z → wadb_json_memory → gmap Z Z → Prop :=
  | step_allocate m held n address p m' :
      0 ≤ n ≤ SIZE_MAX → (∀ a, address = Some a → held !! a = None) →
      allocate n address m = (Some p, m') → memory_step m held m' (<[p := n]> held)
  | step_allocate_fails m held n address m' :
      0 ≤ n ≤ SIZE_MAX → (∀ a, address = Some a → held !! a = None) →
      allocate n address m = (None, m') → memory_step m held m' held
  | step_release m held p n :
      held !! p = Some n → memory_step m held (release (Some p) m) (delete p held)
  | step_resize m held p k n address p' m' :
      held !! p = Some k → 0 < n ≤ SIZE_MAX → (∀ a, address = Some a → delete p held !! a = None) →
      resize (Some p) n address m = (Some p', m') → memory_step m held m' (<[p' := n]> (delete p held))
  | step_resize_fails m held p k n address m' :
      held !! p = Some k → 0 < n ≤ SIZE_MAX → (∀ a, address = Some a → delete p held !! a = None) →
      resize (Some p) n address m = (None, m') → memory_step m held m' held.
Inductive memory_reachable (limit : Z) : wadb_json_memory → gmap Z Z → Prop :=
  | memory_initial : memory_reachable limit (Memory 0 limit None WADB_OK ∅) ∅
  | memory_next m held m' held' :
      memory_reachable limit m held → memory_step m held m' held' → memory_reachable limit m' held'.

(** The blocks are those the library holds, each with its header. *)
Definition same_blocks (l : list (Z * Z)) (held : gmap Z Z) : Prop :=
  ∀ p n, held !! p = Some n ↔ (p, n + SIZEOF_BLOCK) ∈ l.
Lemma memory_holds_failure m l e : memory_holds m l → memory_holds (with_failure e m) l.
Proof. intros []. by split. Qed.
Lemma same_blocks_mid l1 p k l2 held p' n : NoDup (map fst (l1 ++ (p, k) :: l2)) → p' ∉ map fst (l1 ++ l2) →
  same_blocks (l1 ++ (p, k) :: l2) held → same_blocks (l1 ++ (p', n + SIZEOF_BLOCK) :: l2) (<[p' := n]> (delete p held)).
Proof.
  intros [Hnd Hp]%nodup_mid Hp' Hsb a x. specialize (Hsb a x). rewrite elem_of_app, elem_of_cons in Hsb |- *.
  assert (Hin : ∀ z, (a, z) ∈ l1 ∨ (a, z) ∈ l2 → a ∈ map fst (l1 ++ l2)).
  { intros z Hz. apply list_elem_of_fmap. exists (a, z). split; [done|]. by apply elem_of_app. }
  destruct (decide (a = p')) as [->|Ha].
  - rewrite lookup_insert_eq. split.
    + intros [= <-]. auto.
    + intros [Hz|[Hz|Hz]]; [exfalso; eauto|apply (f_equal snd) in Hz; cbn in Hz; f_equal; lia|exfalso; eauto].
  - rewrite lookup_insert_ne by done. destruct (decide (a = p)) as [->|Hap].
    + rewrite lookup_delete_eq. split; [done|]. intros [Hz|[Hz|Hz]]; [exfalso; eauto|by apply (f_equal fst) in Hz|exfalso; eauto].
    + rewrite lookup_delete_ne, Hsb by done. split; intros [?|[E|?]]; auto; by apply (f_equal fst) in E.
Qed.
Lemma same_blocks_delete l1 p k l2 held : NoDup (map fst (l1 ++ (p, k) :: l2)) →
  same_blocks (l1 ++ (p, k) :: l2) held → same_blocks (l1 ++ l2) (delete p held).
Proof.
  intros [Hnd Hp]%nodup_mid Hsb a x. specialize (Hsb a x). rewrite elem_of_app, elem_of_cons in Hsb. rewrite elem_of_app.
  destruct (decide (a = p)) as [->|Hap].
  - rewrite lookup_delete_eq. split; [done|]. intros Hz. destruct Hp. apply list_elem_of_fmap. eexists (p, _). split; [done|].
    apply elem_of_app. exact Hz.
  - rewrite lookup_delete_ne, Hsb by done. split; [intros [?|[E|?]]|intros [?|?]]; auto; by apply (f_equal fst) in E.
Qed.
Lemma same_blocks_split l held p n : same_blocks l held → held !! p = Some n → ∃ l1 l2, l = l1 ++ (p, n + SIZEOF_BLOCK) :: l2.
Proof. intros Hsb Hp%Hsb. by apply list_elem_of_split in Hp. Qed.
Lemma same_blocks_fresh l held a : same_blocks l held → Forall (λ b, SIZEOF_BLOCK ≤ b.2) l → held !! a = None → a ∉ map fst l.
Proof.
  intros Hsb Hall Hn ([b n]&->&Hin)%list_elem_of_fmap. cbn in Hn. replace n with (n - SIZEOF_BLOCK + SIZEOF_BLOCK) in Hin by lia.
  apply Hsb in Hin. congruence.
Qed.

Lemma step_holds m held m' held' l : memory_step m held m' held' → memory_holds m l → same_blocks l held →
  jm_limit m' = jm_limit m ∧ ∃ l', memory_holds m' l' ∧ same_blocks l' held'.
Proof.
  intros Hstep Hm Hsb. pose proof (mh_sizes _ _ Hm) as Hsz. pose proof (mh_nodup _ _ Hm) as Hnd.
  destruct Hstep as [m held n address p m' Hn Hf Hrun|m held n address m' Hn Hf Hrun|m held p n Hp|
    m held p k n address p' m' Hp Hn Hf Hrun|m held p k n address m' Hp Hn Hf Hrun].
  - pose proof (block_allocated m l n address Hm Hn (λ a Ha, same_blocks_fresh _ _ _ Hsb Hsz (Hf a Ha))) as H. rewrite Hrun in H.
    destruct (decide _); [|done]. destruct address as [a|]; [|done]. destruct H as (m2&[= <- <-]&Hh&Hl). split; [done|].
    exists ((p, n + SIZEOF_BLOCK) :: l). split; [done|]. specialize (Hf p eq_refl). intros b x. rewrite elem_of_cons, <-(Hsb b x).
    destruct (decide (b = p)) as [->|Hne].
    + rewrite lookup_insert_eq, Hf. split; [intros [= <-]; by left|]. intros [E|?]; [apply (f_equal snd) in E; cbn in E; f_equal; lia|done].
    + rewrite lookup_insert_ne by done. split; [auto|]. intros [E|?]; [by apply (f_equal fst) in E|done].
  - pose proof (block_allocated m l n address Hm Hn (λ a Ha, same_blocks_fresh _ _ _ Hsb Hsz (Hf a Ha))) as H. rewrite Hrun in H.
    destruct (decide _), address as [a|]; try done; [by destruct H as (?&[= ?]&_)|..];
      injection H as ->; (split; [done|exists l; split; [by apply memory_holds_failure|done]]).
  - destruct (same_blocks_split l held p n Hsb Hp) as (l1&l2&->). destruct (release_spec m l1 p _ l2 Hm) as [Hr Hl].
    split; [done|]. exists (l1 ++ l2). split; [done|]. by eapply same_blocks_delete.
  - destruct (same_blocks_split l held p k Hsb Hp) as (l1&l2&->).
    assert (Hfresh : ∀ a, address = Some a → a ∉ map fst (l1 ++ l2)).
    { intros a Ha. apply (same_blocks_fresh _ (delete p held)); [by eapply same_blocks_delete| |by apply Hf].
      apply Forall_app in Hsz as [? [? ?]%Forall_cons]. by apply Forall_app. }
    pose proof (resize_spec m l1 p _ l2 n address Hm Hn Hfresh) as H. rewrite Hrun in H.
    destruct (decide _); [|done]. destruct address as [a|]; [|done]. destruct H as (m2&[= <- <-]&Hh&Hl). split; [done|].
    eexists. split; [exact Hh|]. apply (same_blocks_mid l1 p (k + SIZEOF_BLOCK)); [done|by apply Hfresh|done].
  - destruct (same_blocks_split l held p k Hsb Hp) as (l1&l2&->).
    assert (Hfresh : ∀ a, address = Some a → a ∉ map fst (l1 ++ l2)).
    { intros a Ha. apply (same_blocks_fresh _ (delete p held)); [by eapply same_blocks_delete| |by apply Hf].
      apply Forall_app in Hsz as [? [? ?]%Forall_cons]. by apply Forall_app. }
    pose proof (resize_spec m l1 p _ l2 n address Hm Hn Hfresh) as H. rewrite Hrun in H.
    destruct (decide _), address as [a|]; try done; [by destruct H as (?&[= ?]&_)|..];
      injection H as ->; (split; [done|eexists; split; [by apply memory_holds_failure|done]]).
Qed.
(** The bytes of what the library holds, headers included. *)
Definition held_bytes (held : gmap Z Z) : Z := map_fold (λ _ n s, n + SIZEOF_BLOCK + s) 0 held.
Lemma same_blocks_sizes l held : NoDup (map fst l) → same_blocks l held →
  sizes l = held_bytes held ∧ length l = size held.
Proof.
  revert held. induction l as [|[p n] l IH]; intros held Hnd Hsb.
  - assert (held = ∅) as ->.
    { apply map_empty. intros p. destruct (held !! p) as [n|] eqn:E; [|done]. apply Hsb in E. by apply elem_of_nil in E. }
    done.
  - assert (Hp : held !! p = Some (n - SIZEOF_BLOCK)).
    { apply Hsb, elem_of_cons. left. f_equal. lia. }
    destruct (IH (delete p held)) as [Hs Hl]; [by apply NoDup_cons in Hnd as [_ ?]|by apply (same_blocks_delete [] p n l)|].
    rewrite sizes_cons, Hs. cbn [snd length]. rewrite Hl, map_size_delete_Some by eauto. split.
    + unfold held_bytes. rewrite (map_fold_delete_L _ 0 p _ held) by (done || intros; lia). lia.
    + assert (size held ≠ 0%nat) by (intros ->%map_size_empty_iff; done). lia.
Qed.

(** C19: Whatever a JSON request allocates, resizes and gives back, in whatever order, its
    budget counts exactly the bytes of the blocks in use, an allocation succeeds exactly
    when it fits into what is left of the limit, and the final loop over the doubly
    linked list frees every block. *)
Theorem memory_accounted limit m held :
  0 ≤ limit ≤ SIZE_MAX → memory_reachable limit m held →
  jm_used m = held_bytes held ∧ jm_used m ≤ limit ∧
  (∀ n a, 0 ≤ n ≤ SIZE_MAX → held !! a = None →
     (allocate n (Some a) m).1 = if decide (jm_used m + n + SIZEOF_BLOCK ≤ limit) then Some a else None) ∧
  release_all (size held) m = Memory 0 limit None (jm_failure m) ∅.
Proof.
  intros Hlim Hr. assert (Hinv : jm_limit m = limit ∧ ∃ l, memory_holds m l ∧ same_blocks l held).
  { induction Hr as [|m held m' held' _ [IHl (l&IHm&IHs)] Hstep].
    - split; [done|]. exists []. split; [|intros p n; split; [done|intros H; by apply elem_of_nil in H]].
      split; cbn; try done; try lia; try constructor.
    - destruct (step_holds _ _ _ _ l Hstep IHm IHs) as [E H]. split; [congruence|done]. }
  destruct Hinv as [<- (l&Hm&Hs)]. destruct (same_blocks_sizes l held (mh_nodup _ _ Hm) Hs) as [Hb Hl].
  split_and!; [rewrite (mh_used _ _ Hm); exact Hb|rewrite (mh_used _ _ Hm); apply (mh_limit _ _ Hm)| |rewrite <-Hl; by apply release_all_spec].
  intros n a Hn Ha. assert (Hfresh : ∀ b, Some a = Some b → b ∉ map fst l).
  { intros b [= <-]. eapply same_blocks_fresh; [exact Hs|apply (mh_sizes _ _ Hm)|done]. }
  pose proof (block_allocated m l n (Some a) Hm Hn Hfresh) as H.
  destruct (decide (jm_used m + _ + _ ≤ _)) as [Hd|Hd], (decide (n + _ ≤ _)) as [Hd'|Hd']; try lia.
  - by destruct H as (m'&->&_).
  - by rewrite H.
Qed.

(** Three blocks; the middle one is given back and the first one grows. *)
Definition jm_start : wadb_json_memory := Memory 0 1000 None WADB_OK ∅.
Definition jm_three : wadb_json_memory :=
  (allocate 30 (Some 3) (allocate 20 (Some 2) (allocate 10 (Some 1) jm_start).2).2).2.
Definition jm_end : wadb_json_memory := (resize (Some 1) 50 (Some 9) (release (Some 2) jm_three)).2.
Lemma jm_end_reachable : memory_reachable 1000 jm_end {[3 := 30; 9 := 50]}.
Proof.
  replace ({[3 := 30; 9 := 50]} : gmap Z Z) with (<[9 := 50]> (delete 1 (delete 2 (<[3 := 30]> (<[2 := 20]> (<[1 := 10]> ∅))))) : gmap Z Z)
    by (vm_compute; reflexivity).
  eapply memory_next; [eapply memory_next; [eapply memory_next; [eapply memory_next; [eapply memory_next; [apply memory_initial|]|]|]|]|].
  - apply (step_allocate _ _ 10 (Some 1)); [vm_compute; split; congruence|intros a [= <-]; reflexivity|reflexivity].
  - apply (step_allocate _ _ 20 (Some 2)); [vm_compute; split; congruence|intros a [= <-]; reflexivity|reflexivity].
  - apply (step_allocate _ _ 30 (Some 3)); [vm_compute; split; congruence|intros a [= <-]; reflexivity|reflexivity].
  - apply (step_release _ _ 2 20). reflexivity.
  - apply (step_resize _ _ 1 10 50 (Some 9)); [reflexivity|vm_compute; split; congruence|intros a [= <-]; reflexivity|reflexivity].
Qed.
Lemma memory_accounted_witness : jm_used jm_end = 144 ∧ (allocate 900 (Some 4) jm_end).1 = None ∧
  release_all 2 jm_end = Memory 0 1000 None WADB_OK ∅.
Proof.
  destruct (memory_accounted 1000 jm_end {[3 := 30; 9 := 50]}) as (Hu&_&Ha&Hr).
  - vm_compute. split; congruence.
  - exact jm_end_reachable.
  - split; [rewrite Hu; vm_compute; reflexivity|]. split; [rewrite (Ha 900 4); [vm_compute; reflexivity|vm_compute; split; congruence|reflexivity]|exact Hr].
Defined.
