(* ===== verification/Json.v ===== *)
(** * JSON requests and replies (src/server/json.c)

    The tree that the JSON library parses a body into, its validation, the conversions
    between JSON and values of the database, and replies. Parsing and writing text are
    the library's: they are parameters where they are used. A pointer to a value that may
    be null is an [option]. Functions that report through [wadb_json.error] and return
    false are functions into [result]. *)

From Stdlib Require Import String.
From stdpp Require Import base numbers list list_numbers gmap.
From S2P Require Import Prelude Encoding Utf8 Schema Float Rows Dictionary Files Engine Snapshot Plan Query Auth JsonMemory.

Definition WADB_HTTP_BODY_LIMIT : Z := 4 * 1024 * 1024.
Definition WADB_HTTP_REPLY_LIMIT : Z := 4 * 1024 * 1024.
Definition WADB_HTTP_APPEND_REPLY_LIMIT : Z := 4096.
Definition WADB_HTTP_JSON_LIMIT : Z := 32 * 1024 * 1024.
(** 2^53 - 1, up to which JavaScript counts exactly. *)
Definition JS_EXACT : Z := 9007199254740991.

#[local] Set Warnings "-register-all".

(** ** Values of the JSON library

    Numbers keep the form in which they were read or built: a nonnegative integer, a
    signed integer or a double. *)

Inductive yyjson_val :=
  | JNull
  | JBool (b : bool)
  | JUint (z : Z)
  | JSint (z : Z)
  | JReal (bits : Z)
  | JStr (s : list Z)
  | JArr (items : list yyjson_val)
  | JObj (members : list (list Z * yyjson_val)).

Definition is_arr (v : option yyjson_val) : bool := match v with Some (JArr _) => true | _ => false end.
Definition is_obj (v : option yyjson_val) : bool := match v with Some (JObj _) => true | _ => false end.
Definition is_str (v : option yyjson_val) : bool := match v with Some (JStr _) => true | _ => false end.
Definition arr_items (v : option yyjson_val) : list yyjson_val := match v with Some (JArr l) => l | _ => [] end.
Definition obj_members (v : option yyjson_val) : list (list Z * yyjson_val) := match v with Some (JObj l) => l | _ => [] end.
Definition get_str (v : option yyjson_val) : option (list Z) := match v with Some (JStr s) => Some s | _ => None end.
(** The first member with that key, null when there is none or [v] is not an object. *)
Definition obj_get (v : option yyjson_val) (key : list Z) : option yyjson_val :=
  snd <$> List.find (λ m, bytes_eqb m.1 key) (obj_members v).
(** A number as a double. *)
Definition get_num (v : yyjson_val) : Z :=
  match v with JReal b => b | JUint z | JSint z => f64_of_Z z | _ => 0 end.
Definition is_num (v : yyjson_val) : bool :=
  match v with JReal _ | JUint _ | JSint _ => true | _ => false end.

(** ** Validation of the tree *)

Definition key_valid (key : list Z) : bool :=
  negb ((zlen key =? 0) || (zlen key >=? WADB_NAME_CAP) || negb (zlen (c_string key) =? zlen key)).
(** The number of values counted so far; [None] is a tree that is refused. *)
Fixpoint validate_tree (v : yyjson_val) (depth nodes : Z) : option Z :=
  if (depth >? 32) || (nodes + 1 >? 200000) then None
  else
    match v with
    | JArr items =>
        (fix items_loop (l : list yyjson_val) (nodes : Z) : option Z :=
           match l with
           | [] => Some nodes
           | item :: l' =>
               match validate_tree item (depth + 1) nodes with
               | Some nodes' => items_loop l' nodes'
               | None => None
               end
           end) items (nodes + 1)
    | JObj members =>
        if zlen members >? 256 then None
        else
          (fix members_loop (l : list (list Z * yyjson_val)) (keys : list (list Z)) (nodes : Z) : option Z :=
             match l with
             | [] => Some nodes
             | (key, value) :: l' =>
                 if negb (key_valid key) || existsb (bytes_eqb key) keys then None
                 else
                   match validate_tree value (depth + 1) nodes with
                   | Some nodes' => members_loop l' (keys ++ [key]) nodes'
                   | None => None
                   end
             end) members [] (nodes + 1)
    | _ => Some (nodes + 1)
    end.

(** ** Arguments *)

Definition BAR : Z := 124.
(** The names between bars; nothing follows a bar at the end. *)
Fixpoint split_names (p name : list Z) : list (list Z) :=
  match p with
  | [] => [name]
  | c :: p' => if c =? BAR then name :: match p' with [] => [] | _ => split_names p' [] end
               else split_names p' (name ++ [c])
  end.
Definition field_names (p : list Z) : list (list Z) := match p with [] => [] | _ => split_names p [] end.
Definition wadb_json_allowed (object : option yyjson_val) (fields : string) : result unit :=
  if negb (is_obj object) then Err WADB_INVALID
  else if forallb (λ m, existsb (bytes_eqb m.1) (field_names (cstr fields))) (obj_members object) then Ok ()
  else Err WADB_INVALID.
Definition wadb_json_name (v : option yyjson_val) : result (list Z) :=
  match get_str v with
  | None => Err WADB_INVALID
  | Some s => if negb (zlen s =? zlen (c_string s)) || negb (wadb_identifier s) then Err WADB_INVALID else Ok s
  end.

(** ** Numbers *)

Fixpoint decimal_loop (s : list Z) (value : Z) : option Z :=
  match s with
  | [] => Some value
  | c :: s' =>
      let digit := u32 (c - 48) in
      if (digit >? 9) || (value >? (UINT64_MAX - digit) / 10) then None
      else decimal_loop s' (u64 (value * 10 + digit))
  end.
Definition wadb_decimal_u64 (s : list Z) : option Z :=
  if (zlen s =? 0) || (zlen s >? 20) then None else decimal_loop s 0.
Definition wadb_json_u64 (v : option yyjson_val) : result Z :=
  match v with
  | Some (JUint z) => if z <=? JS_EXACT then Ok z else Err WADB_INVALID
  | Some (JStr s) => match wadb_decimal_u64 s with Some z => Ok z | None => Err WADB_INVALID end
  | _ => Err WADB_INVALID
  end.
Definition MINUS : Z := 45.
Definition wadb_json_i64 (v : option yyjson_val) : result Z :=
  match v with
  | Some (JUint z) => if z <=? JS_EXACT then Ok z else Err WADB_INVALID
  | Some (JSint z) => if (z >=? - JS_EXACT) && (z <=? JS_EXACT) then Ok z else Err WADB_INVALID
  | Some (JStr s) =>
      let negative := negb (zlen s =? 0) && (rd s 0 =? MINUS) in
      let digits := if negative then drop 1 s else s in
      match wadb_decimal_u64 digits with
      | Some value =>
          if value <=? u64 (INT64_MAX + (if negative then 1 else 0))
          then Ok (if value =? Z.shiftl 1 63 then INT64_MIN else if negative then - value else value)
          else Err WADB_INVALID
      | None => Err WADB_INVALID
      end
  | _ => Err WADB_INVALID
  end.
(** A missing member leaves the default. *)
Definition wadb_json_bool (object : option yyjson_val) (key : string) (default : bool) : result bool :=
  match obj_get object (cstr key) with
  | None => Ok default
  | Some (JBool b) => Ok b
  | Some _ => Err WADB_INVALID
  end.

(** ** Values *)

Definition hex (c : Z) : Z :=
  if (48 <=? c) && (c <=? 57) then c - 48
  else if (97 <=? c) && (c <=? 102) then c - 97 + 10
  else if (65 <=? c) && (c <=? 70) then c - 65 + 10
  else -1.
(** The loop over the bytes of a hexadecimal string, [n] of them from byte [i] on. *)
Fixpoint hex_loop (n : nat) (i : Z) (s out : list Z) : option (list Z) :=
  match n with
  | O => Some out
  | S n' =>
      let hi := hex (rd s (i * 2)) in
      let lo := hex (rd s (i * 2 + 1)) in
      if (hi <? 0) || (lo <? 0) then None else hex_loop n' (i + 1) s (out ++ [u8 (hi * 16 + lo)])
  end.
(** [address] is what [malloc] returns for the bytes of a fixed-width field. *)
Definition wadb_json_value (f : wadb_field) (v : option yyjson_val) (address : option Z) : M wadb_json_memory wadb_value :=
  match v with
  | None | Some JNull => if f_nullable f then mret VNull else mfail WADB_INVALID
  | Some v =>
      match f_type f with
      | WADB_I8 | WADB_I16 | WADB_I32 | WADB_I64 | WADB_TIMESTAMP_US => mlift (VI64 <$> wadb_json_i64 (Some v))
      | WADB_U8 | WADB_U16 | WADB_U32 | WADB_U64 => mlift (VU64 <$> wadb_json_u64 (Some v))
      | WADB_BOOL => match v with JBool b => mret (VU64 (Z.b2z b)) | _ => mfail WADB_INVALID end
      | WADB_F32 | WADB_F64 =>
          if negb (is_num v) || negb (isfinite64 (get_num v)) then mfail WADB_INVALID else mret (VF64 (get_num v))
      | WADB_TEXT | WADB_SYMBOL32 => match v with JStr s => mret (VBytes s) | _ => mfail WADB_INVALID end
      | WADB_UUID | WADB_BYTES =>
          match v with
          | JStr s =>
              if negb (zlen s =? f_width f * 2) then mfail WADB_INVALID
              else λ m,
                let '(p, m') := allocate (f_width f) address m in
                match p with
                | None => (Err (jm_failure m'), m')
                | Some _ =>
                    (match hex_loop (Z.to_nat (f_width f)) 0 s [] with
                     | Some data => Ok (VBytes data)
                     | None => Err WADB_INVALID end, m')
                end
          | _ => mfail WADB_INVALID
          end
      | WADB_TYPE_OTHER _ => mfail WADB_INVALID
      end
  end.

(** [%PRIu64] and [%PRId64]; 20 digits are enough for 64 bits. *)
Fixpoint digits (fuel : nat) (z : Z) : list Z :=
  match fuel with
  | O => []
  | S fuel' => if z <? 10 then [48 + z] else digits fuel' (z / 10) ++ [48 + z `mod` 10]
  end.
Definition print_u64 (z : Z) : list Z := digits 20 z.
Definition print_i64 (z : Z) : list Z := if z <? 0 then MINUS :: print_u64 (- z) else print_u64 z.

(** The JSON of a value; [None] is a type outside of the enumeration. *)
Definition wadb_json_encode_value (type : wadb_type) (v : wadb_value) : option yyjson_val :=
  if is_null v then Some JNull
  else
    match type with
    | WADB_I64 | WADB_TIMESTAMP_US => Some (JStr (print_i64 (as_i64 v)))
    | WADB_U64 => Some (JStr (print_u64 (as_u64 v)))
    | WADB_I8 | WADB_I16 | WADB_I32 => Some (JSint (as_i64 v))
    | WADB_U8 | WADB_U16 | WADB_U32 => Some (JUint (as_u64 v))
    | WADB_BOOL => Some (JBool (negb (as_u64 v =? 0)))
    | WADB_F32 | WADB_F64 => Some (JReal (as_f64 v))
    | WADB_TEXT | WADB_SYMBOL32 => Some (JStr (as_bytes v))
    | WADB_UUID | WADB_BYTES => Some (JStr (hex_text (as_bytes v)))
    | WADB_TYPE_OTHER _ => None
    end.

(** ** Requests and replies *)

Definition wadb_http_status (s : wadb_status) : Z :=
  match s with
  | WADB_OK => 200
  | WADB_INVALID | WADB_SCHEMA_MISMATCH => 400
  | WADB_NOT_FOUND => 404
  | WADB_EXISTS | WADB_LOCKED => 409
  | WADB_EXPIRED => 410
  | WADB_LIMIT => 422
  | WADB_BACKPRESSURE => 429
  | _ => 503
  end.

Record wadb_http_reply := Reply {
  re_status : Z;
  re_body : option (list Z);
  re_length : Z;
}.
Definition no_reply : wadb_http_reply := Reply 0 None 0.

(** A request body after [wadb_json_init]: the tree, or nothing when the text was refused. *)
Record wadb_json := JsonDoc {
  j_memory : wadb_json_memory;
  j_input : option yyjson_val;
  j_reply_limit : Z;
  j_error : wadb_status;
}.
Definition with_error (e : wadb_status) (j : wadb_json) : wadb_json :=
  JsonDoc (j_memory j) (j_input j) (j_reply_limit j) e.
Definition failure_or (m : wadb_json_memory) (e : wadb_status) : wadb_status :=
  if bool_decide (jm_failure m = WADB_OK) then e else jm_failure m.

Section library.
(** [yyjson_read_opts] and [yyjson_mut_write_opts] with the allocator of the request: the
    tree or the text, and the memory after it; [output] tells if the output document and
    its root could be allocated. *)
Variable read : list Z → wadb_json_memory → option yyjson_val * wadb_json_memory.
Variable write : yyjson_val → wadb_json_memory → option (list Z) * wadb_json_memory.

Definition wadb_json_init (body : list Z) (output : wadb_json_memory → bool * wadb_json_memory) : bool * wadb_json :=
  let m := Memory 0 WADB_HTTP_JSON_LIMIT None WADB_OK ∅ in
  let j := JsonDoc m None WADB_HTTP_REPLY_LIMIT WADB_OK in
  if zlen body >? WADB_HTTP_BODY_LIMIT then (false, with_error WADB_LIMIT j)
  else
    let body := if zlen body =? 0 then cstr "{}" else body in
    let '(input, m) := read body m in
    match input with
    | None => (false, JsonDoc m None WADB_HTTP_REPLY_LIMIT (failure_or m WADB_INVALID))
    | Some v =>
        let j := JsonDoc m (Some v) WADB_HTTP_REPLY_LIMIT WADB_OK in
        match validate_tree v 0 0 with
        | None => (false, with_error WADB_INVALID j)
        | Some _ =>
            if negb (is_obj (Some v)) then (false, with_error WADB_INVALID j)
            else
              let '(ok, m) := output m in
              let j := JsonDoc m (Some v) WADB_HTTP_REPLY_LIMIT WADB_OK in
              if ok : bool then (true, j) else (false, with_error (failure_or m WADB_NOMEM) j)
        end
    end.

(** The fixed text that stands in for an error reply that could not be written, with
    apostrophes for the quotation marks; [strdup] may fail too. *)
Definition NOMEM_BODY : list Z :=
  map (λ c, if c =? 39 then 34 else c) (cstr "{'ok':false,'error':{'code':'out_of_memory','message':'Response allocation failed'}}").
Definition wadb_http_error (status : Z) (text : option (list Z)) (strdup : bool) : wadb_http_reply :=
  match text with
  | Some body => Reply status (Some body) (zlen body)
  | None => if strdup then Reply 503 (Some NOMEM_BODY) (zlen NOMEM_BODY) else Reply 503 None 0
  end.
(** [error_text] is what [wadb_http_error] can write for a status and a code. *)
Definition wadb_json_finish (j : wadb_json) (output : yyjson_val) (status : Z) (alloc : bool)
    (error_text : wadb_status → option (list Z)) (strdup : bool) : wadb_http_reply :=
  let error := if bool_decide (j_error j = WADB_OK) then jm_failure (j_memory j) else j_error j in
  let '(r, error) :=
    if bool_decide (error = WADB_OK) then
      match (write output (j_memory j)).1 with
      | None => (no_reply, WADB_LIMIT)
      | Some body =>
          if zlen body >? j_reply_limit j then (no_reply, WADB_LIMIT)
          else if negb alloc then (no_reply, WADB_NOMEM)
          else (Reply status (Some body) (zlen body), WADB_OK)
      end
    else (no_reply, error) in
  if bool_decide (error = WADB_OK) then r
  else wadb_http_error (wadb_http_status error) (error_text error) strdup.
End library.

(** ** Decimal numbers *)

Definition is_digit (c : Z) : Prop := 48 ≤ c ≤ 57.
Definition decimal_value (s : list Z) (v : Z) : Z := fold_left (λ v c, v * 10 + (c - 48)) s v.
Lemma decimal_value_mono s v : 0 ≤ v → Forall is_digit s → v ≤ decimal_value s v.
Proof.
  revert v. unfold decimal_value, is_digit. induction s as [|c s IH]; intros v Hv; [done|].
  intros [? ?]%Forall_cons. cbn [fold_left]. etrans; [|apply IH]; [lia|lia|done].
Qed.
Lemma decimal_loop_spec s v z : bytes s → is_u64 v →
  decimal_loop s v = Some z ↔ Forall is_digit s ∧ decimal_value s v = z ∧ z ≤ UINT64_MAX.
Proof.
  revert v. induction s as [|c s IH]; intros v Hb Hv; cbn [decimal_loop].
  - unfold decimal_value. cbn. split; [intros [= <-]; split_and!; [constructor|done|apply Hv]|by intros (_&->&_)].
  - apply Forall_cons in Hb as [Hc Hb]. rewrite Forall_cons.
    change (decimal_value (c :: s) v) with (decimal_value s (v * 10 + (c - 48))).
    destruct (decide (is_digit c)) as [Hd|Hd]; unfold is_digit in Hd.
    + rewrite (u32_id (c - 48)) by (unfold is_u32; unfold_widths; lia). destruct (Z.gtb_spec (c - 48) 9); [lia|]. cbn [orb].
      destruct (Z.gtb_spec v ((UINT64_MAX - (c - 48)) / 10)) as [Hg|Hg].
      * split; [done|]. intros [[_ Hs] [<- Hm]]. exfalso.
        pose proof (decimal_value_mono s (v * 10 + (c - 48)) ltac:(unfold is_u64 in *; lia) Hs). mlia.
      * assert (Hr : is_u64 (v * 10 + (c - 48))) by mlia. rewrite u64_id, IH by done. unfold is_digit. naive_solver.
    + assert (Hg : u32 (c - 48) > 9) by (unfold u32; mlia). rewrite (proj2 (Z.gtb_lt _ _)) by lia. cbn [orb]. unfold is_digit. split; [done|]. naive_solver.
Qed.
(** The parser accepts exactly the decimal numerals of one to twenty digits that fit. *)
Lemma decimal_u64_spec s z : bytes s →
  wadb_decimal_u64 s = Some z ↔ 1 ≤ zlen s ≤ 20 ∧ Forall is_digit s ∧ decimal_value s 0 = z ∧ z ≤ UINT64_MAX.
Proof.
  intros Hb. unfold wadb_decimal_u64. pose proof (zlen_nonneg s). destruct (_ || _) eqn:E; [split; [done|lia]|].
  rewrite decimal_loop_spec by (done || (unfold is_u64; unfold_widths; lia)). split; [intros; split; [lia|done]|tauto].
Qed.
Lemma decimal_value_app s k v : decimal_value (s ++ k) v = decimal_value k (decimal_value s v).
Proof. unfold decimal_value. by rewrite fold_left_app. Qed.
Lemma digits_spec fuel z : (fuel ≠ 0)%nat → 0 ≤ z < 10 ^ Z.of_nat fuel →
  Forall is_digit (digits fuel z) ∧ decimal_value (digits fuel z) 0 = z ∧ 1 ≤ zlen (digits fuel z) ≤ Z.of_nat fuel.
Proof.
  revert z. induction fuel as [|fuel IH]; intros z Hf Hz; [done|]. cbn [digits]. destruct (Z.ltb_spec z 10).
  - unfold decimal_value, is_digit. cbn. split_and!; [repeat constructor; lia|lia|unfold zlen; cbn; lia..].
  - rewrite Nat2Z.inj_succ, Z.pow_succ_r in Hz by lia. destruct fuel as [|fuel]; [cbn in Hz; lia|].
    destruct (IH (z / 10)) as (Hd&Hv&Hl); [done|mlia|]. rewrite decimal_value_app, Hv, zlen_app. split_and!.
    + apply Forall_app. split; [done|]. repeat constructor; unfold is_digit; mlia.
    + unfold decimal_value. cbn. mlia.
    + change (zlen [_]) with 1. lia.
    + change (zlen [_]) with 1. lia.
Qed.
Lemma digit_bytes s : Forall is_digit s → bytes s.
Proof. intros H. eapply Forall_impl; [exact H|]. unfold is_digit, is_u8. lia. Qed.
Lemma print_u64_parses z : is_u64 z → wadb_decimal_u64 (print_u64 z) = Some z.
Proof.
  intros Hz. destruct (digits_spec 20 z) as (Hd&Hv&Hl); [done|unfold is_u64 in Hz; unfold_widths; cbn; lia|].
  apply decimal_u64_spec; [by apply digit_bytes|]. unfold print_u64. split_and!; [lia|lia|done|done|apply Hz].
Qed.
Lemma print_u64_first z : is_u64 z → ∃ c l, print_u64 z = c :: l ∧ is_digit c.
Proof.
  intros Hz. destruct (digits_spec 20 z) as (Hd&_&Hl); [done|unfold is_u64 in Hz; unfold_widths; cbn; lia|].
  unfold print_u64. destruct (digits 20 z) as [|c l]; [rewrite zlen_nil in Hl; lia|]. apply Forall_cons in Hd as [? _]. eauto.
Qed.
Lemma json_i64_print z : is_i64 z → wadb_json_i64 (Some (JStr (print_i64 z))) = Ok z.
Proof.
  intros Hz. unfold wadb_json_i64, print_i64. destruct (Z.ltb_spec z 0) as [Hneg|Hpos].
  - rewrite zlen_cons. pose proof (zlen_nonneg (print_u64 (- z))). destruct (Z.eqb_spec (1 + zlen (print_u64 (- z))) 0); [lia|].
    change (rd (MINUS :: print_u64 (- z)) 0) with MINUS. change (MINUS =? MINUS) with true. cbn [negb andb drop]. rewrite drop_0.
    rewrite print_u64_parses by (unfold is_u64, is_i64 in *; unfold_widths; lia).
    change (u64 (INT64_MAX + 1)) with 9223372036854775808. change (Z.shiftl 1 63) with 9223372036854775808.
    destruct (Z.leb_spec (- z) 9223372036854775808); [|unfold is_i64 in *; unfold_widths; lia].
    destruct (Z.eqb_spec (- z) 9223372036854775808); f_equal; [unfold INT64_MIN; lia|lia].
  - destruct (print_u64_first z) as (c&l&E&Hc); [unfold is_u64, is_i64 in *; unfold_widths; lia|].
    assert (Hn : negb (zlen (print_u64 z) =? 0) && (rd (print_u64 z) 0 =? MINUS) = false).
    { rewrite E. change (rd (c :: l) 0) with c. unfold is_digit, MINUS in *. destruct (Z.eqb_spec c 45); [lia|]. apply andb_false_r. }
    rewrite Hn, print_u64_parses by (unfold is_u64, is_i64 in *; unfold_widths; lia).
    change (u64 (INT64_MAX + 0)) with INT64_MAX. change (Z.shiftl 1 63) with 9223372036854775808. unfold is_i64 in Hz.
    destruct (Z.leb_spec z INT64_MAX); [|lia]. unfold INT64_MAX in *. destruct (Z.eqb_spec z 9223372036854775808); [lia|done].
Qed.

(** ** Values survive the way through JSON *)

Lemma rd_at a x b i : i = zlen a → rd (a ++ x :: b) i = x.
Proof. intros ->. unfold rd, zlen. rewrite Nat2Z.id, app_nth2, Nat.sub_diag by lia. done. Qed.
Lemma hex_digits_byte b : is_u8 b →
  0 ≤ hex (rd HEX_DIGITS (Z.shiftr b 4)) ∧ 0 ≤ hex (rd HEX_DIGITS (Z.land b 15)) ∧
  u8 (hex (rd HEX_DIGITS (Z.shiftr b 4)) * 16 + hex (rd HEX_DIGITS (Z.land b 15))) = b.
Proof.
  intros Hb. pose proof (byte_forall (λ b, (0 <=? hex (rd HEX_DIGITS (Z.shiftr b 4))) && (0 <=? hex (rd HEX_DIGITS (Z.land b 15))) &&
    (u8 (hex (rd HEX_DIGITS (Z.shiftr b 4)) * 16 + hex (rd HEX_DIGITS (Z.land b 15))) =? b)) b ltac:(vm_compute; reflexivity) Hb) as H.
  cbv beta in H. rewrite !andb_true_iff, Z.eqb_eq, !Z.leb_le in H. tauto.
Qed.
Lemma hex_text_app l k : hex_text (l ++ k) = hex_text l ++ hex_text k.
Proof. unfold hex_text. by rewrite map_app, concat_app. Qed.
Lemma hex_loop_text pre l : bytes l → hex_loop (length l) (zlen pre) (hex_text (pre ++ l)) pre = Some (pre ++ l).
Proof.
  revert pre. induction l as [|b l IH]; intros pre Hb; cbn [length hex_loop]; [by rewrite app_nil_r|].
  apply Forall_cons in Hb as [Hb Hl]. rewrite hex_text_app. change (hex_text (b :: l)) with (hex_byte b ++ hex_text l).
  pose proof (zlen_hex_text pre) as Hlen. set (text := hex_text pre ++ hex_byte b ++ hex_text l).
  assert (Hhi : rd text (zlen pre * 2) = rd HEX_DIGITS (Z.shiftr b 4)) by (apply rd_at; lia).
  assert (Hlo : rd text (zlen pre * 2 + 1) = rd HEX_DIGITS (Z.land b 15)).
  { unfold text, hex_byte. cbn [app]. rewrite (cons_middle (rd HEX_DIGITS (Z.shiftr b 4))), app_assoc.
    apply rd_at. rewrite zlen_app. change (zlen [_]) with 1. lia. }
  rewrite Hhi, Hlo.
  destruct (hex_digits_byte b Hb) as (H1&H2&H3). rewrite (proj2 (Z.ltb_ge _ _)), (proj2 (Z.ltb_ge _ _)) by done. cbn [orb]. rewrite H3.
  replace (zlen pre + 1) with (zlen (pre ++ [b])) by (rewrite zlen_app; done).
  specialize (IH (pre ++ [b]) Hl). rewrite <-app_assoc in IH. cbn [app] in IH. rewrite hex_text_app in IH.
  exact IH.
Qed.

Section round_trip.
(** Writing a value with the JSON library and reading the text back. *)
Variable reread : yyjson_val → yyjson_val.
Hypothesis reread_null : reread JNull = JNull.
Hypothesis reread_bool : ∀ b, reread (JBool b) = JBool b.
Hypothesis reread_uint : ∀ z, is_u64 z → reread (JUint z) = JUint z.
(** Integers that are not negative are read as unsigned ones. *)
Hypothesis reread_sint : ∀ z, is_i64 z → reread (JSint z) = if z <? 0 then JSint z else JUint z.
Hypothesis reread_real : ∀ b, is_u64 b → isfinite64 b = true → reread (JReal b) = JReal b.
Hypothesis reread_str : ∀ s, wadb_utf8 s = true → reread (JStr s) = JStr s.

Lemma ascii_utf8 s : Forall (λ c, c < 128) s → wadb_utf8 s = true.
Proof using.
  unfold wadb_utf8. induction 1 as [|c s Hc _ IH]; [done|]. cbn [length utf8_loop]. by rewrite (proj2 (Z.ltb_lt _ _)).
Qed.
Lemma digits_utf8 z : is_u64 z → wadb_utf8 (print_u64 z) = true.
Proof using.
  intros Hz. destruct (digits_spec 20 z) as (Hd&_); [done|unfold is_u64 in Hz; unfold_widths; cbn; lia|].
  apply ascii_utf8. eapply Forall_impl; [exact Hd|]. unfold is_digit. cbn. lia.
Qed.
Lemma print_i64_utf8 z : is_i64 z → wadb_utf8 (print_i64 z) = true.
Proof using.
  intros Hz. unfold print_i64. destruct (Z.ltb_spec z 0); [|apply digits_utf8; unfold is_i64, is_u64 in *; unfold_widths; lia].
  destruct (digits_spec 20 (- z)) as (Hd&_); [done|unfold is_i64 in Hz; unfold_widths; cbn; lia|].
  apply ascii_utf8. constructor; [done|]. eapply Forall_impl; [exact Hd|]. unfold is_digit. cbn. lia.
Qed.
Lemma hex_text_utf8 l : bytes l → wadb_utf8 (hex_text l) = true.
Proof using.
  intros Hb. apply ascii_utf8. induction Hb as [|b l Hb _ IH]; [constructor|]. change (hex_text (b :: l)) with (hex_byte b ++ hex_text l).
  pose proof (byte_forall (λ b, (rd HEX_DIGITS (Z.shiftr b 4) <? 128) && (rd HEX_DIGITS (Z.land b 15) <? 128)) b ltac:(vm_compute; reflexivity) Hb) as H.
  cbv beta in H. apply andb_true_iff in H as [H1 H2]. apply Z.ltb_lt in H1, H2. by repeat constructor.
Qed.

Lemma round_trip_signed {S} (resolve : option (symbol_encode_fn S)) f i z p o p' st st' m address :
  field_wf f → signed_type (f_type f) = true → is_i64 z →
  wadb_encode_field f (VI64 z) p o i resolve st = (Ok p', st') →
  ∃ j, wadb_json_encode_value (f_type f) (VI64 z) = Some j ∧ wadb_json_value f (Some (reread j)) address m = (Ok (VI64 z), m).
Proof using reread_sint reread_str.
  intros (_&_&Hw) Ht Hz He.
  destruct (decide (f_type f = WADB_I64 ∨ f_type f = WADB_TIMESTAMP_US)) as [H64|H64].
  { exists (JStr (print_i64 z)). split; [by destruct H64 as [-> | ->]|].
    rewrite reread_str by (by apply print_i64_utf8). unfold wadb_json_value. rewrite json_i64_print by done.
    by destruct H64 as [-> | ->]. }
  assert (Hr : -2147483648 ≤ z < 2147483648).
  { revert He. unfold wadb_encode_field. destruct (f_type f); try done; try (destruct H64; by auto); rewrite Hw; cbv zeta; cbn [as_i64 type_width];
      (destruct (_ && _) eqn:Hr; [done|]); intros _;
      change (Z.shiftl 1 (1 * 8 - 1)) with 128 in Hr; change (Z.shiftl 1 (2 * 8 - 1)) with 32768 in Hr;
      change (Z.shiftl 1 (4 * 8 - 1)) with 2147483648 in Hr; lia. }
  exists (JSint z). split; [destruct (f_type f); try done; destruct H64; by auto|]. rewrite reread_sint by done.
  assert (Hv : wadb_json_i64 (Some (if z <? 0 then JSint z else JUint z)) = Ok z).
  { unfold wadb_json_i64, JS_EXACT. destruct (Z.ltb_spec z 0).
    - rewrite (proj2 (Z.geb_le _ _)), (proj2 (Z.leb_le _ _)) by lia. done.
    - rewrite (proj2 (Z.leb_le _ _)) by lia. done. }
  unfold wadb_json_value. destruct (z <? 0); rewrite Hv; by destruct (f_type f).
Qed.
Lemma round_trip_unsigned {S} (resolve : option (symbol_encode_fn S)) f i z p o p' st st' m address :
  field_wf f → unsigned_type (f_type f) = true → is_u64 z →
  wadb_encode_field f (VU64 z) p o i resolve st = (Ok p', st') →
  ∃ j, wadb_json_encode_value (f_type f) (VU64 z) = Some j ∧ wadb_json_value f (Some (reread j)) address m = (Ok (VU64 z), m).
Proof using reread_bool reread_uint reread_str.
  intros (_&_&Hw) Ht Hz He.
  destruct (decide (f_type f = WADB_U64)) as [H64|H64].
  { exists (JStr (print_u64 z)). rewrite H64. split; [done|]. rewrite reread_str by (by apply digits_utf8).
    unfold wadb_json_value. rewrite H64. unfold mlift, wadb_json_u64. by rewrite print_u64_parses. }
  assert (Hr : z < 4294967296 ∧ (f_type f = WADB_BOOL → z ≤ 1)).
  { revert He. unfold wadb_encode_field. destruct (f_type f); try done; rewrite Hw; cbv zeta; cbn [as_u64 type_width];
      (destruct (_ || _) eqn:Hr; [done|]); intros _; apply orb_false_iff in Hr as [Hr Hb];
      change (Z.shiftl 1 (1 * 8)) with 256 in Hr; change (Z.shiftl 1 (2 * 8)) with 65536 in Hr;
      change (Z.shiftl 1 (4 * 8)) with 4294967296 in Hr; (split; [lia|]); try done.
    rewrite bool_decide_eq_true_2 in Hb by done. lia. }
  destruct Hr as [Hr Hbool]. destruct (decide (f_type f = WADB_BOOL)) as [Eb|Eb].
  { specialize (Hbool Eb). exists (JBool (negb (z =? 0))). rewrite Eb. split; [done|]. rewrite reread_bool.
    unfold wadb_json_value. rewrite Eb. unfold mret, M_ret. do 3 f_equal. unfold is_u64 in Hz. destruct (Z.eqb_spec z 0); cbn; lia. }
  exists (JUint z). split; [by destruct (f_type f)|]. rewrite reread_uint by done. unfold wadb_json_value, wadb_json_u64, JS_EXACT.
  rewrite (proj2 (Z.leb_le _ _)) by lia. by destruct (f_type f).
Qed.
Lemma round_trip_bytes {S} (resolve : option (symbol_encode_fn S)) f i d p o p' st st' m address :
  field_wf f → bytes_type (f_type f) = true → bytes d →
  (bytes_type (f_type f) = true → (allocate (f_width f) address m).1 ≠ None) →
  wadb_encode_field f (VBytes d) p o i resolve st = (Ok p', st') →
  ∃ j m', wadb_json_encode_value (f_type f) (VBytes d) = Some j ∧ wadb_json_value f (Some (reread j)) address m = (Ok (VBytes d), m').
Proof using reread_str.
  intros Hwf Ht Hb Ha He. pose proof (field_wf_width f Hwf) as Hwpos.
  destruct (decide (f_type f = WADB_UUID ∨ f_type f = WADB_BYTES)) as [Hx|Hx].
  - assert (Hl : zlen d = f_width f).
    { revert He. unfold wadb_encode_field. destruct Hx as [-> | ->]; cbn [as_bytes];
        (destruct (Z.eqb_spec (zlen d) (f_width f)); cbn [negb]; [done|done]). }
    exists (JStr (hex_text d)). destruct (allocate (f_width f) address m) as [[q|] m'] eqn:Eal; [|by destruct (Ha Ht)].
    exists m'. split; [by destruct Hx as [-> | ->]|]. rewrite reread_str by (by apply hex_text_utf8).
    pose proof (hex_loop_text [] d Hb) as Hh. cbn [app] in Hh. rewrite zlen_nil in Hh.
    assert (Hn : Z.to_nat (f_width f) = length d) by (unfold zlen in Hl; lia).
    unfold wadb_json_value. rewrite zlen_hex_text, Hl, (Z.mul_comm 2), Z.eqb_refl. cbn [negb].
    destruct Hx as [-> | ->]; rewrite Eal, Hn, Hh; done.
  - exists (JStr d), m. split; [destruct (f_type f); try done; destruct Hx; by auto|].
    assert (Hu : wadb_utf8 d = true).
    { revert He. unfold wadb_encode_field. destruct (f_type f); try done; try (destruct Hx; by auto); cbn [as_bytes];
        (destruct (wadb_utf8 d); [done|]); by rewrite orb_true_r. }
    rewrite reread_str by done. unfold wadb_json_value. destruct (f_type f); try done; destruct Hx; by auto.
Qed.
(** C25: Every value that a row can store reaches the client and comes back unchanged: the
    JSON that a query result shows for it, written, read and given to an append, is the
    same value again, integers of 64 bits, floating-point numbers and byte strings
    included. *)
Theorem json_value_round_trip {S} (resolve : option (symbol_encode_fn S)) f i v p p' st st' address m :
  field_wf f → value_for f v → encode_value resolve f i v p st = (Ok p', st') →
  (bytes_type (f_type f) = true → (allocate (f_width f) address m).1 ≠ None) →
  ∃ j m', wadb_json_encode_value (f_type f) v = Some j ∧ wadb_json_value f (Some (reread j)) address m = (Ok v, m').
Proof using reread_null reread_bool reread_uint reread_sint reread_real reread_str.
  intros Hwf Hv He Ha. destruct v as [|z|z|b|d]; unfold encode_value in He.
  - destruct (f_nullable f) eqn:En; [|done]. exists JNull, m. split; [done|]. rewrite reread_null. unfold wadb_json_value. by rewrite En.
  - destruct Hv as [Ht Hz]. destruct (round_trip_signed resolve f i z p _ p' st st' m address Hwf Ht Hz He) as (j&?&?). eauto.
  - destruct Hv as [Ht Hz]. destruct (round_trip_unsigned resolve f i z p _ p' st st' m address Hwf Ht Hz He) as (j&?&?). eauto.
  - destruct Hv as [Ht Hz]. exists (JReal b), m. split; [by destruct (f_type f)|].
    assert (Hf : isfinite64 b = true).
    { revert He. unfold wadb_encode_field. destruct (f_type f); try done; cbn [as_f64 as_u64]; by destruct (isfinite64 b). }
    rewrite reread_real by done. unfold wadb_json_value. cbn [is_num get_num negb orb]. rewrite Hf. by destruct (f_type f).
  - destruct Hv as [Ht Hb]. eapply round_trip_bytes; eauto.
Qed.
End round_trip.

(** The visitor of a page view. *)
Definition js_reread (v : yyjson_val) : yyjson_val :=
  match v with JSint z => if z <? 0 then JSint z else JUint z | v => v end.
Definition js_field : wadb_field := Eval vm_compute in default time_field (znth (fields pv_schema) 2).
Definition js_memory : wadb_json_memory := Memory 0 WADB_HTTP_JSON_LIMIT None WADB_OK ∅.
Lemma json_value_round_trip_witness : ∃ j m',
  wadb_json_encode_value (f_type js_field) (VBytes (zrep 16 171)) = Some j ∧
  wadb_json_value js_field (Some (js_reread j)) (Some 1) js_memory = (Ok (VBytes (zrep 16 171)), m').
Proof.
  destruct (encode_value (Some sym_intern) js_field 2 (VBytes (zrep 16 171)) (zrep 48 0) (pv_dict, [])) as [[p'|e] st'] eqn:E;
    [|vm_compute in E; congruence].
  apply (json_value_round_trip js_reread eq_refl (λ b, eq_refl) (λ z _, eq_refl) (λ z _, eq_refl) (λ b _ _, eq_refl) (λ s _, eq_refl)
    (Some sym_intern) js_field 2 (VBytes (zrep 16 171)) (zrep 48 0) p' (pv_dict, []) st' (Some 1) js_memory).
  - split; [reflexivity|]. split; [vm_compute; split; congruence|reflexivity].
  - split; [reflexivity|]. apply (bool_decide_unpack _). vm_compute. exact I.
  - exact E.
  - intros _. vm_compute. congruence.
Defined.
