(* ===== verification/Feed.v ===== *)
(** * The event feed of the HTTP server (src/server/server.c)

    Messages are kept in a ring of 128; every stream remembers the last message it took,
    and the text of the one it is sending. A stream that fell behind the ring, or that
    reconnects with an identifier of another boot, is told so by a reset message. The
    HTTP library calls [stream_read] with a buffer; what it does with the bytes, and the
    suspension of connections, is outside of the model. *)

From Stdlib Require Import String.
From stdpp Require Import base numbers list list_numbers gmap.
From S2P Require Import Prelude Encoding Files Engine Stats Auth JsonMemory Json.

Definition FEED_CAPACITY : Z := 128.
Definition FEED_MESSAGE_LIMIT : Z := 32768.
Definition STREAM_LIMIT : Z := 8.

Record feed_message := Message {
  fm_bytes : list Z;
  fm_id : Z;
}.
#[global] Instance feed_message_inhabited : Inhabited feed_message := populate (Message [] 0).
(** The part of [struct wadb_server] that the feed uses; [commits_seen] is
    [notification_id]. *)
Record server_feed := Feed {
  sf_boot_id : list Z;
  sf_ring : list feed_message;
  sf_feed_id : Z;
  sf_commits_seen : Z;
}.
Definition new_feed (boot_id : list Z) : server_feed := Feed boot_id (zrep FEED_CAPACITY (Message [] 0)) 0 0.
Definition feed_cursor (s : server_feed) : Z := sf_feed_id s.

(** ** Publishing *)

Definition NL : list Z := [10].
Definition message_text (boot_id : list Z) (id : Z) (event data : list Z) : list Z :=
  cstr "id: " ++ boot_id ++ cstr ":" ++ print_u64 id ++ NL ++ cstr "event: " ++ event ++ NL ++
  cstr "data: " ++ data ++ NL ++ NL.
(** [snprintf] cuts off what does not fit into [capacity] with its terminator. *)
Definition snprintf (capacity : Z) (text : list Z) : list Z := sub text 0 (capacity - 1).
Definition publish (event : list Z) (reply : wadb_http_reply) (alloc : bool) (s : server_feed) : bool * server_feed :=
  if (re_status reply >=? 400) || (re_length reply >? FEED_MESSAGE_LIMIT - 256) then (false, s)
  else if negb alloc then (false, s)
  else
    let id := u64 (sf_feed_id s + 1) in
    let text := message_text (sf_boot_id s) id event (c_string (sub (default [] (re_body reply)) 0 (re_length reply))) in
    (true, Feed (sf_boot_id s)
             (wr (sf_ring s) ((id - 1) `mod` FEED_CAPACITY) (Message (snprintf (re_length reply + 256) text) id))
             id (sf_commits_seen s)).

(** ** Commits *)

Definition member_uint (key : string) (z : Z) : list Z * yyjson_val := (cstr key, JStr (print_u64 z)).
Definition member_int (key : string) (z : Z) : list Z * yyjson_val := (cstr key, JStr (print_i64 z)).
Definition commit_tree (e : wadb_commit_event) : yyjson_val :=
  JObj [member_uint "table_id" (ev_table_id e); member_uint "first_sequence" (ev_first_sequence e);
        member_uint "last_sequence" (ev_last_sequence e); member_uint "rows" (ev_rows e);
        member_int "max_time" (ev_max_time e)].
Definition commits_tree (page : notification_page) : yyjson_val :=
  JObj [(cstr "gap", JBool (np_gap page)); member_uint "latest_notification" (np_latest page);
        (cstr "commits", JArr (map commit_tree (np_events page)))].
(** [reply] is what [wadb_json_finish] makes of the tree; a failure while the document is
    built ends in an error reply, which is not published. *)
Definition publish_commits (notifications : db_notifications) (reply : yyjson_val → wadb_http_reply) (alloc : bool)
    (s : server_feed) : server_feed :=
  match wadb_read_notifications notifications (sf_commits_seen s) 128 with
  | Err _ => s
  | Ok page =>
      if (zlen (np_events page) =? 0) && negb (np_gap page) then s
      else
        let '(done, s) := publish (cstr "commits") (reply (commits_tree page)) alloc s in
        if done : bool then
          Feed (sf_boot_id s) (sf_ring s) (sf_feed_id s)
            (match last (np_events page) with Some e => ev_id e | None => np_latest page end)
        else s
  end.

(** ** Streams *)

Record stream := Stream {
  sm_after : Z;
  sm_last_progress : Z;
  sm_suspended : bool;
  sm_reset : bool;
  sm_closing : bool;
  sm_bearer : bool;
  sm_session : list Z;
  sm_buffer : list Z;
  sm_offset : Z;
}.
Definition sm_length (c : stream) : Z := zlen (sm_buffer c).

(** Where a new stream begins: at an identifier of this boot, or with a reset. *)
Definition resume_last (boot_id last : list Z) : bool * Z :=
  match List.find (λ '(i, ch), ch =? 58) (imap pair last) with
  | Some (colon, _) =>
      if negb (Z.of_nat colon =? 32) || negb (bytes_eqb (take 32 last) (take 32 boot_id)) then (true, 0)
      else match wadb_decimal_u64 (drop (S colon) last) with Some n => (false, n) | None => (true, 0) end
  | None => (true, 0)
  end.
Definition resume_arguments (boot_id : list Z) (boot after : option yyjson_val) : bool * Z :=
  match get_str boot with
  | Some b =>
      if negb (zlen b =? 32) || negb (bytes_eqb b (take 32 boot_id)) then (true, 0)
      else match wadb_json_u64 after with Ok n => (false, n) | Err _ => (true, 0) end
  | None => (true, 0)
  end.
(** The part of [open_stream] after the request was parsed; [last] is the Last-Event-ID
    header. [None] refuses the stream. *)
Definition open_stream (s : server_feed) (stream_count : Z) (stopping bearer : bool) (session : list Z) (now : Z)
    (last : option (list Z)) (boot after : option yyjson_val) : option stream :=
  let '(reset, position) :=
    match last with
    | Some l => resume_last (sf_boot_id s) l
    | None => match boot, after with None, None => (true, 0) | _, _ => resume_arguments (sf_boot_id s) boot after end
    end in
  if (stream_count >=? STREAM_LIMIT) || stopping then None
  else Some (Stream position now false reset false bearer session [] 0).

Definition QUOTE : list Z := [34].
Definition reset_text (s : server_feed) : list Z :=
  cstr "id: " ++ sf_boot_id s ++ cstr ":" ++ print_u64 (sf_feed_id s) ++ NL ++ cstr "event: reset" ++ NL ++
  cstr "data: {" ++ QUOTE ++ cstr "boot_id" ++ QUOTE ++ cstr ":" ++ QUOTE ++ sf_boot_id s ++ QUOTE ++ cstr "," ++
  QUOTE ++ cstr "feed_cursor" ++ QUOTE ++ cstr ":" ++ QUOTE ++ print_u64 (sf_feed_id s) ++ QUOTE ++ cstr "," ++
  QUOTE ++ cstr "reason" ++ QUOTE ++ cstr ":" ++ QUOTE ++ cstr "replay_unavailable" ++ QUOTE ++ cstr "}" ++ NL ++ NL.
Definition stream_gap (s : server_feed) (c : stream) : bool :=
  let oldest := if sf_feed_id s >=? FEED_CAPACITY then sf_feed_id s - FEED_CAPACITY + 1 else 1 in
  (sm_after c >? sf_feed_id s) || ((sm_after c <? sf_feed_id s) && (u64 (sm_after c + 1) <? oldest)).
(** The next text to send; [None] suspends the stream. *)
Definition refill (s : server_feed) (c : stream) : option stream :=
  let gap := stream_gap s c in
  if sm_reset c || gap then
    Some (Stream (sf_feed_id s) (sm_last_progress c) (sm_suspended c) false
            (if gap && negb (sm_reset c) then true else sm_closing c)
            (sm_bearer c) (sm_session c) (snprintf (FEED_MESSAGE_LIMIT + 256) (reset_text s)) 0)
  else if sm_after c <? sf_feed_id s then
    let m := sf_ring s !!! Z.to_nat (sm_after c `mod` FEED_CAPACITY) in
    Some (Stream (fm_id m) (sm_last_progress c) (sm_suspended c) (sm_reset c) (sm_closing c)
            (sm_bearer c) (sm_session c) (fm_bytes m) 0)
  else None.
Inductive read_result := EndOfStream | Suspended | Bytes (data : list Z).
Definition suspend (c : stream) : stream :=
  Stream (sm_after c) (sm_last_progress c) true (sm_reset c) (sm_closing c) (sm_bearer c) (sm_session c) [] 0.
Definition send (capacity now : Z) (c : stream) : read_result * stream :=
  let n := Z.min (sm_length c - sm_offset c) capacity in
  (Bytes (sub (sm_buffer c) (sm_offset c) n),
   Stream (sm_after c) now (sm_suspended c) (sm_reset c) (sm_closing c) (sm_bearer c) (sm_session c)
     (sm_buffer c) (sm_offset c + n)).
(** [authorized] is what [wadb_auth_session] says of the stream's session. *)
Definition stream_read (s : server_feed) (stopping authorized : bool) (capacity now : Z) (c : stream) : read_result * stream :=
  if stopping || sm_closing c || (negb (sm_bearer c) && negb authorized) then (EndOfStream, c)
  else if sm_offset c =? sm_length c then
    match refill s c with
    | None => (Suspended, suspend c)
    | Some c => send capacity now c
    end
  else send capacity now c.
(** The part of [tick] for a stream: one that made no progress for 15 seconds is closed,
    and a suspended one is woken up. *)
Definition tick_stream (stopping : bool) (now : Z) (c : stream) : stream :=
  Stream (sm_after c) (sm_last_progress c) false (sm_reset c)
    (if stopping || (u64 (now - sm_last_progress c) >? 15000000000) then true else sm_closing c)
    (sm_bearer c) (sm_session c) (sm_buffer c) (sm_offset c).

(** ** What a stream delivers

    All messages ever published form a log, the [i]th one with the identifier [i]. What a
    stream took is a list of events: the next message of the log, or a reset, after which
    it goes on at the position that the reset names. *)

Inductive event := Reset (id : Z) | Deliver (id : Z).
Fixpoint follows (after : Z) (es : list event) (after' : Z) : Prop :=
  match es with
  | [] => after' = after
  | Reset k :: es => follows k es after'
  | Deliver i :: es => i = after + 1 ∧ follows i es after'
  end.
Definition event_text (boot_id : list Z) (log : list (list Z)) (e : event) : list Z :=
  match e with
  | Reset k => reset_text (Feed boot_id [] k 0)
  | Deliver i => default [] (log !! Z.to_nat (i - 1))
  end.
Definition event_valid (log : list (list Z)) (e : event) : Prop :=
  match e with Reset k => 0 ≤ k ≤ zlen log | Deliver i => 1 ≤ i ≤ zlen log end.
(** What a call of [stream_read] takes from the feed. *)
Definition taken (s : server_feed) (stopping authorized : bool) (c : stream) : list event :=
  if stopping || sm_closing c || (negb (sm_bearer c) && negb authorized) then []
  else if sm_offset c =? sm_length c then
    if sm_reset c || stream_gap s c then [Reset (sf_feed_id s)]
    else if sm_after c <? sf_feed_id s then [Deliver (sm_after c + 1)] else []
  else [].
Definition sent_bytes (r : read_result) : list Z := match r with Bytes d => d | _ => [] end.

Record feed_trace := FeedTrace {
  ft_feed : server_feed;
  ft_log : list (list Z);
  ft_stream : stream;
  ft_events : list event;
  ft_sent : list Z;
}.
(** A reply of the JSON writer has its length next to it and no terminator inside; the
    two kinds of events have short names. *)
Inductive feed_step : feed_trace → feed_trace → Prop :=
  | step_publish s log c es out event reply body alloc s' :
      re_body reply = Some body → re_length reply = zlen body → c_string body = body → zlen event ≤ 16 →
      zlen log < UINT64_MAX → publish event reply alloc s = (true, s') →
      feed_step (FeedTrace s log c es out)
        (FeedTrace s' (log ++ [message_text (sf_boot_id s) (zlen log + 1) event body]) c es out)
  | step_not_published s log c es out event reply alloc s' :
      publish event reply alloc s = (false, s') → feed_step (FeedTrace s log c es out) (FeedTrace s' log c es out)
  | step_read s log c es out stopping authorized capacity now r c' :
      0 < capacity → stream_read s stopping authorized capacity now c = (r, c') →
      feed_step (FeedTrace s log c es out)
        (FeedTrace s log c' (es ++ taken s stopping authorized c) (out ++ sent_bytes r))
  | step_tick s log c es out stopping now :
      feed_step (FeedTrace s log c es out) (FeedTrace s log (tick_stream stopping now c) es out).
(** The feed before a stream is opened, and a stream from then on. *)
Inductive log_reachable (boot_id : list Z) : server_feed → list (list Z) → Prop :=
  | log_start : log_reachable boot_id (new_feed boot_id) []
  | log_next s log c es out s' log' c' es' out' :
      log_reachable boot_id s log → feed_step (FeedTrace s log c es out) (FeedTrace s' log' c' es' out') →
      log_reachable boot_id s' log'.
Inductive feed_reachable (boot_id : list Z) : Z → feed_trace → Prop :=
  | feed_opened s log n stopping bearer session now last boot after c :
      log_reachable boot_id s log → (∀ z, after = Some (JUint z) → 0 ≤ z) →
      open_stream s n stopping bearer session now last boot after = Some c →
      feed_reachable boot_id (sm_after c) (FeedTrace s log c [] [])
  | feed_next start t t' : feed_reachable boot_id start t → feed_step t t' → feed_reachable boot_id start t'.

(** *** The ring *)

Record ring_holds (boot_id : list Z) (s : server_feed) (log : list (list Z)) : Prop := {
  rh_boot : sf_boot_id s = boot_id;
  rh_length : length (sf_ring s) = 128%nat;
  rh_id : sf_feed_id s = zlen log;
  rh_max : zlen log ≤ UINT64_MAX;
  rh_slots i m : log !! i = Some m → zlen log - 128 ≤ Z.of_nat i →
    sf_ring s !! (i `mod` 128)%nat = Some (Message m (Z.of_nat i + 1));
}.
Lemma zlen_print_u64 z : is_u64 z → zlen (print_u64 z) ≤ 20.
Proof.
  intros Hz. destruct (digits_spec 20 z) as (_&_&H); [done|unfold is_u64 in Hz; unfold_widths; cbn; lia|]. unfold print_u64. lia.
Qed.
Lemma sub_whole {A} (l : list A) n : zlen l ≤ n → sub l 0 n = l.
Proof. intros H. unfold sub. cbn. rewrite drop_0. apply take_ge. unfold zlen in H. lia. Qed.
(** Lengths of literals. *)
Ltac clen := repeat match goal with
  | |- context [zlen (cstr ?x)] => let n := eval vm_compute in (zlen (cstr x)) in change (zlen (cstr x)) with n
  end; change (zlen NL) with 1; change (zlen QUOTE) with 1.
(** The buffer of a message is large enough. *)
Lemma message_fits boot_id id event body : zlen boot_id = 32 → is_u64 id → zlen event ≤ 16 →
  snprintf (zlen body + 256) (message_text boot_id id event body) = message_text boot_id id event body.
Proof.
  intros Hb Hi He. apply sub_whole. unfold message_text. rewrite !zlen_app, Hb. pose proof (zlen_print_u64 id Hi).
  clen. lia.
Qed.
Lemma reset_fits s : zlen (sf_boot_id s) = 32 → is_u64 (sf_feed_id s) →
  snprintf (FEED_MESSAGE_LIMIT + 256) (reset_text s) = reset_text s.
Proof.
  intros Hb Hi. apply sub_whole. unfold reset_text. rewrite !zlen_app, Hb. pose proof (zlen_print_u64 _ Hi).
  clen. unfold FEED_MESSAGE_LIMIT. lia.
Qed.
Lemma publish_holds boot_id s log event reply body alloc s' :
  zlen boot_id = 32 → ring_holds boot_id s log → re_body reply = Some body → re_length reply = zlen body →
  c_string body = body → zlen event ≤ 16 → zlen log < UINT64_MAX → publish event reply alloc s = (true, s') →
  ring_holds boot_id s' (log ++ [message_text boot_id (zlen log + 1) event body]).
Proof.
  intros Hboot [Hb Hl Hid Hmax Hs] Hbody Hlen Hc He Hlt. unfold publish. destruct (_ || _); [done|]. destruct alloc; [|done]. cbn [negb].
  pose proof (zlen_nonneg log) as H0.
  assert (Eid : u64 (sf_feed_id s + 1) = zlen log + 1) by (rewrite Hid; apply u64_id; unfold is_u64; lia).
  rewrite Eid, Hb, Hbody, Hlen. change (default [] (Some body)) with body. rewrite (sub_all body (zlen body)), Hc, message_fits by (done || unfold is_u64; lia).
  intros [= <-]. split; cbn [sf_boot_id sf_ring sf_feed_id].
  - done.
  - unfold wr. by rewrite length_insert.
  - rewrite zlen_app. done.
  - rewrite zlen_app. change (zlen [_]) with 1. lia.
  - intros i m Hi Hrange. rewrite zlen_app in Hrange. change (zlen [_]) with 1 in Hrange. unfold wr, FEED_CAPACITY.
    replace (zlen log + 1 - 1) with (zlen log) by lia.
    assert (Ei : Z.to_nat (zlen log `mod` 128) = (length log `mod` 128)%nat) by (unfold zlen; rewrite <-(Nat2Z.inj_mod _ 128), Nat2Z.id; done).
    rewrite Ei. apply lookup_app_Some in Hi as [Hi|[Hge Hi]].
    + pose proof (lookup_lt_Some _ _ _ Hi) as Hlt'. rewrite list_lookup_insert_ne; [apply Hs; [done|lia]|].
      unfold zlen in Hrange. intros E. clear -E Hlt' Hrange.
      pose proof (Nat.div_mod_eq i 128). pose proof (Nat.div_mod_eq (length log) 128). lia.
    + apply list_lookup_singleton_Some in Hi as [E <-]. assert (i = length log) as -> by lia.
      rewrite list_lookup_insert_eq by (rewrite Hl; apply Nat.mod_upper_bound; lia). unfold zlen. done.
Qed.
Lemma step_ring boot_id s log c es out s' log' c' es' out' : zlen boot_id = 32 → ring_holds boot_id s log →
  feed_step (FeedTrace s log c es out) (FeedTrace s' log' c' es' out') → ring_holds boot_id s' log'.
Proof.
  intros Hboot Hr Hstep. inversion Hstep; subst; try done.
  - rewrite (rh_boot _ _ _ Hr). by eapply publish_holds.
  - revert select (publish _ _ _ _ = _). unfold publish. destruct (_ || _); [by intros [= <-]|]. destruct alloc; [done|]. by intros [= <-].
Qed.
Lemma log_ring boot_id s log : zlen boot_id = 32 → log_reachable boot_id s log → ring_holds boot_id s log.
Proof.
  intros Hboot. induction 1 as [|s log c es out s' log' c' es' out' _ IH Hstep]; [|by eapply step_ring].
  by split.
Qed.
(** A message that the ring still has is the one a stream takes. *)
Lemma ring_lookup boot_id s log after : ring_holds boot_id s log → 0 ≤ after < zlen log → zlen log - 128 ≤ after →
  sf_ring s !!! Z.to_nat (after `mod` FEED_CAPACITY) = Message (default [] (log !! Z.to_nat after)) (after + 1).
Proof.
  intros [_ _ _ _ Hs] Ha Hk. destruct (lookup_lt_is_Some_2 log (Z.to_nat after)) as [m Hm]; [unfold zlen in Ha; lia|].
  rewrite Hm. pose proof (Hs _ _ Hm ltac:(lia)) as H. rewrite Z2Nat.id in H by lia.
  replace (Z.to_nat (after `mod` FEED_CAPACITY)) with (Z.to_nat after `mod` 128)%nat.
  - by rewrite list_lookup_total_alt, H.
  - unfold FEED_CAPACITY. rewrite Z2Nat.inj_mod by lia. done.
Qed.

(** *** A stream *)

Record stream_holds (boot_id : list Z) (start : Z) (t : feed_trace) : Prop := {
  sh_ring : ring_holds boot_id (ft_feed t) (ft_log t);
  sh_after : 0 ≤ sm_after (ft_stream t);
  sh_offset : 0 ≤ sm_offset (ft_stream t) ≤ sm_length (ft_stream t);
  sh_sent : ft_sent t ++ drop (Z.to_nat (sm_offset (ft_stream t))) (sm_buffer (ft_stream t)) =
    concat (map (event_text boot_id (ft_log t)) (ft_events t));
  sh_follows : follows start (ft_events t) (sm_after (ft_stream t));
  sh_valid : Forall (event_valid (ft_log t)) (ft_events t);
  sh_reset : sm_reset (ft_stream t) = true → ft_events t = [];
}.
Lemma follows_app a es b es' d : follows a es b → follows b es' d → follows a (es ++ es') d.
Proof. revert a. induction es as [|[k|i] es IH]; intros a; cbn; [by intros ->|eauto|intros [-> ?]; eauto]. Qed.
Lemma event_text_grows boot_id log log' es : Forall (event_valid log) es →
  map (event_text boot_id (log ++ log')) es = map (event_text boot_id log) es.
Proof.
  induction 1 as [|e es He _ IH]; [done|]. cbn [map]. rewrite IH. f_equal. destruct e as [k|i]; [done|]. cbn in *.
  rewrite lookup_app_l; [done|]. unfold zlen in He. lia.
Qed.
Lemma event_valid_grows log log' es : Forall (event_valid log) es → Forall (event_valid (log ++ log')) es.
Proof.
  intros H. eapply Forall_impl; [exact H|]. intros e. pose proof (zlen_nonneg log'). destruct e; cbn; rewrite zlen_app; lia.
Qed.
(** What [refill] takes is the text of an event. *)
Lemma refill_spec boot_id s log c c' : zlen boot_id = 32 → ring_holds boot_id s log → 0 ≤ sm_after c → refill s c = Some c' →
  ∃ e, (if sm_reset c || stream_gap s c then [Reset (sf_feed_id s)]
        else if sm_after c <? sf_feed_id s then [Deliver (sm_after c + 1)] else []) = [e] ∧
    sm_buffer c' = event_text boot_id log e ∧ sm_offset c' = 0 ∧ event_valid log e ∧ follows (sm_after c) [e] (sm_after c') ∧
    0 ≤ sm_after c' ∧ sm_reset c' = false.
Proof.
  intros Hboot Hr Ha. pose proof Hr as [Hb Hl Hid Hmax Hs]. pose proof (zlen_nonneg log). unfold refill.
  destruct (sm_reset c || stream_gap s c) eqn:Eg.
  - intros [= <-]. exists (Reset (sf_feed_id s)). cbn [sm_buffer sm_offset sm_after event_text event_valid follows].
    rewrite reset_fits by (rewrite ?Hb, ?Hid; done || unfold is_u64; lia). unfold reset_text. cbn [sf_boot_id sf_feed_id].
    rewrite Hb, Hid. split_and!; done || lia.
  - destruct (Z.ltb_spec (sm_after c) (sf_feed_id s)) as [Hlt|]; [|done]. intros [= <-]. exists (Deliver (sm_after c + 1)).
    apply orb_false_iff in Eg as [Enr Eg]. unfold stream_gap in Eg. apply orb_false_iff in Eg as [_ Eg].
    rewrite (proj2 (Z.ltb_lt _ _) Hlt) in Eg. cbn [andb] in Eg.
    rewrite u64_id in Eg by (unfold is_u64; lia). unfold FEED_CAPACITY in Eg.
    rewrite (ring_lookup boot_id s log) by (done || (destruct (Z.geb_spec (sf_feed_id s) 128); lia)). cbn.
    replace (sm_after c + 1 - 1) with (sm_after c) by lia. split_and!; try done; lia.
Qed.
Lemma send_spec capacity now c r c' : 0 < capacity → 0 ≤ sm_offset c ≤ sm_length c → send capacity now c = (r, c') →
  sm_after c' = sm_after c ∧ sm_reset c' = sm_reset c ∧ sm_buffer c' = sm_buffer c ∧ 0 ≤ sm_offset c' ≤ sm_length c' ∧
  sent_bytes r ++ drop (Z.to_nat (sm_offset c')) (sm_buffer c') = drop (Z.to_nat (sm_offset c)) (sm_buffer c).
Proof.
  intros Hc Ho [= <- <-]. unfold sm_length in *. cbn. split_and!; [done|done|done|lia|lia|]. unfold sub.
  replace (Z.to_nat (sm_offset c + Z.min (zlen (sm_buffer c) - sm_offset c) capacity))
    with (Z.to_nat (sm_offset c) + Z.to_nat (Z.min (zlen (sm_buffer c) - sm_offset c) capacity))%nat by lia.
  rewrite <-drop_drop. apply take_drop.
Qed.
Lemma feed_step_holds boot_id start t t' : zlen boot_id = 32 → stream_holds boot_id start t → feed_step t t' → stream_holds boot_id start t'.
Proof.
  intros Hboot Hh Hstep. pose proof Hh as [Hr Ha Ho Hs Hf Hv Hn].
  destruct Hstep as [s log c es out event reply body alloc s' Hb Hl Hc He Hm Hp|s log c es out event reply alloc s' Hp|
    s log c es out stopping authorized capacity now r c' Hcap Hrun|s log c es out stopping now];
    cbn [ft_feed ft_log ft_stream ft_events ft_sent] in *.
  - pose proof (publish_holds _ _ _ _ _ _ _ _ Hboot Hr Hb Hl Hc He Hm Hp) as Hr'. rewrite (rh_boot _ _ _ Hr).
    split; cbn; [done|done|done| |done|by apply event_valid_grows|done]. rewrite event_text_grows by done. exact Hs.
  - assert (s' = s) as ->; [|done]. revert Hp. unfold publish. destruct (_ || _); [by intros [= <-]|]. destruct alloc; [done|]. by intros [= <-].
  - unfold stream_read in Hrun. unfold taken. destruct (stopping || sm_closing c || _).
    { injection Hrun as <- <-. cbn. rewrite !app_nil_r. done. }
    destruct (Z.eqb_spec (sm_offset c) (sm_length c)) as [Eo|Eo].
    + assert (Hd : drop (Z.to_nat (sm_offset c)) (sm_buffer c) = []) by (apply drop_ge; unfold sm_length, zlen in Eo; lia).
      rewrite Hd, app_nil_r in Hs. destruct (refill s c) as [c1|] eqn:Er.
      * destruct (refill_spec boot_id s log c c1 Hboot Hr Ha Er) as (e&->&Hbuf&Hoff&Hval&Hfol&Ha1&Hnr).
        destruct (send_spec capacity now c1 r c' Hcap ltac:(rewrite Hoff; unfold sm_length; pose proof (zlen_nonneg (sm_buffer c1)); lia) Hrun) as (Ea&Enr&Eb&Ho'&Hsent).
        split; cbn; [done|lia|done| | | |congruence].
        -- rewrite <-app_assoc, Hsent, Hoff, drop_0, Hs, Hbuf, map_app, concat_app. cbn. by rewrite app_nil_r.
        -- rewrite Ea. by eapply follows_app.
        -- apply Forall_app. auto.
      * injection Hrun as <- <-. unfold refill in Er. destruct (sm_reset c || stream_gap s c); [done|].
        destruct (sm_after c <? sf_feed_id s); [done|]. cbn. rewrite !app_nil_r. split; cbn; try done. by rewrite app_nil_r.
    + destruct (send_spec capacity now c r c' Hcap Ho Hrun) as (Ea&Enr&Eb&Ho'&Hsent). rewrite app_nil_r.
      split; cbn; [done|lia|done| |by rewrite Ea|done|by rewrite Enr]. by rewrite <-app_assoc, Hsent.
  - split; cbn; done.
Qed.
Lemma decimal_loop_nonneg s v z : 0 ≤ v → decimal_loop s v = Some z → 0 ≤ z.
Proof.
  revert v. induction s as [|c s IH]; intros v Hv; cbn [decimal_loop]; [by intros [= <-]|].
  destruct (_ || _); [done|]. apply IH. apply u64_range.
Qed.
Lemma decimal_nonneg s z : wadb_decimal_u64 s = Some z → 0 ≤ z.
Proof. unfold wadb_decimal_u64. destruct (_ || _); [done|]. by apply decimal_loop_nonneg. Qed.
Lemma open_stream_holds boot_id s log n stopping bearer session now last boot after c :
  ring_holds boot_id s log → (∀ z, after = Some (JUint z) → 0 ≤ z) →
  open_stream s n stopping bearer session now last boot after = Some c →
  stream_holds boot_id (sm_after c) (FeedTrace s log c [] []).
Proof.
  intros Hr Hz. unfold open_stream. set (start := match last with Some _ => _ | None => _ end).
  assert (H0 : 0 ≤ start.2).
  { unfold start, resume_last, resume_arguments, wadb_json_u64. repeat case_match; simplify_eq/=; try done;
      try (by eapply decimal_nonneg); by apply Hz. }
  destruct start as [reset position]. destruct (_ || _); [done|]. intros [= <-]. split; cbn in *; done.
Qed.

(** A reset is due: the stream was opened without a position of this boot, or the message
    after its position is not one of the last 128. *)
Definition reset_due (log : list (list Z)) (c : stream) : Prop :=
  sm_reset c = true ∨ zlen log < sm_after c ∨ sm_after c + 128 < zlen log.
#[global] Instance reset_due_dec log c : Decision (reset_due log c).
Proof. unfold reset_due. apply _. Defined.
Lemma gap_exact boot_id start t : stream_holds boot_id start t →
  let c := ft_stream t in
  stream_gap (ft_feed t) c = (zlen (ft_log t) <? sm_after c) || (sm_after c + 128 <? zlen (ft_log t)).
Proof.
  intros [[_ _ Hid Hmax _] Ha _ _ _ _ _] c. fold c in Ha. unfold stream_gap. rewrite Hid.
  destruct (Z.gtb_spec (sm_after c) (zlen (ft_log t))); [by rewrite (proj2 (Z.ltb_lt (zlen (ft_log t)) (sm_after c))) by lia|].
  rewrite (proj2 (Z.ltb_ge (zlen (ft_log t)) (sm_after c))) by lia. cbn [orb].
  destruct (Z.ltb_spec (sm_after c) (zlen (ft_log t))); cbn [andb]; [|by rewrite (proj2 (Z.ltb_ge (sm_after c + 128) (zlen (ft_log t)))) by lia].
  rewrite u64_id by (unfold is_u64; lia). unfold FEED_CAPACITY. destruct (Z.geb_spec (zlen (ft_log t)) 128); lia.
Qed.
(** The event that a read takes when the stream is open and its last message is sent. *)
Lemma taken_exact boot_id start t authorized : stream_holds boot_id start t →
  let c := ft_stream t in
  sm_closing c = false → sm_bearer c = true ∨ authorized = true → sm_offset c = sm_length c →
  taken (ft_feed t) false authorized c =
    if decide (reset_due (ft_log t) c) then [Reset (zlen (ft_log t))]
    else if decide (sm_after c < zlen (ft_log t)) then [Deliver (sm_after c + 1)] else [].
Proof.
  intros Hh c Hc Hauth Hoff. pose proof (gap_exact _ _ _ Hh) as Eg. cbn zeta in Eg. fold c in Eg. destruct Hh as [[_ _ Hid _ _] _ _ _ _ _ _].
  unfold taken. rewrite Hc, Hoff, Z.eqb_refl, Eg, Hid. assert (E : negb (sm_bearer c) && negb authorized = false) by (destruct Hauth as [->| ->]; [done|apply andb_false_r]).
  rewrite E. cbn [orb]. destruct (decide (reset_due (ft_log t) c)) as [Hd|Hd]; unfold reset_due in Hd.
  - destruct (sm_reset c); [done|]. destruct Hd as [?|Hd]; [done|]. cbn [orb]. by rewrite (proj2 (orb_true_iff _ _)) by lia.
  - destruct (sm_reset c); [tauto|]. cbn [orb]. rewrite (proj2 (orb_false_iff _ _)) by lia.
    destruct (Z.ltb_spec (sm_after c) (zlen (ft_log t))); destruct (decide _); done || lia.
Qed.

(** C8: What the client of an event stream received, together with what is left of the
    message it is receiving, is a sequence of complete messages: from where it subscribed,
    each message of the feed with the next identifier, none lost, repeated or out of
    order, or a reset that names the position where the stream goes on. When it has sent a
    message, an open stream takes the message after its position if there is one and it is
    among the last 128; it takes a reset exactly when that message is gone, when its
    position is beyond the feed, or when it was opened without a position of this boot,
    and the last is the case only before its first event. *)
Theorem stream_follows_log boot_id start t :
  zlen boot_id = 32 → feed_reachable boot_id start t →
  let c := ft_stream t in
  ft_sent t ++ drop (Z.to_nat (sm_offset c)) (sm_buffer c) = concat (map (event_text boot_id (ft_log t)) (ft_events t)) ∧
  follows start (ft_events t) (sm_after c) ∧ Forall (event_valid (ft_log t)) (ft_events t) ∧
  (∀ authorized, sm_closing c = false → sm_bearer c = true ∨ authorized = true → sm_offset c = sm_length c →
     taken (ft_feed t) false authorized c =
       if decide (sm_reset c = true ∨ zlen (ft_log t) < sm_after c ∨ sm_after c + 128 < zlen (ft_log t)) then [Reset (zlen (ft_log t))]
       else if decide (sm_after c < zlen (ft_log t)) then [Deliver (sm_after c + 1)] else []) ∧
  (sm_reset c = true → ft_events t = []).
Proof.
  intros Hboot Hr c. assert (Hh : stream_holds boot_id start t).
  { induction Hr as [s log n stopping bearer session now last boot after c0 Hl Hz Ho|start t t' _ IH Hstep]; [|by eapply feed_step_holds].
    eapply open_stream_holds; [by apply log_ring|done|done]. }
  split_and!; try apply Hh. intros authorized. by eapply taken_exact.
Qed.

(** Two messages, and a client that subscribed after the first one. *)
Definition fe_boot : list Z := zrep 32 97.
Definition fe_reply : wadb_http_reply := Reply 200 (Some (cstr "{}")) 2.
Definition fe_one : server_feed := (publish (cstr "stats") fe_reply true (new_feed fe_boot)).2.
Definition fe_two : server_feed := (publish (cstr "stats") fe_reply true fe_one).2.
Definition fe_first : list (list Z) :=
  [] ++ [message_text (sf_boot_id (new_feed fe_boot)) (zlen (@nil (list Z)) + 1) (cstr "stats") (cstr "{}")].
Definition fe_log : list (list Z) :=
  fe_first ++ [message_text (sf_boot_id fe_one) (zlen fe_first + 1) (cstr "stats") (cstr "{}")].
Definition fe_stream : stream := Stream 1 7 false false false true [] [] 0.
Definition fe_sent : read_result * stream := stream_read fe_two false true 20 9 fe_stream.
Definition fe_trace : feed_trace := FeedTrace fe_two fe_log (snd fe_sent) [Deliver 2] (sent_bytes (fst fe_sent)).
Lemma fe_reachable : feed_reachable fe_boot 1 fe_trace.
Proof.
  eapply feed_next.
  - apply (feed_opened fe_boot fe_two fe_log 0 false true [] 7 None (Some (JStr fe_boot)) (Some (JUint 1)) fe_stream); [|intros z [= <-]; lia|reflexivity].
    apply (log_next _ fe_one fe_first fe_stream [] [] fe_two fe_log fe_stream [] []).
    + apply (log_next _ (new_feed fe_boot) [] fe_stream [] [] fe_one fe_first fe_stream [] []); [apply log_start|].
      apply (step_publish (new_feed fe_boot) [] fe_stream [] [] (cstr "stats") fe_reply (cstr "{}") true fe_one);
        vm_compute; congruence.
    + apply (step_publish fe_one fe_first fe_stream [] [] (cstr "stats") fe_reply (cstr "{}") true fe_two);
        vm_compute; congruence.
  - apply (step_read fe_two fe_log fe_stream [] [] false true 20 9 (fst fe_sent) (snd fe_sent)); [lia|reflexivity].
Qed.
Lemma stream_follows_log_witness :
  ft_sent fe_trace ++ drop 20 (sm_buffer (ft_stream fe_trace)) = message_text fe_boot 2 (cstr "stats") (cstr "{}") ∧
  follows 1 [Deliver 2] (sm_after (ft_stream fe_trace)).
Proof.
  destruct (stream_follows_log fe_boot 1 fe_trace eq_refl fe_reachable) as (Hs&Hf&_). split.
  - refine (eq_trans _ (eq_trans Hs _)); [reflexivity|]. vm_compute. reflexivity.
  - exact Hf.
Defined.

(** ** A stream that makes progress is closed

    [tick] reads the clock before it publishes commits and statistics, and compares it
    afterwards with the time of each stream's last progress, which can be later; the
    unsigned difference is then almost 2^64. *)

(** C29: A stream that sends bytes after the ticker has read the clock, in the time in which
    it publishes, is closed by that tick as if it had made no progress for 15 seconds: its
    next read ends the stream, whatever the time. *)
Theorem progressing_stream_closed s authorized capacity tick_now read_now c data c' later :
  0 ≤ tick_now < read_now → read_now ≤ UINT64_MAX - 15000000000 →
  stream_read s false authorized capacity read_now c = (Bytes data, c') →
  fst (stream_read s false authorized capacity later (tick_stream false tick_now c')) = EndOfStream.
Proof.
  intros Ht Hmax Hrun. assert (Hp : sm_last_progress c' = read_now).
  { revert Hrun. unfold stream_read. destruct (_ || _ || _); [done|]. destruct (_ =? _); [|by intros [= <- <-]].
    destruct (refill s c); [by intros [= <- <-]|done]. }
  unfold stream_read, tick_stream. cbn [sm_closing]. rewrite Hp. cbn [orb].
  assert (E : (u64 (tick_now - read_now) >? 15000000000) = true) by (unfold u64; apply Z.gtb_lt; mlia). by rewrite E.
Qed.
Lemma progressing_stream_closed_witness :
  fst (stream_read fe_two false true 20 1300 (tick_stream false 1000 (snd (stream_read fe_two false true 20 1001 fe_stream)))) = EndOfStream.
Proof.
  apply (progressing_stream_closed fe_two true 20 1000 1001 fe_stream (sent_bytes (fst (stream_read fe_two false true 20 1001 fe_stream)))).
  - lia.
  - unfold UINT64_MAX. lia.
  - vm_compute. reflexivity.
Defined.
