(* ===== verification/Jobs.v ===== *)
(** * Background jobs (src/server/jobs.c, src/server/jobs.h)

    A manager with 32 slots runs at most two jobs at once, each on a thread of its own:
    the load generator appends synthetic rows to a new table at a given rate, the
    integrity job checks a table. Every section of a thread between two points where
    other threads can run is one step; [phase] is where the thread is. A step that cannot
    be taken yet (a wait, or a join of a running thread) has no result. Clock readings,
    allocations and the creation of threads are inputs. *)

From Stdlib Require Import String.
From stdpp Require Import base numbers list list_numbers gmap sorting.
From S2P Require Import Prelude Encoding Utf8 Schema Rows Dictionary Files Engine Integrity Database Commit Writer Cursors Auth JsonMemory Json Feed.

Definition WADB_JOB_HISTORY : Z := 32.
Definition WADB_JOB_CONCURRENCY : Z := 2.

(** ** State *)

Inductive wadb_job_kind := WADB_JOB_GENERATOR | WADB_JOB_INTEGRITY.
Inductive wadb_job_state := WADB_JOB_STARTING | WADB_JOB_RUNNING | WADB_JOB_COMPLETE | WADB_JOB_STOPPED | WADB_JOB_FAILED.
#[global] Instance job_kind_eq_dec : EqDecision wadb_job_kind.
Proof. solve_decision. Defined.
#[global] Instance job_state_eq_dec : EqDecision wadb_job_state.
Proof. solve_decision. Defined.
(** [go_table_name] is the array of [WADB_NAME_CAP] characters. *)
Record wadb_generator_options := GeneratorOptions {
  go_table_name : list Z;
  go_rows_per_second : Z;
  go_duration_ms : Z;
  go_batch_rows : Z;
  go_cardinality : Z;
  go_seed : Z;
}.
Record wadb_job_info := JobInfo {
  ji_id : Z;
  ji_table_id : Z;
  ji_committed_rows : Z;
  ji_attempted_rows : Z;
  ji_rejected_batches : Z;
  ji_last_sequence : Z;
  ji_started_ns : Z;
  ji_finished_ns : Z;
  ji_elapsed_ms : Z;
  ji_cpu_ns : Z;
  ji_kind : wadb_job_kind;
  ji_state : wadb_job_state;
  ji_generator : wadb_generator_options;
  ji_integrity : wadb_integrity_stats;
  ji_error : wadb_status;
}.
Definition no_options : wadb_generator_options := GeneratorOptions (zrep WADB_NAME_CAP 0) 0 0 0 0 0.
Definition no_info : wadb_job_info :=
  JobInfo 0 0 0 0 0 0 0 0 0 0 WADB_JOB_GENERATOR WADB_JOB_STARTING no_options (IntegrityStats 0 0 0 0 0) WADB_OK.
(** [jb_table] is the position of the table. *)
Record job := Job {
  jb_info : wadb_job_info;
  jb_table : Z;
  jb_check : wadb_integrity_options;
  jb_joinable : bool;
  jb_cancelled : bool;
}.
Definition no_job : job := Job no_info 0 (IntegrityOptions 0 0) false false.
#[global] Instance job_inhabited : Inhabited job := populate no_job.
#[global] Instance job_info_inhabited : Inhabited wadb_job_info := populate no_info.
Definition jb_id (j : job) : Z := ji_id (jb_info j).
Record wadb_jobs := Jobs {
  jm_stopping : bool;
  jm_next_id : Z;
  jm_slots : list job;
}.

Definition active (j : job) : bool :=
  negb (jb_id j =? 0) && (bool_decide (ji_state (jb_info j) = WADB_JOB_STARTING) || bool_decide (ji_state (jb_info j) = WADB_JOB_RUNNING)).
Definition stop_requested (m : wadb_jobs) (j : job) : bool := jm_stopping m || jb_cancelled j.

(** Assignments to members of the information. *)
Definition with_info (f : wadb_job_info → wadb_job_info) (j : job) : job :=
  Job (f (jb_info j)) (jb_table j) (jb_check j) (jb_joinable j) (jb_cancelled j).
Definition set_job_state (st : wadb_job_state) (i : wadb_job_info) : wadb_job_info :=
  JobInfo (ji_id i) (ji_table_id i) (ji_committed_rows i) (ji_attempted_rows i) (ji_rejected_batches i) (ji_last_sequence i)
    (ji_started_ns i) (ji_finished_ns i) (ji_elapsed_ms i) (ji_cpu_ns i) (ji_kind i) st (ji_generator i) (ji_integrity i) (ji_error i).
Definition set_started (now : Z) (i : wadb_job_info) : wadb_job_info :=
  JobInfo (ji_id i) (ji_table_id i) (ji_committed_rows i) (ji_attempted_rows i) (ji_rejected_batches i) (ji_last_sequence i)
    now (ji_finished_ns i) (ji_elapsed_ms i) (ji_cpu_ns i) (ji_kind i) (ji_state i) (ji_generator i) (ji_integrity i) (ji_error i).
Definition set_error (e : wadb_status) (i : wadb_job_info) : wadb_job_info :=
  JobInfo (ji_id i) (ji_table_id i) (ji_committed_rows i) (ji_attempted_rows i) (ji_rejected_batches i) (ji_last_sequence i)
    (ji_started_ns i) (ji_finished_ns i) (ji_elapsed_ms i) (ji_cpu_ns i) (ji_kind i) (ji_state i) (ji_generator i) (ji_integrity i) e.
Definition set_task (kind : wadb_job_kind) (table_id : Z) (o : wadb_generator_options) (i : wadb_job_info) : wadb_job_info :=
  JobInfo (ji_id i) table_id (ji_committed_rows i) (ji_attempted_rows i) (ji_rejected_batches i) (ji_last_sequence i)
    (ji_started_ns i) (ji_finished_ns i) (ji_elapsed_ms i) (ji_cpu_ns i) kind (ji_state i) o (ji_integrity i) (ji_error i).

(** ** Synthetic rows *)

Definition random_next (state : Z) : Z * Z :=
  let state := u64 (state + 11400714819323198485) in
  let z := u64 (Z.lxor state (Z.shiftr state 30) * 13787848793156543929) in
  let z := u64 (Z.lxor z (Z.shiftr z 27) * 10723151780598845931) in
  (Z.lxor z (Z.shiftr z 31), state).
Definition countries : list (list Z) := [cstr "US"; cstr "DE"; cstr "JP"; cstr "GB"; cstr "CA"; cstr "FR"].
(** The bytes of a word, the lowest first. *)
Definition word_bytes (a : Z) : list Z := map (λ k, u8 (Z.shiftr a (k * 8))) (seqZ 0 8).
(** Neither text can reach the 32 characters of its array. *)
Definition generated_row (a b cardinality : Z) : list wadb_value :=
  [VU64 (a `mod` 10 + 1);
   VBytes (word_bytes a ++ word_bytes b);
   VBytes (cstr "/page/" ++ print_u64 (a `mod` cardinality));
   VBytes (cstr "https://ref/" ++ print_u64 (b `mod` cardinality));
   VU64 (b `mod` 10000);
   VU64 (if a `mod` 20 =? 0 then 404 else 200);
   VBytes (countries !!! Z.to_nat (b `mod` 6));
   VU64 (a `mod` 3);
   VU64 (b `mod` 4)].
Fixpoint fill_batch (n : nat) (seed cardinality : Z) : list wadb_value * Z :=
  match n with
  | O => ([], seed)
  | S n' =>
      let '(a, seed) := random_next seed in
      let '(b, seed) := random_next seed in
      let '(values, seed) := fill_batch n' seed cardinality in
      (generated_row a b cardinality ++ values, seed)
  end.

(** ** Waiting for an append

    Requests complete in the order in which they were queued, so the place in that order
    identifies the request that a caller waits for. *)

Definition append_ticket (s : ingestion) : nat := (length (iw_done s) + length (iw_queue s))%nat.
Definition append_outcome (k : nat) (s : ingestion) : option (result wadb_append_receipt) :=
  (λ r, if decide (rq_status r = WADB_OK) then Ok (rq_receipt r) else Err (rq_status r)) <$> (rev (iw_done s) !! k).

(** ** Threads *)

(** The local variables of [generate]. *)
Record generator := Generator {
  gn_batch : Z;
  gn_target : Z;
  gn_committed : Z;
  gn_seed : Z;
  gn_start : Z;
  gn_end : Z;
}.
Inductive phase :=
  | Created
  | Setup
  | Loop (g : generator)
  | Wait (g : generator) (count : Z)
  | Woken (g : generator) (count : Z)
  | Appending (g : generator) (count : Z) (ticket : nat)
  | Record_ (g : generator) (count : Z) (outcome : result wadb_append_receipt)
  | Pause (g : generator) (deadline : Z)
  | Checking
  | Finish (status : wadb_status) (result : wadb_integrity_stats)
  | Exited.

Definition no_stats : wadb_integrity_stats := IntegrityStats 0 0 0 0 0.
Definition total_rows (o : wadb_generator_options) : Z := go_rows_per_second o * go_duration_ms o / 1000.
(** The start of [generate], once its arrays are allocated. *)
Definition new_generator (o : wadb_generator_options) (started_ns : Z) : generator :=
  let batch := go_rows_per_second o / 10 in
  let batch := if batch =? 0 then 1 else batch in
  let batch := if batch >? go_batch_rows o then go_batch_rows o else batch in
  Generator batch (total_rows o) 0 (go_seed o) started_ns (u64 (started_ns + go_duration_ms o * 1000000)).
Definition batch_count (g : generator) : Z :=
  if gn_target g - gn_committed g <? gn_batch g then gn_target g - gn_committed g else gn_batch g.
Definition due (o : wadb_generator_options) (g : generator) (count : Z) : Z :=
  u64 (gn_start g + u64 ((gn_committed g + count) * 1000000000) / go_rows_per_second o).
Definition with_seed (seed : Z) (g : generator) : generator :=
  Generator (gn_batch g) (gn_target g) (gn_committed g) seed (gn_start g) (gn_end g).
Definition with_committed (n : Z) (g : generator) : generator :=
  Generator (gn_batch g) (gn_target g) n (gn_seed g) (gn_start g) (gn_end g).
(** The section after an append. *)
Definition record_batch (g : generator) (count : Z) (outcome : result wadb_append_receipt) (cpu_ns : Z) (i : wadb_job_info)
    : wadb_job_info :=
  let '(committed, last) :=
    match outcome with
    | Ok rc => (gn_committed g + count, rc_last_sequence rc)
    | Err _ => (ji_committed_rows i, ji_last_sequence i)
    end in
  let rejected := match outcome with Err WADB_BACKPRESSURE => u64 (ji_rejected_batches i + 1) | _ => ji_rejected_batches i end in
  JobInfo (ji_id i) (ji_table_id i) committed (u64 (ji_attempted_rows i + count)) rejected last
    (ji_started_ns i) (ji_finished_ns i) (ji_elapsed_ms i) cpu_ns (ji_kind i) (ji_state i) (ji_generator i) (ji_integrity i) (ji_error i).
(** The last section of [run]. *)
Definition finish_info (stop : bool) (status : wadb_status) (result : wadb_integrity_stats) (now cpu_ns : Z) (i : wadb_job_info)
    : wadb_job_info :=
  let stop := stop || bool_decide (status = WADB_CANCELLED) in
  JobInfo (ji_id i) (ji_table_id i) (ji_committed_rows i) (ji_attempted_rows i) (ji_rejected_batches i) (ji_last_sequence i)
    (ji_started_ns i) now (u64 (now - ji_started_ns i) / 1000000) cpu_ns (ji_kind i)
    (if negb (bool_decide (status = WADB_OK)) && negb (bool_decide (status = WADB_CANCELLED)) then WADB_JOB_FAILED
     else if stop then WADB_JOB_STOPPED else WADB_JOB_COMPLETE)
    (ji_generator i) result status.

(** The whole system: the manager, the thread of each slot ([None] before there was one)
    and the database with its queue. *)
Record job_system := System {
  sy_jobs : wadb_jobs;
  sy_threads : list (option phase);
  sy_ingestion : ingestion;
}.
(** What a section of a thread is told: the clock, the processor time since the thread
    began, if allocations succeed, and the answers of [cancelled] to an integrity check. *)
Record thread_input := Input {
  in_now : Z;
  in_cpu : Z;
  in_alloc : bool;
  in_cancelled : list bool;
}.
(** [wait_until]: it goes on when a stop is requested or the time has come, and tells which. *)
Definition wait_until (stop : bool) (now deadline : Z) : option bool :=
  if stop then Some false else if now <? deadline then None else Some true.
(** One section of [run] on slot [j]: the job, the phase and the database after it. *)
Definition thread_section (x : thread_input) (m : wadb_jobs) (j : job) (p : phase) (db : ingestion)
    : option (job * phase * ingestion) :=
  let o := ji_generator (jb_info j) in
  let stop := stop_requested m j in
  match p with
  | Created =>
      Some (with_info (λ i, set_started (in_now x) (set_job_state WADB_JOB_RUNNING i)) j,
            match ji_kind (jb_info j) with WADB_JOB_GENERATOR => Setup | WADB_JOB_INTEGRITY => Checking end, db)
  | Setup =>
      Some (j, if in_alloc x then Loop (new_generator o (ji_started_ns (jb_info j))) else Finish WADB_NOMEM no_stats, db)
  | Loop g =>
      Some (j, if (gn_committed g <? gn_target g) && negb stop then Wait g (batch_count g) else Finish WADB_OK no_stats, db)
  | Wait g count =>
      go ← wait_until stop (in_now x) (due o g count);
      Some (j, if go : bool then Woken g count else Finish WADB_OK no_stats, db)
  | Woken g count =>
      if in_now x >? u64 (gn_end g + 10000000) then Some (j, Finish WADB_OK no_stats, db)
      else
        let '(values, seed) := fill_batch (Z.to_nat count) (gn_seed g) (go_cardinality o) in
        let ticket := append_ticket db in
        let '(r, db) := append_submit (jb_table j) values count db in
        Some (j, match r with
                 | Ok _ => Appending (with_seed seed g) count ticket
                 | Err e => Record_ (with_seed seed g) count (Err e)
                 end, db)
  | Appending g count ticket =>
      outcome ← append_outcome ticket db;
      Some (j, Record_ g count outcome, db)
  | Record_ g count outcome =>
      Some (with_info (record_batch g count outcome (in_cpu x)) j,
            match outcome with
            | Ok _ => Loop (with_committed (gn_committed g + count) g)
            | Err WADB_BACKPRESSURE => Pause g (u64 (in_now x + 10000000))
            | Err e => Finish e no_stats
            end, db)
  | Pause g deadline =>
      go ← wait_until stop (in_now x) deadline;
      Some (j, if go : bool then Loop g else Finish WADB_OK no_stats, db)
  | Checking =>
      let '(r, db) := iw_step (wadb_integrity_check (jb_table j) (jb_check j) (in_cancelled x)) db in
      Some (j, match r with
               | Ok (stats, r) => Finish (status_of r) stats
               | Err e => Finish e no_stats
               end, db)
  | Finish status result => Some (with_info (finish_info stop status result (in_now x) (in_cpu x)) j, Exited, db)
  | Exited => None
  end.
Definition set_slot (i : nat) (j : job) (m : wadb_jobs) : wadb_jobs := Jobs (jm_stopping m) (jm_next_id m) (<[i := j]> (jm_slots m)).
Definition thread_step (i : nat) (x : thread_input) (s : job_system) : option job_system :=
  j ← jm_slots (sy_jobs s) !! i;
  p ← mjoin (sy_threads s !! i);
  '(j, p, db) ← thread_section x (sy_jobs s) j p (sy_ingestion s);
  Some (System (set_slot i j (sy_jobs s)) (<[i := Some p]> (sy_threads s)) db).

(** ** The manager *)

Definition wadb_jobs_open : wadb_jobs := Jobs false 1 (zrep WADB_JOB_HISTORY no_job).
Definition running (l : list job) : Z := zlen (filter (λ j, active j = true) l).
(** The first slot with the least identifier that is not active: the loop of [reserve],
    at slot [i] with [best] so far. *)
Fixpoint free_slot (l : list job) (i : nat) (best : option (nat * Z)) : option (nat * Z) :=
  match l with
  | [] => best
  | j :: l' =>
      free_slot l' (S i)
        (if active j then best
         else match best with
              | None => Some (i, jb_id j)
              | Some (_, id) => if jb_id j <? id then Some (i, jb_id j) else best
              end)
  end.
Definition starting_job (id : Z) : job :=
  Job (JobInfo id 0 0 0 0 0 0 0 0 0 WADB_JOB_GENERATOR WADB_JOB_STARTING no_options no_stats WADB_OK) 0 (IntegrityOptions 0 0) false false.
(** The slot's last thread, if it has one, is joined under the mutex: no result while that
    thread runs. *)
Definition reserve (s : job_system) : option (result nat * job_system) :=
  let m := sy_jobs s in
  match free_slot (jm_slots m) 0 None with
  | None => Some (Err WADB_BACKPRESSURE, s)
  | Some (i, _) =>
      if jm_stopping m || (running (jm_slots m) >=? WADB_JOB_CONCURRENCY) || (jm_next_id m =? 0) then Some (Err WADB_BACKPRESSURE, s)
      else
        let j := jm_slots m !!! i in
        if jb_joinable j && negb (match mjoin (sy_threads s !! i) with Some Exited => true | _ => false end) then None
        else
          Some (Ok i, System (Jobs (jm_stopping m) (u64 (jm_next_id m + 1)) (<[i := starting_job (jm_next_id m)]> (jm_slots m)))
                        (<[i := None]> (sy_threads s)) (sy_ingestion s))
  end.
Definition update_job (i : nat) (f : job → job) (s : job_system) : job_system :=
  System (set_slot i (f (jm_slots (sy_jobs s) !!! i)) (sy_jobs s)) (sy_threads s) (sy_ingestion s).
Definition set_joinable (j : job) : job := Job (jb_info j) (jb_table j) (jb_check j) true (jb_cancelled j).
(** [created] is what [pthread_create] says. *)
Definition start (i : nat) (created : bool) (s : job_system) : result Z * job_system :=
  if created then
    let s := update_job i set_joinable s in
    (Ok (jb_id (jm_slots (sy_jobs s) !!! i)), System (sy_jobs s) (<[i := Some Created]> (sy_threads s)) (sy_ingestion s))
  else (Err WADB_IO, update_job i (with_info (λ n, set_error WADB_IO (set_job_state WADB_JOB_FAILED n))) s).

Definition job_name (id realtime : Z) : list Z :=
  sub (cstr "_test_" ++ print_u64 id ++ cstr "_" ++ print_i64 realtime) 0 (WADB_NAME_CAP - 1).
Definition name_array (name : list Z) : list Z := put (zrep WADB_NAME_CAP 0) 0 name.
Definition generator_fields : list wadb_field_def :=
  [FieldDef (cstr "site_id") WADB_U32 0 false; FieldDef (cstr "visitor_id") WADB_BYTES 16 false;
   FieldDef (cstr "path") WADB_SYMBOL32 0 false; FieldDef (cstr "referrer") WADB_SYMBOL32 0 false;
   FieldDef (cstr "duration_ms") WADB_U32 0 false; FieldDef (cstr "status") WADB_U16 0 false;
   FieldDef (cstr "country") WADB_BYTES 2 false; FieldDef (cstr "device") WADB_U8 0 false;
   FieldDef (cstr "flags") WADB_U8 0 false].
Definition options_allowed (o : wadb_generator_options) : bool :=
  let total := total_rows o in
  negb ((go_rows_per_second o =? 0) || (go_rows_per_second o >? 1000000) || (go_duration_ms o =? 0) || (go_duration_ms o >? 300000) ||
    (go_batch_rows o =? 0) || (go_batch_rows o >? 4096) || (go_cardinality o =? 0) || (go_cardinality o >? 100000) ||
    (total =? 0) || (total >? 10000000)).
Definition with_name (name : list Z) (o : wadb_generator_options) : wadb_generator_options :=
  GeneratorOptions name (go_rows_per_second o) (go_duration_ms o) (go_batch_rows o) (go_cardinality o) (go_seed o).
Definition set_job_table (table : Z) (j : job) : job := Job (jb_info j) table (jb_check j) (jb_joinable j) (jb_cancelled j).
Definition wadb_table_id (db : ingestion) (table : Z) : Z :=
  match g_tables (iw_database db) !! Z.to_nat table with Some t => table_id t | None => 0 end.
Definition wadb_job_generate (o : wadb_generator_options) (realtime : Z) (created : bool) (s : job_system)
    : option (result Z * job_system) :=
  let name := go_table_name o in
  if negb (existsb (Z.eqb 0) name) || (negb (rd name 0 =? 0) && negb (wadb_identifier (c_string name))) then Some (Err WADB_INVALID, s)
  else if negb (options_allowed o) then Some (Err WADB_LIMIT, s)
  else
    '(slot, s) ← reserve s;
    match slot with
    | Err e => Some (Err e, s)
    | Ok i =>
        let id := jb_id (jm_slots (sy_jobs s) !!! i) in
        let o := if rd name 0 =? 0 then with_name (name_array (job_name id realtime)) o else o in
        let s := update_job i (with_info (set_task WADB_JOB_GENERATOR 0 o)) s in
        let '(t, db) := iw_step (wadb_create_table (c_string (go_table_name o)) generator_fields 0) (sy_ingestion s) in
        let s := System (sy_jobs s) (sy_threads s) db in
        match t with
        | Ok t =>
            Some (start i created
                    (update_job i (λ j, set_job_table t (with_info (set_task WADB_JOB_GENERATOR (wadb_table_id db t) o) j)) s))
        | Err e => Some (Err e, update_job i (with_info (λ n, set_error e (set_job_state WADB_JOB_FAILED n))) s)
        end
    end.
Definition check_job (table nbytes timeout : Z) (j : job) : job :=
  Job (jb_info j) table (IntegrityOptions nbytes timeout) (jb_joinable j) (jb_cancelled j).
Definition wadb_job_integrity (table nbytes timeout : Z) (created : bool) (s : job_system) : option (result Z * job_system) :=
  if (nbytes =? 0) || (nbytes >? 64 * 1024 * 1024 * 1024) || (timeout =? 0) || (timeout >? 300000) then Some (Err WADB_LIMIT, s)
  else
    '(slot, s) ← reserve s;
    match slot with
    | Err e => Some (Err e, s)
    | Ok i =>
        Some (start i created
                (update_job i (λ j, check_job table nbytes timeout
                   (with_info (set_task WADB_JOB_INTEGRITY (wadb_table_id (sy_ingestion s) table) no_options) j)) s))
    end.

(** ** Looking at jobs and stopping them *)

Definition copy_info (now : Z) (j : job) : wadb_job_info :=
  let i := jb_info j in
  if active j && negb (ji_started_ns i =? 0) then
    JobInfo (ji_id i) (ji_table_id i) (ji_committed_rows i) (ji_attempted_rows i) (ji_rejected_batches i) (ji_last_sequence i)
      (ji_started_ns i) (ji_finished_ns i) (u64 (now - ji_started_ns i) / 1000000) (ji_cpu_ns i) (ji_kind i) (ji_state i)
      (ji_generator i) (ji_integrity i) (ji_error i)
  else i.
Fixpoint find_job (l : list job) (id : Z) (i : nat) : option nat :=
  match l with
  | [] => None
  | j :: l' => if jb_id j =? id then Some i else find_job l' id (S i)
  end.
Definition wadb_job_get (m : wadb_jobs) (id now : Z) : result wadb_job_info :=
  if id =? 0 then Err WADB_INVALID
  else match find_job (jm_slots m) id 0 with
       | Some i => Ok (copy_info now (jm_slots m !!! i))
       | None => Err WADB_NOT_FOUND
       end.
(** The inner loop of the sort: [v] is moved down from position [k]. *)
Fixpoint sift (k : nat) (v : wadb_job_info) (out : list wadb_job_info) : list wadb_job_info :=
  match k with
  | O => <[0%nat := v]> out
  | S k' =>
      if ji_id (out !!! k') >? ji_id v then sift k' v (<[k := out !!! k']> out)
      else <[k := v]> out
  end.
(** The outer loop from position [i] on, [n] times. *)
Fixpoint sort_jobs (n i : nat) (out : list wadb_job_info) : list wadb_job_info :=
  match n with
  | O => out
  | S n' => sort_jobs n' (S i) (sift i (out !!! i) out)
  end.
Definition wadb_job_list (m : wadb_jobs) (capacity now : Z) : Z * result (list wadb_job_info) :=
  let used := filter (λ j, jb_id j ≠ 0) (jm_slots m) in
  let out := map (copy_info now) used in
  (zlen used, if zlen used >? capacity then Err WADB_LIMIT else Ok (sort_jobs (length out - 1) 1 out)).
Definition cancel (j : job) : job := Job (jb_info j) (jb_table j) (jb_check j) (jb_joinable j) true.
Definition wadb_job_stop (id : Z) (s : job_system) : result unit * job_system :=
  if id =? 0 then (Err WADB_INVALID, s)
  else match find_job (jm_slots (sy_jobs s)) id 0 with
       | Some i => (Ok (), update_job i cancel s)
       | None => (Err WADB_NOT_FOUND, s)
       end.
(** [wadb_jobs_close] up to the joins. *)
Definition jobs_stop (s : job_system) : job_system :=
  System (Jobs true (jm_next_id (sy_jobs s)) (jm_slots (sy_jobs s))) (sy_threads s) (sy_ingestion s).
(** The joins return when the threads of all slots have exited. *)
Definition jobs_joined (s : job_system) : bool :=
  forallb (λ jp : job * option phase, negb (jb_joinable jp.1) || match jp.2 with Some Exited => true | _ => false end)
    (zip (jm_slots (sy_jobs s)) (sy_threads s)).

(** ** All that can happen *)

Definition options_typed (o : wadb_generator_options) : Prop :=
  zlen (go_table_name o) = WADB_NAME_CAP ∧ is_u32 (go_rows_per_second o) ∧ is_u32 (go_duration_ms o) ∧
  is_u32 (go_batch_rows o) ∧ is_u32 (go_cardinality o) ∧ is_u64 (go_seed o).
(** Calls of the interface, sections of the jobs' threads, and the rest of the program,
    which may do anything to the database. The label is the slot of the thread that moved. *)
Inductive job_step : option nat → job_system → job_system → Prop :=
  | step_generate o realtime created r s s' :
      options_typed o → wadb_job_generate o realtime created s = Some (r, s') → job_step None s s'
  | step_integrity table nbytes timeout created r s s' :
      wadb_job_integrity table nbytes timeout created s = Some (r, s') → job_step None s s'
  | step_stop id s : job_step None s (wadb_job_stop id s).2
  | step_close s : job_step None s (jobs_stop s)
  | step_thread i x s s' : is_u64 (in_now x) → thread_step i x s = Some s' → job_step (Some i) s s'
  | step_database s db : job_step None s (System (sy_jobs s) (sy_threads s) db).
Definition job_start (db : ingestion) : job_system := System wadb_jobs_open (replicate 32 None) db.
Inductive job_reachable : job_system → Prop :=
  | jobs_started db : job_reachable (job_start db)
  | jobs_next l s s' : job_reachable s → job_step l s s' → job_reachable s'.

(** ** The invariant *)

Definition live (p : option phase) : bool := match p with None | Some Exited => false | Some _ => true end.
Record generator_ok (i : wadb_job_info) (g : generator) : Prop := {
  gk_batch : 1 ≤ gn_batch g ≤ 4096;
  gk_target : gn_target g = total_rows (ji_generator i);
  gk_committed : 0 ≤ gn_committed g ≤ gn_target g;
  gk_info : ji_committed_rows i = gn_committed g;
  gk_start : gn_start g = ji_started_ns i;
  gk_end : gn_end g = u64 (ji_started_ns i + go_duration_ms (ji_generator i) * 1000000);
}.
Definition count_ok (g : generator) (count : Z) : Prop := 0 < count ≤ gn_batch g ∧ gn_committed g + count ≤ gn_target g.
(** A phase of [generate] belongs to a generator. *)
Definition phase_ok (i : wadb_job_info) (p : phase) : Prop :=
  match p with
  | Created | Setup => ji_kind i = WADB_JOB_GENERATOR → ji_committed_rows i = 0
  | Loop g | Pause g _ => ji_kind i = WADB_JOB_GENERATOR ∧ generator_ok i g
  | Wait g n | Woken g n | Appending g n _ | Record_ g n _ => ji_kind i = WADB_JOB_GENERATOR ∧ generator_ok i g ∧ count_ok g n
  | _ => True
  end ∧
  match p with Setup => ji_kind i = WADB_JOB_GENERATOR | _ => True end.
Definition options_ok (o : wadb_generator_options) : Prop := options_typed o ∧ options_allowed o = true.
Record slot_ok (j : job) (p : option phase) : Prop := {
  so_live : active j = live p;
  so_joinable : jb_joinable j = match p with Some _ => true | None => false end;
  so_phase ph : p = Some ph → phase_ok (jb_info j) ph;
  so_options : jb_id j ≠ 0 → ji_kind (jb_info j) = WADB_JOB_GENERATOR → options_ok (ji_generator (jb_info j));
  so_committed : 0 ≤ ji_committed_rows (jb_info j) ≤ Z.max 0 (total_rows (ji_generator (jb_info j)));
}.
Record jobs_ok (s : job_system) : Prop := {
  jo_length : length (jm_slots (sy_jobs s)) = 32%nat;
  jo_threads : length (sy_threads s) = 32%nat;
  jo_slots i j p : jm_slots (sy_jobs s) !! i = Some j → sy_threads s !! i = Some p → slot_ok j p;
  jo_running : running (jm_slots (sy_jobs s)) ≤ 2;
  jo_ids i k j j' : jm_slots (sy_jobs s) !! i = Some j → jm_slots (sy_jobs s) !! k = Some j' → jb_id j = jb_id j' →
    jb_id j ≠ 0 → i = k;
  jo_next : is_u64 (jm_next_id (sy_jobs s));
  jo_below i j : jm_slots (sy_jobs s) !! i = Some j → 0 ≤ jb_id j ∧ (jm_next_id (sy_jobs s) = 0 ∨ jb_id j < jm_next_id (sy_jobs s));
}.
Lemma running_insert l i j j' : l !! i = Some j →
  running (<[i := j']> l) + Z.b2z (active j) = running l + Z.b2z (active j').
Proof.
  intros Hi. unfold running. rewrite <-(take_drop_middle l i j Hi) at 2. rewrite insert_take_drop by (by eapply lookup_lt_Some).
  rewrite !filter_app, !filter_cons, !zlen_app.
  destruct (active j), (active j'); repeat case_decide; try done; rewrite ?zlen_cons; cbn; lia.
Qed.
(** A slot changes and keeps its identifier. *)
Lemma update_ok s i j j' p' db stopping : jobs_ok s → jm_slots (sy_jobs s) !! i = Some j →
  jb_id j' = jb_id j → (active j' = true → active j = true) → slot_ok j' p' →
  jobs_ok (System (Jobs stopping (jm_next_id (sy_jobs s)) (<[i := j']> (jm_slots (sy_jobs s)))) (<[i := p']> (sy_threads s)) db).
Proof.
  intros [Hl Ht Hs Hr Hi Hn Hb] Hj Eid Hact Hok. pose proof (lookup_lt_Some _ _ _ Hj) as Hlt.
  assert (Hback : ∀ k x, <[i := j']> (jm_slots (sy_jobs s)) !! k = Some x →
    ∃ y, jm_slots (sy_jobs s) !! k = Some y ∧ jb_id y = jb_id x).
  { intros k x. rewrite list_lookup_insert_Some. intros [(<-&<-&_)|[_ Hk]]; eauto. }
  split; cbn; rewrite ?length_insert; [done|done| | | |done|].
  - intros k x p. rewrite !list_lookup_insert_Some. intros [(<-&<-&_)|[Hne Hk]] [(E&<-&_)|[Hne' Hp]]; try done; eauto.
  - pose proof (running_insert _ _ _ j' Hj) as E. destruct (active j'); [rewrite Hact in E by done|]; destruct (active j); cbn in E; lia.
  - intros k k' x x' (y&Hy&<-)%Hback (y'&Hy'&<-)%Hback. eauto.
  - intros k x (y&Hy&<-)%Hback. eauto.
Qed.
(** A new job in a slot that is free. *)
Lemma job_placed s i j j' p' db : jobs_ok s → jm_slots (sy_jobs s) !! i = Some j → active j = false →
  running (jm_slots (sy_jobs s)) < 2 → jm_next_id (sy_jobs s) ≠ 0 → jb_id j' = jm_next_id (sy_jobs s) → slot_ok j' p' →
  jobs_ok (System (Jobs (jm_stopping (sy_jobs s)) (u64 (jm_next_id (sy_jobs s) + 1)) (<[i := j']> (jm_slots (sy_jobs s))))
             (<[i := p']> (sy_threads s)) db).
Proof.
  intros [Hl Ht Hs Hr Hi Hn Hb] Hj Hact Hrun Hnz Eid Hok. split; cbn; rewrite ?length_insert; [done|done| | | |apply u64_range|].
  - intros k x p. rewrite !list_lookup_insert_Some. intros [(<-&<-&_)|[Hne Hk]] [(E&<-&_)|[Hne' Hp]]; try done; eauto.
  - pose proof (running_insert _ _ _ j' Hj) as E. rewrite Hact in E. destruct (active j'); cbn in E; lia.
  - intros k k' x x'. rewrite !list_lookup_insert_Some. intros [(<-&<-&_)|[Hne Hk]] [(E&<-&_)|[Hne' Hk']] Ex Hx; try done; [| |eauto].
    + destruct (Hb _ _ Hk') as [_ [?|?]]; lia.
    + destruct (Hb _ _ Hk) as [_ [?|?]]; lia.
  - assert (Hu : u64 (jm_next_id (sy_jobs s) + 1) = 0 ∨ u64 (jm_next_id (sy_jobs s) + 1) = jm_next_id (sy_jobs s) + 1).
    { unfold u64. mlia. }
    intros k x. rewrite list_lookup_insert_Some. intros [(<-&<-&_)|[Hne Hk]].
    + rewrite Eid. unfold is_u64 in Hn. lia.
    + destruct (Hb _ _ Hk) as [? [?|?]]; split; lia.
Qed.

(** *** Sections of a thread *)

Lemma new_generator_ok i : options_ok (ji_generator i) → ji_committed_rows i = 0 → generator_ok i (new_generator (ji_generator i) (ji_started_ns i)).
Proof.
  intros [(_&Hr&Hd&Hb&_) Ha] Hc. unfold options_allowed in Ha. rewrite negb_true_iff in Ha.
  repeat (apply orb_false_iff in Ha as [Ha ?]). split; cbn [gn_batch gn_target gn_committed gn_start gn_end new_generator]; try done.
  - unfold is_u32 in *. destruct (Z.eqb_spec (go_rows_per_second (ji_generator i) / 10) 0);
      match goal with |- context [?a >? ?b] => destruct (Z.gtb_spec a b) end; mlia.
  - unfold total_rows, is_u32 in *. split; [lia|]. apply Z.div_pos; nia.
Qed.
Lemma batch_count_ok g : 1 ≤ gn_batch g → gn_committed g < gn_target g → count_ok g (batch_count g).
Proof. intros Hb Hc. unfold count_ok, batch_count. destruct (Z.ltb_spec (gn_target g - gn_committed g) (gn_batch g)); lia. Qed.
Lemma finish_inactive stop status result now cpu j : active (with_info (finish_info stop status result now cpu) j) = false.
Proof.
  unfold active, finish_info. cbn. rewrite andb_false_iff. right. by repeat case_match.
Qed.
(** A live slot whose information did not change. *)
Lemma slot_moves j p p' : slot_ok j (Some p) → live (Some p) = live (Some p') → phase_ok (jb_info j) p' → slot_ok j (Some p').
Proof. intros [Hl Hj _ Ho Hc] E Hp. split; [by rewrite Hl|done|by intros ? [= <-]|done|done]. Qed.
Ltac moves := match goal with Hok : slot_ok ?j (Some _) |- slot_ok ?j (Some _) => apply (slot_moves _ _ _ Hok); [reflexivity|try (split; done)] end.
Lemma thread_section_ok x m j p db j' p' db' : slot_ok j (Some p) → thread_section x m j p db = Some (j', p', db') →
  jb_id j' = jb_id j ∧ (active j' = true → active j = true) ∧ slot_ok j' (Some p').
Proof.
  intros Hok. pose proof Hok as [Hl Hj Hp Ho Hc]. specialize (Hp p eq_refl) as [Hp Hset].
  assert (Hid : live (Some p) = true → jb_id j ≠ 0).
  { intros E. rewrite E in Hl. unfold active in Hl. intros E'. by rewrite E' in Hl. }
  destruct p as [| |g|g n|g n|g n k|g n r|g d| |st res|]; cbn [thread_section]; cbn [live] in *.
  - intros [= <- <- <-]. split_and!; [done|done|]. split; cbn [jb_joinable jb_info with_info live]; [|done| |done|done].
    + trans true; [|by destruct (ji_kind _)]. unfold active. apply andb_true_iff. split; [|done]. apply negb_true_iff, Z.eqb_neq.
      by apply Hid.
    + intros ph [= <-]. unfold phase_ok. cbn. destruct (ji_kind (jb_info j)) eqn:Ek; [|done]. auto.
  - intros [= <- <- <-]. split_and!; [done|done|]. destruct (in_alloc x); [|moves].
    moves. unfold phase_ok. specialize (Ho (Hid eq_refl) Hset). split; [|done]. split; [done|].
    apply new_generator_ok; auto.
  - intros [= <- <- <-]. split_and!; [done|done|]. destruct (Z.ltb_spec (gn_committed g) (gn_target g)); [|moves].
    cbn [andb]. destruct (negb _); [|moves]. moves.
    unfold phase_ok. destruct Hp as [? Hg]. split; [|done]. split_and!; [done|done|]. by apply batch_count_ok; [apply Hg|].
  - destruct (wait_until _ _ _) as [[]|]; cbn; [| |done]; intros [= <- <- <-]; (split_and!; [done|done|moves]).
  - destruct (_ >? _); [intros [= <- <- <-]; split_and!; [done|done|moves]|].
    destruct (fill_batch _ _ _) as [values seed]. destruct (append_submit _ _ _ _) as [r db1]. intros [= <- <- <-].
    split_and!; [done|done|]. destruct Hp as (Hk&[]&Hn). destruct r; moves.
  - destruct (append_outcome _ _) as [r|]; cbn; [|done]. intros [= <- <- <-]. split_and!; [done|done|moves].
  - intros [= <- <- <-]. destruct Hp as (Hk&Hg&Hn). pose proof Hg as [Hb Ht Hcm Hi Hst Hen].
    assert (Hinfo : ji_id (record_batch g n r (in_cpu x) (jb_info j)) = jb_id j ∧
      ji_state (record_batch g n r (in_cpu x) (jb_info j)) = ji_state (jb_info j) ∧
      ji_kind (record_batch g n r (in_cpu x) (jb_info j)) = ji_kind (jb_info j) ∧
      ji_generator (record_batch g n r (in_cpu x) (jb_info j)) = ji_generator (jb_info j) ∧
      ji_started_ns (record_batch g n r (in_cpu x) (jb_info j)) = ji_started_ns (jb_info j) ∧
      ji_committed_rows (record_batch g n r (in_cpu x) (jb_info j)) = match r with Ok _ => gn_committed g + n | Err _ => gn_committed g end).
    { unfold record_batch. destruct r; cbn; split_and!; done. }
    destruct Hinfo as (E1&E2&E3&E4&E5&E6).
    assert (Ea : active (with_info (record_batch g n r (in_cpu x)) j) = active j) by (unfold active, jb_id in *; cbn; by rewrite E1, E2).
    split_and!; [done|by rewrite Ea|]. split; cbn [jb_joinable jb_info with_info live].
    + rewrite Ea, Hl. destruct r as [|[]]; done.
    + done.
    + clear Ea. revert E1 E2 E3 E4 E5 E6. generalize (record_batch g n r (in_cpu x) (jb_info j)). intros i E1 E2 E3 E4 E5 E6 ph [= <-].
      unfold phase_ok. destruct r as [|[]]; split; try done; (split; [by rewrite E3|]);
        split; cbn; rewrite ?E4, ?E5, ?E6; try done; destruct Hn; lia.
    + intros ??. rewrite E4. apply Ho; [by apply Hid|done].
    + rewrite E6, E4, <-Ht. destruct Hn. destruct r; lia.
  - destruct (wait_until _ _ _) as [[]|]; cbn; [| |done]; intros [= <- <- <-]; (split_and!; [done|done|moves]).
  - destruct (iw_step _ _) as [[[stats r]|e] db1]; intros [= <- <- <-]; (split_and!; [done|done|moves]).
  - intros [= <- <- <-]. split_and!; [done|by rewrite finish_inactive|]. split; cbn [jb_joinable jb_info with_info live].
    + apply finish_inactive.
    + done.
    + by intros ph [= <-].
    + cbn. apply Ho.
    + done.
  - done.
Qed.

(** *** Calls of the interface *)

Lemma free_job_slot l i best k id : free_slot l i best = Some (k, id) →
  (best = Some (k, id) ∨ ∃ j, l !! (k - i)%nat = Some j ∧ (i ≤ k)%nat ∧ active j = false ∧ jb_id j = id) ∧
  (∀ k' id', best = Some (k', id') → id ≤ id') ∧ (∀ j, j ∈ l → active j = false → id ≤ jb_id j).
Proof.
  revert i best. induction l as [|j l IH]; intros i best; cbn [free_slot].
  { intros ->. split_and!; [by left|by intros ?? [= -> ->]|by intros ? ?%not_elem_of_nil]. }
  set (best' := if active j then _ else _). intros Hrun. destruct (IH _ _ Hrun) as (Hwhere&Hbest&Hleast).
  assert (Hj : active j = false → ∃ k' id', best' = Some (k', id') ∧ id' ≤ jb_id j).
  { unfold best'. intros ->. destruct best as [[k' id']|]; [destruct (Z.ltb_spec (jb_id j) id')|]; eauto with lia. }
  split_and!.
  - destruct Hwhere as [E|(x&Hx&Hk&Hax&Eid)].
    + unfold best' in E. destruct (active j) eqn:Ea; [by left|].
      assert (Hnew : Some (i, jb_id j) = Some (k, id) → ∃ x, (j :: l) !! (k - i)%nat = Some x ∧ (i ≤ k)%nat ∧ active x = false ∧ jb_id x = id).
      { intros [= <- <-]. exists j. rewrite Nat.sub_diag. split_and!; done || lia. }
      destruct best as [[k' id']|]; [|by right; apply Hnew]. destruct (jb_id j <? id'); [by right; apply Hnew|by left].
    + right. exists x. split_and!; [|lia|done|done]. by replace (k - i)%nat with (S (k - S i)) by lia.
  - intros k' id' E. unfold best' in Hbest. rewrite E in Hbest. destruct (active j); [by eapply Hbest|].
    destruct (Z.ltb_spec (jb_id j) id') as [Hlt|]; [pose proof (Hbest _ _ eq_refl); lia|by eapply Hbest].
  - intros x [->|Hx]%elem_of_cons Ha; [|by apply Hleast]. destruct (Hj Ha) as (k'&id'&E&Hle). pose proof (Hbest _ _ E). lia.
Qed.
Lemma free_slot_from l i k0 : ∃ r, free_slot l i (Some k0) = Some r.
Proof.
  revert i k0. induction l as [|j l IH]; intros i k0; cbn [free_slot]; [eauto|].
  destruct (active j); [apply IH|]. destruct k0 as [k id]. destruct (_ <? _); apply IH.
Qed.
(** With less than 32 running jobs there is a slot. *)
Lemma reserve_spec s : jobs_ok s →
  (∃ e, reserve s = Some (Err e, s)) ∨
  ∃ i j, jm_slots (sy_jobs s) !! i = Some j ∧ active j = false ∧ running (jm_slots (sy_jobs s)) < 2 ∧ jm_next_id (sy_jobs s) ≠ 0 ∧
    (∀ j', j' ∈ jm_slots (sy_jobs s) → active j' = false → jb_id j ≤ jb_id j') ∧
    reserve s = Some (Ok i, System (Jobs (jm_stopping (sy_jobs s)) (u64 (jm_next_id (sy_jobs s) + 1))
                                      (<[i := starting_job (jm_next_id (sy_jobs s))]> (jm_slots (sy_jobs s))))
                              (<[i := None]> (sy_threads s)) (sy_ingestion s)).
Proof.
  intros [Hl Ht Hs Hr Hi Hn Hb]. unfold reserve. destruct (free_slot _ _ _) as [[i id]|] eqn:E; [|by left; exists WADB_BACKPRESSURE].
  destruct (_ || _) eqn:Eg; [by left; exists WADB_BACKPRESSURE|]. right.
  apply orb_false_iff in Eg as [[_ Hc]%orb_false_iff Hnz%Z.eqb_neq]. unfold WADB_JOB_CONCURRENCY in Hc.
  destruct (free_job_slot _ _ _ _ _ E) as ([|(j&Hj&_&Ha&Eid)]&_&Hleast); [done|]. rewrite Nat.sub_0_r in Hj.
  destruct (lookup_lt_is_Some_2 (sy_threads s) i) as [p Hp]; [rewrite Ht, <-Hl; by eapply lookup_lt_Some|].
  exists i, j. rewrite Eid. split_and!; [done|done|lia|done|done|]. rewrite (list_lookup_total_correct _ _ _ Hj), Hp.
  destruct (Hs _ _ _ Hj Hp) as [Hlive Hjoin _ _ _]. rewrite Ha in Hlive. cbn [mjoin option_join]. rewrite Hjoin.
  by destruct p as [[]|].
Qed.
(** What is left after [start] on a slot that was just reserved. *)
Lemma total_rows_nonneg o : options_ok o → 0 ≤ total_rows o.
Proof. intros [(_&?&?&_) _]. unfold total_rows, is_u32 in *. apply Z.div_pos; nia. Qed.
Lemma new_slot_ok j id created :
  jb_id j = id → id ≠ 0 → ji_state (jb_info j) = WADB_JOB_STARTING → ji_committed_rows (jb_info j) = 0 →
  (ji_kind (jb_info j) = WADB_JOB_GENERATOR → options_ok (ji_generator (jb_info j))) →
  jb_joinable j = false →
  slot_ok (if created : bool then set_joinable j else with_info (λ n, set_error WADB_IO (set_job_state WADB_JOB_FAILED n)) j)
    (if created then Some Created else None).
Proof.
  intros Hid Hnz Hst Hc Ho Hj. destruct created; split; cbn; try done.
  - unfold active, jb_id. cbn. unfold jb_id in Hid. rewrite Hid, Hst. by destruct (Z.eqb_spec id 0).
  - by intros ph [= <-].
  - rewrite Hc. lia.
  - unfold active. cbn. by rewrite andb_false_r.
  - rewrite Hc. lia.
Qed.
(** Operations on the slot that was just reserved. *)
Definition placed (s : job_system) (i : nat) (j : job) (p : option phase) (db : ingestion) : job_system :=
  System (Jobs (jm_stopping (sy_jobs s)) (u64 (jm_next_id (sy_jobs s) + 1)) (<[i := j]> (jm_slots (sy_jobs s)))) (<[i := p]> (sy_threads s)) db.
Lemma placed_lookup s i j p db : (i < length (jm_slots (sy_jobs s)))%nat → jm_slots (sy_jobs (placed s i j p db)) !!! i = j.
Proof. intros Hi. cbn. by apply list_lookup_total_insert_eq. Qed.
Lemma update_placed s i f j p db : (i < length (jm_slots (sy_jobs s)))%nat → update_job i f (placed s i j p db) = placed s i (f j) p db.
Proof. intros Hi. unfold update_job. rewrite placed_lookup by done. unfold placed, set_slot. cbn. by rewrite list_insert_insert_eq. Qed.
Lemma start_placed s i created j db : (i < length (jm_slots (sy_jobs s)))%nat →
  start i created (placed s i j None db) =
    (if created then Ok (jb_id j) else Err WADB_IO,
     placed s i (if created then set_joinable j else with_info (λ n, set_error WADB_IO (set_job_state WADB_JOB_FAILED n)) j)
       (if created then Some Created else None) db).
Proof.
  intros Hi. unfold start. destruct created; rewrite update_placed by done; [|done]. rewrite placed_lookup by done.
  unfold placed. cbn. by rewrite list_insert_insert_eq.
Qed.
(** A call changes nothing, or puts a new job in a free slot. *)
Inductive placement (s : job_system) : job_system → Prop :=
  | not_placed : placement s s
  | placed_job i j j' p db :
      jm_slots (sy_jobs s) !! i = Some j → active j = false → running (jm_slots (sy_jobs s)) < 2 → jm_next_id (sy_jobs s) ≠ 0 →
      jb_id j' = jm_next_id (sy_jobs s) → slot_ok j' p → placement s (placed s i j' p db).
#[local] Hint Constructors placement : core.
Lemma placement_ok s s' : jobs_ok s → placement s s' → jobs_ok s'.
Proof. intros Hok [|i j j' p db]; [done|]. by eapply job_placed. Qed.
Lemma generate_places o realtime created s : jobs_ok s → options_typed o →
  ∃ r s', wadb_job_generate o realtime created s = Some (r, s') ∧ placement s s'.
Proof.
  intros Hok Ho. unfold wadb_job_generate. destruct (_ || _); [eauto|]. destruct (options_allowed o) eqn:Ea; [|eauto]. cbn [negb].
  destruct (reserve_spec s Hok) as [[e ->]|(i&j&Hj&Hact&Hrun&Hnz&_&->)]; [cbn; eauto|]. cbn [mbind option_bind].
  pose proof (lookup_lt_Some _ _ _ Hj) as Hi. fold (placed s i (starting_job (jm_next_id (sy_jobs s))) None (sy_ingestion s)).
  rewrite placed_lookup by done. set (o' := if rd _ 0 =? 0 then _ else _).
  assert (Ho' : options_ok o').
  { unfold o'. destruct (_ =? 0); [|done]. destruct Ho as (Hn&Hrest). split; [|exact Ea]. split; [|exact Hrest].
    cbn [go_table_name with_name]. unfold name_array. rewrite zlen_put. apply zlen_zrep. unfold WADB_NAME_CAP. lia. }
  rewrite update_placed by done. destruct (iw_step _ _) as [t db]. destruct t as [t|e].
  - change (System (sy_jobs (placed s i ?j0 None ?d)) (sy_threads (placed s i ?j0 None ?d)) db) with (placed s i j0 None db).
    rewrite update_placed, start_placed by done. eexists _, _. split; [done|]. eapply placed_job; try done; [by destruct created|].
    by apply (new_slot_ok _ (jm_next_id (sy_jobs s))).
  - change (System (sy_jobs (placed s i ?j0 None ?d)) (sy_threads (placed s i ?j0 None ?d)) db) with (placed s i j0 None db).
    rewrite update_placed by done. eexists _, _. split; [done|]. eapply placed_job; try done.
    split; cbn; try done; [unfold active; cbn; by rewrite andb_false_r|pose proof (total_rows_nonneg o' Ho'); lia].
Qed.
Lemma integrity_places table nbytes timeout created s : jobs_ok s →
  ∃ r s', wadb_job_integrity table nbytes timeout created s = Some (r, s') ∧ placement s s'.
Proof.
  intros Hok. unfold wadb_job_integrity. destruct (_ || _); [eauto|].
  destruct (reserve_spec s Hok) as [[e ->]|(i&j&Hj&Hact&Hrun&Hnz&_&->)]; [cbn; eauto|]. cbn [mbind option_bind].
  pose proof (lookup_lt_Some _ _ _ Hj) as Hi. fold (placed s i (starting_job (jm_next_id (sy_jobs s))) None (sy_ingestion s)).
  rewrite update_placed, start_placed by done. eexists _, _. split; [done|]. eapply placed_job; try done; [by destruct created|].
  by apply (new_slot_ok _ (jm_next_id (sy_jobs s))).
Qed.
Lemma find_job_spec l id i k : find_job l id i = Some k → (i ≤ k)%nat ∧ ∃ j, l !! (k - i)%nat = Some j ∧ jb_id j = id.
Proof.
  revert i. induction l as [|j l IH]; intros i; cbn [find_job]; [done|]. destruct (Z.eqb_spec (jb_id j) id) as [E|].
  - intros [= <-]. rewrite Nat.sub_diag. split; [lia|]. by exists j.
  - intros (?&j'&Hj&E)%IH. split; [lia|]. exists j'. split; [|done]. by replace (k - i)%nat with (S (k - S i)) by lia.
Qed.
Lemma step_ok l s s' : jobs_ok s → job_step l s s' → jobs_ok s'.
Proof.
  intros Hok Hstep. destruct Hstep as [o realtime created r s s' Ho Hrun|table nbytes timeout created r s s' Hrun|id s|s|i x s s' Hx Hrun|s db].
  - destruct (generate_places o realtime created s Hok Ho) as (?&?&E&?). simplify_eq. by eapply placement_ok.
  - destruct (integrity_places table nbytes timeout created s Hok) as (?&?&E&?). simplify_eq. by eapply placement_ok.
  - unfold wadb_job_stop. destruct (id =? 0); [done|]. destruct (find_job _ _ _) as [i|] eqn:E; [|done].
    apply find_job_spec in E as (_&j&Hj&_). rewrite Nat.sub_0_r in Hj. cbn. pose proof Hok as [Hl Ht Hs _ _ _ _].
    destruct (lookup_lt_is_Some_2 (sy_threads s) i) as [p Hp]; [rewrite Ht, <-Hl; by eapply lookup_lt_Some|].
    unfold update_job, set_slot. rewrite (list_lookup_total_correct _ _ _ Hj), <-(list_insert_id (sy_threads s) i p Hp).
    eapply update_ok; try done. by destruct (Hs _ _ _ Hj Hp).
  - by destruct Hok.
  - unfold thread_step in Hrun. destruct (jm_slots _ !! i) as [j|] eqn:Hj; [|done]. cbn [mbind option_bind] in Hrun.
    destruct (sy_threads s !! i) as [[p|]|] eqn:Hp; try done. cbn [mjoin option_join mbind option_bind] in Hrun.
    destruct (thread_section _ _ _ _ _) as [[[j' p'] db']|] eqn:Hsec; [|done]. injection Hrun as <-.
    destruct (thread_section_ok _ _ _ _ _ _ _ _ (jo_slots _ Hok _ _ _ Hj Hp) Hsec) as (?&?&?). by eapply update_ok.
  - by destruct Hok.
Qed.
Lemma start_ok db : jobs_ok (job_start db).
Proof.
  assert (Hslot : ∀ i j, jm_slots wadb_jobs_open !! i = Some j → j = no_job).
  { intros i j. unfold wadb_jobs_open, jm_slots, zrep. by intros [-> _]%lookup_replicate. }
  split; cbn [sy_jobs sy_threads job_start]; try done.
  - intros i j p ->%Hslot [-> _]%lookup_replicate. by split.
  - by intros i k j j' ->%Hslot.
  - intros i j ->%Hslot. cbn. lia.
Qed.
Lemma jobs_reachable_ok s : job_reachable s → jobs_ok s.
Proof. induction 1; [apply start_ok|by eapply step_ok]. Qed.

(** C12: Whatever is requested, and however the threads of the jobs and the rest of the
    program interleave: at most two jobs are active, no two slots have the same
    identifier, a job is active exactly while its thread runs, and a generator has
    committed at most the rows it was asked for, which are at most ten million.
    Reserving a slot never waits for a running thread while it holds the mutex, never
    takes the slot of an active job, and evicts the oldest of the others. *)
Theorem jobs_bounded s : job_reachable s →
  let slots := jm_slots (sy_jobs s) in
  running slots ≤ WADB_JOB_CONCURRENCY ∧
  (∀ i k j j', slots !! i = Some j → slots !! k = Some j' → jb_id j = jb_id j' → jb_id j ≠ 0 → i = k) ∧
  (∀ i j p, slots !! i = Some j → sy_threads s !! i = Some p → active j = live p ∧
     (jb_id j ≠ 0 → ji_kind (jb_info j) = WADB_JOB_GENERATOR →
      0 ≤ ji_committed_rows (jb_info j) ≤ total_rows (ji_generator (jb_info j)) ≤ 10000000)) ∧
  reserve s ≠ None ∧
  (∀ i s', reserve s = Some (Ok i, s') → active (slots !!! i) = false ∧
     ∀ j, j ∈ slots → active j = false → jb_id (slots !!! i) ≤ jb_id j).
Proof.
  intros Hok%jobs_reachable_ok slots. split_and!.
  - apply Hok.
  - apply Hok.
  - intros i j p Hj Hp. destruct (jo_slots _ Hok _ _ _ Hj Hp) as [Hl _ _ Ho Hc]. split; [done|].
    intros Hid Hk. specialize (Ho Hid Hk). pose proof (total_rows_nonneg _ Ho). destruct Ho as [_ Ha]. unfold options_allowed in Ha.
    rewrite negb_true_iff in Ha. repeat (apply orb_false_iff in Ha as [Ha ?]). lia.
  - destruct (reserve_spec s Hok) as [[e ->]|(i&j&_&_&_&_&_&->)]; done.
  - intros i s' Hrun. destruct (reserve_spec s Hok) as [[e E]|(i'&j&Hj&Ha&_&_&Hle&E)]; rewrite E in Hrun; simplify_eq.
    rewrite (list_lookup_total_correct _ _ _ Hj). auto.
Qed.

(** A generator of two rows, from its start to its end; the writer commits each of them. *)
Definition jx_database : ingestion :=
  match wadb_open (cstr "/db") wadb_options_default (Some (cstr "/db")) (Os ∅ {[cstr "/"]} [] [] [] []) with
  | (Ok g, _) => Ingestion g [] [] [100; 200] false
  | (Err _, w) => Ingestion (Database (new_db [] wadb_options_default 0) [] [] 0 false w) [] [] [] true
  end.
Definition jx_options : wadb_generator_options := GeneratorOptions (zrep WADB_NAME_CAP 0) 10 200 256 100 1.
Definition jx_take (now : Z) (s : job_system) : job_system :=
  default s (thread_step 0 (Input now 0 true []) s).
Definition jx_write (s : job_system) : job_system := System (sy_jobs s) (sy_threads s) (snd (writer_round (sy_ingestion s))).
Definition jx_generate (o : wadb_generator_options) (s : job_system) : job_system :=
  default s (snd <$> wadb_job_generate o 1000 true s).
Lemma jx_take_reachable now s : 0 ≤ now ≤ UINT64_MAX → job_reachable s → job_reachable (jx_take now s).
Proof.
  intros Hn Hs. unfold jx_take. destruct (thread_step _ _ s) as [s'|] eqn:E; [|done]. eapply jobs_next; [done|].
  by eapply (step_thread 0 (Input now 0 true [])).
Qed.
Lemma jx_generate_reachable o s : options_typed o → job_reachable s → job_reachable (jx_generate o s).
Proof.
  intros Ho Hs. unfold jx_generate. destruct (wadb_job_generate _ _ _ s) as [[r s']|] eqn:E; [|done]. eapply jobs_next; [done|].
  by eapply step_generate.
Qed.
Lemma jx_write_reachable s : job_reachable s → job_reachable (jx_write s).
Proof. intros Hs. eapply jobs_next; [done|]. apply step_database. Qed.
Definition jx_created : job_system := jx_generate jx_options (job_start jx_database).
(** The job as it waits for its first append, and at its end. *)
Definition jx_waiting : job_system := jx_take 100000030 (jx_take 100000030 (jx_take 40 (jx_take 40 (jx_take 30 jx_created)))).
Definition jx_second : job_system :=
  jx_take 200000030 (jx_take 200000030 (jx_take 100000050 (jx_take 100000050 (jx_take 100000050 (jx_write jx_waiting))))).
Definition jx_finished : job_system :=
  jx_take 200000070 (jx_take 200000060 (jx_take 200000060 (jx_take 200000050 (jx_write jx_second)))).
Lemma jx_options_typed : options_typed jx_options.
Proof. vm_compute. repeat split; congruence. Qed.
Lemma jx_created_reachable : job_reachable jx_created.
Proof. apply jx_generate_reachable; [apply jx_options_typed|apply jobs_started]. Qed.
Lemma jx_waiting_reachable : job_reachable jx_waiting.
Proof. unfold jx_waiting. do 5 (apply jx_take_reachable; [vm_compute; split; congruence|]). apply jx_created_reachable. Qed.
Lemma jx_finished_reachable : job_reachable jx_finished.
Proof.
  unfold jx_finished, jx_second. do 4 (apply jx_take_reachable; [vm_compute; split; congruence|]). apply jx_write_reachable.
  do 5 (apply jx_take_reachable; [vm_compute; split; congruence|]). apply jx_write_reachable, jx_waiting_reachable.
Qed.
(** A third job is refused; the finished generator has committed its two rows. *)
Definition jx_two : job_system := jx_generate jx_options jx_waiting.
Lemma jobs_bounded_witness :
  running (jm_slots (sy_jobs jx_two)) = 2 ∧ running (jm_slots (sy_jobs jx_two)) ≤ WADB_JOB_CONCURRENCY ∧
  fst <$> wadb_job_generate jx_options 0 true jx_two = Some (Err WADB_BACKPRESSURE) ∧
  map ji_committed_rows (map jb_info (take 1 (jm_slots (sy_jobs jx_finished)))) = [2] ∧
  running (jm_slots (sy_jobs jx_finished)) ≤ WADB_JOB_CONCURRENCY.
Proof.
  assert (Hr : job_reachable jx_two) by (apply jx_generate_reachable; [apply jx_options_typed|apply jx_waiting_reachable]).
  split_and!; [vm_compute; reflexivity|exact (proj1 (jobs_bounded jx_two Hr))|vm_compute; reflexivity|vm_compute; reflexivity|].
  exact (proj1 (jobs_bounded jx_finished jx_finished_reachable)).
Defined.

(** ** Stopping *)

(** The number of sections that a thread has left once a stop is requested. *)
Definition rank (p : phase) : nat :=
  match p with
  | Exited => 0 | Finish _ _ => 1 | Loop _ | Wait _ _ | Pause _ _ | Checking => 2
  | Setup | Record_ _ _ _ => 3 | Created | Appending _ _ _ => 4 | Woken _ _ => 5
  end.
Lemma rank_section x m j p db j' p' db' : stop_requested m j = true → thread_section x m j p db = Some (j', p', db') →
  (rank p' < rank p)%nat ∧ stop_requested m j' = true.
Proof.
  intros Hs. destruct p as [| |g|g n|g n|g n k|g n r|g d| |st res|]; cbn [thread_section]; rewrite ?Hs; cbn [wait_until].
  - intros [= <- <- <-]. split; [destruct (ji_kind _); cbn; lia|done].
  - intros [= <- <- <-]. split; [destruct (in_alloc x); cbn; lia|done].
  - rewrite andb_false_r. intros [= <- <- <-]. split; [cbn; lia|done].
  - cbn. intros [= <- <- <-]. split; [cbn; lia|done].
  - destruct (_ >? _); [intros [= <- <- <-]; split; [cbn; lia|done]|].
    destruct (fill_batch _ _ _). destruct (append_submit _ _ _ _) as [[] ?]; intros [= <- <- <-]; (split; [cbn; lia|done]).
  - destruct (append_outcome _ _); cbn; [|done]. intros [= <- <- <-]. split; [cbn; lia|done].
  - intros [= <- <- <-]. split; [destruct r as [|[]]; cbn; lia|done].
  - cbn. intros [= <- <- <-]. split; [cbn; lia|done].
  - destruct (iw_step _ _) as [[[? ?]|?] ?]; intros [= <- <- <-]; (split; [cbn; lia|done]).
  - intros [= <- <- <-]. split; [cbn; lia|done].
  - done.
Qed.
(** The slot of a job that was asked to stop, after some step: it was given to a new job,
    or it still has the job, and its thread moved only if the step was its own. *)
Definition same_job (s s' : job_system) (i : nat) (j : job) (p : phase) (l : option nat) (p' : phase) : Prop :=
  ∃ j', jm_slots (sy_jobs s') !! i = Some j' ∧ sy_threads s' !! i = Some (Some p') ∧ jb_id j' = jb_id j ∧
    stop_requested (sy_jobs s') j' = true ∧ if decide (l = Some i) then (rank p' < rank p)%nat else p' = p.
Lemma step_slot l s s' i j p : jobs_ok s → job_step l s s' →
  jm_slots (sy_jobs s) !! i = Some j → sy_threads s !! i = Some (Some p) → stop_requested (sy_jobs s) j = true →
  (∃ j', jm_slots (sy_jobs s') !! i = Some j' ∧ jb_id j' = jm_next_id (sy_jobs s) ∧ jm_next_id (sy_jobs s) ≠ 0 ∧ p = Exited) ∨
  ∃ p', same_job s s' i j p l p'.
Proof.
  intros Hok Hstep Hj Hp Hst.
  assert (Hplace : ∀ s', placement s s' →
    (∃ j', jm_slots (sy_jobs s') !! i = Some j' ∧ jb_id j' = jm_next_id (sy_jobs s) ∧ jm_next_id (sy_jobs s) ≠ 0 ∧ p = Exited) ∨
    ∃ p', same_job s s' i j p None p').
  { intros s1 [|k j0 j' p' db Hk Ha _ Hnz Hid _]; [right; exists p, j; by split_and!|]. pose proof (lookup_lt_Some _ _ _ Hk) as Hlt.
    destruct (decide (k = i)) as [->|Hne].
    - left. exists j'. cbn. rewrite list_lookup_insert_eq by done. split_and!; [done|done|done|]. simplify_eq.
      pose proof (so_live _ _ (jo_slots _ Hok _ _ _ Hj Hp)) as El. rewrite Ha in El. by destruct p.
    - right. exists p, j. cbn. rewrite !list_lookup_insert_ne by done. by split_and!. }
  destruct Hstep as [o realtime created r s s' Ho Hrun|table nbytes timeout created r s s' Hrun|id s|s|k x s s' Hx Hrun|s db].
  - apply Hplace. destruct (generate_places o realtime created s Hok Ho) as (?&?&E&?). by simplify_eq.
  - apply Hplace. destruct (integrity_places table nbytes timeout created s Hok) as (?&?&E&?). by simplify_eq.
  - right. exists p. unfold same_job, wadb_job_stop. destruct (id =? 0); [exists j; by split_and!|].
    destruct (find_job _ _ _) as [k|] eqn:E; [|exists j; by split_and!]. apply find_job_spec in E as (_&j0&Hk&_).
    rewrite Nat.sub_0_r in Hk. pose proof (lookup_lt_Some _ _ _ Hk) as Hlt. cbn. rewrite (list_lookup_total_correct _ _ _ Hk).
    destruct (decide (k = i)) as [->|Hne]; [exists (cancel j0); rewrite list_lookup_insert_eq by done|exists j; by rewrite list_lookup_insert_ne].
    simplify_eq. split_and!; try done. unfold stop_requested. cbn. by rewrite orb_true_r.
  - right. exists p, j. by split_and!.
  - right. unfold thread_step in Hrun. destruct (jm_slots _ !! k) as [j0|] eqn:Hk; [|done]. cbn [mbind option_bind] in Hrun.
    destruct (sy_threads s !! k) as [[p0|]|] eqn:Hp0; try done. cbn [mjoin option_join mbind option_bind] in Hrun.
    destruct (thread_section _ _ _ _ _) as [[[j1 p1] db1]|] eqn:Hsec; [|done]. injection Hrun as <-.
    pose proof (lookup_lt_Some _ _ _ Hk) as Hlt. pose proof (lookup_lt_Some _ _ _ Hp0) as Hlt'. unfold same_job. cbn.
    destruct (decide (k = i)) as [->|Hne].
    + assert (j0 = j) as -> by congruence. assert (p0 = p) as -> by congruence. destruct (rank_section _ _ _ _ _ _ _ _ Hst Hsec). destruct (thread_section_ok _ _ _ _ _ _ _ _ (jo_slots _ Hok _ _ _ Hj Hp) Hsec) as (?&_&_).
      exists p1, j1. rewrite !list_lookup_insert_eq by done. split_and!; try done. by rewrite decide_True.
    + exists p, j. rewrite !list_lookup_insert_ne by done. split_and!; try done. rewrite decide_False by congruence. done.
  - right. exists p, j. by split_and!.
Qed.
(** Runs of the system, counting the sections of the thread of slot [i]. *)
Inductive job_run (i : nat) : nat → job_system → job_system → Prop :=
  | run_none s : job_run i 0 s s
  | run_own n s s' s'' : job_step (Some i) s s' → job_run i n s' s'' → job_run i (S n) s s''
  | run_other n l s s' s'' : l ≠ Some i → job_step l s s' → job_run i n s' s'' → job_run i n s s''.
(** Identifiers are not used again. *)
Definition retired (s : job_system) (i : nat) (id : Z) : Prop :=
  (jm_next_id (sy_jobs s) = 0 ∨ id < jm_next_id (sy_jobs s)) ∧ ∃ j, jm_slots (sy_jobs s) !! i = Some j ∧ jb_id j ≠ id.
Lemma placement_retired s s' i id : is_u64 (jm_next_id (sy_jobs s)) → placement s s' → retired s i id → retired s' i id.
Proof.
  intros Hn [|k j0 j' p' db Hk Ha _ Hnz Hid _] [Hlt (j&Hj&Hne)]; [by split; eauto|]. split; cbn; [unfold u64; mlia|].
  destruct (decide (k = i)) as [->|?].
  - exists j'. rewrite list_lookup_insert_eq by (by eapply lookup_lt_Some). split; [done|]. lia.
  - exists j. by rewrite list_lookup_insert_ne.
Qed.
Lemma step_retired l s s' i id : jobs_ok s → job_step l s s' → retired s i id → retired s' i id.
Proof.
  intros Hok Hstep Hret. pose proof (jo_next _ Hok) as Hn.
  assert (Hupd : ∀ k j0 j1 t db, jm_slots (sy_jobs s) !! k = Some j0 → jb_id j1 = jb_id j0 →
    retired (System (set_slot k j1 (sy_jobs s)) t db) i id).
  { intros k j0 j1 t db Hk E. destruct Hret as [? (j&Hj&Hne)]. split; [done|]. cbn. destruct (decide (k = i)) as [->|?].
    - exists j1. rewrite list_lookup_insert_eq by (by eapply lookup_lt_Some). split; [done|]. rewrite E. congruence.
    - exists j. by rewrite list_lookup_insert_ne. }
  destruct Hstep as [o realtime created r s s' Ho Hrun|table nbytes timeout created r s s' Hrun|id' s|s|k x s s' Hx Hrun|s db]; try done.
  - destruct (generate_places o realtime created s Hok Ho) as (?&?&E&?). simplify_eq. by eapply placement_retired.
  - destruct (integrity_places table nbytes timeout created s Hok) as (?&?&E&?). simplify_eq. by eapply placement_retired.
  - unfold wadb_job_stop. destruct (id' =? 0); [done|]. destruct (find_job _ _ _) as [k|] eqn:E; [|done].
    apply find_job_spec in E as (_&j0&Hk&_). rewrite Nat.sub_0_r in Hk. cbn [snd]. unfold update_job.
    by eapply Hupd; [|rewrite (list_lookup_total_correct _ _ _ Hk)].
  - unfold thread_step in Hrun. destruct (jm_slots _ !! k) as [j0|] eqn:Hk; [|done]. cbn [mbind option_bind] in Hrun.
    destruct (sy_threads s !! k) as [[p0|]|] eqn:Hp0; try done. cbn [mjoin option_join mbind option_bind] in Hrun.
    destruct (thread_section _ _ _ _ _) as [[[j1 p1] db1]|] eqn:Hsec; [|done]. injection Hrun as <-.
    destruct (thread_section_ok _ _ _ _ _ _ _ _ (jo_slots _ Hok _ _ _ Hk Hp0) Hsec) as (E&_&_). by eapply Hupd.
Qed.
Lemma run_retired i n s s' id : job_run i n s s' → jobs_ok s → retired s i id → retired s' i id.
Proof. induction 1; intros Hok Hr; [done|eapply IHjob_run; [by eapply step_ok|by eapply step_retired]..]. Qed.
Lemma run_stopped i n s s' : job_run i n s s' → ∀ j p, jobs_ok s → jm_slots (sy_jobs s) !! i = Some j → jb_id j ≠ 0 →
  sy_threads s !! i = Some (Some p) → stop_requested (sy_jobs s) j = true →
  jobs_ok s' ∧ (retired s' i (jb_id j) ∨ ∃ j' p', jm_slots (sy_jobs s') !! i = Some j' ∧ jb_id j' = jb_id j ∧
    sy_threads s' !! i = Some (Some p') ∧ stop_requested (sy_jobs s') j' = true ∧ (n + rank p' ≤ rank p)%nat).
Proof.
  induction 1 as [s|n s s1 s' Hstep Hrun IH|n l s s1 s' Hl Hstep Hrun IH]; intros j p Hok Hj Hid Hp Hst.
  - split; [done|]. right. exists j, p. by split_and!.
  - pose proof (step_ok _ _ _ Hok Hstep) as Hok1.
    destruct (step_slot _ _ _ _ _ _ Hok Hstep Hj Hp Hst) as [(j'&_&_&_&->)|(p1&j1&Hj1&Hp1&E1&Hs1&Hr1)].
    { exfalso. inversion Hstep as [| | | |k x ? ? _ Hts|]; subst. unfold thread_step in Hts. by rewrite Hj, Hp in Hts. }
    rewrite decide_True in Hr1 by done. destruct (IH j1 p1 Hok1 Hj1 ltac:(by rewrite E1) Hp1 Hs1) as [? Hend]. split; [done|].
    rewrite E1 in Hend. destruct Hend as [?|(j'&p'&?&?&?&?&?)]; [by left|]. right. exists j', p'. split_and!; done || lia.
  - pose proof (step_ok _ _ _ Hok Hstep) as Hok1. pose proof (jo_below _ Hok _ _ Hj) as [_ Hbelow].
    destruct (step_slot _ _ _ _ _ _ Hok Hstep Hj Hp Hst) as [(j'&Hj'&E&Hnz&->)|(p1&j1&Hj1&Hp1&E1&Hs1&Hr1)].
    + assert (Hret : retired s1 i (jb_id j)).
      { split; [|exists j'; split; [done|lia]]. destruct (jo_below _ Hok1 _ _ Hj') as [_ [?|?]]; [by left|right]. lia. }
      split; [|left; by eapply run_retired]. clear -Hok1 Hrun. induction Hrun; [done|apply IHHrun; by eapply step_ok..].
    + rewrite decide_False in Hr1 by done. subst p1. destruct (IH j1 p Hok1 Hj1 ltac:(by rewrite E1) Hp1 Hs1) as [? Hend]. split; [done|].
      rewrite E1 in Hend. done.
Qed.
(** Only the outcome of an append can hold the thread up. *)
Lemma section_enabled x m j p db : stop_requested m j = true → p ≠ Exited →
  (∀ g n k, p = Appending g n k → append_outcome k db ≠ None) → is_Some (thread_section x m j p db).
Proof.
  intros Hs Hne Ha. destruct p as [| |g|g n|g n|g n k|g n r|g d| |st res|]; cbn [thread_section]; rewrite ?Hs; cbn; try done.
  - destruct (_ >? _); [done|]. destruct (fill_batch _ _ _), (append_submit _ _ _ _). done.
  - specialize (Ha _ _ _ eq_refl). by destruct (append_outcome k db).
  - by destruct (iw_step _ _) as [[[? ?]|?] ?].
Qed.

(** C20: Once a running job is told to stop, or the manager is closing, its thread ends
    after at most five more of its sections, whatever the other threads do in between;
    and each of them can be run at once, except that a thread that has submitted an append
    waits for its outcome. *)
Theorem stopped_job_ends i s n s' j p :
  job_reachable s → jm_slots (sy_jobs s) !! i = Some j → jb_id j ≠ 0 → sy_threads s !! i = Some (Some p) →
  stop_requested (sy_jobs s) j = true → job_run i n s s' →
  (∃ j', jm_slots (sy_jobs s') !! i = Some j' ∧ jb_id j' ≠ jb_id j) ∨
  ∃ j' p', jm_slots (sy_jobs s') !! i = Some j' ∧ jb_id j' = jb_id j ∧ sy_threads s' !! i = Some (Some p') ∧
    (n + rank p' ≤ 5)%nat ∧ (active j' = false ↔ p' = Exited) ∧
    (p' ≠ Exited → (∀ g c k, p' = Appending g c k → append_outcome k (sy_ingestion s') ≠ None) →
     ∀ x, is_Some (thread_step i x s')).
Proof.
  intros Hok%jobs_reachable_ok Hj Hid Hp Hst Hrun. destruct (run_stopped _ _ _ _ Hrun j p Hok Hj Hid Hp Hst) as [Hok' [[_ ?]|(j'&p'&Hj'&E&Hp'&Hst'&Hr)]]; [by left|].
  right. exists j', p'. split_and!; [done|done|done| | |].
  - assert (rank p ≤ 5)%nat by (destruct p; cbn; lia). lia.
  - rewrite (so_live _ _ (jo_slots _ Hok' _ _ _ Hj' Hp')). by destruct p'.
  - intros Hne Ha x. unfold thread_step. rewrite Hj', Hp'. cbn [mbind option_bind mjoin option_join].
    by destruct (section_enabled x (sy_jobs s') j' p' (sy_ingestion s') Hst' Hne Ha) as [[[? ?] ?] ->].
Qed.
(** The generator is stopped while it waits for its first append. *)
Definition jx_stopped : job_system := snd (wadb_job_stop 1 jx_waiting).
Definition jx_ended : job_system := jx_take 100000060 (jx_take 100000060 (jx_take 100000060 (jx_take 100000060 (jx_write jx_stopped)))).
Lemma jx_take_step now s s' : 0 ≤ now ≤ UINT64_MAX → thread_step 0 (Input now 0 true []) s = Some s' → job_step (Some 0%nat) s s'.
Proof. intros Hn H. by eapply (step_thread 0 (Input now 0 true [])). Qed.
Lemma jx_take_run n now s s'' : 0 ≤ now ≤ UINT64_MAX → bool_decide (is_Some (thread_step 0 (Input now 0 true []) s)) = true →
  job_run 0 n (jx_take now s) s'' → job_run 0 (S n) s s''.
Proof.
  intros Hn [s' E]%bool_decide_eq_true. unfold jx_take. rewrite E. cbn. apply run_own. by eapply jx_take_step.
Qed.
Lemma jx_run : job_run 0 4 jx_stopped jx_ended.
Proof.
  unfold jx_ended. apply (run_other 0 4 None _ (jx_write jx_stopped)); [done|apply step_database|].
  do 4 (eapply (jx_take_run _ 100000060); [vm_compute; split; congruence|vm_compute; reflexivity|]). apply run_none.
Qed.
Lemma stopped_job_ends_witness :
  ∃ j', jm_slots (sy_jobs jx_ended) !! 0%nat = Some j' ∧ active j' = false ∧ ji_state (jb_info j') = WADB_JOB_STOPPED ∧
    ji_committed_rows (jb_info j') = 1.
Proof.
  destruct (stopped_job_ends 0 jx_stopped 4 jx_ended (jm_slots (sy_jobs jx_stopped) !!! 0%nat)
    (Appending (Generator 1 2 0 4354685564936845355 30 200000030) 1 0)) as [(j'&Hj'&Hne)|(j'&p'&Hj'&_&Hp'&_&Hact&_)].
  - eapply jobs_next; [apply jx_waiting_reachable|apply step_stop].
  - vm_compute. reflexivity.
  - vm_compute. congruence.
  - vm_compute. reflexivity.
  - vm_compute. reflexivity.
  - apply jx_run.
  - exfalso. apply Hne. assert (E : jb_id <$> jm_slots (sy_jobs jx_ended) !! 0%nat = Some 1) by (vm_compute; reflexivity).
    rewrite Hj' in E. injection E as ->. vm_compute. reflexivity.
  - exists j'. split; [exact Hj'|]. assert (Ep : sy_threads jx_ended !! 0%nat = Some (Some Exited)) by (vm_compute; reflexivity).
    rewrite Hp' in Ep. injection Ep as ->. split; [by apply Hact|].
    assert (E : (λ j, (ji_state (jb_info j), ji_committed_rows (jb_info j))) <$> jm_slots (sy_jobs jx_ended) !! 0%nat =
      Some (WADB_JOB_STOPPED, 1)) by (vm_compute; reflexivity).
    rewrite Hj' in E. injection E as -> ->. split; reflexivity.
Defined.

(** ** What the generator appends *)

(** The bounds of the generated fields. *)
Definition value_fits (f : wadb_field) (v : wadb_value) : Prop :=
  match f_type f, v with
  | (WADB_U8 | WADB_U16 | WADB_U32), VU64 u => f_width f < 8 ∧ u < Z.shiftl 1 (f_width f * 8)
  | WADB_BYTES, VBytes b => zlen b = f_width f
  | WADB_SYMBOL32, VBytes b => zlen b ≤ WADB_MAX_STRING_BYTES ∧ wadb_utf8 b = true
  | _, _ => False
  end.
Lemma zlen_put_le n i p o v : zlen (put_le n i p o v) = zlen p.
Proof. revert i p. induction n as [|n IH]; intros i p; cbn [put_le]; [done|]. by rewrite IH, zlen_wr. Qed.
Lemma encode_fits f v i p : value_fits f v → ∃ p', encode_value (Some validate_symbol) f i v p () = (Ok p', ()) ∧ zlen p' = zlen p.
Proof.
  unfold value_fits, encode_value, wadb_encode_field. destruct (f_type f) eqn:Et, v; try done.
  1-3: intros [Hw Hu]; cbn [as_u64]; destruct (Z.geb_spec z (Z.shiftl 1 (f_width f * 8))); [lia|]; rewrite andb_false_r; cbn;
    eexists; split; [done|]; apply zlen_put_le.
  - cbn [as_bytes]. intros ->. rewrite Z.eqb_refl. cbn. eexists. split; [done|apply zlen_put].
  - cbn [as_bytes]. intros [Hl ->]. destruct (Z.gtb_spec (zlen data) WADB_MAX_STRING_BYTES); [lia|]. cbn.
    eexists. split; [done|by rewrite !zlen_wr].
Qed.
Lemma encode_fields_fit fs values i p : Forall2 value_fits fs values →
  ∃ p', encode_fields (Some validate_symbol) fs i values p () = (Ok p', ()) ∧ zlen p' = zlen p.
Proof.
  intros H. revert i p. induction H as [|f v fs values Hf _ IH]; intros i p; cbn [encode_fields hd tl]; [eauto|].
  destruct (encode_fits f v i p Hf) as (p1&E1&L1). destruct (IH (i + 1) p1) as (p2&E2&L2). exists p2.
  unfold mbind, M_bind. rewrite E1, E2. split; [done|lia].
Qed.
Lemma utf8_ascii s : Forall (λ c, 0 ≤ c < 128) s → wadb_utf8 s = true.
Proof.
  unfold wadb_utf8. induction 1 as [|c s Hc _ IH]; [done|]. cbn. destruct (Z.ltb_spec c 128); [done|lia].
Qed.
Lemma print_ascii z : is_u64 z → Forall (λ c, 0 ≤ c < 128) (print_u64 z).
Proof.
  intros Hz. destruct (digits_spec 20 z) as (H&_&_); [done|unfold is_u64 in Hz; unfold_widths; cbn; lia|].
  eapply Forall_impl; [exact H|]. unfold is_digit. intros; cbn in *; lia.
Qed.
Lemma text_fits prefix z : Forall (λ c, 0 ≤ c < 128) prefix → zlen prefix ≤ 100 → is_u64 z →
  zlen (prefix ++ print_u64 z) ≤ WADB_MAX_STRING_BYTES ∧ wadb_utf8 (prefix ++ print_u64 z) = true.
Proof.
  intros Hp Hl Hz. pose proof (zlen_print_u64 z Hz). split.
  - rewrite zlen_app. unfold WADB_MAX_STRING_BYTES. lia.
  - apply utf8_ascii, Forall_app. auto using print_ascii.
Qed.
Lemma random_next_u64 seed : is_u64 (random_next seed).1 ∧ is_u64 (random_next seed).2.
Proof.
  unfold random_next. cbn [fst snd]. split; [|apply u64_range].
  match goal with |- is_u64 (Z.lxor (u64 ?a) _) => pose proof (u64_range a) as H; set (z := u64 a) in * end.
  assert (Hs : 0 ≤ Z.shiftr z 31 < 2 ^ 64).
  { rewrite Z.shiftr_div_pow2 by lia. unfold is_u64, UINT64_MAX in H. change (2 ^ 31) with 2147483648. change (2 ^ 64) with 18446744073709551616. mlia. }
  assert (Hl : 0 ≤ Z.lxor z (Z.shiftr z 31)) by (apply Z.lxor_nonneg; unfold is_u64 in H; lia).
  split; [done|]. destruct (Z.eq_dec (Z.lxor z (Z.shiftr z 31)) 0) as [E|Hne]; [rewrite E; unfold UINT64_MAX; lia|].
  assert (Hz : z < 2 ^ 64) by (unfold is_u64, UINT64_MAX in H; lia).
  assert (Hlog : Z.lxor z (Z.shiftr z 31) < 2 ^ 64).
  { apply Z.log2_lt_pow2; [lia|]. eapply Z.le_lt_trans; [apply Z.log2_lxor; unfold is_u64 in H; lia|]. apply Z.max_lub_lt.
    - destruct (Z.eq_dec z 0) as [->|]; [done|]. apply Z.log2_lt_pow2; unfold is_u64 in H; lia.
    - destruct (Z.eq_dec (Z.shiftr z 31) 0) as [->|]; [done|]. apply Z.log2_lt_pow2; lia. }
  change (2 ^ 64) with 18446744073709551616 in Hlog. unfold UINT64_MAX. lia.
Qed.
Lemma generated_row_fits a b cardinality : is_u64 a → is_u64 b → 0 < cardinality ≤ UINT32_MAX →
  Forall2 value_fits (tl (fields pv_schema)) (generated_row a b cardinality).
Proof.
  intros Ha Hb Hc. cbn [tl fields pv_schema]. unfold generated_row.
  assert (Hm : ∀ x, is_u64 x → is_u64 (x `mod` cardinality)).
  { intros x Hx. pose proof (Z.mod_pos_bound x cardinality). unfold is_u64 in *. unfold_widths. lia. }
  repeat apply Forall2_cons_2; try apply Forall2_nil_2; unfold value_fits; cbn [f_type f_width].
  all: try (apply text_fits; [apply (bool_decide_unpack _); vm_compute; exact I|vm_compute; congruence|by apply Hm]).
  all: try (split; [lia|]; match goal with |- _ < Z.shiftl 1 ?k => let r := eval vm_compute in (Z.shiftl 1 k) in change (Z.shiftl 1 k) with r end; try mlia).
  - reflexivity.
  - destruct (_ =? 0); lia.
  - pose proof (Z.mod_pos_bound b 6 ltac:(lia)) as Hr. generalize dependent (b `mod` 6). intros r Hr.
    assert (r = 0 ∨ r = 1 ∨ r = 2 ∨ r = 3 ∨ r = 4 ∨ r = 5) as [->|[->|[->|[->|[->| ->]]]]] by lia; reflexivity.
Qed.
Lemma encode_batch_fits n seed cardinality : is_u64 seed → 0 < cardinality ≤ UINT32_MAX →
  ∃ rows, encode_batch n pv_schema (fill_batch n seed cardinality).1 = Ok rows ∧ zlen rows = Z.of_nat n * row_width pv_schema.
Proof.
  intros Hs Hc. revert seed Hs. induction n as [|n IH]; intros seed Hs; [by exists []|]. cbn [fill_batch encode_batch].
  destruct (random_next seed) as [a s1] eqn:E1. destruct (random_next s1) as [b s2] eqn:E2.
  pose proof (random_next_u64 seed) as [Ha Hs1]. rewrite E1 in Ha, Hs1. cbn in Ha, Hs1.
  pose proof (random_next_u64 s1) as [Hb Hs2]. rewrite E2 in Hb, Hs2. cbn in Hb, Hs2.
  destruct (IH s2 Hs2) as (rows&Er&Hl). destruct (fill_batch n s2 cardinality) as [values s3] eqn:E3. cbn [fst] in *.
  replace (Z.to_nat (field_count pv_schema - 1)) with (length (generated_row a b cardinality)) by reflexivity.
  rewrite take_app_length, drop_app_length, Er. unfold wadb_encode_row.
  change (zlen (zrep (row_width pv_schema) 0) <? row_width pv_schema) with false. cbv iota.
  match goal with |- context [encode_fields _ _ _ _ ?p ()] => destruct (encode_fields_fit (tl (fields pv_schema)) (generated_row a b cardinality) 1 p) as (p'&Ep&Lp) end.
  { by apply generated_row_fits. }
  rewrite Ep. cbn [fst mbind result_bind]. eexists. split; [done|]. rewrite zlen_app, Hl, Lp. unfold wadb_put_u64.
  rewrite zlen_put_le, zlen_put. change (zlen (zrep (row_width pv_schema) 0)) with (row_width pv_schema). lia.
Qed.

(** C33: Every batch that the generator makes, for any seed and any cardinality that is
    allowed, is accepted by the row encoder for the table that the job creates, and a
    batch of the largest size fits into one frame; so an append of the generator fails
    only for lack of resources. *)
Theorem generated_rows_accepted n seed cardinality s :
  wadb_schema_build generator_fields = Ok s → is_u64 seed → 0 < cardinality ≤ 100000 →
  ∃ rows, encode_batch n s (fill_batch n seed cardinality).1 = Ok rows ∧ zlen rows = Z.of_nat n * row_width s ∧
    (Z.of_nat n ≤ 4096 → zlen rows ≤ WADB_MAX_FRAME_BYTES - 96).
Proof.
  intros Hb Hs Hc. assert (s = pv_schema) as -> by (vm_compute in Hb; by injection Hb as <-).
  destruct (encode_batch_fits n seed cardinality Hs ltac:(unfold UINT32_MAX; lia)) as (rows&E&Hl). exists rows.
  split_and!; [done|done|]. rewrite Hl. change (row_width pv_schema) with 48. unfold WADB_MAX_FRAME_BYTES. lia.
Qed.
Lemma generated_rows_accepted_witness :
  ∃ rows, encode_batch 2 pv_schema (fill_batch 2 1 100).1 = Ok rows ∧ zlen rows = 96 ∧
    take 2 (fill_batch 2 1 100).1 = [VU64 6; VBytes [193; 92; 2; 137; 236; 45; 10; 145; 103; 236; 142; 101; 161; 141; 235; 190]].
Proof.
  destruct (generated_rows_accepted 2 1 100 pv_schema) as (rows&E&Hl&_).
  - vm_compute. reflexivity.
  - vm_compute. split; congruence.
  - lia.
  - exists rows. split_and!; [exact E|exact Hl|vm_compute; reflexivity].
Defined.

(** ** Pacing *)

(** The generator waits for every batch until the rows up to its end are due at the
    requested rate, and never beyond the requested duration: a batch is not appended
    before its time, and every wait ends by the end of the job. *)
Theorem generator_paced i g count :
  options_ok (ji_generator i) → generator_ok i g → count_ok g count →
  0 ≤ ji_started_ns i → ji_started_ns i + go_duration_ms (ji_generator i) * 1000000 ≤ UINT64_MAX →
  let o := ji_generator i in
  due o g count ≤ gn_end g ∧
  (gn_committed g + count) * 1000000000 < (due o g count - gn_start g + 1) * go_rows_per_second o.
Proof.
  intros [(_&Hr&Hd&_) Ha] [Hb Ht Hc _ Hst Hen] [Hn Hle] H0 Hmax o. unfold options_allowed in Ha.
  rewrite negb_true_iff in Ha. repeat (apply orb_false_iff in Ha as [Ha ?]). unfold due. rewrite Hst, Hen. subst o. set (o := ji_generator i) in *.
  unfold total_rows in *. set (rate := go_rows_per_second o) in *. set (ms := go_duration_ms o) in *.
  set (rows := gn_committed g + count) in *. assert (Hrate : 0 < rate) by (unfold is_u32 in Hr; lia).
  assert (Hrows : rows * 1000 ≤ rate * ms) by (subst rows; rewrite Ht in *; mlia).
  assert (Hsmall : rows ≤ 10000000) by lia.
  rewrite (u64_id (rows * _)) by (unfold_widths; lia).
  assert (Hq : rows * 1000000000 / rate ≤ ms * 1000000) by (apply Z.div_le_upper_bound; nia).
  assert (Hq0 : 0 ≤ rows * 1000000000 / rate) by (apply Z.div_pos; lia).
  unfold is_u32 in Hd. rewrite !u64_id by (unfold_widths; lia). split; [lia|].
  replace (ji_started_ns i + rows * 1000000000 / rate - ji_started_ns i) with (rows * 1000000000 / rate) by lia.
  pose proof (Z.mul_succ_div_gt (rows * 1000000000) rate Hrate). lia.
Qed.
Definition jx_info : wadb_job_info :=
  JobInfo 1 1 1 1 0 1 30 0 0 0 WADB_JOB_GENERATOR WADB_JOB_RUNNING jx_options no_stats WADB_OK.
Lemma generator_paced_witness :
  due jx_options (Generator 1 2 1 5 30 200000030) 1 = 200000030 ∧
  due jx_options (Generator 1 2 1 5 30 200000030) 1 ≤ 200000030.
Proof.
  split; [vm_compute; reflexivity|].
  refine (proj1 (generator_paced jx_info (Generator 1 2 1 5 30 200000030) 1 _ _ _ _ _)).
  - split; [apply jx_options_typed|vm_compute; reflexivity].
  - split; cbn; try done; lia.
  - split; cbn; lia.
  - cbn. lia.
  - vm_compute. congruence.
Defined.

(** ** The list of jobs *)

Definition before (a b : wadb_job_info) : Prop := ji_id a ≤ ji_id b.
(** What the inner loop does to a sorted prefix. *)
Fixpoint insert_info (v : wadb_job_info) (l : list wadb_job_info) : list wadb_job_info :=
  match l with
  | [] => [v]
  | w :: l' => if ji_id w >? ji_id v then v :: w :: l' else w :: insert_info v l'
  end.
Lemma insert_info_perm v l : insert_info v l ≡ₚ v :: l.
Proof. induction l as [|w l IH]; cbn; [done|]. destruct (_ >? _); [done|]. rewrite IH. apply perm_swap. Qed.
Lemma insert_info_sorted v l : StronglySorted before l → StronglySorted before (insert_info v l).
Proof.
  induction 1 as [|w l Hl IH Hw]; cbn; [repeat constructor|]. destruct (Z.gtb_spec (ji_id w) (ji_id v)) as [Hgt|Hle].
  - constructor; [by constructor|]. constructor; [unfold before; lia|]. eapply Forall_impl; [exact Hw|]. unfold before. intros; cbn in *; lia.
  - constructor; [done|]. rewrite insert_info_perm. by constructor.
Qed.
Lemma insert_info_last v l w : StronglySorted before (l ++ [w]) →
  insert_info v (l ++ [w]) = if ji_id w >? ji_id v then insert_info v l ++ [w] else l ++ [w; v].
Proof.
  induction l as [|x l IH]; intros Hs; cbn; [by destruct (_ >? _)|]. inversion Hs as [|? ? Hs' Hx]; subst. rewrite IH by done.
  rewrite Forall_app, Forall_singleton in Hx. destruct Hx as [_ Hx]. unfold before in Hx.
  destruct (Z.gtb_spec (ji_id x) (ji_id v)), (Z.gtb_spec (ji_id w) (ji_id v)); try done; lia.
Qed.
Lemma sift_spec v l x r : StronglySorted before l → sift (length l) v (l ++ x :: r) = insert_info v l ++ r.
Proof.
  revert x r. induction l as [|w l IH] using rev_ind; intros x r Hs; [done|]. rewrite length_app. cbn [length].
  rewrite Nat.add_1_r. cbn [sift]. rewrite insert_info_last by done.
  assert (Hw : (((l ++ [w]) ++ x :: r) !!! length l) = w).
  { rewrite <-app_assoc. cbn. rewrite list_lookup_total_middle; done. }
  rewrite Hw. destruct (Z.gtb_spec (ji_id w) (ji_id v)).
  - replace (<[S (length l) := w]> ((l ++ [w]) ++ x :: r)) with (l ++ w :: w :: r).
    + rewrite IH by (by apply StronglySorted_app_1_l in Hs). by rewrite <-app_assoc.
    + rewrite insert_app_r_alt by (rewrite length_app; cbn; lia). rewrite length_app. cbn [length].
      replace (S (length l) - (length l + 1))%nat with 0%nat by lia. cbn. by rewrite <-app_assoc.
  - rewrite insert_app_r_alt by (rewrite length_app; cbn; lia). rewrite length_app. cbn [length].
    replace (S (length l) - (length l + 1))%nat with 0%nat by lia. cbn. by rewrite <-!app_assoc.
Qed.
Lemma sort_jobs_spec r l : StronglySorted before l →
  StronglySorted before (sort_jobs (length r) (length l) (l ++ r)) ∧ sort_jobs (length r) (length l) (l ++ r) ≡ₚ l ++ r.
Proof.
  revert l. induction r as [|x r IH]; intros l Hs; cbn [length sort_jobs]; [by rewrite app_nil_r|].
  rewrite (list_lookup_total_middle l r x (length l)) by done. rewrite sift_spec by done.
  destruct (IH (insert_info x l) (insert_info_sorted x l Hs)) as [Ho Hp].
  assert (El : length (insert_info x l) = S (length l)) by (by rewrite insert_info_perm). rewrite El in Ho, Hp. split; [done|].
  rewrite Hp, insert_info_perm. by rewrite <-Permutation_middle.
Qed.
Lemma copy_info_id now j : ji_id (copy_info now j) = jb_id j.
Proof. unfold copy_info. by destruct (_ && _). Qed.
Lemma find_job_found l i0 i j : l !! i = Some j → (∀ k j', (k < i)%nat → l !! k = Some j' → jb_id j' ≠ jb_id j) →
  find_job l (jb_id j) i0 = Some (i0 + i)%nat.
Proof.
  revert i0 i. induction l as [|x l IH]; intros i0 i Hi Hne; [done|]. cbn [find_job]. destruct i as [|i]; cbn in Hi.
  - simplify_eq. rewrite Z.eqb_refl. f_equal. lia.
  - destruct (Z.eqb_spec (jb_id x) (jb_id j)) as [E|]; [by destruct (Hne 0%nat x ltac:(lia) eq_refl)|].
    rewrite (IH (S i0) i Hi); [f_equal; lia|]. intros k j' Hk Hj'. apply (Hne (S k)); [lia|done].
Qed.
Definition ids_distinct (l : list job) : Prop :=
  ∀ i k j j', l !! i = Some j → l !! k = Some j' → jb_id j = jb_id j' → jb_id j ≠ 0 → i = k.
Lemma ids_nodup l : ids_distinct l → NoDup (map jb_id (filter (λ j, jb_id j ≠ 0) l)).
Proof.
  induction l as [|x l IH]; intros Hd; [constructor|].
  assert (Hl : NoDup (map jb_id (filter (λ j, jb_id j ≠ 0) l))).
  { apply IH. intros i k j j' Hi Hk E Hne. specialize (Hd (S i) (S k) j j' Hi Hk E Hne). lia. }
  rewrite filter_cons. case_decide as Hx; [|done]. cbn [map]. constructor; [|done].
  intros (j&E&[_ Hj]%list_elem_of_filter)%list_elem_of_fmap. apply list_elem_of_lookup_1 in Hj as [k Hk].
  specialize (Hd 0%nat (S k) x j eq_refl Hk E Hx). lia.
Qed.
Lemma sorted_strict l : StronglySorted before l → NoDup (map ji_id l) → StronglySorted (λ a b, ji_id a < ji_id b) l.
Proof.
  induction 1 as [|x l _ IH Hx]; cbn; [constructor|]. intros [Hni Hnd]%NoDup_cons. constructor; [auto|].
  rewrite Forall_forall in *. intros y Hy. specialize (Hx y Hy). unfold before in Hx.
  assert (ji_id x ≠ ji_id y); [|lia]. intros E. apply Hni, list_elem_of_fmap. by exists y.
Qed.

(** The list of jobs has one entry for every slot in use, in strictly increasing order
    of the identifiers, whatever slots they are in; and looking up the identifier of an
    entry gives that entry. *)
Theorem job_list_exact s now :
  job_reachable s →
  ∃ l, wadb_job_list (sy_jobs s) WADB_JOB_HISTORY now = (zlen l, Ok l) ∧
    StronglySorted (λ a b, ji_id a < ji_id b) l ∧
    l ≡ₚ map (copy_info now) (filter (λ j, jb_id j ≠ 0) (jm_slots (sy_jobs s))) ∧
    Forall (λ i, wadb_job_get (sy_jobs s) (ji_id i) now = Ok i) l.
Proof.
  intros Hok%jobs_reachable_ok. unfold wadb_job_list. set (used := filter _ _). set (out := map (copy_info now) used).
  assert (Hlen : zlen used ≤ 32).
  { unfold zlen, used. pose proof (length_filter (λ j, jb_id j ≠ 0) (jm_slots (sy_jobs s))). rewrite (jo_length _ Hok) in *. lia. }
  assert (Hsort : StronglySorted before (sort_jobs (length out - 1) 1 out) ∧ sort_jobs (length out - 1) 1 out ≡ₚ out).
  { destruct out as [|x r]; [split; [constructor|done]|]. cbn [length]. rewrite Nat.sub_succ, Nat.sub_0_r.
    apply (sort_jobs_spec r [x]). repeat constructor. }
  destruct Hsort as [Hs Hp]. exists (sort_jobs (length out - 1) 1 out). unfold WADB_JOB_HISTORY.
  destruct (Z.gtb_spec (zlen used) 32); [lia|]. split_and!.
  - f_equal. unfold zlen. rewrite Hp. unfold out. by rewrite length_map.
  - apply sorted_strict; [done|]. rewrite Hp. unfold out. rewrite map_map, (map_ext _ jb_id) by (intros; apply copy_info_id).
    apply ids_nodup. exact (jo_ids _ Hok).
  - done.
  - rewrite Hp. unfold out. apply Forall_forall. intros i (j&->&[Hne Hj]%list_elem_of_filter)%list_elem_of_fmap.
    rewrite copy_info_id. unfold wadb_job_get. destruct (Z.eqb_spec (jb_id j) 0); [done|].
    apply list_elem_of_lookup_1 in Hj as [k Hk]. rewrite (find_job_found _ 0 k j Hk).
    + cbn. by rewrite (list_lookup_total_correct _ _ _ Hk).
    + intros k' j' Hlt Hk' E. assert (k = k') by (eapply (jo_ids _ Hok); done || by rewrite E). lia.
Qed.
Lemma job_list_exact_witness :
  ∃ l, wadb_job_list (sy_jobs jx_two) WADB_JOB_HISTORY 100000130 = (2, Ok l) ∧ map ji_id l = [1; 2] ∧ map ji_elapsed_ms l = [100; 0].
Proof.
  destruct (job_list_exact jx_two 100000130) as (l&E&_).
  - apply jx_generate_reachable; [apply jx_options_typed|apply jx_waiting_reachable].
  - exists l. rewrite E. assert (Hl : (wadb_job_list (sy_jobs jx_two) WADB_JOB_HISTORY 100000130).2 = Ok l) by (by rewrite E).
    vm_compute in Hl. injection Hl as <-. split_and!; vm_compute; reflexivity.
Defined.
