(* ===== verification/Api.v ===== *)
(** * The HTTP interface to the database (src/server/api.c)

    Requests are parsed into arguments, run on the database and the job manager, and
    answered with a JSON object. A handler returns the members it adds to the reply, or
    the error that [wadb_json.error] is left with, after which the reply has no members.
    Building the reply can fail for lack of memory at any point: [ri_build] is the error
    of the output document at the end, if there was none before. *)

From Stdlib Require Import String Ascii.
From stdpp Require Import base numbers list list_numbers gmap.
From S2P Require Import Prelude Encoding Utf8 Schema Rows Dictionary Files Engine Stats Metadata Retention Snapshot Plan Query Integrity Database Commit Writer Cursors Auth JsonMemory Json Feed Jobs.

(** ** State and inputs *)

Record api := Api {
  ap_system : job_system;
  ap_memory : wadb_json_memory;
}.
(** What the environment decides during a request: the address of the allocation for value
    number [i] of an append, the outcomes of the other allocations and of the creation of a
    thread, the clocks, the free space, and the error texts of jobs. *)
Record api_input := ApiInput {
  ai_address : Z → option Z;
  ai_values : bool;
  ai_allocs : list bool;
  ai_created : bool;
  ai_realtime : Z;
  ai_monotonic : Z;
  ai_disk : option (Z * Z);
  ai_message : Z → list Z;
}.
Definition members : Type := list (list Z * yyjson_val).

Definition in_ingestion {A} (m : M ingestion A) : M api A := λ a,
  let s := ap_system a in
  let '(r, db) := m (sy_ingestion s) in (r, Api (System (sy_jobs s) (sy_threads s) db) (ap_memory a)).
Definition in_database {A} (m : M database A) : M api A := in_ingestion (iw_step m).
Definition in_memory {A} (m : M wadb_json_memory A) : M api A := λ a,
  let '(r, mem) := m (ap_memory a) in (r, Api (ap_system a) mem).
Definition get_api : M api api := λ a, (Ok a, a).
Definition api_database (a : api) : database := iw_database (sy_ingestion (ap_system a)).
(** A call of the job manager: no result while it waits for a thread. *)
Definition in_jobs {A} (m : job_system → option (result A * job_system)) (a : api) : option (result A * api) :=
  '(r, s) ← m (ap_system a); Some (r, Api s (ap_memory a)).
(** The table at a position, which exists. *)
Definition table_at (t : Z) : M api wadb_table := in_database (on_table t get_table).

(** ** Arguments *)

Definition member (root : option yyjson_val) (name : string) : option yyjson_val := obj_get root (cstr name).
Definition uint_option (root : option yyjson_val) (name : string) (value : Z) : result Z :=
  match member root name with None => Ok value | v => wadb_json_u64 v end.
Definition int_option (root : option yyjson_val) (name : string) (value : Z) : result Z :=
  match member root name with None => Ok value | v => wadb_json_i64 v end.
Definition u32_option (root : option yyjson_val) (name : string) (value : Z) : result Z :=
  n ← uint_option root name value;
  if n >? UINT32_MAX then Err WADB_INVALID else Ok n.
Definition string_option (root : option yyjson_val) (key : string) : result (option (list Z)) :=
  match member root key with None => Ok None | v => Some <$> wadb_json_name v end.

(** ** Members of replies *)

Definition member_string (key : string) (s : list Z) : list Z * yyjson_val := (cstr key, JStr s).
Definition member_bool (key : string) (b : bool) : list Z * yyjson_val := (cstr key, JBool b).
Definition member_array (key : string) (l : list yyjson_val) : list Z * yyjson_val := (cstr key, JArr l).
Definition member_object (key : string) (l : members) : list Z * yyjson_val := (cstr key, JObj l).

Definition latency (key : string) (s : wadb_latency_stats) : list Z * yyjson_val :=
  member_object key [member_uint "samples" (ls_samples s); member_uint "p50_us" (ls_p50_us s);
    member_uint "p95_us" (ls_p95_us s); member_uint "p99_us" (ls_p99_us s); member_uint "max_us" (ls_max_us s)].
Definition wadb_api_stats (boot_id : list Z) (feed_cursor : Z) (x : api_input) : M api members :=
  s ← in_database (wadb_get_stats (ai_disk x));
  let q := st_ingest s in
  let n := st_totals s in
  mret ([member_string "boot_id" boot_id; member_uint "feed_cursor" feed_cursor;
    member_uint "uptime_us" (st_uptime_us s); member_uint "table_count" (st_table_count s);
    member_uint "queue_bytes" (q_queue_bytes q); member_uint "queue_limit_bytes" (st_queue_limit_bytes s);
    member_uint "cache_bytes" (st_cache_bytes s); member_uint "cache_hits" (st_cache_hits s);
    member_uint "cache_misses" (st_cache_misses s); member_uint "readers" (st_readers s);
    member_uint "snapshot_bytes" (st_snapshot_bytes s); member_uint "committed_rows" (n_committed_rows n);
    member_uint "committed_bytes" (n_committed_bytes n); member_uint "committed_frames" (n_committed_frames n);
    member_uint "append_requests" (n_append_requests n); member_uint "rejected_appends" (q_rejected_appends q);
    member_uint "failed_appends" (q_failed_appends q); member_uint "clock_adjustments" (q_clock_adjustments q);
    member_uint "queries" (n_queries n); member_uint "failed_queries" (n_failed_queries n);
    member_uint "rows_scanned" (n_rows_scanned n); member_uint "bytes_scanned" (n_bytes_scanned n);
    member_uint "disk_free_bytes" (default 0 (st_disk_free s)); member_uint "latest_notification" (st_latest_notification s);
    member_bool "disk_free_available" (bool_decide (is_Some (st_disk_free s))); member_bool "read_only" (st_read_only s);
    latency "append_latency" (st_append_latency s); latency "sync_latency" (st_sync_latency s);
    latency "query_latency" (st_query_latency s)]).

Definition field_members (f : wadb_field) : yyjson_val :=
  JObj [member_string "name" (f_name f); member_string "type" (cstr (wadb_type_name (f_type f)));
    member_uint "size" (f_size f); member_uint "offset" (f_offset f); member_uint "width" (f_width f);
    member_bool "nullable" (f_nullable f)].
Definition status_text (s : wadb_status) : list Z := cstr (wadb_status_name (status_code s)).
Definition table_info (t : Z) (with_fields : bool) : M api members :=
  s ← in_database (on_table t wadb_get_table_stats);
  tb ← table_at t;
  mret ([member_string "name" (t_name (identity tb)); member_uint "id" (ts_id s); member_uint "retention_us" (ts_retention_us s);
    member_uint "rows" (ts_rows s); member_uint "bytes" (ts_bytes s); member_uint "segments" (ts_segments s);
    member_uint "retired_segments" (ts_retired_segments s); member_uint "last_sequence" (ts_last_sequence s);
    member_uint "dictionary_bytes" (ts_dictionary_bytes s); member_uint "active_index_bytes" (ts_active_index_bytes s);
    member_uint "row_width" (ts_row_width s); member_int "min_time" (ts_min_time s); member_int "max_time" (ts_max_time s);
    member_int "last_assigned_time" (ts_last_assigned_time s); member_bool "read_only" (ts_read_only s);
    member_bool "pending_retention" (ts_pending_retention s);
    member_string "maintenance_status" (status_text (ts_maintenance_status s));
    member_uint "field_count" (field_count (schema tb)); member_uint "schema_hash" (fingerprint (schema tb))] ++
    (if with_fields then [member_array "fields" (map field_members (fields (schema tb)))] else [])).

(** ** Creating tables *)

Definition type_text (name : list Z) : string := string_of_list_ascii (map (λ c, ascii_of_N (Z.to_N c)) name).
Definition parse_field (f : yyjson_val) : result wadb_field_def :=
  _ ← wadb_json_allowed (Some f) "name|type|size|nullable";
  name ← wadb_json_name (member (Some f) "name");
  type ← wadb_json_name (member (Some f) "type");
  let type := wadb_type_parse (type_text type) in
  if type_tag type =? 0 then Err WADB_INVALID
  else
    size ← u32_option (Some f) "size" 0;
    nullable ← wadb_json_bool (Some f) "nullable" false;
    Ok (FieldDef name type size nullable).
Fixpoint parse_fields (l : list yyjson_val) : result (list wadb_field_def) :=
  match l with
  | [] => Ok []
  | f :: l' =>
      d ← parse_field f;
      defs ← parse_fields l';
      Ok (d :: defs)
  end.
Definition parse_table (root : option yyjson_val) : result (list Z * list wadb_field_def * Z) :=
  _ ← wadb_json_allowed root "name|fields|retention_us";
  name ← wadb_json_name (member root "name");
  let array := member root "fields" in
  if negb (is_arr array) || (zlen (arr_items array) >=? WADB_MAX_FIELDS) then Err WADB_INVALID
  else
    defs ← parse_fields (arr_items array);
    retention ← uint_option root "retention_us" 0;
    Ok (name, defs, retention).
Definition create_table (root : option yyjson_val) : M api members :=
  '(name, defs, retention) ← mlift (parse_table root);
  t ← in_database (wadb_create_table name defs retention);
  table_info t true.

(** ** Appending *)

(** [wadb_append_batch] to its return, in the schedule where the writer completes the queue
    while the caller waits. *)
Definition wadb_append_batch (table : Z) (values : list wadb_value) (count : Z) : M ingestion wadb_append_receipt :=
  s ← iw_get;
  let ticket := append_ticket s in
  _ ← append_submit table values count;
  s ← iw_get;
  _ ← writer_rounds (length (iw_queue s));
  s ← iw_get;
  match append_outcome ticket s with
  | Some r => mlift r
  | None => mfail WADB_INDETERMINATE
  end.
(** The fields of a row from column [column] on; [index] is the position of the value. *)
Fixpoint row_values (x : api_input) (fs : list wadb_field) (item : wadb_field → Z → option yyjson_val) (column index : Z)
    : M api (list wadb_value) :=
  match fs with
  | [] => mret []
  | f :: fs' =>
      v ← in_memory (wadb_json_value f (item f column) (ai_address x index));
      rest ← row_values x fs' item (column + 1) (index + 1);
      mret (v :: rest)
  end.
Definition keys_known (s : wadb_schema) (v : option yyjson_val) : bool :=
  forallb (λ m, 0 <? wadb_schema_find s m.1) (obj_members v).
Definition parse_row (x : api_input) (s : wadb_schema) (v : yyjson_val) (index : Z) : M api (list wadb_value) :=
  let fs := tl (fields s) in
  let object := is_obj (Some v) in
  if negb object && (negb (is_arr (Some v)) || negb (zlen (arr_items (Some v)) =? zlen fs)) then mfail WADB_INVALID
  else if object && negb (keys_known s (Some v)) then mfail WADB_INVALID
  else
    row_values x fs (λ f column, if object then obj_get (Some v) (f_name f) else znth (arr_items (Some v)) column) 0 index.
Fixpoint parse_rows (x : api_input) (s : wadb_schema) (l : list yyjson_val) (index : Z) : M api (list wadb_value) :=
  match l with
  | [] => mret []
  | v :: l' =>
      row ← parse_row x s v index;
      rest ← parse_rows x s l' (index + (field_count s - 1));
      mret (row ++ rest)
  end.
Definition append_rows (x : api_input) (t : Z) (root : option yyjson_val) : M api members :=
  _ ← mlift (wadb_json_allowed root "rows");
  let array := member root "rows" in
  let rows := zlen (arr_items array) in
  tb ← table_at t;
  let s := schema tb in
  if negb (is_arr array) || (rows =? 0) || (rows >? (WADB_MAX_FRAME_BYTES - 96) / row_width s) then mfail WADB_LIMIT
  else if rows * (field_count s - 1) >? WADB_HTTP_JSON_LIMIT / SIZEOF_VALUE then mfail WADB_LIMIT
  else if negb (ai_values x) then mfail WADB_NOMEM
  else
    values ← parse_rows x s (arr_items array) 0;
    rc ← in_ingestion (wadb_append_batch t values rows);
    mret [member_uint "first_sequence" (rc_first_sequence rc); member_uint "last_sequence" (rc_last_sequence rc);
          member_int "ingestion_time" (rc_ingestion_time rc); member_uint "row_count" (rc_row_count rc)].

(** ** Results *)

Definition column_members (c : wadb_result_column) : yyjson_val :=
  JObj [member_string "name" (rc_name c); member_string "type" (cstr (wadb_type_name (rc_type c)))].
(** A type outside of the enumeration has no JSON, and adding it fails. *)
Fixpoint row_members (columns : list wadb_result_column) (row : list wadb_value) : result (list yyjson_val) :=
  match columns, row with
  | c :: columns', v :: row' =>
      match wadb_json_encode_value (rc_type c) v with
      | None => Err WADB_NOMEM
      | Some j => rest ← row_members columns' row'; Ok (j :: rest)
      end
  | _, _ => Ok []
  end.
Fixpoint rows_members (columns : list wadb_result_column) (rows : list (list wadb_value)) : result (list yyjson_val) :=
  match rows with
  | [] => Ok []
  | row :: rows' =>
      j ← row_members columns row;
      rest ← rows_members columns rows';
      Ok (JArr j :: rest)
  end.
Definition scan_members (s : wadb_scan_stats) : members :=
  [member_uint "rows_scanned" (ss_rows_scanned s); member_uint "rows_returned" (ss_rows_returned s);
   member_uint "bytes_scanned" (ss_bytes_scanned s); member_uint "snapshot_sequence" (ss_snapshot_sequence s);
   member_uint "index_bytes" (ss_index_bytes s); member_uint "dictionary_bytes" (ss_dictionary_bytes s);
   member_uint "frames_scanned" (ss_frames_scanned s); member_uint "segments_scanned" (ss_segments_scanned s);
   member_uint "rebuild_bytes" (ss_rebuild_bytes s); member_uint "last_sequence" (ss_last_sequence s);
   member_bool "limit_reached" (ss_limit_reached s)].
Definition wadb_api_result (r : wadb_result) : result members :=
  rows ← rows_members (re_columns r) (re_rows r);
  Ok ([member_array "columns" (map column_members (re_columns r)); member_array "rows" rows] ++
    match re_sequences r with [] => [] | l => [member_array "sequences" (map (λ z, JStr (print_u64 z)) l)] end ++
    [member_uint "matched_rows" (re_matched_rows r); member_uint "total_groups" (re_total_groups r);
     member_bool "has_more" (re_has_more r); member_object "stats" (scan_members (re_stats r))]).

(** ** Queries *)

Fixpoint parse_names (l : list yyjson_val) : result (list (list Z)) :=
  match l with
  | [] => Ok []
  | v :: l' =>
      name ← wadb_json_name (Some v);
      rest ← parse_names l';
      Ok (name :: rest)
  end.
Definition names (root : option yyjson_val) (key : string) (capacity : Z) : result (list (list Z)) :=
  match member root key with
  | None => Ok []
  | a => if negb (is_arr a) || (zlen (arr_items a) >? capacity) then Err WADB_INVALID else parse_names (arr_items a)
  end.
(** The last of the names that is equal. *)
Definition operator {A} (table : list (string * A)) (op : list Z) : option A :=
  snd <$> last (filter (λ e, bytes_eqb (cstr e.1) op = true) table).
Definition filter_ops : list (string * wadb_filter_op) :=
  [("eq", WADB_EQ); ("ne", WADB_NE); ("lt", WADB_LT); ("le", WADB_LE); ("gt", WADB_GT); ("ge", WADB_GE);
   ("is_null", WADB_IS_NULL); ("is_not_null", WADB_IS_NOT_NULL)]%string.
Definition aggregate_ops : list (string * wadb_aggregate_op) :=
  [("count_all", WADB_COUNT_ALL); ("count", WADB_COUNT); ("sum", WADB_SUM); ("min", WADB_MIN); ("max", WADB_MAX);
   ("avg", WADB_AVG)]%string.
Definition compares (op : wadb_filter_op) : bool := match op with WADB_IS_NULL | WADB_IS_NOT_NULL => false | _ => true end.
Definition parse_filter (x : api_input) (s : wadb_schema) (index : Z) (f : yyjson_val) : M api wadb_filter :=
  _ ← mlift (wadb_json_allowed (Some f) "field|op|value");
  field ← mlift (wadb_json_name (member (Some f) "field"));
  op ← mlift (wadb_json_name (member (Some f) "op"));
  match znth (fields s) (wadb_schema_find s field), operator filter_ops op with
  | Some fd, Some op =>
      value ← (if compares op then in_memory (wadb_json_value fd (member (Some f) "value") (ai_address x index)) else mret (VU64 0));
      mret (Filter field op value)
  | _, _ => mfail WADB_INVALID
  end.
Fixpoint parse_filters (x : api_input) (s : wadb_schema) (index : Z) (l : list yyjson_val) : M api (list wadb_filter) :=
  match l with
  | [] => mret []
  | f :: l' =>
      fl ← parse_filter x s index f;
      rest ← parse_filters x s (index + 1) l';
      mret (fl :: rest)
  end.
Definition parse_aggregate (a : yyjson_val) : result wadb_aggregate :=
  _ ← wadb_json_allowed (Some a) "op|field|name";
  op ← wadb_json_name (member (Some a) "op");
  match operator aggregate_ops op with
  | None => Err WADB_INVALID
  | Some op =>
      field ← string_option (Some a) "field";
      name ← wadb_json_name (member (Some a) "name");
      Ok (Aggregate op field name)
  end.
Fixpoint parse_aggregates (l : list yyjson_val) : result (list wadb_aggregate) :=
  match l with
  | [] => Ok []
  | a :: l' =>
      ag ← parse_aggregate a;
      rest ← parse_aggregates l';
      Ok (ag :: rest)
  end.
(** A missing array is empty. *)
Definition bounded_array (root : option yyjson_val) (key : string) (capacity : Z) : result (list yyjson_val) :=
  match member root key with
  | None => Ok []
  | a => if negb (is_arr a) || (zlen (arr_items a) >? capacity) then Err WADB_INVALID else Ok (arr_items a)
  end.
Definition QUERY_FIELDS : string :=
  "start_us|end_us|after_sequence|limit|max_scan_bytes|timeout_ms|projection|filters|group_by|aggregates|bucket_width_us|bucket_origin_us|max_groups|max_buckets|memory_limit_bytes|order_by|descending|cursor|ttl_ms".
(** The scalar arguments of a query, the use of a cursor and its time to live. *)
Definition parse_scalars (root : option yyjson_val) (tail : bool) : result (wadb_query_options * bool * Z) :=
  let q := wadb_query_options_default in
  let scan := qo_scan q in
  start_time ← int_option root "start_us" (so_start_time scan);
  end_time ← int_option root "end_us" (so_end_time scan);
  after ← uint_option root "after_sequence" (so_after_sequence scan);
  max_scan_bytes ← uint_option root "max_scan_bytes" (so_max_scan_bytes scan);
  limit ← u32_option root "limit" (if tail then 50 else 1000);
  timeout_ms ← u32_option root "timeout_ms" (so_timeout_ms scan);
  width ← int_option root "bucket_width_us" (qo_bucket_width_us q);
  origin ← int_option root "bucket_origin_us" (qo_bucket_origin_us q);
  max_groups ← u32_option root "max_groups" (qo_max_groups q);
  max_buckets ← u32_option root "max_buckets" (qo_max_buckets q);
  memory ← uint_option root "memory_limit_bytes" (qo_memory_limit_bytes q);
  descending ← wadb_json_bool root "descending" (qo_descending q);
  cursor ← wadb_json_bool root "cursor" false;
  ttl ← u32_option root "ttl_ms" 60000;
  if (memory >? 64 * 1024 * 1024) || (max_scan_bytes >? 1024 * 1024 * 1024) || (timeout_ms >? 30000) || (limit >? 10000)
  then Err WADB_LIMIT
  else Ok (QueryOptions (ScanOptions start_time end_time after max_scan_bytes limit timeout_ms) [] [] [] [] width origin
             max_groups max_buckets memory None descending, cursor, ttl).
(** Where a tail without a position begins: [limit] rows before the end. *)
Definition tail_after (last limit : Z) : Z := if last >? limit then last - limit else 0.
Definition with_after (after : Z) (s : wadb_scan_options) : wadb_scan_options :=
  ScanOptions (so_start_time s) (so_end_time s) after (so_max_scan_bytes s) (so_limit s) (so_timeout_ms s).
(** The aggregate array is looked at even after a filter failed. *)
Definition parse_query (x : api_input) (t : Z) (root : option yyjson_val) (tail : bool) : M api (wadb_query_options * bool * Z) :=
  _ ← mlift (wadb_json_allowed root (if tail then "after_sequence|limit" else QUERY_FIELDS));
  '(q, cursor, ttl) ← mlift (parse_scalars root tail);
  order_by ← mlift (string_option root "order_by");
  projection ← mlift (names root "projection" WADB_MAX_FIELDS);
  groups ← mlift (names root "group_by" WADB_MAX_GROUP_FIELDS);
  filter_items ← mlift (bounded_array root "filters" WADB_MAX_FILTERS);
  tb ← table_at t;
  filters ← mtry (parse_filters x (schema tb) 0 filter_items);
  aggregate_items ← mlift (bounded_array root "aggregates" WADB_MAX_AGGREGATES);
  filters ← mlift filters;
  aggregates ← mlift (parse_aggregates aggregate_items);
  let scan := qo_scan q in
  let after :=
    match member root "after_sequence" with
    | None => if tail then tail_after (last_sequence tb) (so_limit scan) else so_after_sequence scan
    | Some _ => so_after_sequence scan
    end in
  mret (QueryOptions (with_after after scan) projection filters groups aggregates (qo_bucket_width_us q) (qo_bucket_origin_us q)
          (qo_max_groups q) (qo_max_buckets q) (qo_memory_limit_bytes q) order_by (qo_descending q), cursor, ttl).
(** The cursor that the request used, 0 for none, and the members of the reply. *)
Definition run_query (x : api_input) (t : Z) (root : option yyjson_val) (tail : bool) : M api (Z * result members) :=
  parsed ← mtry (parse_query x t root tail);
  match parsed with
  | Err e => mret (0, Err e)
  | Ok (q, cursor, ttl) =>
      if cursor : bool then
        opened ← mtry (in_database (wadb_cursor_open t q ttl));
        match opened with
        | Err e => mret (0, Err e)
        | Ok id =>
            page ← mtry (in_database (wadb_cursor_next id (ai_allocs x)));
            mret (id, r ← page;
                      l ← wadb_api_result r;
                      Ok (l ++ if re_has_more r then [member_uint "cursor_id" id] else []))
        end
      else
        r ← mtry (in_database (wadb_query t q (ai_allocs x)));
        mret (0, r ← r; wadb_api_result r)
  end.

(** ** Segments and retention *)

Definition segment_members (s : wadb_segment_meta) : yyjson_val :=
  JObj [member_uint "id" (sg_id s); member_int "day_start" (sg_day_start s); member_uint "first_sequence" (sg_first_sequence s);
    member_uint "last_sequence" (sg_last_sequence s); member_int "min_time" (sg_min_time s); member_int "max_time" (sg_max_time s);
    member_uint "bytes" (sg_committed_bytes s);
    member_string "state" (cstr (match sg_state s with WADB_SEG_ACTIVE => "active" | WADB_SEG_SEALED => "sealed" | WADB_SEG_RETIRED => "retired" end))].
Definition segments (t : Z) (root : option yyjson_val) : M api members :=
  _ ← mlift (wadb_json_allowed root "after_id|limit");
  after ← mlift (uint_option root "after_id" 0);
  limit ← mlift (u32_option root "limit" 100);
  if (limit =? 0) || (limit >? 1024) then mfail WADB_INVALID
  else
    tb ← table_at t;
    '(l, more) ← mlift (wadb_list_segments tb after limit);
    mret [member_array "segments" (map segment_members l); member_bool "has_more" more].
(** The statistics of [wadb_retention_apply] are used only on success. *)
Definition retention (x : api_input) (t : Z) (root : option yyjson_val) (preview_only : bool) : M api members :=
  _ ← mlift (wadb_json_allowed root (if preview_only then "now_us" else "now_us|retention_us|apply"));
  now ← mlift (int_option root "now_us" (ai_realtime x));
  apply_now ← mlift (wadb_json_bool root "apply" false);
  _ ← (match member root "retention_us" with
       | None => mret ()
       | v => us ← mlift (wadb_json_u64 v); in_database (on_table t (wadb_set_retention us))
       end);
  s ← (if apply_now && negb preview_only then
         '(s, applied) ← in_database (wadb_retention_apply t now);
         _ ← mlift applied;
         mret s
       else in_database (on_table t (wadb_retention_preview now)));
  mret [member_int "cutoff" (rs_cutoff s); member_uint "eligible_segments" (rs_eligible_segments s);
    member_uint "eligible_rows" (rs_eligible_rows s); member_uint "eligible_bytes" (rs_eligible_bytes s);
    member_uint "partially_expired_segments" (rs_partially_expired s); member_uint "pending_segments" (rs_pending_segments s);
    member_uint "deleted_segments" (rs_deleted_segments s); member_bool "applied" (apply_now && negb preview_only)].

(** ** Jobs *)

Definition state_text (s : wadb_job_state) : string :=
  match s with
  | WADB_JOB_STARTING => "starting" | WADB_JOB_RUNNING => "running" | WADB_JOB_COMPLETE => "complete"
  | WADB_JOB_STOPPED => "stopped" | WADB_JOB_FAILED => "failed"
  end.
(** [error_message] is the text that was recorded with the error. *)
Definition job_info (error_message : list Z) (s : wadb_job_info) : members :=
  [member_uint "id" (ji_id s); member_uint "table_id" (ji_table_id s);
   member_string "kind" (cstr (match ji_kind s with WADB_JOB_GENERATOR => "generator" | WADB_JOB_INTEGRITY => "integrity" end));
   member_string "state" (cstr (state_text (ji_state s))); member_uint "committed_rows" (ji_committed_rows s);
   member_uint "attempted_rows" (ji_attempted_rows s); member_uint "rejected_batches" (ji_rejected_batches s);
   member_uint "last_sequence" (ji_last_sequence s); member_uint "elapsed_ms" (ji_elapsed_ms s); member_uint "cpu_ns" (ji_cpu_ns s)] ++
  (match ji_kind s with
   | WADB_JOB_GENERATOR =>
       let o := ji_generator s in
       [member_string "table_name" (c_string (go_table_name o)); member_uint "rows_per_second" (go_rows_per_second o);
        member_uint "duration_ms" (go_duration_ms o); member_uint "batch_rows" (go_batch_rows o);
        member_uint "cardinality" (go_cardinality o); member_uint "seed" (go_seed o)]
   | WADB_JOB_INTEGRITY =>
       let r := ji_integrity s in
       [member_object "integrity" [member_uint "rows" (is_rows r); member_uint "frames" (is_frames r);
          member_uint "segments" (is_segments r); member_uint "bytes" (is_bytes r);
          member_uint "snapshot_sequence" (is_snapshot_sequence r)]]
   end) ++
  (if bool_decide (ji_error s = WADB_OK) then []
   else [member_object "error" [member_string "code" (status_text (ji_error s)); member_string "message" error_message]]).
Definition parse_generator (root : option yyjson_val) : result wadb_generator_options :=
  _ ← wadb_json_allowed root "table_name|rows_per_second|duration_ms|batch_rows|cardinality|seed";
  name ← string_option root "table_name";
  rows_per_second ← u32_option root "rows_per_second" 1000;
  duration_ms ← u32_option root "duration_ms" 10000;
  batch_rows ← u32_option root "batch_rows" 256;
  cardinality ← u32_option root "cardinality" 100;
  seed ← uint_option root "seed" 1;
  Ok (GeneratorOptions (name_array (default [] name)) rows_per_second duration_ms batch_rows cardinality seed).
(** A call of the job manager in the place of a handler; one that would wait for a running
    thread, which [jobs_bounded] excludes, is an error. *)
Definition call_jobs {A} (m : job_system → option (result A * job_system)) : M api A := λ a,
  match in_jobs m a with Some (r, a') => (r, a') | None => (Err WADB_INDETERMINATE, a) end.
Definition start_generator (x : api_input) (root : option yyjson_val) : M api members :=
  o ← mlift (parse_generator root);
  id ← call_jobs (wadb_job_generate o (ai_realtime x) (ai_created x));
  mret [member_uint "job_id" id].
Definition start_check (x : api_input) (t : Z) (root : option yyjson_val) : M api members :=
  _ ← mlift (wadb_json_allowed root "max_scan_bytes|timeout_ms");
  nbytes ← mlift (uint_option root "max_scan_bytes" (1024 * 1024 * 1024));
  timeout ← mlift (u32_option root "timeout_ms" 60000);
  id ← call_jobs (wadb_job_integrity t nbytes timeout (ai_created x));
  mret [member_uint "job_id" id].
Definition list_jobs (x : api_input) : M api members :=
  a ← get_api;
  l ← mlift (wadb_job_list (sy_jobs (ap_system a)) WADB_JOB_HISTORY (ai_monotonic x)).2;
  mret [member_array "jobs" (map (λ i, JObj (job_info (ai_message x (ji_id i)) i)) l)].
Definition show_job (x : api_input) (id : Z) : M api members :=
  a ← get_api;
  i ← mlift (wadb_job_get (sy_jobs (ap_system a)) id (ai_monotonic x));
  mret (job_info (ai_message x id) i).
Definition stop_job (id : Z) : M api unit := call_jobs (λ s, Some (wadb_job_stop id s)).

(** ** Routing *)

(** The text before the first slash, and the rest from it on. *)
Fixpoint split_slash (p : list Z) : list Z * list Z :=
  match p with
  | [] => ([], [])
  | c :: p' => if c =? SLASH then ([], p) else let '(a, b) := split_slash p' in (c :: a, b)
  end.
Definition route_id (path : list Z) (prefix : string) : option (Z * list Z) :=
  let n := length (cstr prefix) in
  if negb (bytes_eqb (take n path) (cstr prefix)) then None
  else
    let '(p, suffix) := split_slash (drop n path) in
    match wadb_decimal_u64 p with
    | Some id => if id =? 0 then None else Some (id, suffix)
    | None => None
    end.
Definition text_is (s : list Z) (text : string) : bool := bytes_eqb s (cstr text).
Definition wadb_api_reply_limit (method path : list Z) : Z :=
  match route_id path "/api/v1/tables/" with
  | Some (_, suffix) => if text_is method "POST" && text_is suffix "/append" then WADB_HTTP_APPEND_REPLY_LIMIT else WADB_HTTP_REPLY_LIMIT
  | None => WADB_HTTP_REPLY_LIMIT
  end.

(** ** Dispatch *)

(** What a handler leaves: the status for success, the cursor it used, and the members. *)
Record outcome := Outcome {
  oc_status : Z;
  oc_cursor : Z;
  oc_members : result members;
}.
Definition handled (status : Z) (m : M api members) : M api outcome :=
  r ← mtry m;
  mret (Outcome status 0 r).
Definition allowed (root : option yyjson_val) (fields : string) (m : M api members) : M api members :=
  _ ← mlift (wadb_json_allowed root fields);
  m.
Definition not_found : M api outcome := mret (Outcome 200 0 (Err WADB_NOT_FOUND)).
Fixpoint tables_info (l : list Z) : M api (list yyjson_val) :=
  match l with
  | [] => mret []
  | t :: l' =>
      i ← table_info t false;
      rest ← tables_info l';
      mret (JObj i :: rest)
  end.
Definition list_tables : M api members :=
  a ← get_api;
  l ← mlift (wadb_list_tables (api_database a) (Some 1024)).2;
  infos ← tables_info l;
  mret [member_array "tables" infos].
Definition health (x : api_input) : M api members :=
  s ← in_database (wadb_get_stats (ai_disk x));
  mret [member_string "status" (cstr (if st_read_only s then "read_only" else "ready"))].
Definition query_outcome (m : M api (Z * result members)) : M api outcome :=
  '(id, r) ← m;
  mret (Outcome 200 id r).
Definition table_request (x : api_input) (get post : bool) (id : Z) (suffix : list Z) (root : option yyjson_val) : M api outcome :=
  a ← get_api;
  match wadb_get_table (api_database a) id with
  | Err e => mret (Outcome 200 0 (Err e))
  | Ok t =>
      if text_is suffix "" && get then handled 200 (allowed root "" (table_info t true))
      else if text_is suffix "/append" && post then handled 201 (append_rows x t root)
      else if text_is suffix "/query" && post then query_outcome (run_query x t root false)
      else if text_is suffix "/tail" && get then query_outcome (run_query x t root true)
      else if text_is suffix "/segments" && get then handled 200 (segments t root)
      else if text_is suffix "/retention-preview" && post then handled 200 (retention x t root true)
      else if text_is suffix "/retention" && post then handled 200 (retention x t root false)
      else if text_is suffix "/integrity-check" && post then handled 202 (start_check x t root)
      else not_found
  end.
Definition cursor_page (x : api_input) (id : Z) : M api outcome :=
  page ← mtry (in_database (wadb_cursor_next id (ai_allocs x)));
  match page with
  | Err e => mret (Outcome 200 0 (Err e))
  | Ok r =>
      mret (Outcome 200 id (l ← wadb_api_result r; Ok (l ++ if re_has_more r then [member_uint "cursor_id" id] else [])))
  end.
Definition cursor_request (x : api_input) (boot_id : list Z) (id : Z) (suffix : list Z) (root : option yyjson_val) : M api outcome :=
  match wadb_json_allowed root "boot_id" with
  | Err e => mret (Outcome 200 0 (Err e))
  | Ok _ =>
      if negb (bool_decide (get_str (member root "boot_id") = Some boot_id)) then mret (Outcome 200 0 (Err WADB_EXPIRED))
      else if text_is suffix "/close" then handled 200 (_ ← in_database (wadb_cursor_close id); mret [member_bool "closed" true])
      else if text_is suffix "/next" then cursor_page x id
      else not_found
  end.
Definition job_request (x : api_input) (get post : bool) (id : Z) (suffix : list Z) (root : option yyjson_val) : M api outcome :=
  handled 200 (allowed root ""
    (_ ← (if text_is suffix "/stop" && post then stop_job id
          else if negb (text_is suffix "") || negb get then mfail WADB_NOT_FOUND else mret ());
     show_job x id)).
Definition handle (x : api_input) (boot_id : list Z) (feed_cursor : Z) (method path : list Z) (root : option yyjson_val)
    : M api outcome :=
  let get := text_is method "GET" in
  let post := text_is method "POST" in
  if negb get && negb post then mret (Outcome 405 0 (Err WADB_INVALID))
  else if text_is path "/api/v1/health" && get then handled 200 (allowed root "" (health x))
  else if text_is path "/api/v1/stats" && get then handled 200 (allowed root "" (wadb_api_stats boot_id feed_cursor x))
  else if text_is path "/api/v1/tables" then
    if post then handled 201 (create_table root) else handled 200 (allowed root "" list_tables)
  else
    match route_id path "/api/v1/tables/" with
    | Some (id, suffix) => table_request x get post id suffix root
    | None =>
        match (if post then route_id path "/api/v1/cursors/" else None) with
        | Some (id, suffix) => cursor_request x boot_id id suffix root
        | None =>
            if text_is path "/api/v1/test-jobs" || text_is path "/api/v1/jobs" then
              if post && text_is path "/api/v1/test-jobs" then handled 202 (start_generator x root)
              else if get && bool_decide (status_of (wadb_json_allowed root "") = WADB_OK) then handled 200 (list_jobs x)
              else not_found
            else
              match route_id path "/api/v1/jobs/", route_id path "/api/v1/test-jobs/" with
              | Some (id, suffix), _ | None, Some (id, suffix) => job_request x get post id suffix root
              | None, None => not_found
              end
        end
    end.

Section dispatch.
(** The reader and the writer of the JSON library, as in [wadb_json_init] and [wadb_json_finish]. *)
Variable read : list Z → wadb_json_memory → option yyjson_val * wadb_json_memory.
Variable write : yyjson_val → wadb_json_memory → option (list Z) * wadb_json_memory.
(** The text of an error reply and its copy, and the allocations of the reply. *)
Record reply_input := ReplyInput {
  ri_output : wadb_json_memory → bool * wadb_json_memory;
  ri_build : wadb_status;
  ri_alloc : bool;
  ri_error_text : wadb_status → option (list Z);
  ri_strdup : bool;
}.
Definition with_status (status : Z) (r : wadb_http_reply) : wadb_http_reply := Reply status (re_body r) (re_length r).
Definition close_consumed (id : Z) (s : job_system) : job_system :=
  System (sy_jobs s) (sy_threads s) (snd (iw_step (wadb_cursor_close id) (sy_ingestion s))).
Definition reply_tree (boot_id : list Z) (l : members) : yyjson_val :=
  JObj ([member_bool "ok" true; member_string "boot_id" boot_id] ++ l).
Definition wadb_api_dispatch (x : api_input) (i : reply_input) (boot_id : list Z) (feed_cursor : Z) (method path body : list Z)
    (s : job_system) : wadb_http_reply * job_system :=
  let limit := wadb_api_reply_limit method path in
  let '(initialized, j) := wadb_json_init read body (ri_output i) in
  let finish error memory tree status :=
    wadb_json_finish write (JsonDoc memory (j_input j) limit error) tree status (ri_alloc i) (ri_error_text i) (ri_strdup i) in
  if negb initialized then (finish (j_error j) (j_memory j) JNull 400, s)
  else
    let '(r, a) := handle x boot_id feed_cursor method path (j_input j) (Api s (j_memory j)) in
    let o := match r with Ok o => o | Err e => Outcome 200 0 (Err e) end in
    let '(error, l) := match oc_members o with Ok l => (ri_build i, l) | Err e => (e, []) end in
    let reply := finish error (ap_memory a) (reply_tree boot_id l) (oc_status o) in
    let reply := if oc_status o =? 405 then with_status 405 reply else reply in
    (reply, if (re_status reply >=? 400) && negb (oc_cursor o =? 0) then close_consumed (oc_cursor o) (ap_system a) else ap_system a).
End dispatch.

(** ** The size of replies *)

(** The longest compact text of a tree: a byte of a string takes at most six characters,
    a number at most 32. *)
Fixpoint text_bound (v : yyjson_val) : Z :=
  match v with
  | JNull | JBool _ => 5
  | JUint _ | JSint _ | JReal _ => 32
  | JStr s => 2 + 6 * zlen s
  | JArr l => 2 + foldr (λ v n, text_bound v + 1 + n) 0 l
  | JObj l => 2 + foldr (λ m n, 2 + 6 * zlen m.1 + 1 + text_bound m.2 + 1 + n) 0 l
  end.
Definition error_tree (e : wadb_status) (message : list Z) : yyjson_val :=
  JObj [member_bool "ok" false; member_object "error" [member_string "code" (status_text e); member_string "message" message]].
Definition members_bound (l : members) : Z := foldr (λ m n, 2 + 6 * zlen m.1 + 1 + text_bound m.2 + 1 + n) 0 l.
Lemma members_bound_app l k : members_bound (l ++ k) = members_bound l + members_bound k.
Proof. unfold members_bound. induction l as [|m l IH]; [done|]. cbn [foldr app]. rewrite IH. lia. Qed.
Lemma digits_length fuel z : zlen (digits fuel z) ≤ Z.of_nat fuel.
Proof.
  revert z. induction fuel as [|fuel IH]; intros z; cbn [digits]; [done|]. destruct (z <? 10); [rewrite zlen_cons, zlen_nil; lia|].
  rewrite zlen_app. specialize (IH (z / 10)). change (zlen [_]) with 1. lia.
Qed.
Lemma print_u64_length z : zlen (print_u64 z) ≤ 20.
Proof. apply digits_length. Qed.
Lemma print_i64_length z : zlen (print_i64 z) ≤ 21.
Proof. unfold print_i64. destruct (_ <? 0); [rewrite zlen_cons|]; pose proof (print_u64_length (- z)); pose proof (print_u64_length z); lia. Qed.
Lemma error_tree_fits e message : zlen message ≤ 255 → text_bound (error_tree e message) ≤ WADB_HTTP_APPEND_REPLY_LIMIT.
Proof.
  intros Hm. unfold error_tree, member_bool, member_object, member_string. cbn [text_bound foldr fst snd].
  assert (zlen (status_text e) ≤ 40) by (destruct e; vm_compute; congruence). clen. unfold WADB_HTTP_APPEND_REPLY_LIMIT. lia.
Qed.
(** The reply to a successful append. *)
Lemma append_members x t root a l a' : append_rows x t root a = (Ok l, a') →
  ∃ rc, l = [member_uint "first_sequence" (rc_first_sequence rc); member_uint "last_sequence" (rc_last_sequence rc);
             member_int "ingestion_time" (rc_ingestion_time rc); member_uint "row_count" (rc_row_count rc)].
Proof.
  unfold append_rows. set (final := λ rc : wadb_append_receipt, _). intros H.
  unfold mbind, M_bind in H. destruct (mlift _ a) as [[] a1]; [|done]. destruct (table_at t a1) as [[tb|] a2]; [|done].
  repeat match type of H with context [if ?b then _ else _] => destruct b; [done|] end.
  destruct (parse_rows _ _ _ _ a2) as [[values|] a3]; [|done]. destruct (in_ingestion _ a3) as [[rc|] a4]; [|done].
  exists rc. by injection H as <- <-.
Qed.
Lemma append_tree_fits x t root a l a' boot_id : append_rows x t root a = (Ok l, a') → zlen boot_id = 32 →
  text_bound (reply_tree boot_id l) ≤ WADB_HTTP_APPEND_REPLY_LIMIT.
Proof.
  intros (rc&->)%append_members Hb. unfold reply_tree, member_bool, member_string, member_uint, member_int. cbn [text_bound foldr fst snd app].
  pose proof (print_u64_length (rc_first_sequence rc)). pose proof (print_u64_length (rc_last_sequence rc)).
  pose proof (print_u64_length (rc_row_count rc)). pose proof (print_i64_length (rc_ingestion_time rc)). clen.
  unfold WADB_HTTP_APPEND_REPLY_LIMIT. lia.
Qed.
(** What the JSON writer promises about the size of its text. *)
Definition writer_bounded (write : yyjson_val → wadb_json_memory → option (list Z) * wadb_json_memory) : Prop :=
  ∀ v m text, (write v m).1 = Some text → zlen text ≤ text_bound v.
(** Messages of errors have at most 255 bytes. *)
Definition errors_bounded (i : reply_input) : Prop :=
  ∀ e text, ri_error_text i e = Some text → ∃ message, zlen message ≤ 255 ∧ zlen text ≤ text_bound (error_tree e message).
Definition reply_fits (limit : Z) (r : wadb_http_reply) : Prop :=
  0 ≤ re_length r ≤ limit ∧ ∀ b, re_body r = Some b → zlen b = re_length r.
Lemma http_error_fits limit i status e strdup : errors_bounded i → WADB_HTTP_APPEND_REPLY_LIMIT ≤ limit →
  reply_fits limit (wadb_http_error status (ri_error_text i e) strdup).
Proof.
  intros He Hl. unfold wadb_http_error. destruct (ri_error_text i e) as [text|] eqn:E.
  - destruct (He _ _ E) as (message&Hm&Ht). pose proof (error_tree_fits e message Hm). pose proof (zlen_nonneg text).
    split; cbn; [lia|by intros b [= <-]].
  - unfold WADB_HTTP_APPEND_REPLY_LIMIT in Hl. destruct strdup; (split; [|by try intros b [= <-]]); cbn [re_length]; [|lia].
    assert (zlen NOMEM_BODY ≤ 100) by (vm_compute; congruence). pose proof (zlen_nonneg NOMEM_BODY). lia.
Qed.
Lemma finish_fits write j tree status alloc i strdup : errors_bounded i → WADB_HTTP_APPEND_REPLY_LIMIT ≤ j_reply_limit j →
  reply_fits (j_reply_limit j) (wadb_json_finish write j tree status alloc (ri_error_text i) strdup).
Proof.
  intros He Hl. unfold wadb_json_finish. repeat case_match; simplify_eq; try by apply http_error_fits.
  all: split; cbn; [|by try intros b [= <-]]; try (unfold WADB_HTTP_APPEND_REPLY_LIMIT in Hl; lia).
  all: match goal with H : (zlen ?b >? _) = false |- _ => pose proof (zlen_nonneg b); lia end.
Qed.
Lemma reply_limit_least method path : WADB_HTTP_APPEND_REPLY_LIMIT ≤ wadb_api_reply_limit method path.
Proof.
  unfold wadb_api_reply_limit, WADB_HTTP_APPEND_REPLY_LIMIT, WADB_HTTP_REPLY_LIMIT. destruct (route_id _ _) as [[? ?]|]; [|lia].
  destruct (_ && _); lia.
Qed.

(** C22: The reply to any request has at most the bytes that [wadb_api_reply_limit] reserves
    for it before the request is run, also when it is an error with a message of 255 bytes
    that are all escaped; and a receipt never exceeds the 4096 bytes of an append: a
    successful append is not reported as an error because of the size of its reply. *)
Theorem dispatch_reply_fits read write x i boot_id feed method path body s reply s' :
  writer_bounded write → errors_bounded i → zlen boot_id = 32 →
  wadb_api_dispatch read write x i boot_id feed method path body s = (reply, s') →
  0 ≤ re_length reply ≤ wadb_api_reply_limit method path ∧
  (∀ b, re_body reply = Some b → zlen b = re_length reply) ∧
  (∀ t root a l a' m input text,
     append_rows x t root a = (Ok l, a') → (write (reply_tree boot_id l) m).1 = Some text → jm_failure m = WADB_OK →
     wadb_json_finish write (JsonDoc m input WADB_HTTP_APPEND_REPLY_LIMIT WADB_OK) (reply_tree boot_id l) 201 true
       (ri_error_text i) (ri_strdup i) = Reply 201 (Some text) (zlen text)).
Proof.
  intros Hw He Hb Hrun. assert (Hfit : reply_fits (wadb_api_reply_limit method path) reply).
  { revert Hrun. unfold wadb_api_dispatch. destruct (wadb_json_init _ _ _) as [[] j]; cbn [negb].
    - destruct (handle _ _ _ _ _ _ _) as [r a]. set (o := match r with Ok _ => _ | Err _ => _ end).
      destruct (match oc_members o with Ok _ => _ | Err _ => _ end) as [e l]. intros [= <- _].
      match goal with |- context [wadb_json_finish write ?j ?t ?st ?al (ri_error_text i) ?sd] =>
        pose proof (finish_fits write j t st al i sd He (reply_limit_least method path)) as Hf end.
      destruct (oc_status o =? 405); exact Hf.
    - intros [= <- _]. apply (finish_fits write (JsonDoc _ _ _ _)); [done|apply reply_limit_least]. }
  destruct Hfit as [Hl Hbody]. split_and!; [lia|lia|done|]. intros t root a l a' m input text Ha Htext Hm.
  pose proof (append_tree_fits _ _ _ _ _ _ boot_id Ha Hb) as Hfits. pose proof (Hw _ _ _ Htext).
  unfold wadb_json_finish. cbn [j_error j_memory j_reply_limit]. rewrite !bool_decide_true by done. rewrite Htext.
  destruct (Z.gtb_spec (zlen text) WADB_HTTP_APPEND_REPLY_LIMIT); [lia|done].
Qed.

(** A writer that is exact about a health reply and refuses everything else. *)
Definition ax_ready : list Z := map (λ c, if c =? 39 then 34 else c) (cstr "{'ok':true,'status':'ready'}").
Definition ax_read (body : list Z) (m : wadb_json_memory) : option yyjson_val * wadb_json_memory := (Some (JObj []), m).
Definition ax_write (v : yyjson_val) (m : wadb_json_memory) : option (list Z) * wadb_json_memory :=
  (if zlen ax_ready <=? text_bound v then Some ax_ready else None, m).
Definition ax_reply : reply_input := ReplyInput (λ m, (true, m)) WADB_OK true (λ _, None) true.
Definition ax_input : api_input := ApiInput (λ _, None) true [] true 1000 1000 None (λ _, []).
Definition ax_boot : list Z := zrep 32 97.
Definition ax_result : wadb_http_reply * job_system :=
  wadb_api_dispatch ax_read ax_write ax_input ax_reply ax_boot 0 (cstr "GET") (cstr "/api/v1/health") [] (job_start jx_database).
Lemma dispatch_reply_fits_witness :
  re_status ax_result.1 = 200 ∧ re_length ax_result.1 = 28 ∧ 0 ≤ re_length ax_result.1 ≤ 4 * 1024 * 1024.
Proof.
  split_and!; [vm_compute; reflexivity|vm_compute; reflexivity|..];
    apply (dispatch_reply_fits ax_read ax_write ax_input ax_reply ax_boot 0 (cstr "GET") (cstr "/api/v1/health") [] (job_start jx_database)
      ax_result.1 ax_result.2).
  1,5: intros v m text; unfold ax_write; cbn [fst]; destruct (Z.leb_spec (zlen ax_ready) (text_bound v)); [by intros [= <-]|done].
  all: done.
Defined.

(** ** Cursors

    Most of a request leaves the list of cursors alone, or only removes some of them. *)

Definition cursor_ids (g : database) : list Z := map cu_id (g_cursors g).
Definition kept (g g' : database) : Prop := cursor_ids g' `sublist_of` cursor_ids g ∧ g_next_cursor_id g' = g_next_cursor_id g.
#[global] Instance kept_preorder : PreOrder kept.
Proof.
  split; [by intros g|]. intros g1 g2 g3 [Hs Hn] [Hs' Hn']. split; [by trans (cursor_ids g2)|congruence].
Qed.
(** A computation on a state in which [db] finds the database. *)
Definition keeps {S A} (db : S → database) (m : M S A) : Prop := ∀ s, kept (db s) (db (snd (m s))).
Definition same_db (g : database) : database := g.

Section keeps.
Context {S : Type} (db : S → database).
Lemma keeps_ret {A} (a : A) : keeps db (mret a).
Proof. by intros s. Qed.
Lemma keeps_fail {A} e : keeps db (mfail (A := A) e).
Proof. by intros s. Qed.
Lemma keeps_lift {A} (r : result A) : keeps db (mlift r).
Proof. by intros s. Qed.
Lemma keeps_bind {A B} (m : M S A) (f : A → M S B) : keeps db m → (∀ a, keeps db (f a)) → keeps db (m ≫= f).
Proof.
  intros Hm Hf s. unfold mbind, M_bind. specialize (Hm s). destruct (m s) as [[a|e] s']; cbn in *; [|done].
  trans (db s'); [done|apply Hf].
Qed.
Lemma keeps_try {A} (m : M S A) : keeps db m → keeps db (mtry m).
Proof. intros Hm s. specialize (Hm s). unfold mtry. by destruct (m s). Qed.
End keeps.
Create HintDb keeps.
#[export] Hint Resolve keeps_ret keeps_fail keeps_lift : keeps.
(** Unfolding a definition and following its structure. *)
Ltac keeps_step := first
  [ progress intros | solve [auto 2 with keeps] | simple apply keeps_bind | simple apply keeps_try | case_match ].
Ltac solve_keeps := repeat keeps_step.

Lemma keeps_g_step {A} (m : M os A) : keeps same_db (g_step m).
Proof. intros g. unfold g_step. by destruct (m (g_os g)). Qed.
Lemma keeps_get : keeps same_db get_database.
Proof. by intros g. Qed.
Lemma keeps_update f : keeps same_db (update_db f).
Proof. by intros g. Qed.
Lemma keeps_push t : keeps same_db (push_table t).
Proof. by intros g. Qed.
Lemma keeps_on_table {A} i (m : M engine A) : keeps same_db (on_table i m).
Proof. intros g. unfold on_table. destruct (_ !! _); [|done]. by destruct (m _). Qed.
#[export] Hint Resolve keeps_g_step keeps_get keeps_update keeps_push keeps_on_table : keeps.
Lemma keeps_destroy_all l : keeps same_db (destroy_all l).
Proof. induction l as [|c l IH]; cbn [destroy_all]; unfold destroy; solve_keeps. Qed.
#[export] Hint Resolve keeps_destroy_all : keeps.
Lemma map_sublist {A B} (f : A → B) l k : l `sublist_of` k → map f l `sublist_of` map f k.
Proof. induction 1; cbn; by constructor. Qed.
Lemma keeps_expire : keeps same_db wadb_cursor_expire.
Proof.
  unfold wadb_cursor_expire. apply keeps_bind; [auto with keeps|]. intros now g. unfold mbind, M_bind, get_database, set_cursors.
  etrans; [|apply keeps_destroy_all]. split; [|done]. apply map_sublist, sublist_filter.
Qed.
#[export] Hint Resolve keeps_expire : keeps.
Lemma keeps_claim_directory fuel tables : keeps same_db (claim_directory fuel tables).
Proof. induction fuel as [|fuel IH]; cbn [claim_directory]; solve_keeps. Qed.
#[export] Hint Resolve keeps_claim_directory : keeps.
Lemma keeps_create_table name defs retention : keeps same_db (wadb_create_table name defs retention).
Proof. unfold wadb_create_table, create_in, store_table. solve_keeps. Qed.
Lemma keeps_query t q allocs : keeps same_db (wadb_query t q allocs).
Proof. unfold wadb_query, compile_on. solve_keeps. Qed.
Lemma keeps_retention_apply t now : keeps same_db (wadb_retention_apply t now).
Proof. unfold wadb_retention_apply. solve_keeps. Qed.
Lemma keeps_get_stats disk : keeps same_db (wadb_get_stats disk).
Proof. unfold wadb_get_stats. solve_keeps. Qed.
#[export] Hint Resolve keeps_create_table keeps_query keeps_retention_apply keeps_get_stats : keeps.

(** *** The queue *)

Lemma keeps_iw_step {A} (m : M database A) : keeps same_db m → keeps iw_database (iw_step m).
Proof. intros Hm s. specialize (Hm (iw_database s)). unfold iw_step. by destruct (m (iw_database s)). Qed.
Lemma keeps_iw_get : keeps iw_database iw_get.
Proof. by intros s. Qed.
Lemma keeps_set_queue q : keeps iw_database (set_queue q).
Proof. by intros s. Qed.
Lemma keeps_push_done l : keeps iw_database (push_done l).
Proof. by intros s. Qed.
Lemma keeps_realtime : keeps iw_database read_realtime.
Proof. by intros s. Qed.
Lemma keeps_ingest f : keeps iw_database (update_ingest f).
Proof. apply keeps_iw_step, keeps_update. Qed.
#[export] Hint Resolve keeps_iw_step keeps_iw_get keeps_set_queue keeps_push_done keeps_realtime keeps_ingest : keeps.
Lemma keeps_submit t values count : keeps iw_database (append_submit t values count).
Proof. unfold append_submit, stage_rows. solve_keeps. Qed.
Lemma keeps_take_batch fuel target t previous day n batch : keeps iw_database (take_batch fuel target t previous day n batch).
Proof. revert previous day n batch. induction fuel as [|fuel IH]; intros; cbn [take_batch]; solve_keeps. Qed.
Lemma keeps_complete_all l : keeps iw_database (complete_all l).
Proof. induction l as [|r l IH]; cbn [complete_all]; unfold complete; solve_keeps. Qed.
#[export] Hint Resolve keeps_submit keeps_take_batch keeps_complete_all : keeps.
Lemma keeps_writer_rounds n : keeps iw_database (writer_rounds n).
Proof. induction n as [|n IH]; cbn [writer_rounds]; unfold writer_round; solve_keeps. Qed.
#[export] Hint Resolve keeps_writer_rounds : keeps.
Lemma keeps_append_batch t values count : keeps iw_database (wadb_append_batch t values count).
Proof. unfold wadb_append_batch. solve_keeps. Qed.
#[export] Hint Resolve keeps_append_batch : keeps.

(** *** Handlers *)

Lemma keeps_in_ingestion {A} (m : M ingestion A) : keeps iw_database m → keeps api_database (in_ingestion m).
Proof. intros Hm a. specialize (Hm (sy_ingestion (ap_system a))). unfold in_ingestion. by destruct (m _). Qed.
Lemma keeps_in_database {A} (m : M database A) : keeps same_db m → keeps api_database (in_database m).
Proof. intros Hm. by apply keeps_in_ingestion, keeps_iw_step. Qed.
Lemma keeps_in_memory {A} (m : M wadb_json_memory A) : keeps api_database (in_memory m).
Proof. intros a. unfold in_memory. by destruct (m _). Qed.
Lemma keeps_get_api : keeps api_database get_api.
Proof. by intros a. Qed.
#[export] Hint Resolve keeps_in_ingestion keeps_in_database keeps_in_memory keeps_get_api : keeps.
Lemma keeps_table_at t : keeps api_database (table_at t).
Proof. apply keeps_in_database, keeps_on_table. Qed.
#[export] Hint Resolve keeps_table_at : keeps.
Lemma keeps_table_info t b : keeps api_database (table_info t b).
Proof. unfold table_info. solve_keeps. Qed.
#[export] Hint Resolve keeps_table_info : keeps.
Lemma keeps_row_values x fs item column index : keeps api_database (row_values x fs item column index).
Proof. revert column index. induction fs as [|f fs IH]; intros; cbn [row_values]; solve_keeps. Qed.
#[export] Hint Resolve keeps_row_values : keeps.
Lemma keeps_parse_rows x s l index : keeps api_database (parse_rows x s l index).
Proof. revert index. induction l as [|v l IH]; intros; cbn [parse_rows]; unfold parse_row; solve_keeps. Qed.
#[export] Hint Resolve keeps_parse_rows : keeps.
Lemma keeps_append_rows x t root : keeps api_database (append_rows x t root).
Proof. unfold append_rows. solve_keeps. Qed.
Lemma keeps_create root : keeps api_database (create_table root).
Proof. unfold create_table. solve_keeps. Qed.
Lemma keeps_segments t root : keeps api_database (segments t root).
Proof. unfold segments. solve_keeps. Qed.
Lemma keeps_retention x t root b : keeps api_database (retention x t root b).
Proof. unfold retention. solve_keeps. Qed.
Lemma keeps_stats boot feed x : keeps api_database (wadb_api_stats boot feed x).
Proof. unfold wadb_api_stats. solve_keeps. Qed.
Lemma keeps_health x : keeps api_database (health x).
Proof. unfold health. solve_keeps. Qed.
#[export] Hint Resolve keeps_append_rows keeps_create keeps_segments keeps_retention keeps_stats keeps_health : keeps.
Lemma keeps_tables_info l : keeps api_database (tables_info l).
Proof. induction l as [|t l IH]; cbn [tables_info]; solve_keeps. Qed.
#[export] Hint Resolve keeps_tables_info : keeps.
Lemma keeps_list_tables : keeps api_database list_tables.
Proof. unfold list_tables. solve_keeps. Qed.
#[export] Hint Resolve keeps_list_tables : keeps.

(** *** Jobs *)

Definition job_database (s : job_system) : database := iw_database (sy_ingestion s).
Lemma keeps_call_jobs {A} (m : job_system → option (result A * job_system)) :
  (∀ s r s', m s = Some (r, s') → kept (job_database s) (job_database s')) → keeps api_database (call_jobs m).
Proof.
  intros Hm a. unfold call_jobs, in_jobs. destruct (m (ap_system a)) as [[r s']|] eqn:E; cbn; [|done]. by eapply Hm.
Qed.
Lemma reserve_database s r s' : reserve s = Some (r, s') → job_database s' = job_database s.
Proof. unfold reserve. intros H. repeat case_match; by simplify_eq. Qed.
Lemma start_database i created s : job_database (start i created s).2 = job_database s.
Proof. unfold start. by destruct created. Qed.
Lemma generate_database o realtime created s r s' : wadb_job_generate o realtime created s = Some (r, s') → kept (job_database s) (job_database s').
Proof.
  unfold wadb_job_generate. destruct (_ || _); [by intros [= _ <-]|]. destruct (negb _); [by intros [= _ <-]|].
  destruct (reserve s) as [[slot s1]|] eqn:Er; [|done]. cbn [mbind option_bind]. apply reserve_database in Er.
  destruct slot as [i|e]; [|intros [= _ <-]; by rewrite Er]. rewrite <-Er. set (o' := if rd _ 0 =? 0 then _ else _).
  match goal with |- context [iw_step ?m ?s] => pose proof (keeps_iw_step m (keeps_create_table _ _ _) s) as Hk end.
  cbn [sy_ingestion update_job] in Hk |- *. destruct (iw_step _ _) as [[t|e] db]; cbn [snd] in Hk.
  - intros [= Hs]. apply (f_equal snd) in Hs. cbn [snd] in Hs. rewrite <-Hs, start_database. exact Hk.
  - intros [= _ <-]. exact Hk.
Qed.
Lemma integrity_database t n timeout created s r s' : wadb_job_integrity t n timeout created s = Some (r, s') →
  kept (job_database s) (job_database s').
Proof.
  unfold wadb_job_integrity. destruct (_ || _); [by intros [= _ <-]|]. destruct (reserve s) as [[slot s1]|] eqn:Er; [|done].
  cbn [mbind option_bind]. apply reserve_database in Er. destruct slot as [i|e]; [|intros [= _ <-]; by rewrite Er].
  intros [= Hs]. apply (f_equal snd) in Hs. cbn [snd] in Hs. rewrite <-Hs, start_database, <-Er. done.
Qed.
Lemma keeps_generate x root : keeps api_database (start_generator x root).
Proof. unfold start_generator. solve_keeps. apply keeps_call_jobs. intros *. apply generate_database. Qed.
Lemma keeps_check x t root : keeps api_database (start_check x t root).
Proof. unfold start_check. solve_keeps. apply keeps_call_jobs. intros *. apply integrity_database. Qed.
Lemma keeps_stop id : keeps api_database (stop_job id).
Proof.
  apply keeps_call_jobs. intros s r s' [= Hs]. apply (f_equal snd) in Hs. cbn [snd] in Hs. rewrite <-Hs.
  unfold wadb_job_stop. destruct (id =? 0); [done|]. by destruct (find_job _ _ _).
Qed.
Lemma keeps_list_jobs x : keeps api_database (list_jobs x).
Proof. unfold list_jobs. solve_keeps. Qed.
Lemma keeps_show_job x id : keeps api_database (show_job x id).
Proof. unfold show_job. solve_keeps. Qed.
#[export] Hint Resolve keeps_generate keeps_check keeps_stop keeps_list_jobs keeps_show_job : keeps.

(** *** Opening, reading and closing a cursor *)

Definition untouched (g g' : database) : Prop := g_cursors g' = g_cursors g ∧ g_next_cursor_id g' = g_next_cursor_id g.
Lemma untouched_kept g g' : untouched g g' → kept g g'.
Proof. intros [Hc Hn]. split; [unfold cursor_ids; by rewrite Hc|done]. Qed.
Lemma untouched_on_table {A} i (m : M engine A) g : untouched g (on_table i m g).2.
Proof. unfold on_table. destruct (_ !! _); [|done]. by destruct (m _). Qed.
Lemma untouched_g_step {A} (m : M os A) g : untouched g (g_step m g).2.
Proof. unfold g_step. by destruct (m _). Qed.
Lemma untouched_trans g1 g2 g3 : untouched g1 g2 → untouched g2 g3 → untouched g1 g3.
Proof. unfold untouched. intros [-> ->] [-> ->]. done. Qed.
Lemma destroy_spec c g : destroy c g = (Ok (), (destroy c g).2) ∧ untouched g (destroy c g).2.
Proof.
  unfold destroy, mbind, M_bind, mtry. pose proof (untouched_on_table (cu_table c) (wadb_snapshot_release (cu_snapshot c)) g) as H.
  by destruct (on_table _ _ g).
Qed.
Lemma destroy_all_ok l g : (destroy_all l g).1 = Ok ().
Proof. revert g. induction l as [|c l IH]; intros g; cbn [destroy_all]; [done|]. unfold mbind, M_bind. by destruct (destroy_spec c g) as [-> _]. Qed.
Lemma untouched_destroy_all l g : untouched g (destroy_all l g).2.
Proof.
  revert g. induction l as [|c l IH]; intros g; cbn [destroy_all]; [done|]. unfold mbind, M_bind.
  destruct (destroy_spec c g) as [Ed H]. rewrite Ed. eapply untouched_trans; [exact H|apply IH].
Qed.
Lemma untouched_read_page c allocs g : untouched g (read_page c allocs g).2.
Proof.
  unfold read_page, mbind, M_bind, mtry. pose proof (untouched_g_step wadb_monotonic_ns g) as H1.
  destruct (g_step wadb_monotonic_ns g) as [[now|] g1]; [|done]. destruct (_ >=? _); [done|].
  match goal with |- context [on_table ?i ?m g1] => pose proof (untouched_on_table i m g1) as H2; destruct (on_table i m g1) as [r g2] end.
  pose proof (untouched_g_step wadb_monotonic_ns g2) as H3. destruct (g_step wadb_monotonic_ns g2) as [[later|] g3]; cbn [snd] in *.
  - destruct (_ >=? _); eauto using untouched_trans.
  - eauto using untouched_trans.
Qed.
Lemma clock_ok g : ∃ now g', g_step wadb_monotonic_ns g = (Ok now, g') ∧ untouched g g'.
Proof. unfold g_step, wadb_monotonic_ns. destruct (clock (g_os g)); eexists _, _; split; done. Qed.
(** Expiry removes cursors and changes none. *)
Lemma expire_cursors g r g' : wadb_cursor_expire g = (r, g') → r = Ok () ∧
  g_cursors g' `sublist_of` g_cursors g ∧ g_next_cursor_id g' = g_next_cursor_id g.
Proof.
  unfold wadb_cursor_expire, mbind, M_bind, get_database, set_cursors. destruct (clock_ok g) as (now&g1&->&[H1 H2]).
  intros H. pose proof (f_equal fst H) as Hr. rewrite destroy_all_ok in Hr. cbn [fst] in Hr. split; [done|].
  apply (f_equal snd) in H. cbn [snd] in H. rewrite <-H. destruct (untouched_destroy_all
    (reverse (filter (λ c, expired now c = true) (g_cursors g1)))
    (Database (g_db g1) (g_tables g1) (filter (λ c, expired now c = false) (g_cursors g1)) (g_next_cursor_id g1) (g_writer_started g1) (g_os g1))) as [-> ->].
  cbn. rewrite H1. split; [apply sublist_filter|done].
Qed.
(** The cursor [id] is there once at most, and nobody reads it. *)
Definition idle (id : Z) (g : database) : Prop := NoDup (cursor_ids g) ∧ Forall (λ c, cu_id c = id → cu_busy c = false) (g_cursors g).
Lemma idle_sublist id g g' : g_cursors g' `sublist_of` g_cursors g → idle id g → idle id g'.
Proof.
  intros Hs [Hn Hb]. split; [by eapply sublist_NoDup; [|apply map_sublist]|]. rewrite Forall_forall in *. intros c Hc. apply Hb. by eapply elem_of_sublist.
Qed.
Lemma find_cursor_spec id l : match find_cursor id l with Some c => c ∈ l ∧ cu_id c = id | None => id ∉ map cu_id l end.
Proof.
  induction l as [|c l IH]; cbn; [apply not_elem_of_nil|]. destruct (Z.eqb_spec (cu_id c) id) as [E|Hne]; [split; [left|done]|].
  destruct (find_cursor id l) as [c'|].
  - destruct IH. split; [by right|done].
  - rewrite not_elem_of_cons. split; [done|done].
Qed.
Lemma replace_ids id c l : cu_id c = id → map cu_id (replace_cursor id (Some c) l) = map cu_id l.
Proof.
  intros Hc. induction l as [|x l IH]; cbn; [done|]. destruct (Z.eqb_spec (cu_id x) id); cbn; congruence.
Qed.
Lemma remove_ids id l : map cu_id (replace_cursor id None l) `sublist_of` map cu_id l.
Proof. induction l as [|x l IH]; cbn; [done|]. destruct (_ =? _); cbn; by constructor. Qed.
Lemma removed_id id l : NoDup (map cu_id l) → id ∉ map cu_id (replace_cursor id None l).
Proof.
  induction l as [|x l IH]; cbn; [intros _; apply not_elem_of_nil|]. intros [Hx Hn]%NoDup_cons.
  destruct (Z.eqb_spec (cu_id x) id) as [<-|Hne]; [done|]. cbn. apply not_elem_of_cons. auto.
Qed.
Lemma replaced_idle id c l : cu_id c = id → cu_busy c = false → NoDup (map cu_id l) →
  Forall (λ x, cu_id x = id → cu_busy x = false) (replace_cursor id (Some c) l).
Proof.
  intros Hc Hb. induction l as [|x l IH]; cbn; [constructor|]. intros [Hx Hn]%NoDup_cons.
  destruct (Z.eqb_spec (cu_id x) id) as [E|Hne].
  - constructor; [done|]. rewrite Forall_forall. intros y Hy Ey. destruct Hx. rewrite E, <-Ey. apply list_elem_of_fmap. eauto.
  - constructor; [done|auto].
Qed.
(** The cursor list after the last step of a page. *)
Lemma removed_spec {A} id c (m : M database A) g1 g3 g' r : cursor_ids g3 = cursor_ids g1 → g_next_cursor_id g3 = g_next_cursor_id g1 →
  (∀ g, (m g).2 = g) → (_ ← update_cursors (replace_cursor id None); _ ← destroy c; m) g3 = (r, g') →
  kept g1 g' ∧ (idle id g1 → idle id g' ∧ id ∉ cursor_ids g').
Proof.
  intros Hi Hn Hm. unfold update_cursors, mbind, M_bind. set (g4 := Database _ _ (replace_cursor id None _) _ _ _).
  destruct (destroy_spec c g4) as [Ed [Hc Hn4]]. rewrite Ed. intros H. apply (f_equal snd) in H. rewrite Hm in H. cbn [snd] in H. subst g'.
  assert (E : cursor_ids (destroy c g4).2 = map cu_id (replace_cursor id None (g_cursors g3))) by (unfold cursor_ids; by rewrite Hc).
  split.
  - split; [rewrite E, <-Hi; apply remove_ids|]. by rewrite Hn4.
  - intros [Hnd _]. rewrite <-Hi in Hnd. assert (Hni : id ∉ cursor_ids (destroy c g4).2) by (rewrite E; by apply removed_id).
    split; [|done]. split; [rewrite E; by eapply sublist_NoDup; [|apply remove_ids]|].
    rewrite Forall_forall. intros x Hx Ex. destruct Hni. rewrite <-Ex. apply list_elem_of_fmap. eauto.
Qed.
Lemma advanced_spec id c g1 g3 : cursor_ids g3 = cursor_ids g1 → g_next_cursor_id g3 = g_next_cursor_id g1 → cu_id c = id → cu_busy c = false →
  let g' := (update_cursors (replace_cursor id (Some c)) g3).2 in kept g1 g' ∧ (idle id g1 → idle id g').
Proof.
  intros Hi Hn Hc Hb g'. assert (E : cursor_ids g' = cursor_ids g1) by (rewrite <-Hi; by apply replace_ids).
  split; [split; [by rewrite E|done]|]. intros [Hnd _]. split; [by rewrite E|]. apply replaced_idle; [done|done|].
  rewrite <-Hi in Hnd. done.
Qed.
Lemma cursor_next_spec id allocs g r g' : wadb_cursor_next id allocs g = (r, g') → id ≠ 0 →
  kept g g' ∧ (idle id g → idle id g' ∧ (id ∈ cursor_ids g' → ∃ res, r = Ok res ∧ re_has_more res = true)).
Proof.
  intros H Hid. unfold wadb_cursor_next in H. destruct (Z.eqb_spec id 0) as [|_]; [done|]. unfold mbind at 1, M_bind at 1 in H.
  destruct (wadb_cursor_expire g) as [re g1] eqn:E1. apply expire_cursors in E1 as (->&Hs1&Hn1).
  assert (Hk1 : kept g g1) by (split; [by apply map_sublist|done]).
  assert (Hlater : (kept g1 g' ∧ (idle id g1 → idle id g' ∧ (id ∈ cursor_ids g' → ∃ res, r = Ok res ∧ re_has_more res = true))) →
    kept g g' ∧ (idle id g → idle id g' ∧ (id ∈ cursor_ids g' → ∃ res, r = Ok res ∧ re_has_more res = true))).
  { intros [Hk Hi]. split; [by trans g1|]. intros Hg. by apply Hi, (idle_sublist _ _ _ Hs1). }
  apply Hlater. clear Hlater Hs1 Hn1 Hk1. unfold mbind at 1, M_bind at 1 in H. pose proof (find_cursor_spec id (g_cursors g1)) as Hf.
  unfold claim_cursor, mbind at 1, M_bind at 1, get_database in H. destruct (find_cursor id (g_cursors g1)) as [c|].
  2:{ injection H as <- <-. split; [done|]. intros Hi. split; [done|]. by intros ?%Hf. }
  destruct Hf as [Hc Ec]. destruct (cu_busy c) eqn:Eb.
  { injection H as <- <-. split; [done|]. intros [_ Hb]. rewrite Forall_forall in Hb. specialize (Hb _ Hc Ec). congruence. }
  unfold update_cursors at 1, mbind at 1, M_bind at 1, mret at 1, M_ret at 1 in H. set (g2 := Database _ _ (replace_cursor id (Some (with_busy true c)) _) _ _ _) in H.
  assert (Hg2 : cursor_ids g2 = cursor_ids g1) by (by apply replace_ids).
  unfold mbind at 1, M_bind at 1, mtry in H. pose proof (untouched_read_page (with_busy true c) allocs g2) as [Hc3 Hn3].
  destruct (read_page (with_busy true c) allocs g2) as [page g3]. cbn [snd] in Hc3, Hn3.
  assert (Hg3 : cursor_ids g3 = cursor_ids g1) by (unfold cursor_ids in *; by rewrite Hc3).
  destruct page as [res|e]; [destruct (re_has_more res) eqn:Em|].
  - destruct (advanced_spec id (advance res (with_busy true c)) g1 g3 Hg3 Hn3 Ec eq_refl) as [Hk Hi].
    injection H as <- <-. split; [exact Hk|]. intros Hg. split; [by apply Hi|]. intros _. eauto.
  - apply (removed_spec id _ _ g1) in H as [Hk Hi]; [|done..]. split; [done|]. intros Hg. destruct (Hi Hg). by split.
  - apply (removed_spec id _ _ g1) in H as [Hk Hi]; [|done..]. split; [done|]. intros Hg. destruct (Hi Hg). by split.
Qed.
Lemma cursor_close_spec id g r g' : wadb_cursor_close id g = (r, g') →
  kept g g' ∧ (id ≠ 0 → idle id g → id ∉ cursor_ids g').
Proof.
  unfold wadb_cursor_close. destruct (Z.eqb_spec id 0); [by intros [= <- <-]|]. unfold mbind at 1, M_bind at 1, get_database.
  pose proof (find_cursor_spec id (g_cursors g)) as Hf. destruct (find_cursor id (g_cursors g)) as [c|]; [|by intros [= <- <-]].
  destruct Hf as [Hc Ec]. destruct (cu_busy c) eqn:Eb.
  { intros [= <- <-]. split; [done|]. intros _ [_ Hb]. rewrite Forall_forall in Hb. specialize (Hb _ Hc Ec). congruence. }
  intros H. assert (H' : (_ ← update_cursors (replace_cursor id None); _ ← destroy c; mret ()) g = (Ok (), g')).
  { revert H. unfold mbind, M_bind, update_cursors. set (g4 := Database _ _ _ _ _ _). destruct (destroy_spec c g4) as [-> _]. by intros [= _ <-]. }
  apply (removed_spec id _ _ g) in H' as [Hk Hi]; [|done..]. split; [done|]. intros _ Hg. by destruct (Hi Hg).
Qed.
Lemma cursor_open_spec t o ttl g r g' : wadb_cursor_open t o ttl g = (r, g') →
  match r with
  | Err _ => kept g g'
  | Ok id => id = g_next_cursor_id g + 1 ∧ g_next_cursor_id g' = id ∧
      ∃ c l, g_cursors g' = c :: l ∧ cu_id c = id ∧ cu_busy c = false ∧ map cu_id l `sublist_of` cursor_ids g
  end.
Proof.
  unfold wadb_cursor_open. destruct (_ || _); [by intros [= <- <-]|]. unfold mbind, M_bind, mtry.
  destruct (wadb_cursor_expire g) as [re g1] eqn:E1. apply expire_cursors in E1 as (->&Hs1&Hn1).
  assert (Hk1 : kept g g1) by (split; [by apply map_sublist|done]).
  pose proof (untouched_kept _ _ (untouched_g_step os_malloc g1)) as Hk2. destruct (g_step os_malloc g1) as [[allocated|] g2]; cbn [snd] in Hk2;
    [|intros [= <- <-]; by trans g1].
  assert (Hk : kept g g2) by (by trans g1). clear Hk1 Hk2. destruct (negb allocated); [by intros [= <- <-]|].
  pose proof (untouched_kept _ _ (untouched_on_table t (prepare_cursor o) g2)) as Hk3. destruct (on_table t (prepare_cursor o) g2) as [[[p sn]|] g3]; cbn [snd] in Hk3;
    [|intros [= <- <-]; by trans g2].
  assert (Hk' : kept g g3) by (by trans g2). clear Hk Hk3. destruct (clock_ok g3) as (now&g4&->&Hk4%untouched_kept).
  assert (Hk : kept g g4) by (by trans g3). clear Hk'. set (c := Cursor _ _ _ _ _ _ _ _). unfold link_cursor, mbind, M_bind, get_database.
  destruct (_ || _).
  - destruct (destroy_spec c g4) as [Ed Hd%untouched_kept]. unfold mfail at 1. cbv beta iota. rewrite Ed. intros [= <- <-]. by trans g4.
  - intros [= <- <-]. destruct Hk as [Hs Hn]. rewrite <-Hn. split_and!; [done|done|]. eexists _, _. by split_and!.
Qed.

(** *** Requests *)

Definition cursors_ok (g : database) : Prop :=
  0 ≤ g_next_cursor_id g ∧ NoDup (cursor_ids g) ∧ Forall (λ id, 0 < id ≤ g_next_cursor_id g) (cursor_ids g).
Lemma kept_ok g g' : kept g g' → cursors_ok g → cursors_ok g'.
Proof.
  intros [Hs Hn] (H0&Hnd&Hall). split_and!; [by rewrite Hn|by eapply sublist_NoDup|]. rewrite Hn. rewrite Forall_forall in *.
  intros id Hid. apply Hall. by eapply elem_of_sublist.
Qed.
Lemma in_database_spec {A} (m : M database A) a r a' : in_database m a = (r, a') →
  m (api_database a) = (r, api_database a').
Proof. unfold in_database, in_ingestion, iw_step, api_database. destruct (m _) as [r0 g0]. by intros [= <- <-]. Qed.
(** A new cursor was left open only if the reply tells its identifier. *)
Inductive cursor_outcome (g g' : database) (id : Z) (r : result members) : Prop :=
  | old_cursors : kept g g' → cursor_outcome g g' id r
  | new_cursor : id = g_next_cursor_id g + 1 → g_next_cursor_id g' = id → idle id g' →
      (∀ k, k ∈ cursor_ids g' → k = id ∨ k ∈ cursor_ids g) →
      (id ∈ cursor_ids g' → match r with Ok l => member_uint "cursor_id" id ∈ l | Err e => e = WADB_NOMEM end) →
      cursor_outcome g g' id r.
Lemma keeps_parse_filters x s index l : keeps api_database (parse_filters x s index l).
Proof. revert index. induction l as [|f l IH]; intros; cbn [parse_filters]; unfold parse_filter; solve_keeps. Qed.
#[export] Hint Resolve keeps_parse_filters : keeps.
Lemma keeps_parse_query x t root tail : keeps api_database (parse_query x t root tail).
Proof. unfold parse_query. solve_keeps. Qed.
Lemma row_members_error columns row e : row_members columns row = Err e → e = WADB_NOMEM.
Proof.
  revert row. induction columns as [|c columns IH]; intros [|v row]; cbn; try done. destruct (wadb_json_encode_value _ _); [|by intros [= <-]].
  destruct (row_members columns row) eqn:E; [done|]. intros [= <-]. by eapply IH.
Qed.
Lemma api_result_error r e : wadb_api_result r = Err e → e = WADB_NOMEM.
Proof.
  unfold wadb_api_result. induction (re_rows r) as [|row rows IH]; cbn; [done|]. destruct (row_members _ row) eqn:E; cbn.
  - destruct (rows_members _ rows); cbn in *; [done|]. apply IH.
  - intros [= <-]. by eapply row_members_error.
Qed.
(** After the first page of a new cursor. *)
Lemma page_outcome g0 g1 g2 id allocs page :
  kept g0 g1 → cursors_ok g0 → (∃ t o ttl, wadb_cursor_open t o ttl g1 = (Ok id, g2)) →
  ∀ g3, wadb_cursor_next id allocs g2 = (page, g3) →
  cursor_outcome g0 g3 id (r ← page; l ← wadb_api_result r; Ok (l ++ if re_has_more r then [member_uint "cursor_id" id] else [])).
Proof.
  intros Hk Hok (t&o&ttl&Hopen) g3 Hnext. apply cursor_open_spec in Hopen as (Hid&Hn2&c&l&Hc&Ec&Hb&Hs).
  pose proof (kept_ok _ _ Hk Hok) as (H0&Hnd&Hall). destruct Hk as [Hs1 Hn1]. assert (Hpos : id ≠ 0) by lia.
  assert (Hfresh : id ∉ cursor_ids g1) by (intros Hin; rewrite Forall_forall in Hall; specialize (Hall _ Hin); lia).
  assert (Hi2 : idle id g2).
  { unfold idle, cursor_ids. rewrite Hc. cbn. split.
    - constructor; [|by eapply sublist_NoDup]. rewrite Ec. intros Hin. destruct Hfresh. by eapply elem_of_sublist.
    - constructor; [done|]. rewrite Forall_forall. intros c' Hc' E'. destruct Hfresh. rewrite <-E'.
      eapply elem_of_sublist; [|exact Hs]. apply list_elem_of_fmap. eauto. }
  apply cursor_next_spec in Hnext as [[Hs3 Hn3] Hend]; [|done]. destruct (Hend Hi2) as [Hi3 Hmore].
  apply new_cursor; [by rewrite Hid, Hn1|congruence|done| |].
  - intros k Hk. assert (Hk2 : k ∈ cursor_ids g2) by (by eapply elem_of_sublist). unfold cursor_ids in Hk2. rewrite Hc in Hk2. cbn in Hk2.
    apply elem_of_cons in Hk2 as [->|Hk2]; [by left|right]. eapply elem_of_sublist; [|exact Hs1]. by eapply elem_of_sublist.
  - intros Hin. destruct (Hmore Hin) as (res&->&Hm). cbn. destruct (wadb_api_result res) as [l0|e] eqn:E; [|by eapply api_result_error].
    cbn. rewrite Hm. apply elem_of_app. right. by left.
Qed.
Lemma run_query_outcome x t root tail a id r a' : cursors_ok (api_database a) → run_query x t root tail a = (Ok (id, r), a') →
  cursor_outcome (api_database a) (api_database a') id r.
Proof.
  intros Hok. unfold run_query, mbind at 1, M_bind at 1. pose proof (keeps_try _ _ (keeps_parse_query x t root tail) a) as Hk1.
  destruct (mtry _ a) as [[parsed|] a1]; cbn [snd] in Hk1; [|done]. destruct parsed as [[[q cursor] ttl]|e]; [|intros [= <- <- <-]; by left].
  destruct cursor.
  - unfold mbind at 1, M_bind at 1, mtry at 1. destruct (in_database (wadb_cursor_open t q ttl) a1) as [opened a2] eqn:Eo. apply in_database_spec in Eo.
    destruct opened as [id'|e].
    2:{ intros [= <- <- <-]. left. trans (api_database a1); [done|]. by apply cursor_open_spec in Eo. }
    unfold mbind at 1, M_bind at 1, mtry. destruct (in_database (wadb_cursor_next id' (ai_allocs x)) a2) as [page a3] eqn:En.
    apply in_database_spec in En. intros H. injection H as <- <- <-. eapply page_outcome; eauto.
  - unfold mbind at 1, M_bind at 1. pose proof (keeps_try _ _ (keeps_in_database _ (keeps_query t q (ai_allocs x))) a1) as Hk2.
    destruct (mtry _ a1) as [[r'|] a2]; cbn [snd] in Hk2; [|done]. intros [= <- _ <-]. left. by trans (api_database a1).
Qed.
Definition outcomes (m : M api outcome) : Prop := ∀ a, cursors_ok (api_database a) →
  match m a with
  | (Ok o, a') => cursor_outcome (api_database a) (api_database a') (oc_cursor o) (oc_members o)
  | (Err _, a') => kept (api_database a) (api_database a')
  end.
Lemma outcomes_keeps m : keeps api_database m → outcomes m.
Proof. intros Hm a _. specialize (Hm a). destruct (m a) as [[o|] a']; [by left|done]. Qed.
Lemma keeps_handled status m : keeps api_database m → keeps api_database (handled status m).
Proof. intros Hm. unfold handled. solve_keeps. Qed.
Lemma keeps_allowed root fields m : keeps api_database m → keeps api_database (allowed root fields m).
Proof. intros Hm. unfold allowed. solve_keeps. Qed.
Lemma keeps_not_found : keeps api_database not_found.
Proof. unfold not_found. solve_keeps. Qed.
#[export] Hint Resolve keeps_handled keeps_allowed keeps_not_found : keeps.
Lemma keeps_run_query_err x t root tail a e a' : run_query x t root tail a = (Err e, a') → False.
Proof.
  unfold run_query, mbind, M_bind, mtry. destruct (parse_query _ _ _ _ a) as [[[[q cursor] ttl]|] a1]; [|done]. destruct cursor.
  - destruct (in_database _ a1) as [[id|] a2]; [|done]. by destruct (in_database _ a2).
  - by destruct (in_database _ a1).
Qed.
Lemma outcomes_query x t root tail : outcomes (query_outcome (run_query x t root tail)).
Proof.
  intros a Hok. unfold query_outcome, mbind, M_bind. destruct (run_query x t root tail a) as [[[id r]|e] a'] eqn:E.
  - by eapply run_query_outcome.
  - by apply keeps_run_query_err in E.
Qed.
Lemma keeps_cursor_next id allocs : keeps same_db (wadb_cursor_next id allocs).
Proof.
  intros g. destruct (decide (id = 0)) as [->|Hid]; [done|]. destruct (wadb_cursor_next id allocs g) as [r g'] eqn:E.
  by apply cursor_next_spec in E as [? _].
Qed.
Lemma keeps_cursor_close id : keeps same_db (wadb_cursor_close id).
Proof. intros g. destruct (wadb_cursor_close id g) as [r g'] eqn:E. by apply cursor_close_spec in E as [? _]. Qed.
#[export] Hint Resolve keeps_cursor_next keeps_cursor_close : keeps.
Lemma keeps_cursor_request x boot id suffix root : keeps api_database (cursor_request x boot id suffix root).
Proof. unfold cursor_request, cursor_page. solve_keeps. apply keeps_handled. solve_keeps. Qed.
Lemma keeps_job_request x get post id suffix root : keeps api_database (job_request x get post id suffix root).
Proof. unfold job_request. apply keeps_handled, keeps_allowed. solve_keeps. Qed.
Lemma outcomes_table_request x get post id suffix root : outcomes (table_request x get post id suffix root).
Proof.
  intros a Hok. unfold table_request, mbind, M_bind, get_api. destruct (wadb_get_table _ _) as [t|e]; [|by left].
  match goal with |- match ?m a with _ => _ end => enough (outcomes m) as Hm by (exact (Hm a Hok)) end.
  repeat case_match; first [apply outcomes_query|apply outcomes_keeps; auto with keeps].
Qed.
Lemma outcomes_handle x boot feed method path root : outcomes (handle x boot feed method path root).
Proof.
  unfold handle. destruct (negb _ && _); [apply outcomes_keeps; solve_keeps|].
  destruct (_ && _); [apply outcomes_keeps; auto with keeps|]. destruct (_ && _); [apply outcomes_keeps; auto with keeps|].
  destruct (text_is path "/api/v1/tables"); [destruct (text_is method "POST"); apply outcomes_keeps; auto with keeps|].
  destruct (route_id path "/api/v1/tables/") as [[id suffix]|]; [apply outcomes_table_request|]. apply outcomes_keeps.
  repeat case_match; auto using keeps_cursor_request, keeps_job_request with keeps.
Qed.
Lemma error_status e : e ≠ WADB_OK → 400 ≤ wadb_http_status e.
Proof. by destruct e. Qed.
Lemma finish_success write j tree status alloc error_text strdup :
  re_status (wadb_json_finish write j tree status alloc error_text strdup) < 400 →
  j_error j = WADB_OK ∧ ∃ text, (write tree (j_memory j)).1 = Some text ∧
    re_body (wadb_json_finish write j tree status alloc error_text strdup) = Some text.
Proof.
  assert (Herr : ∀ e, e ≠ WADB_OK → re_status (wadb_http_error (wadb_http_status e) (error_text e) strdup) < 400 → False).
  { intros e He. pose proof (error_status e He). unfold wadb_http_error. destruct (error_text e); cbn; [lia|]. destruct strdup; cbn; lia. }
  unfold wadb_json_finish. destruct (bool_decide_reflect (j_error j = WADB_OK)) as [Ej|Ej].
  - destruct (bool_decide_reflect (jm_failure (j_memory j) = WADB_OK)) as [Em|Em].
    + destruct ((write tree (j_memory j)).1) as [text|]; [|cbn; by intros ?%Herr].
      destruct (_ >? _); [cbn; by intros ?%Herr|]. destruct alloc; [|cbn; by intros ?%Herr]. cbn. eauto.
    + rewrite bool_decide_false by done. by intros ?%Herr.
  - rewrite !bool_decide_false by done. by intros ?%Herr.
Qed.

(** *** Requests for the next page *)

(** A request for the next page of the cursor [id], of the running process. *)
Definition asks_page (boot_id path : list Z) (root : option yyjson_val) (id : Z) : Prop :=
  route_id path "/api/v1/cursors/" = Some (id, cstr "/next") ∧
  wadb_json_allowed root "boot_id" = Ok () ∧ get_str (member root "boot_id") = Some boot_id.
(** Another request reads the cursor. *)
Definition in_use (id : Z) (g : database) : Prop := ∃ c, c ∈ g_cursors g ∧ cu_id c = id ∧ cu_busy c = true.
Lemma idle_or_in_use id g : cursors_ok g → idle id g ∨ in_use id g.
Proof.
  intros (_&Hnd&_). destruct (decide (Exists (λ c, cu_id c = id ∧ cu_busy c = true) (g_cursors g))) as [H|H].
  - right. apply Exists_exists in H as (c&Hc&?&?). by exists c.
  - left. split; [done|]. apply Forall_forall. intros c Hc Ec. destruct (cu_busy c) eqn:E; [|done].
    destruct H. apply Exists_exists. eauto.
Qed.
Lemma route_cursors path id suffix : route_id path "/api/v1/cursors/" = Some (id, suffix) →
  id ≠ 0 ∧ take 16 path = cstr "/api/v1/cursors/".
Proof.
  unfold route_id. change (length (cstr "/api/v1/cursors/")) with 16%nat.
  unfold bytes_eqb. destruct (bool_decide_reflect (take 16 path = cstr "/api/v1/cursors/")) as [E|]; [|done].
  cbn [negb]. destruct (split_slash _) as [p s]. destruct (wadb_decimal_u64 p) as [id'|]; [|done].
  destruct (Z.eqb_spec id' 0); [done|]. intros [= <- <-]. done.
Qed.
Lemma handle_page x boot_id feed path root id a : asks_page boot_id path root id →
  handle x boot_id feed (cstr "POST") path root a = cursor_page x id a.
Proof.
  intros (Hroute&Hallowed&Hboot). destruct (route_cursors _ _ _ Hroute) as [_ Htake].
  assert (Hnot : ∀ text, take 16 (cstr text) ≠ cstr "/api/v1/cursors/" → text_is path text = false).
  { intros text Ht. unfold text_is, bytes_eqb. apply bool_decide_false. by intros ->. }
  unfold handle. change (text_is (cstr "POST") "GET") with false. change (text_is (cstr "POST") "POST") with true. cbn [negb andb].
  rewrite !andb_false_r, (Hnot "/api/v1/tables"%string) by done.
  assert (route_id path "/api/v1/tables/" = None) as ->.
  { unfold route_id. change (length (cstr "/api/v1/tables/")) with 15%nat.
    replace (take 15 path) with (take 15 (take 16 path)) by (by rewrite take_take). by rewrite Htake. }
  rewrite Hroute. unfold cursor_request. rewrite Hallowed, bool_decide_true by done. done.
Qed.
(** The page was read, and its cursor is one to close on an error; or there is none. *)
Lemma cursor_page_spec x id a r a' : id ≠ 0 → idle id (api_database a) → cursor_page x id a = (r, a') →
  idle id (api_database a') ∧ (id ∈ cursor_ids (api_database a') → ∃ o, r = Ok o ∧ oc_cursor o = id).
Proof.
  intros Hid Hi. unfold cursor_page, mbind at 1, M_bind at 1, mtry. destruct (in_database _ a) as [page a1] eqn:E.
  apply in_database_spec, cursor_next_spec in E as [_ Hnext]; [|done]. destruct (Hnext Hi) as [Hi1 Hmore].
  destruct page; intros [= <- <-]; (split; [done|]); [eauto|]. intros Hin. by destruct (Hmore Hin) as (?&?&_).
Qed.
Lemma close_consumed_spec id s : id ≠ 0 → kept (job_database s) (job_database (close_consumed id s)) ∧
  (idle id (job_database s) → id ∉ cursor_ids (job_database (close_consumed id s))).
Proof.
  intros Hid. unfold close_consumed, job_database, iw_step. cbn [sy_ingestion snd].
  destruct (wadb_cursor_close id _) as [rc g'] eqn:E. cbn. apply cursor_close_spec in E as [Hk Hgone]. auto.
Qed.
Lemma opened_cursor_known read write x i boot_id feed method path body s reply s' :
  cursors_ok (job_database s) →
  wadb_api_dispatch read write x i boot_id feed method path body s = (reply, s') →
  cursors_ok (job_database s') ∧
  ∀ id, id ∈ cursor_ids (job_database s') →
    id ∈ cursor_ids (job_database s) ∨
    re_status reply < 400 ∧ ∃ l m text, member_uint "cursor_id" id ∈ l ∧
      (write (reply_tree boot_id l) m).1 = Some text ∧ re_body reply = Some text.
Proof.
  intros Hok. unfold wadb_api_dispatch. destruct (wadb_json_init _ _ _) as [initialized j].
  destruct initialized; cbn [negb]; [|intros [= _ <-]; split; [done|auto]].
  pose proof (outcomes_handle x boot_id feed method path (j_input j) (Api s (j_memory j)) Hok) as Hout.
  destruct (handle _ _ _ _ _ _ _) as [r a]. change (api_database (Api s (j_memory j))) with (job_database s) in Hout.
  change (api_database a) with (job_database (ap_system a)) in Hout.
  set (o := match r with Ok _ => _ | Err _ => _ end).
  assert (Ho : cursor_outcome (job_database s) (job_database (ap_system a)) (oc_cursor o) (oc_members o)) by (destruct r; [done|by left]).
  clearbody o. clear Hout. destruct (match oc_members o with Ok l => _ | Err e => _ end) as [error l] eqn:El.
  set (finished := wadb_json_finish _ _ _ _ _ _ _). set (reply' := if oc_status o =? 405 then _ else _). intros H. injection H as Hr Hs. subst reply.
  set (closing := (re_status reply' >=? 400) && negb (oc_cursor o =? 0)) in Hs.
  assert (Hclose : kept (job_database (ap_system a)) (job_database s') ∧
    (closing = true → idle (oc_cursor o) (job_database (ap_system a)) → oc_cursor o ∉ cursor_ids (job_database s'))).
  { subst s'. destruct closing eqn:Ec; [|done]. unfold closing in Ec. apply andb_true_iff in Ec as [_ Ec%negb_true_iff%Z.eqb_neq].
    destruct (close_consumed_spec _ (ap_system a) Ec) as [? Hgone]. split; [done|]. intros _. apply Hgone. }
  destruct Hclose as [Hk Hgone]. destruct Ho as [Hkept|Hid Hn Hi Hin Htold].
  { assert (Hk' : kept (job_database s) (job_database s')) by (by trans (job_database (ap_system a))).
    split; [by eapply kept_ok|]. intros id Hid. left. destruct Hk' as [Hs' _]. by eapply elem_of_sublist. }
  destruct Hok as (H0&Hnd&Hall). assert (Hmid : cursors_ok (job_database (ap_system a))).
  { split_and!; [lia|apply Hi|]. rewrite Forall_forall in *. intros k [->|Hk']%Hin; [lia|]. specialize (Hall _ Hk'). lia. }
  split; [by eapply kept_ok|]. intros id Hid'. destruct Hk as [Hsub _]. pose proof (elem_of_sublist _ _ _ Hid' Hsub) as Hid2.
  destruct (Hin _ Hid2) as [->|]; [|by left]. destruct closing eqn:Ec; [by destruct (Hgone eq_refl Hi)|]. right.
  assert (Hst : re_status reply' < 400).
  { unfold closing in Ec. destruct (Z.eqb_spec (oc_cursor o) 0); [lia|]. cbn in Ec. rewrite andb_true_r in Ec. lia. }
  split; [done|]. assert (Hnot : (oc_status o =? 405) = false) by (unfold reply' in Hst; destruct (oc_status o =? 405); [cbn in Hst; lia|done]).
  unfold reply' in *. rewrite Hnot in *. apply finish_success in Hst as (Hj&text&Hw&Hb). cbn in Hj.
  specialize (Htold Hid2). destruct (oc_members o) as [l'|e]; injection El as <- <-; [|by rewrite Htold in Hj].
  exists l', (ap_memory a), text. by split_and!.
Qed.
Lemma page_error_closes read write x i boot_id feed path body s reply s' j id :
  cursors_ok (job_database s) →
  wadb_api_dispatch read write x i boot_id feed (cstr "POST") path body s = (reply, s') →
  wadb_json_init read body (ri_output i) = (true, j) → asks_page boot_id path (j_input j) id → 400 ≤ re_status reply →
  id ∈ cursor_ids (job_database s') → in_use id (job_database s).
Proof.
  intros Hok Hrun Hj Hasks. unfold wadb_api_dispatch in Hrun. rewrite Hj, (handle_page _ _ _ _ _ _ _ Hasks) in Hrun.
  destruct Hasks as [[Hid _]%route_cursors _]. cbn [negb] in Hrun. destruct (cursor_page x id _) as [r a] eqn:Ep.
  destruct (match oc_members _ with Ok l => _ | Err e => _ end) as [error l]. injection Hrun as Hr Hs. rewrite <-Hr, <-Hs. clear Hr Hs.
  intros Herror. rewrite (proj2 (Z.geb_le _ _) Herror). clear Herror. cbn [andb]. intros Hin.
  destruct (idle_or_in_use id _ Hok) as [Hi|]; [|done]. destruct (cursor_page_spec _ _ (Api s (j_memory j)) _ _ Hid Hi Ep) as [Hi' Hread].
  destruct (Z.eqb_spec (oc_cursor match r with Ok o => o | Err e => Outcome 200 0 (Err e) end) 0) as [E0|E0]; cbn [negb] in Hin.
  - destruct (Hread Hin) as (o&->&Ho). congruence.
  - destruct (close_consumed_spec _ (ap_system a) E0) as [[Hsub _] Hgone]. pose proof (elem_of_sublist _ _ _ Hin Hsub) as Hopen.
    destruct (Hread Hopen) as (o&->&Ho). rewrite Ho in *. by destruct (Hgone Hi').
Qed.


(** A query for one of two rows with a cursor; its reply is delivered, or cannot be allocated. *)
Definition cx_read (body : list Z) (m : wadb_json_memory) : option yyjson_val * wadb_json_memory :=
  (Some (JObj [(cstr "cursor", JBool true); (cstr "limit", JUint 1)]), m).
Definition cx_reply (alloc : bool) : reply_input := ReplyInput (λ m, (true, m)) WADB_OK alloc (λ _, None) true.
Definition cx_run (alloc : bool) : wadb_http_reply * job_system :=
  wadb_api_dispatch cx_read ax_write ax_input (cx_reply alloc) ax_boot 0 (cstr "POST") (cstr "/api/v1/tables/1/query") [] jx_finished.
Lemma cx_start_ok : cursors_ok (job_database jx_finished).
Proof.
  assert (Hi : cursor_ids (job_database jx_finished) = []) by (vm_compute; reflexivity).
  assert (Hn : g_next_cursor_id (job_database jx_finished) = 0) by (vm_compute; reflexivity). unfold cursors_ok. rewrite Hi, Hn. split_and!; [lia|constructor|constructor].
Qed.
(** Then the next page, whose reply cannot be allocated. *)
Definition px_read (body : list Z) (m : wadb_json_memory) : option yyjson_val * wadb_json_memory :=
  (Some (JObj [member_string "boot_id" ax_boot]), m).
Definition px_run : wadb_http_reply * job_system :=
  wadb_api_dispatch px_read ax_write ax_input (cx_reply false) ax_boot 0 (cstr "POST") (cstr "/api/v1/cursors/1/next") [] (cx_run true).2.
Definition px_json : wadb_json := (wadb_json_init px_read [] (ri_output (cx_reply false))).2.

(** ** An unknown argument of the list of jobs *)

Lemma handle_unknown x boot_id feed path m l a :
  let outcome e := handle x boot_id feed (cstr "GET") path (Some (JObj (m :: l))) a = (Ok (Outcome 200 0 (Err e)), a) in
  (path = cstr "/api/v1/jobs" ∨ path = cstr "/api/v1/test-jobs" → outcome WADB_NOT_FOUND) ∧
  (path = cstr "/api/v1/health" ∨ path = cstr "/api/v1/stats" ∨ path = cstr "/api/v1/tables" → outcome WADB_INVALID).
Proof. split; [intros [->| ->]|intros [->|[->| ->]]]; done. Qed.
(** C40: A GET with an argument where none is known is answered with status 400 and the text
    of an invalid request by the endpoints of health, statistics and tables, but the list
    of jobs, under both of its paths, answers it with 404: the endpoint is said not to
    exist. Nothing changes. *)
Theorem jobs_unknown_argument read write x i boot_id feed path body s j m l text :
  wadb_json_init read body (ri_output i) = (true, j) → j_input j = Some (JObj (m :: l)) → (∀ e, ri_error_text i e = Some (text e)) →
  let reply := wadb_api_dispatch read write x i boot_id feed (cstr "GET") path body s in
  (path = cstr "/api/v1/jobs" ∨ path = cstr "/api/v1/test-jobs" → reply = (Reply 404 (Some (text WADB_NOT_FOUND)) (zlen (text WADB_NOT_FOUND)), s)) ∧
  (path = cstr "/api/v1/health" ∨ path = cstr "/api/v1/stats" ∨ path = cstr "/api/v1/tables" →
     reply = (Reply 400 (Some (text WADB_INVALID)) (zlen (text WADB_INVALID)), s)).
Proof.
  intros Hj Hin Htext reply. unfold reply, wadb_api_dispatch. rewrite Hj, Hin. cbn [negb].
  destruct (handle_unknown x boot_id feed path m l (Api s (j_memory j))) as [Hjobs Hothers].
  split; intros Hpath; [rewrite (Hjobs Hpath)|rewrite (Hothers Hpath)]; cbn [oc_members oc_status oc_cursor ap_system];
    unfold wadb_json_finish; cbn [j_error]; rewrite !bool_decide_eq_false_2 by done; rewrite Htext; cbn; done.
Qed.
Definition ux_read (body : list Z) (m : wadb_json_memory) : option yyjson_val * wadb_json_memory := (Some (JObj [(cstr "all", JBool true)]), m).
Definition ux_reply : reply_input := ReplyInput (λ m, (true, m)) WADB_OK true (λ e, Some (status_text e)) true.
Lemma jobs_unknown_argument_witness :
  wadb_api_dispatch ux_read ax_write ax_input ux_reply ax_boot 0 (cstr "GET") (cstr "/api/v1/jobs") [] (job_start jx_database) =
    (Reply 404 (Some (cstr "not_found")) 9, job_start jx_database).
Proof.
  destruct (jobs_unknown_argument ux_read ax_write ax_input ux_reply ax_boot 0 (cstr "/api/v1/jobs") [] (job_start jx_database)
    (wadb_json_init ux_read [] (ri_output ux_reply)).2 (cstr "all", JBool true) [] status_text) as [H _].
  - reflexivity.
  - reflexivity.
  - reflexivity.
  - rewrite H by (left; reflexivity). reflexivity.
Defined.
