(* ===== verification/Http.v ===== *)
(** * The HTTP server (src/server/server.c)

    Admission of requests, their bodies, the queue of the worker threads and the memory
    that replies hold. The HTTP library calls [access_request] when the headers of a
    request are there, for every part of its body and when it is complete, and [completed]
    at its end; it owns a response until it calls [release_response]. Requests are kept by
    their address. A suspended connection, whose request is queued or worked on, gets no
    call until it is resumed. The event feed is in Feed.v. *)

From Stdlib Require Import String.
From stdpp Require Import base numbers list list_numbers gmap.
From S2P Require Import Prelude Encoding Schema Rows Dictionary Files Engine Plan Query Database Stats Cursors Writer Auth JsonMemory Json Feed Jobs Api.

Definition WORKERS : nat := 4.
Definition QUEUE_LIMIT : Z := 32.
Definition UPLOAD_BUDGET : Z := 64 * 1024 * 1024.
Definition RESPONSE_BUDGET : Z := 32 * 1024 * 1024.

(** ** State *)

(** [hr_body] are the bytes received so far; the block has [hr_capacity]. *)
Record request := HttpRequest {
  hr_path : list Z;
  hr_method : list Z;
  hr_session : list Z;
  hr_csrf : list Z;
  hr_bearer : bool;
  hr_authorized : bool;
  hr_queued : bool;
  hr_ready : bool;
  hr_charge : Z;
  hr_body : list Z;
  hr_capacity : Z;
  hr_reply : wadb_http_reply;
  hr_cookie : list Z;
}.
Definition new_request : request := HttpRequest [] [] [] [] false false false false 0 [] 0 no_reply [].
#[global] Instance request_inhabited : Inhabited request := populate new_request.
Record work_queue := WorkQueue {
  wq_ring : list Z;
  wq_head : Z;
  wq_count : Z;
}.
(** [hs_working] are the requests that workers hold, [hs_held] the lengths of the replies
    that the library has with a reservation, [hs_streams] the open streams. *)
Record server := Server {
  hs_origin : list Z;
  hs_host : list Z;
  hs_secure : bool;
  hs_boot_id : list Z;
  hs_ready : bool;
  hs_stopping : bool;
  hs_auth : auth_state;
  hs_requests : gmap Z request;
  hs_queue : work_queue;
  hs_working : list Z;
  hs_upload_bytes : Z;
  hs_response_bytes : Z;
  hs_held : list Z;
  hs_streams : list Z;
}.
Definition with_requests (f : gmap Z request → gmap Z request) (s : server) : server :=
  Server (hs_origin s) (hs_host s) (hs_secure s) (hs_boot_id s) (hs_ready s) (hs_stopping s) (hs_auth s) (f (hs_requests s))
    (hs_queue s) (hs_working s) (hs_upload_bytes s) (hs_response_bytes s) (hs_held s) (hs_streams s).
Definition with_auth (a : auth_state) (s : server) : server :=
  Server (hs_origin s) (hs_host s) (hs_secure s) (hs_boot_id s) (hs_ready s) (hs_stopping s) a (hs_requests s)
    (hs_queue s) (hs_working s) (hs_upload_bytes s) (hs_response_bytes s) (hs_held s) (hs_streams s).
Definition with_queue (q : work_queue) (working : list Z) (s : server) : server :=
  Server (hs_origin s) (hs_host s) (hs_secure s) (hs_boot_id s) (hs_ready s) (hs_stopping s) (hs_auth s) (hs_requests s)
    q working (hs_upload_bytes s) (hs_response_bytes s) (hs_held s) (hs_streams s).
Definition with_budgets (upload response : Z) (held : list Z) (s : server) : server :=
  Server (hs_origin s) (hs_host s) (hs_secure s) (hs_boot_id s) (hs_ready s) (hs_stopping s) (hs_auth s) (hs_requests s)
    (hs_queue s) (hs_working s) upload response held (hs_streams s).
Definition with_streams (l : list Z) (s : server) : server :=
  Server (hs_origin s) (hs_host s) (hs_secure s) (hs_boot_id s) (hs_ready s) (hs_stopping s) (hs_auth s) (hs_requests s)
    (hs_queue s) (hs_working s) (hs_upload_bytes s) (hs_response_bytes s) (hs_held s) l.
Definition with_lifecycle (ready stopping : bool) (s : server) : server :=
  Server (hs_origin s) (hs_host s) (hs_secure s) (hs_boot_id s) ready stopping (hs_auth s) (hs_requests s)
    (hs_queue s) (hs_working s) (hs_upload_bytes s) (hs_response_bytes s) (hs_held s) (hs_streams s).
Definition the_request (id : Z) (s : server) : request := default new_request (hs_requests s !! id).
Definition put_request (id : Z) (r : request) (s : server) : server := with_requests <[id := r]> s.

Definition with_reply (reply : wadb_http_reply) (charge : Z) (r : request) : request :=
  HttpRequest (hr_path r) (hr_method r) (hr_session r) (hr_csrf r) (hr_bearer r) (hr_authorized r) (hr_queued r) (hr_ready r)
    charge (hr_body r) (hr_capacity r) reply (hr_cookie r).
Definition with_upload (body : list Z) (capacity : Z) (r : request) : request :=
  HttpRequest (hr_path r) (hr_method r) (hr_session r) (hr_csrf r) (hr_bearer r) (hr_authorized r) (hr_queued r) (hr_ready r)
    (hr_charge r) body capacity (hr_reply r) (hr_cookie r).
Definition with_flags (queued ready : bool) (r : request) : request :=
  HttpRequest (hr_path r) (hr_method r) (hr_session r) (hr_csrf r) (hr_bearer r) (hr_authorized r) queued ready
    (hr_charge r) (hr_body r) (hr_capacity r) (hr_reply r) (hr_cookie r).
Definition with_cookie (text : list Z) (r : request) : request :=
  HttpRequest (hr_path r) (hr_method r) (hr_session r) (hr_csrf r) (hr_bearer r) (hr_authorized r) (hr_queued r) (hr_ready r)
    (hr_charge r) (hr_body r) (hr_capacity r) (hr_reply r) text.

(** ** Replies *)

(** What a call of the library returns: it gives the connection up, a response is on its
    way, or the request goes on. *)
Inductive verdict := Dropped | Answered | Continue.

(** What happens to a reply on its way to the library: if its holder and its response could
    be allocated, and if the library took it. *)
Record delivery := Delivery {
  dl_holder : bool;
  dl_response : bool;
  dl_queued : bool;
}.
Definition release_response (reserved : Z) (s : server) : server :=
  with_budgets (hs_upload_bytes s) (u64 (hs_response_bytes s - reserved)) (hs_held s) s.
(** A response that the library did not take is released at once. *)
Definition send_reply (id : Z) (d : delivery) (s : server) : verdict * server :=
  let r := the_request id s in
  let length := re_length (hr_reply r) in
  if (hr_charge r =? 0) && (length >? u64 (RESPONSE_BUDGET - hs_response_bytes s)) then (Dropped, s)
  else
    let s :=
      if hr_charge r =? 0 then
        put_request id (with_reply (hr_reply r) length r)
          (with_budgets (hs_upload_bytes s) (u64 (hs_response_bytes s + length)) (hs_held s) s)
      else s in
    let r := the_request id s in
    if negb (dl_holder d) then (Dropped, s)
    else
      let reserved := if hr_charge r =? 0 then 0 else length in
      let s := put_request id (with_reply no_reply 0 r) s in
      if negb (dl_response d) then (Dropped, release_response reserved s)
      else if dl_queued d then (Answered, with_budgets (hs_upload_bytes s) (hs_response_bytes s) (hs_held s ++ [reserved]) s)
      else (Dropped, release_response reserved s).
(** The library is done with the response at position [i]. *)
Definition response_released (i : nat) (s : server) : server :=
  match hs_held s !! i with
  | Some reserved => release_response reserved (with_budgets (hs_upload_bytes s) (hs_response_bytes s) (delete i (hs_held s)) s)
  | None => s
  end.
(** [text] and [strdup] are what [wadb_http_error] can allocate. *)
Definition error_reply (id status : Z) (text : option (list Z)) (strdup : bool) (d : delivery) (s : server) : verdict * server :=
  let r := the_request id s in
  send_reply id d (put_request id (with_reply (wadb_http_error status text strdup) (hr_charge r) r) s).
Definition completed (id : Z) (s : server) : server :=
  match hs_requests s !! id with
  | None => s
  | Some r =>
      with_requests (delete id)
        (with_budgets (u64 (hs_upload_bytes s - hr_capacity r)) (u64 (hs_response_bytes s - hr_charge r)) (hs_held s) s)
  end.

(** ** Bodies *)

(** [alloc] is the outcome of [realloc]. *)
Definition reserve_body (id need : Z) (alloc : bool) (s : server) : bool * server :=
  let r := the_request id s in
  if need >? WADB_HTTP_BODY_LIMIT then (false, s)
  else if need <=? hr_capacity r then (true, s)
  else
    let cap := if hr_capacity r =? 0 then 4096 else hr_capacity r * 2 in
    let cap := if cap <? need then need else cap in
    let cap := if cap >? WADB_HTTP_BODY_LIMIT then WADB_HTTP_BODY_LIMIT else cap in
    if u64 (cap - hr_capacity r) >? u64 (UPLOAD_BUDGET - hs_upload_bytes s) then (false, s)
    else if negb alloc then (false, s)
    else
      (true, put_request id (with_upload (hr_body r) cap r)
               (with_budgets (u64 (hs_upload_bytes s + (cap - hr_capacity r))) (hs_response_bytes s) (hs_held s) s)).

(** ** The work queue *)

Definition queue_push (id : Z) (q : work_queue) : work_queue :=
  WorkQueue (wr (wq_ring q) ((wq_head q + wq_count q) `mod` QUEUE_LIMIT) id) (wq_head q) (wq_count q + 1).
Definition queue_pop (q : work_queue) : Z * work_queue :=
  (rd (wq_ring q) (wq_head q), WorkQueue (wq_ring q) ((wq_head q + 1) `mod` QUEUE_LIMIT) (wq_count q - 1)).
(** The first section of the loop of [worker]: no request to take is [None]. *)
Definition worker_take (s : server) : option (Z * server) :=
  if wq_count (hs_queue s) =? 0 then None
  else let '(id, q) := queue_pop (hs_queue s) in Some (id, with_queue q (id :: hs_working s) s).
(** The section after [wadb_api_dispatch], which made [reply]: what was reserved and is not
    used is given back. *)
Definition worker_done (id : Z) (reply : wadb_http_reply) (s : server) : server :=
  let r := the_request id s in
  let unused := u64 (hr_charge r - re_length reply) in
  with_queue (hs_queue s) (filter (λ k, k ≠ id) (hs_working s))
    (put_request id (with_flags (hr_queued r) true (with_reply reply (re_length reply) r))
       (with_budgets (hs_upload_bytes s) (u64 (hs_response_bytes s - unused)) (hs_held s) s)).

(** ** Headers and arguments *)

(** A header of the request: the value may be missing. *)
Definition header : Type := list Z * option (list Z).
Definition lower (c : Z) : Z := if (65 <=? c) && (c <=? 90) then c + 32 else c.
Definition same_name (a b : list Z) : bool := bytes_eqb (map lower a) (map lower b).
Definition single_headers : list (list Z) :=
  [cstr "Host"; cstr "Origin"; cstr "Authorization"; cstr "X-CSRF-Token"; cstr "Content-Type"; cstr "Cookie"; cstr "Last-Event-ID";
   cstr "Content-Length"; cstr "Content-Encoding"].
(** The iteration over all headers: the counts of the nine names, or [None] when one of
    them came twice or a text has a terminator inside. *)
Definition no_terminator (s : list Z) : bool := zlen (c_string s) =? zlen s.
Fixpoint check_headers (l : list header) (counts : list Z) : option (list Z) :=
  match l with
  | [] => Some counts
  | (key, value) :: l' =>
      if negb (no_terminator key) || negb (match value with Some v => no_terminator v | None => false end) then None
      else
        let counts := zip_with (λ name n, if same_name key name then n + 1 else n) single_headers counts in
        if existsb (λ n, n >? 1) counts then None else check_headers l' counts
  end.
(** The values that [MHD_lookup_connection_value] finds. *)
Record connection := Connection {
  cn_headers : list header;
  cn_host : list Z;
  cn_origin : option (list Z);
  cn_site : option (list Z);
  cn_size : option (list Z);
  cn_transfer : option (list Z);
  cn_type : option (list Z);
  cn_authorization : option (list Z);
  cn_session : option (list Z);
  cn_csrf : option (list Z);
  cn_arguments : list header;
}.
Fixpoint query_arguments (l : list header) (acc : members) : result members :=
  match l with
  | [] => Ok acc
  | (key, value) :: l' =>
      match value with
      | None => Err WADB_INVALID
      | Some v =>
          if (zlen key =? 0) || (zlen key >=? WADB_NAME_CAP) || (zlen v >? 128) || negb (no_terminator key) || negb (no_terminator v) ||
             (zlen acc >=? 16) || existsb (λ m, bytes_eqb m.1 key) acc then Err WADB_INVALID
          else query_arguments l' (acc ++ [(key, JStr v)])
      end
  end.
(** The JSON of the arguments becomes the body of a GET; [opened] is the outcome of
    [wadb_json_init], [finish] what [wadb_json_finish] makes of members or of an error,
    [overload] the reply to a full budget. *)
Definition arguments (id : Z) (l : list header) (opened : result unit) (finish : Z → result members → wadb_http_reply)
    (overload : wadb_http_reply) (alloc : bool) (s : server) : bool * server :=
  let r := the_request id s in
  let refuse answer s := (false, put_request id (with_reply answer (hr_charge r) (the_request id s)) s) in
  let found := _ ← opened; query_arguments l [] in
  let found := match found with
               | Ok acc => if negb (text_is (hr_method r) "GET") && negb (zlen acc =? 0) then Err WADB_INVALID else Ok acc
               | Err e => Err e end in
  match found with
  | Err e => refuse (finish 400 (Err e)) s
  | Ok acc =>
      if negb (text_is (hr_method r) "GET") then (true, s)
      else
        let answer := finish 200 (Ok acc) in
        if re_status answer >=? 400 then refuse answer s
        else
          let '(ok, s) := reserve_body id (re_length answer) alloc s in
          if ok : bool then (true, let r := the_request id s in put_request id (with_upload (default [] (re_body answer)) (hr_capacity r) r) s)
          else refuse overload s
  end.

(** ** Admission *)

(** What the environment decides during one call: allocations, the text of errors by their
    status, what becomes of a reply, random bytes of a login, the JSON library's reading of
    the body and what [wadb_json_finish] makes of members or an error, and if the socket of
    a stream could be set up. *)
Record access_input := AccessInput {
  xi_alloc : bool;
  xi_text : Z → option (list Z);
  xi_strdup : bool;
  xi_delivery : delivery;
  xi_body_alloc : bool;
  xi_opened : result unit;
  xi_random_session : list Z;
  xi_random_csrf : list Z;
  xi_parsed : list Z → result (option yyjson_val);
  xi_finish : Z → result members → wadb_http_reply;
  xi_socket : bool;
}.
Definition refuse (x : access_input) (id status : Z) (s : server) : verdict * server :=
  error_reply id status (xi_text x status) (xi_strdup x) (xi_delivery x) s.
Definition is_public (post : bool) (path : list Z) : bool :=
  (negb post && (text_is path "/" || text_is path "/app.js" || text_is path "/style.css")) || (post && text_is path "/api/v1/session").
Definition secret_text (v : option (list Z)) : list Z :=
  match v with Some t => if zlen t =? 64 then t else [] | None => [] end.
(** The checks of the headers, in their order: the status of a refusal, or nothing. *)
Definition headers_refused (s : server) (post : bool) (cn : connection) : option Z :=
  match check_headers (cn_headers cn) (zrep 9 0) with
  | None => Some 400
  | Some counts =>
      let declared := match cn_size cn with Some t => wadb_decimal_u64 t | None => Some 0 end in
      if negb (rd counts 0 =? 1) then Some 400
      else if negb (bytes_eqb (cn_host cn) (hs_host s)) ||
              negb (match cn_origin cn with Some o => bytes_eqb o (hs_origin s) | None => true end) ||
              negb (match cn_site cn with Some v => text_is v "same-origin" || text_is v "none" | None => true end) then Some 403
      else if negb (rd counts 8 =? 0) then Some 415
      else
        match declared with
        | None => Some 413
        | Some n =>
            if n >? WADB_HTTP_BODY_LIMIT then Some 413
            else if negb post && (negb (n =? 0) || bool_decide (is_Some (cn_transfer cn))) then Some 400
            else if post && negb (match cn_type cn with
                                  | Some t => text_is t "application/json" || text_is t "application/json; charset=utf-8"
                                  | None => false end) then Some 415
            else None
        end
  end.
(** Who the client is: with the administrator's token, or with a session, which for a POST
    needs its CSRF token too. *)
Definition authenticate (post : bool) (cn : connection) (s : server) : bool * bool * server :=
  let session := secret_text (cn_session cn) in
  let csrf := secret_text (cn_csrf cn) in
  if wadb_auth_bearer (hs_auth s).1 (cn_authorization cn) then (true, true, s)
  else
    let '(found, auth) := wadb_auth_session (Some session) (Some csrf) post (hs_auth s) in
    (false, match found with Ok (Some _) => true | _ => false end, with_auth auth s).
(** The first call of [access_request] for a request, whose address is [id]. *)
Definition access_begin (x : access_input) (id : Z) (path method : list Z) (cn : connection) (s : server) : verdict * server :=
  if negb (xi_alloc x) then (Dropped, s)
  else
    let s := put_request id new_request s in
    if negb (hs_ready s && negb (hs_stopping s)) then refuse x id 503 s
    else if (zlen path >=? 256) || (zlen method >=? 8) then refuse x id 400 s
    else
      let start := HttpRequest path method [] [] false false false false 0 [] 0 no_reply [] in
      let s := put_request id start s in
      let post := text_is method "POST" in
      if negb (text_is method "GET") && negb post then refuse x id 405 s
      else
        match headers_refused s post cn with
        | Some status => refuse x id status s
        | None =>
            let '(bearer, authorized, s) := authenticate post cn s in
            let r := HttpRequest path method (secret_text (cn_session cn)) (secret_text (cn_csrf cn)) bearer authorized false false
                       0 [] 0 no_reply [] in
            let s := put_request id r s in
            if negb (is_public post path) && negb authorized then refuse x id 401 s
            else
              let overload := wadb_http_error 429 (xi_text x 429) (xi_strdup x) in
              let '(ok, s) := arguments id (cn_arguments cn) (xi_opened x) (xi_finish x) overload (xi_body_alloc x) s in
              if ok : bool then (Continue, s) else send_reply id (xi_delivery x) s
        end.

(** ** A part of the body *)

Definition access_upload (x : access_input) (id : Z) (upload : list Z) (s : server) : verdict * server :=
  let r := the_request id s in
  if negb (text_is (hr_method r) "POST") then (Dropped, s)
  else if negb (re_status (hr_reply r) =? 0) then (Dropped, s)
  else
    let answer status s := (Dropped, put_request id (with_reply (wadb_http_error status (xi_text x status) (xi_strdup x)) (hr_charge r) (the_request id s)) s) in
    if zlen upload >? u64 (WADB_HTTP_BODY_LIMIT - zlen (hr_body r)) then answer 413 s
    else
      let '(ok, s) := reserve_body id (zlen (hr_body r) + zlen upload) (xi_body_alloc x) s in
      if ok : bool then (Continue, let r := the_request id s in put_request id (with_upload (hr_body r ++ upload) (hr_capacity r) r) s)
      else answer 429 s.

(** ** Sessions *)

Definition cookie_text (secure : bool) (session : list Z) (clear : bool) : list Z :=
  cstr "wadb_session=" ++ session ++ cstr "; Path=/; HttpOnly; SameSite=Strict; Max-Age=" ++
  print_u64 (if clear then 0 else 43200) ++ (if secure then cstr "; Secure" else []).
Definition set_cookie (id : Z) (session : list Z) (clear : bool) (s : server) : server :=
  put_request id (with_cookie (snprintf 256 (cookie_text (hs_secure s) session clear)) (the_request id s)) s.
Definition LOGOUT_BODY : list Z := map (λ c, if c =? 39 then 34 else c) (cstr "{'ok':true}").
(** The reply to a request with the credentials [c], or to an error with its status. *)
Definition session_reply (x : access_input) (s : server) (status : Z) (c : result wadb_credentials) : wadb_http_reply :=
  let answer := xi_finish x status
    (c ← c; Ok [member_bool "ok" true; member_string "csrf" (cr_csrf c); member_string "boot_id" (hs_boot_id s)]) in
  if status >=? 400 then with_status status answer else answer.
Definition login_status (e : wadb_status) : Z :=
  match e with WADB_BACKPRESSURE => 429 | WADB_INVALID => 401 | _ => 503 end.
Definition reply_with (x : access_input) (id : Z) (answer : wadb_http_reply) (s : server) : verdict * server :=
  send_reply id (xi_delivery x) (put_request id (with_reply answer (hr_charge (the_request id s)) (the_request id s)) s).
Definition session_action (x : access_input) (id : Z) (s : server) : verdict * server :=
  let r := the_request id s in
  if text_is (hr_path r) "/api/v1/logout" then
    let '(_, auth) := wadb_auth_logout (Some (hr_session r)) (hs_auth s) in
    let s := set_cookie id [] true (with_auth auth s) in
    if xi_strdup x then reply_with x id (Reply 200 (Some LOGOUT_BODY) 11) s
    else (Dropped, put_request id (with_reply (Reply 200 None 11) (hr_charge r) (the_request id s)) s)
  else
    match xi_parsed x (hr_body r) with
    | Err e => reply_with x id (xi_finish x 400 (Err e)) s
    | Ok root =>
        if text_is (hr_method r) "POST" then
          match wadb_json_allowed root "token" with
          | Err e => reply_with x id (session_reply x s 200 (Err e)) s
          | Ok _ =>
              let '(c, auth) := wadb_auth_login (get_str (member root "token")) (xi_random_session x) (xi_random_csrf x) (hs_auth s) in
              let s := with_auth auth s in
              match c with
              | Ok c => let s := set_cookie id (cr_session c) false s in reply_with x id (session_reply x s 200 (Ok c)) s
              | Err e => reply_with x id (session_reply x s (login_status e) (Err e)) s
              end
          end
        else
          match wadb_json_allowed root "" with
          | Err e => reply_with x id (session_reply x s 200 (Err e)) s
          | Ok _ =>
              let '(found, auth) := wadb_auth_session (Some (hr_session r)) None false (hs_auth s) in
              let s := with_auth auth s in
              match found with
              | Ok (Some c) => reply_with x id (session_reply x s 200 (Ok c)) s
              | _ => reply_with x id (session_reply x s 401 (Err WADB_INVALID)) s
              end
          end
    end.

(** ** Streams and assets *)

(** What [open_stream] decides; the state of the stream is in Feed.v, here it has the
    address of its request. *)
Definition stream_request (x : access_input) (id : Z) (s : server) : verdict * server :=
  let r := the_request id s in
  if negb (xi_socket x) then refuse x id 503 s
  else if negb (xi_alloc x) then refuse x id 503 s
  else
    match (root ← xi_parsed x (hr_body r); _ ← wadb_json_allowed root "boot|after"; Ok root) with
    | Err e => reply_with x id (xi_finish x 400 (Err e)) s
    | Ok _ =>
        if (zlen (hs_streams s) >=? STREAM_LIMIT) || hs_stopping s then refuse x id 429 s
        else if dl_response (xi_delivery x) && dl_queued (xi_delivery x) then (Answered, with_streams (id :: hs_streams s) s)
        else (Dropped, s)
    end.
Definition stream_free (id : Z) (s : server) : server := with_streams (filter (λ k, k ≠ id) (hs_streams s)) s.
Definition static_response (x : access_input) (id : Z) (s : server) : verdict * server :=
  let path := hr_path (the_request id s) in
  if text_is path "/" || text_is path "/app.js" || text_is path "/style.css"
  then (if dl_response (xi_delivery x) && dl_queued (xi_delivery x) then Answered else Dropped, s)
  else refuse x id 404 s.

(** ** A complete request *)

Definition admit_work (x : access_input) (id : Z) (s : server) : verdict * server :=
  let r := the_request id s in
  let reply_limit := wadb_api_reply_limit (hr_method r) (hr_path r) in
  if hs_stopping s || (wq_count (hs_queue s) >=? QUEUE_LIMIT) || (reply_limit + 65536 >? u64 (RESPONSE_BUDGET - hs_response_bytes s))
  then refuse x id 429 s
  else
    (Continue, with_queue (queue_push id (hs_queue s)) (hs_working s)
             (put_request id (with_flags true (hr_ready r) (with_reply (hr_reply r) reply_limit r))
                (with_budgets (hs_upload_bytes s) (u64 (hs_response_bytes s + reply_limit)) (hs_held s) s))).
Definition access_complete (x : access_input) (id : Z) (s : server) : verdict * server :=
  let r := the_request id s in
  if hr_ready r || negb (re_status (hr_reply r) =? 0) then send_reply id (xi_delivery x) s
  else if hs_stopping s then refuse x id 503 s
  else if text_is (hr_path r) "/api/v1/session" then session_action x id s
  else if text_is (hr_path r) "/api/v1/logout" && text_is (hr_method r) "POST" then session_action x id s
  else if text_is (hr_path r) "/api/v1/stream" && text_is (hr_method r) "GET" then stream_request x id s
  else if negb (bytes_eqb (take 5 (hr_path r)) (cstr "/api/")) && text_is (hr_method r) "GET" then static_response x id s
  else admit_work x id s.

(** ** Starting *)

Definition host_char (c : Z) : bool :=
  ((97 <=? c) && (c <=? 122)) || ((65 <=? c) && (c <=? 90)) || ((48 <=? c) && (c <=? 57)) || (c =? 46) || (c =? 45) || (c =? 58).
(** The host and if the origin is secure; [None] refuses it. *)
Definition configure_origin (origin : list Z) : option (list Z * bool) :=
  if zlen origin >=? 256 then None
  else
    match (if bytes_eqb (take 8 origin) (cstr "https://") then Some (drop 8 origin, true)
           else if bytes_eqb (take 7 origin) (cstr "http://") then Some (drop 7 origin, false) else None) with
    | None => None
    | Some (host, secure) => if (zlen host =? 0) || (zlen host >=? 240) || negb (forallb host_char host) then None else Some (host, secure)
    end.
(** The address is [None] when it is not numeric IPv4. *)
Definition binding_allowed (address : option Z) (public_origin : option (list Z)) : bool :=
  match address with
  | None => false
  | Some a =>
      (Z.shiftr a 24 =? 127) ||
      match public_origin with Some o => bytes_eqb (take 8 o) (cstr "https://") | None => false end
  end.
Definition default_origin (bind : list Z) (port : Z) : list Z := cstr "http://" ++ bind ++ cstr ":" ++ print_u64 port.
Definition new_server (origin host boot_id : list Z) (secure : bool) (auth : auth_state) : server :=
  Server origin host secure boot_id false false auth ∅ (WorkQueue (zrep QUEUE_LIMIT 0) 0 0) [] 0 0 [] [].
(** The outcomes of the calls of [wadb_server_start], in their order, but for those on the
    token file; the port is the one that the listener got. *)
Record start_input := StartInput {
  si_alloc : bool;
  si_mutex : bool;
  si_condition : bool;
  si_owner_only : bool;
  si_random : list Z;
  si_boot_id : option (list Z);
  si_jobs : result unit;
  si_port : option Z;
  si_workers : list bool;
  si_ticker : bool;
}.
Definition passed (b : bool) (e : wadb_status) : M os unit := if b then mret tt else mfail e.
Definition given {A} (v : option A) (e : wadb_status) : M os A := match v with Some a => mret a | None => mfail e end.
Definition with_system (f : os → server) : M os server := λ w, (Ok (f w), w).
(** [address] is [bind] as [inet_pton] reads it, [None] when it is not numeric. A server that
    could not start is stopped again. *)
Definition wadb_server_start (i : start_input) (address : option Z) (bind : list Z) (public_origin : option (list Z)) (token_file : option path)
    : M os server :=
  token_file ← given token_file WADB_INVALID;
  _ ← passed (binding_allowed address public_origin) WADB_INVALID;
  _ ← passed (si_alloc i) WADB_NOMEM;
  _ ← passed (si_mutex i) WADB_IO;
  _ ← passed (si_condition i) WADB_IO;
  a ← wadb_auth_open token_file (si_owner_only i) (si_random i);
  boot_id ← given (si_boot_id i) WADB_IO;
  _ ← mlift (si_jobs i);
  port ← given (si_port i) WADB_IO;
  let origin := match public_origin with Some o => o | None => snprintf 256 (default_origin bind port) end in
  '(host, secure) ← given (configure_origin origin) WADB_INVALID;
  _ ← passed (forallb (λ k, nth k (si_workers i) false) (seq 0 WORKERS)) WADB_IO;
  _ ← passed (si_ticker i) WADB_IO;
  with_system (λ w, with_lifecycle true false (new_server origin host boot_id secure (a, w))).
Definition server_stop (s : server) : server := with_lifecycle (hs_ready s) true s.

(** ** The ticker *)

(** What the environment decides during a pass of the loop of [tick]: the clock, the replies
    and the memory for the two messages, and if the server stops. *)
Record tick_input := TickInput {
  tk_now : Z;
  tk_commits : yyjson_val → wadb_http_reply;
  tk_commits_alloc : bool;
  tk_api : api_input;
  tk_reply : reply_input;
  tk_stats_alloc : bool;
  tk_stopping : bool;
}.
Definition expire_cursors (sys : job_system) : job_system :=
  System (sy_jobs sys) (sy_threads sys) (snd (iw_step wadb_cursor_expire (sy_ingestion sys))).
Section ticker.
Variable read : list Z → wadb_json_memory → option yyjson_val * wadb_json_memory.
Variable write : yyjson_val → wadb_json_memory → option (list Z) * wadb_json_memory.
(** A pass: the time of the next statistics, the feed, the database and the streams after it. *)
Definition tick (t : tick_input) (next_stats : Z) (f : server_feed) (sys : job_system) (streams : list stream)
    : Z * server_feed * job_system * list stream :=
  let now := tk_now t in
  let f := publish_commits (ring (g_db (iw_database (sy_ingestion sys)))) (tk_commits t) (tk_commits_alloc t) f in
  let '(next_stats, f, sys) :=
    if now >=? next_stats then
      let '(reply, sys) :=
        wadb_api_dispatch read write (tk_api t) (tk_reply t) (sf_boot_id f) (feed_cursor f) (cstr "GET") (cstr "/api/v1/stats") [] sys in
      let '(_, f) := publish (cstr "stats") reply (tk_stats_alloc t) f in
      (u64 (now + 1000000000), f, expire_cursors sys)
    else (next_stats, f, sys) in
  (next_stats, f, sys, map (tick_stream (tk_stopping t) now) streams).
(** The last pass closes every stream and leaves none asleep. *)
Lemma last_tick_closes t next_stats f sys streams : tk_stopping t = true →
  Forall (λ c, sm_closing c = true ∧ sm_suspended c = false) (tick t next_stats f sys streams).2.
Proof.
  intros E. unfold tick. rewrite E. repeat case_match; cbn [snd]; apply Forall_fmap, Forall_true; done.
Qed.
End ticker.

(** ** All that can happen *)

(** The requests in the queue, the next one first. *)
Definition queue_items (q : work_queue) : list Z := map (λ i, rd (wq_ring q) ((wq_head q + i) `mod` QUEUE_LIMIT)) (seqZ 0 (wq_count q)).
Definition suspended (s : server) (id : Z) : Prop := id ∈ queue_items (hs_queue s) ++ hs_working s.
(** A reply of the JSON code. *)
Definition reply_ok (r : wadb_http_reply) : Prop :=
  0 ≤ re_length r ≤ UINT32_MAX ∧ re_status r ≠ 0 ∧ ∀ b, re_body r = Some b → zlen b = re_length r.
Definition input_ok (x : access_input) : Prop :=
  (∀ status l, reply_ok (xi_finish x status l)) ∧ (∀ status t, xi_text x status = Some t → zlen t ≤ UINT32_MAX).
(** The server, and the requests that the library will not ask about any more: they have a
    response, or their connection is given up. *)
Definition http_state : Type := server * gset Z.
Definition noted (v : verdict) (id : Z) (answered : gset Z) : gset Z :=
  match v with Continue => answered | _ => {[id]} ∪ answered end.
(** How a request came in: the state of the server, and what the library said of the request. *)
Record arrival := Arrival {
  ar_server : server;
  ar_path : list Z;
  ar_method : list Z;
  ar_connection : connection;
}.
(** A step, labelled with the arrival of a request if it is the first call for one.
    The library makes no call for a request that is suspended or answered, until its end.
    The reply of a worker has the size that [dispatch_reply_fits] of Api.v shows. *)
Inductive http_step : option (Z * arrival) → http_state → http_state → Prop :=
  | step_begin x id path method cn v s answered s' :
      hs_requests s !! id = None → xi_alloc x = true → input_ok x → access_begin x id path method cn s = (v, s') →
      http_step (Some (id, Arrival s path method cn)) (s, answered) (s', noted v id answered)
  | step_upload x id upload v s answered s' :
      is_Some (hs_requests s !! id) → ¬ suspended s id → id ∉ answered → input_ok x → zlen upload ≤ UINT32_MAX →
      access_upload x id upload s = (v, s') → http_step None (s, answered) (s', noted v id answered)
  | step_complete x id v s answered s' :
      is_Some (hs_requests s !! id) → ¬ suspended s id → id ∉ answered → input_ok x →
      access_complete x id s = (v, s') → http_step None (s, answered) (s', noted v id answered)
  | step_completed id s answered :
      ¬ suspended s id → http_step None (s, answered) (completed id s, answered ∖ {[id]})
  | step_released i s answered : http_step None (s, answered) (response_released i s, answered)
  | step_take id s answered s' : worker_take s = Some (id, s') → http_step None (s, answered) (s', answered)
  | step_done id reply s answered :
      id ∈ hs_working s → reply_ok reply →
      re_length reply ≤ wadb_api_reply_limit (hr_method (the_request id s)) (hr_path (the_request id s)) →
      http_step None (s, answered) (worker_done id reply s, answered)
  | step_stream_free id s answered : http_step None (s, answered) (stream_free id s, answered)
  | step_server_stop s answered : http_step None (s, answered) (server_stop s, answered).
Inductive http_reachable : http_state → Prop :=
  | http_started origin host boot_id secure auth :
      http_reachable (with_lifecycle true false (new_server origin host boot_id secure auth), ∅)
  | http_next label t t' : http_reachable t → http_step label t t' → http_reachable t'.
(** The same runs with their past: how the latest request under each address came in. *)
Definition record_arrival (label : option (Z * arrival)) (h : gmap Z arrival) : gmap Z arrival :=
  match label with Some (id, a) => <[id := a]> h | None => h end.
Inductive http_history : gmap Z arrival → http_state → Prop :=
  | history_started origin host boot_id secure auth :
      http_history ∅ (with_lifecycle true false (new_server origin host boot_id secure auth), ∅)
  | history_next h label t t' : http_history h t → http_step label t t' → http_history (record_arrival label h) t'.
Lemma reachable_history t : http_reachable t → ∃ h, http_history h t.
Proof. induction 1 as [|label t t' _ [h Hh] Hstep]; [eexists; apply history_started|]. exists (record_arrival label h). by eapply history_next. Qed.

(** ** Sums over requests *)

Definition total (f : request → Z) (m : gmap Z request) : Z := map_fold (λ _ r n, f r + n) 0 m.
Lemma total_insert f m id r : m !! id = None → total f (<[id := r]> m) = f r + total f m.
Proof. intros H. unfold total. rewrite map_fold_insert_L; [done|intros; lia|done]. Qed.
Lemma total_delete f m id r : m !! id = Some r → total f m = f r + total f (delete id m).
Proof. intros H. rewrite <-(insert_delete_id m id r H) at 1. apply total_insert, lookup_delete_eq. Qed.
Lemma total_update f m id r r' : m !! id = Some r → total f (<[id := r']> m) = total f m - f r + f r'.
Proof.
  intros H. pose proof (total_delete f m id r H). rewrite <-(insert_delete_eq m id r'), total_insert by apply lookup_delete_eq. lia.
Qed.
Lemma total_nonneg f m : map_Forall (λ _ r, 0 ≤ f r) m → 0 ≤ total f m.
Proof.
  induction m as [|id r m Hid IH] using map_ind; [done|]. intros [Hr Hm]%map_Forall_insert; [|done].
  rewrite total_insert by done. specialize (IH Hm). lia.
Qed.
Definition sum (l : list Z) : Z := foldr Z.add 0 l.
#[local] Arguments sum : simpl never.
Lemma sum_app l k : sum (l ++ k) = sum l + sum k.
Proof. unfold sum. induction l as [|x l IH]; cbn in *; lia. Qed.
Lemma sum_delete l i x : l !! i = Some x → sum l = x + sum (delete i l).
Proof.
  intros Hi. rewrite <-(take_drop_middle l i x Hi) at 1. rewrite delete_take_drop, !sum_app. unfold sum. cbn [foldr]. lia.
Qed.
Lemma sum_nonneg l : Forall (λ x, 0 ≤ x) l → 0 ≤ sum l.
Proof. unfold sum. induction 1; cbn; lia. Qed.

(** ** The budgets *)

Record request_sized (r : request) : Prop := {
  rz_charge : 0 ≤ hr_charge r;
  rz_body : zlen (hr_body r) ≤ hr_capacity r ≤ WADB_HTTP_BODY_LIMIT;
}.
Record balanced (s : server) : Prop := {
  bl_requests id r : hs_requests s !! id = Some r → request_sized r;
  bl_held : Forall (λ x, 0 ≤ x) (hs_held s);
  bl_upload : hs_upload_bytes s = total hr_capacity (hs_requests s);
  bl_upload_max : hs_upload_bytes s ≤ UPLOAD_BUDGET;
  bl_response : hs_response_bytes s = total hr_charge (hs_requests s) + sum (hs_held s);
  bl_response_max : hs_response_bytes s ≤ RESPONSE_BUDGET;
}.
Lemma balanced_nonneg s : balanced s → 0 ≤ hs_upload_bytes s ∧ 0 ≤ hs_response_bytes s ∧ 0 ≤ total hr_charge (hs_requests s).
Proof.
  intros [Hr Hh -> _ -> _]. pose proof (sum_nonneg _ Hh). assert (0 ≤ total hr_charge (hs_requests s)).
  { apply total_nonneg. intros id r Hid. apply (Hr _ _ Hid). }
  assert (0 ≤ total hr_capacity (hs_requests s)); [|lia].
  apply total_nonneg. intros id r Hid. destruct (Hr _ _ Hid) as [_ ?]. pose proof (zlen_nonneg (hr_body r)). cbn. lia.
Qed.
(** One request changes, and the budgets by as much as its share does. *)
Lemma balanced_update s s' id r r' :
  balanced s → hs_requests s !! id = Some r → request_sized r' → hs_requests s' = <[id := r']> (hs_requests s) →
  hs_held s' = hs_held s → hs_upload_bytes s' = hs_upload_bytes s + (hr_capacity r' - hr_capacity r) →
  hs_response_bytes s' = hs_response_bytes s + (hr_charge r' - hr_charge r) →
  hs_upload_bytes s' ≤ UPLOAD_BUDGET → hs_response_bytes s' ≤ RESPONSE_BUDGET → balanced s'.
Proof.
  intros [Hr Hh Hu Hum Hp Hpm] Hid Hok Ereq Eheld Eup Eresp ??. split; [|by rewrite Eheld| |done| |done].
  - intros k rk. rewrite Ereq. intros [[_ <-]|[_ Hk]]%lookup_insert_Some; [done|by eapply Hr].
  - rewrite Eup, Ereq, (total_update _ _ _ r), Hu by done. lia.
  - rewrite Eresp, Ereq, Eheld, (total_update _ _ _ r), Hp by done. lia.
Qed.

(** ** Calls about one request *)

(** Nothing but the request [id] and the budgets changes. *)
Record only (id : Z) (s s' : server) : Prop := {
  on_others k : k ≠ id → hs_requests s' !! k = hs_requests s !! k;
  on_live : is_Some (hs_requests s' !! id);
  on_queue : hs_queue s' = hs_queue s;
  on_working : hs_working s' = hs_working s;
  on_streams : hs_streams s' = hs_streams s;
}.
Lemma only_trans id s1 s2 s3 : only id s1 s2 → only id s2 s3 → only id s1 s3.
Proof. intros [H1 _ Hq Hw Hs] [H2 Hl Hq' Hw' Hs']. split; [|done|congruence..]. intros k Hk. by rewrite H2, H1. Qed.
Lemma the_request_lookup id r s : hs_requests s !! id = Some r → the_request id s = r.
Proof. unfold the_request. by intros ->. Qed.
Lemma put_lookup id r s : hs_requests (put_request id r s) !! id = Some r.
Proof. apply lookup_insert_eq. Qed.
Lemma only_put id r s s' : hs_requests s' = <[id := r]> (hs_requests s) → hs_queue s' = hs_queue s → hs_working s' = hs_working s →
  hs_streams s' = hs_streams s → only id s s'.
Proof.
  intros E Hq Hw Hs. split; [|rewrite E, lookup_insert_eq; eauto|done..]. intros k Hk. by rewrite E, lookup_insert_ne.
Qed.
Ltac unfold_budgets := unfold UPLOAD_BUDGET, RESPONSE_BUDGET, WADB_HTTP_BODY_LIMIT, WADB_HTTP_REPLY_LIMIT, WADB_HTTP_APPEND_REPLY_LIMIT in *; unfold_widths.
(** The reply of the request is given away: its reservation goes to the library, or back. *)
Lemma hand_over id r s (kept_by_library : bool) reserved :
  balanced s → hs_requests s !! id = Some r → hr_charge r = reserved →
  let s1 := put_request id (with_reply no_reply 0 r) s in
  let s' := if kept_by_library then with_budgets (hs_upload_bytes s1) (hs_response_bytes s1) (hs_held s1 ++ [reserved]) s1
            else release_response reserved s1 in
  balanced s' ∧ only id s s'.
Proof.
  intros Hb Hid Hc s1 s'. pose proof (balanced_nonneg _ Hb) as (Hu0&Hp0&Ht0). pose proof Hb as [Hr Hh Hu Hum Hp Hpm].
  pose proof (Hr _ _ Hid) as [Hc0 Hbody]. assert (Htot : total hr_charge (hs_requests s) = hr_charge r + total hr_charge (delete id (hs_requests s))) by (by apply total_delete).
  assert (Hd0 : 0 ≤ total hr_charge (delete id (hs_requests s))).
  { apply total_nonneg. intros k rk [_ Hk]%lookup_delete_Some. apply (Hr _ _ Hk). }
  pose proof (sum_nonneg _ Hh) as Hs0. destruct kept_by_library; (split; [|by eapply only_put]).
  - split; cbn.
    + intros k rk [[_ <-]|[_ Hk]]%lookup_insert_Some; [by split|by eapply Hr].
    + apply Forall_app. split; [done|]. constructor; [lia|constructor].
    + rewrite (total_update _ _ _ r) by done. cbn. lia.
    + done.
    + rewrite (total_update _ _ _ r), sum_app by done. unfold sum at 2. cbn. lia.
    + done.
  - assert (Hu64 : u64 (hs_response_bytes s - reserved) = hs_response_bytes s - reserved) by (apply u64_id; unfold_budgets; lia).
    eapply (balanced_update s s' id r (with_reply no_reply 0 r)); [done|done|by split|done|done|cbn; lia|cbn; rewrite Hu64; lia|done|].
    cbn. rewrite Hu64. lia.
Qed.
Lemma send_reply_spec id r d s v s' : balanced s → hs_requests s !! id = Some r → 0 ≤ re_length (hr_reply r) ≤ UINT32_MAX →
  (hr_charge r ≠ 0 → hr_charge r = re_length (hr_reply r)) → send_reply id d s = (v, s') →
  balanced s' ∧ only id s s' ∧ v ≠ Continue.
Proof.
  intros Hb Hid Hlen Hcharge. unfold send_reply. rewrite (the_request_lookup _ _ _ Hid).
  pose proof (balanced_nonneg _ Hb) as (Hu0&Hp0&_). destruct Hb as [Hr Hh Hu Hum Hp Hpm] eqn:Hbal. clear Hbal. pose proof (Hr _ _ Hid) as [Hc0 Hbody].
  assert (Hself : only id s s) by (split; eauto).
  destruct ((hr_charge r =? 0) && _) eqn:Eg; [by intros [= <- <-]|].
  set (s1 := if hr_charge r =? 0 then _ else s). set (r1 := with_reply (hr_reply r) (re_length (hr_reply r)) r).
  assert (H1 : balanced s1 ∧ hs_requests s1 !! id = Some r1 ∧ only id s s1).
  { unfold s1, r1. destruct (Z.eqb_spec (hr_charge r) 0) as [Ec|Ec].
    - cbn [andb] in Eg. assert (Hroom : u64 (RESPONSE_BUDGET - hs_response_bytes s) = RESPONSE_BUDGET - hs_response_bytes s)
        by (apply u64_id; unfold_budgets; lia). rewrite Hroom in Eg.
      assert (Hsum : u64 (hs_response_bytes s + re_length (hr_reply r)) = hs_response_bytes s + re_length (hr_reply r))
        by (apply u64_id; unfold_budgets; lia).
      split_and!; [|apply put_lookup|by eapply only_put]. eapply (balanced_update s _ id r r1); [done|done|by split; cbn; [lia|]|done|done|cbn; lia| |done|].
      + cbn. rewrite Hsum. lia.
      + cbn. rewrite Hsum. lia.
    - split_and!; [done| |done]. rewrite Hid. f_equal. unfold with_reply. rewrite <-(Hcharge Ec). by destruct r. }
  destruct H1 as (Hb1&Hid1&Ho1). rewrite (the_request_lookup _ _ _ Hid1). destruct (dl_holder d); cbn [negb]; [|by intros [= <- <-]].
  set (reserved := if hr_charge r1 =? 0 then 0 else _). assert (Hres : hr_charge r1 = reserved).
  { unfold reserved, r1. cbn. by destruct (Z.eqb_spec (re_length (hr_reply r)) 0). }
  pose proof (hand_over id r1 s1 true reserved Hb1 Hid1 Hres) as [Hk1 Hk2]. pose proof (hand_over id r1 s1 false reserved Hb1 Hid1 Hres) as [Hd1 Hd2].
  cbn zeta in *. destruct (dl_response d); cbn [negb]; [destruct (dl_queued d)|]; intros [= <- <-]; (split_and!; [done|by eapply only_trans|done]).
Qed.
Lemma put_same id r r' s : balanced s → hs_requests s !! id = Some r → request_sized r' → hr_charge r' = hr_charge r → hr_capacity r' = hr_capacity r →
  balanced (put_request id r' s) ∧ only id s (put_request id r' s).
Proof.
  intros Hb Hid Hok Hc Hcap. split; [|by eapply only_put]. eapply (balanced_update s _ id r r'); try done; cbn; try lia; apply Hb.
Qed.
Lemma error_text_ok status text strdup : 0 < status → (∀ t, text = Some t → zlen t ≤ UINT32_MAX) → reply_ok (wadb_http_error status text strdup).
Proof.
  intros Hs Hx. unfold wadb_http_error, reply_ok. destruct text as [t|].
  - cbn. specialize (Hx _ eq_refl). pose proof (zlen_nonneg t). split_and!; [lia|done|lia|by intros b [= <-]].
  - destruct strdup; cbn [re_length re_status re_body].
    + split_and!; [vm_compute; congruence|vm_compute; congruence|lia|by intros b [= <-]].
    + unfold UINT32_MAX. split_and!; [lia|lia|lia|done].
Qed.
(** What [input_ok] says of replies holds of those that [wadb_json_finish] makes. *)
Lemma finish_reply_ok write j tree status alloc text strdup : 0 < status → j_reply_limit j ≤ UINT32_MAX →
  (∀ e t, text e = Some t → zlen t ≤ UINT32_MAX) → reply_ok (wadb_json_finish write j tree status alloc text strdup).
Proof.
  intros Hs Hlim Ht. unfold wadb_json_finish. set (error := if bool_decide (j_error j = WADB_OK) then _ else _).
  assert (Herr : ∀ e, reply_ok (wadb_http_error (wadb_http_status e) (text e) strdup)).
  { intros e. apply error_text_ok; [by destruct e|apply Ht]. }
  case_bool_decide as He; [|rewrite bool_decide_eq_false_2 by done; apply Herr].
  destruct ((write tree (j_memory j)).1) as [body|]; [|apply Herr].
  destruct (Z.gtb_spec (zlen body) (j_reply_limit j)); [apply Herr|]. destruct alloc; [|apply Herr].
  pose proof (zlen_nonneg body). change (reply_ok (Reply status (Some body) (zlen body))). split; [cbn; lia|]. split; [cbn; lia|]. by intros b [= <-].
Qed.
Lemma http_error_ok x status : input_ok x → 0 < status → reply_ok (wadb_http_error status (xi_text x status) (xi_strdup x)).
Proof. intros [_ Hx] Hs. apply error_text_ok; [done|apply Hx]. Qed.
(** The request gets a reply, which is sent. *)
Lemma reply_spec id r answer d s v s' : balanced s → hs_requests s !! id = Some r → hr_charge r = 0 → reply_ok answer →
  send_reply id d (put_request id (with_reply answer (hr_charge r) r) s) = (v, s') → balanced s' ∧ only id s s' ∧ v ≠ Continue.
Proof.
  intros Hb Hid Hc [Ha _] Hrun. destruct (bl_requests _ Hb _ _ Hid) as [? ?].
  destruct (put_same id r (with_reply answer (hr_charge r) r) s) as [Hb1 Ho1]; [done|done|by split|done|done|].
  eapply send_reply_spec in Hrun as (?&?&?); [|done|apply put_lookup|done|cbn; lia]. split_and!; [done|by eapply only_trans|done].
Qed.
Lemma refuse_spec x id r status s v s' : balanced s → hs_requests s !! id = Some r → hr_charge r = 0 → input_ok x → 0 < status →
  refuse x id status s = (v, s') → balanced s' ∧ only id s s' ∧ v ≠ Continue.
Proof.
  intros Hb Hid Hc Hx Hs. unfold refuse, error_reply. rewrite (the_request_lookup _ _ _ Hid). eapply reply_spec; [done|done|done|]. by apply http_error_ok.
Qed.
Lemma reply_with_spec x id r answer s v s' : balanced s → hs_requests s !! id = Some r → hr_charge r = 0 → reply_ok answer →
  reply_with x id answer s = (v, s') → balanced s' ∧ only id s s' ∧ v ≠ Continue.
Proof. intros Hb Hid. unfold reply_with. rewrite (the_request_lookup _ _ _ Hid). by apply reply_spec. Qed.
Lemma reserve_body_spec id r need alloc s ok s' : balanced s → hs_requests s !! id = Some r → 0 ≤ need → reserve_body id need alloc s = (ok, s') →
  balanced s' ∧ only id s s' ∧ ∃ cap, hs_requests s' !! id = Some (with_upload (hr_body r) cap r) ∧
    hr_capacity r ≤ cap ≤ WADB_HTTP_BODY_LIMIT ∧ (ok = true → need ≤ cap).
Proof.
  intros Hb Hid Hneed. unfold reserve_body. rewrite (the_request_lookup _ _ _ Hid). pose proof (balanced_nonneg _ Hb) as (Hu0&Hp0&_).
  pose proof (bl_requests _ Hb _ _ Hid) as [Hc0 Hbody]. pose proof (zlen_nonneg (hr_body r)) as Hz. pose proof (bl_upload_max _ Hb) as Hum.
  assert (Hsame : ∀ ok : bool, (ok = true → need ≤ hr_capacity r) → s = s' → balanced s' ∧ only id s s' ∧
    ∃ cap, hs_requests s' !! id = Some (with_upload (hr_body r) cap r) ∧ hr_capacity r ≤ cap ≤ WADB_HTTP_BODY_LIMIT ∧ (ok = true → need ≤ cap)).
  { intros b Hn <-; (split_and!; [done|split; eauto|]; exists (hr_capacity r); split_and!; [rewrite Hid; by destruct r|lia|lia|done]). }
  destruct (Z.gtb_spec need WADB_HTTP_BODY_LIMIT); [intros [= <- <-]; apply Hsame; auto; lia|].
  destruct (Z.leb_spec need (hr_capacity r)); [intros [= <- <-]; apply Hsame; auto; lia|].
  set (cap := if (if _ <? need then need else _) >? WADB_HTTP_BODY_LIMIT then _ else _).
  assert (Hcap : need ≤ cap ≤ WADB_HTTP_BODY_LIMIT ∧ hr_capacity r ≤ cap).
  { unfold cap. destruct (Z.eqb_spec (hr_capacity r) 0); repeat match goal with
      | |- context [?a <? ?b] => destruct (Z.ltb_spec a b)
      | |- context [?a >? ?b] => destruct (Z.gtb_spec a b) end; lia. }
  clearbody cap. rewrite (u64_id (cap - _)), (u64_id (UPLOAD_BUDGET - _)) by (unfold_budgets; lia).
  destruct (Z.gtb_spec (cap - hr_capacity r) (UPLOAD_BUDGET - hs_upload_bytes s)); [intros [= <- <-]; apply Hsame; auto; lia|].
  destruct alloc; cbn [negb]; [|intros [= <- <-]; apply Hsame; auto; lia]. intros [= <- <-].
  assert (Hu64 : u64 (hs_upload_bytes s + (cap - hr_capacity r)) = hs_upload_bytes s + (cap - hr_capacity r)) by (apply u64_id; unfold_budgets; lia).
  split_and!; [|by eapply only_put|exists cap; split_and!; [apply put_lookup|lia..]].
  eapply (balanced_update s _ id r (with_upload (hr_body r) cap r)); [done|done|split; cbn; lia|done|done|cbn; by rewrite Hu64|cbn; lia|cbn; rewrite Hu64; lia|apply Hb].
Qed.

Lemma balanced_ext s s' : balanced s → hs_requests s' = hs_requests s → hs_held s' = hs_held s → hs_upload_bytes s' = hs_upload_bytes s →
  hs_response_bytes s' = hs_response_bytes s → balanced s'.
Proof. intros [] E1 E2 E3 E4. split; rewrite ?E1, ?E2, ?E3, ?E4; done. Qed.
Lemma only_ext id s s' : is_Some (hs_requests s !! id) → hs_requests s' = hs_requests s → hs_queue s' = hs_queue s → hs_working s' = hs_working s →
  hs_streams s' = hs_streams s → only id s s'.
Proof. intros Hid E Hq Hw Hs. split; [|by rewrite E|done..]. intros k _. by rewrite E. Qed.
(** Only the bytes received and the room for them change. *)
Lemma fill_body id r body s : balanced s → hs_requests s !! id = Some r → zlen body ≤ hr_capacity r →
  balanced (put_request id (with_upload body (hr_capacity r) r) s) ∧ only id s (put_request id (with_upload body (hr_capacity r) r) s).
Proof. intros Hb Hid Hlen. destruct (bl_requests _ Hb _ _ Hid). apply (put_same id r); [done|done| |done|done]. split; cbn; lia. Qed.
(** A reply is set for later, or for no one. *)
Lemma set_reply id r answer s : balanced s → hs_requests s !! id = Some r →
  balanced (put_request id (with_reply answer (hr_charge r) r) s) ∧ only id s (put_request id (with_reply answer (hr_charge r) r) s).
Proof. intros Hb Hid. destruct (bl_requests _ Hb _ _ Hid). by apply (put_same id r). Qed.
Lemma only_live id r s : hs_requests s !! id = Some r → only id s s.
Proof. intros H. split; eauto. Qed.

(** A call about a request that is not suspended: it says if the request goes on, and then
    what it left. *)
Definition handled_well (id : Z) (s : server) (goes_on : request → Prop) (v : verdict) (s' : server) : Prop :=
  balanced s' ∧ only id s s' ∧ (v = Continue → ∃ r, hs_requests s' !! id = Some r ∧ goes_on r).
Lemma ended_well id s Q v s' : balanced s' ∧ only id s s' ∧ v ≠ Continue → handled_well id s Q v s'.
Proof. intros (?&?&?). by split_and!. Qed.
Lemma handled_after id s s1 Q v s' : only id s s1 → handled_well id s1 Q v s' → handled_well id s Q v s'.
Proof. intros Ho (?&?&?). split_and!; [done|by eapply only_trans|done]. Qed.

Lemma arguments_spec id r l opened finish overload alloc s ok s' :
  balanced s → hs_requests s !! id = Some r → hr_charge r = 0 → reply_ok overload → (∀ status a, reply_ok (finish status a)) →
  arguments id l opened finish overload alloc s = (ok, s') →
  balanced s' ∧ only id s s' ∧ ∃ body cap reply, hs_requests s' !! id = Some (with_reply reply 0 (with_upload body cap r)) ∧
    if ok then reply = hr_reply r else reply_ok reply.
Proof.
  intros Hb Hid Hc Hover Hfin. unfold arguments. rewrite (the_request_lookup _ _ _ Hid). cbn zeta.
  assert (Hrefuse : ∀ answer s1 r1 body cap, reply_ok answer → balanced s1 → only id s s1 → r1 = with_upload body cap r →
    hs_requests s1 !! id = Some r1 → (false, put_request id (with_reply answer (hr_charge r) r1) s1) = (ok, s') →
    balanced s' ∧ only id s s' ∧ ∃ body cap reply, hs_requests s' !! id = Some (with_reply reply 0 (with_upload body cap r)) ∧
      if ok then reply = hr_reply r else reply_ok reply).
  { intros answer s1 r1 body cap Ha Hb1 Ho1 -> Hid1 [= <- <-].
    destruct (set_reply id _ answer s1 Hb1 Hid1) as [Hb2 Ho2]. cbn [hr_charge with_upload] in Hb2, Ho2.
    split_and!; [done|by eapply only_trans|]. exists body, cap, answer. split; [rewrite Hc; apply put_lookup|done]. }
  assert (Hsame : r = with_upload (hr_body r) (hr_capacity r) r) by (by destruct r).
  pose proof (only_live _ _ _ Hid) as Ho.
  match goal with |- context [match ?f with Ok _ => _ | Err e => _ end = (ok, s')] => destruct f as [acc|e] end; [|by eapply Hrefuse].
  destruct (text_is (hr_method r) "GET"); cbn [negb].
  2: { intros [= <- <-]. split_and!; [done|done|]. exists (hr_body r), (hr_capacity r), (hr_reply r). split; [|done].
       rewrite Hid, <-Hc. by destruct r. }
  destruct (_ >=? 400); [by eapply Hrefuse|].
  destruct (reserve_body _ _ _ _) as [ok1 s1] eqn:Er. destruct (Hfin 200 (Ok acc)) as (Hlen&_&Hbody).
  eapply reserve_body_spec in Er as (Hb1&Ho1&cap&Hid1&Hcap&Hneed); [|done|done|lia].
  rewrite (the_request_lookup _ _ _ Hid1). destruct ok1; [|by eapply Hrefuse]. intros [= <- <-].
  set (body := default [] _).
  assert (Hz : zlen body ≤ cap).
  { specialize (Hneed eq_refl). unfold body. destruct (re_body _) as [b|]; cbn; [rewrite (Hbody b) by done; lia|change (zlen []) with 0; lia]. }
  destruct (fill_body id _ body s1 Hb1 Hid1 Hz) as [Hb2 Ho2].
  split_and!; [done|by eapply only_trans|]. exists body, cap, (hr_reply r). split; [|done]. rewrite put_lookup. f_equal. rewrite <-Hc. by destruct r.
Qed.

(** ** Requests by where they are *)

(** The administrator's token, or a live session, with its CSRF token for a POST. *)
Definition accepted (a : auth_state) (post : bool) (cn : connection) : Prop :=
  wadb_auth_bearer a.1 (cn_authorization cn) = true ∨
  ∃ c a', wadb_auth_session (Some (secret_text (cn_session cn))) (Some (secret_text (cn_csrf cn))) post a = (Ok (Some c), a').
(** The request [r] under the address [id] is the one that came in there last, to a server
    that was ready, with headers that it takes and credentials that it accepts for the method. *)
Definition admitted (a : arrival) : Prop :=
  hs_ready (ar_server a) = true ∧ hs_stopping (ar_server a) = false ∧
  headers_refused (ar_server a) (text_is (ar_method a) "POST") (ar_connection a) = None ∧
  accepted (hs_auth (ar_server a)) (text_is (ar_method a) "POST") (ar_connection a).
Definition granted (h : gmap Z arrival) (id : Z) (r : request) : Prop :=
  hr_authorized r = true ∧ ∃ a, h !! id = Some a ∧ ar_method a = hr_method r ∧ ar_path a = hr_path r ∧ admitted a.
(** A request that came in and is not answered. *)
Record fresh (h : gmap Z arrival) (id : Z) (r : request) : Prop := {
  fr_ready : hr_ready r = false;
  fr_status : re_status (hr_reply r) = 0;
  fr_charge : hr_charge r = 0;
  fr_method : text_is (hr_method r) "GET" = true ∨ text_is (hr_method r) "POST" = true;
  fr_admitted : granted h id r ∨ is_public (text_is (hr_method r) "POST") (hr_path r) = true;
}.
(** A request in the queue or with a worker. *)
Record waiting (h : gmap Z arrival) (id : Z) (r : request) : Prop := {
  wt_ready : hr_ready r = false;
  wt_charge : hr_charge r = wadb_api_reply_limit (hr_method r) (hr_path r);
  wt_granted : granted h id r;
}.
(** A request whose reply a worker has made. *)
Record done_work (r : request) : Prop := {
  dw_ready : hr_ready r = true;
  dw_charge : hr_charge r = re_length (hr_reply r);
  dw_reply : reply_ok (hr_reply r);
}.
Definition open_request (h : gmap Z arrival) (id : Z) (r : request) : Prop := fresh h id r ∨ done_work r.
(** The arrival of another request changes nothing for this one. *)
Lemma granted_record h id r k a : k ≠ id → granted h id r → granted (<[k := a]> h) id r.
Proof. intros Hk (?&a'&?&?). split; [done|]. exists a'. by rewrite lookup_insert_ne. Qed.
Lemma waiting_record h id r k a : k ≠ id → waiting h id r → waiting (<[k := a]> h) id r.
Proof. intros Hk []. split; [done..|]. by apply granted_record. Qed.
Lemma open_record h id r k a : k ≠ id → open_request h id r → open_request (<[k := a]> h) id r.
Proof.
  intros Hk [[? ? ? ? [Hg|?]]|]; [left; split; try done; left; by apply granted_record|left; split; try done; by right|by right].
Qed.

(** ** The calls of the library *)

Lemma put_new id r s : balanced s → hs_requests s !! id = None → hr_charge r = 0 → hr_capacity r = 0 → hr_body r = [] →
  balanced (put_request id r s) ∧ only id s (put_request id r s).
Proof.
  intros [Hr Hh Hu Hum Hp Hpm] Hid Hc Hcap Hbody. split; [|by eapply only_put]. split; cbn; [|done| |done| |done].
  - intros k rk [[_ <-]|[_ Hk]]%lookup_insert_Some; [|by eapply Hr]. split; [lia|]. rewrite Hbody, Hcap. by unfold_budgets.
  - rewrite total_insert, Hcap by done. done.
  - rewrite total_insert, Hc by done. done.
Qed.
Lemma authenticate_spec post cn s bearer authorized s' : authenticate post cn s = (bearer, authorized, s') →
  (∃ a, s' = with_auth a s) ∧ (authorized = true → accepted (hs_auth s) post cn).
Proof.
  unfold authenticate, accepted. destruct (wadb_auth_bearer _ _); [intros [= <- <- <-]|].
  - split; [exists (hs_auth s); by destruct s|by left].
  - destruct (wadb_auth_session _ _ _ _) as [found a] eqn:E. intros [= <- <- <-]. split; [by exists a|].
    destruct found as [[c|]|]; [|done|done]. intros _. right. eauto.
Qed.
(** The rest of a call that refuses, after some steps that left the request [r]. *)
Lemma refuse_well x id r status s s1 Q v s' : only id s s1 → balanced s1 → hs_requests s1 !! id = Some r → hr_charge r = 0 → input_ok x → 0 < status →
  refuse x id status s1 = (v, s') → handled_well id s Q v s'.
Proof. intros Ho Hb Hid Hc Hx Hs Hrun. eapply handled_after; [done|]. by eapply ended_well, refuse_spec. Qed.
Lemma headers_status s post cn status : headers_refused s post cn = Some status → 0 < status.
Proof. unfold headers_refused. repeat case_match; intros [= <-]; lia. Qed.
Lemma access_begin_spec {h} x id path method cn v s s' : balanced s → hs_requests s !! id = None → input_ok x → xi_alloc x = true →
  h !! id = Some (Arrival s path method cn) → access_begin x id path method cn s = (v, s') → handled_well id s (fresh h id) v s'.
Proof.
  intros Hb Hid Hx Halloc Hcame. unfold access_begin. rewrite Halloc. cbn [negb].
  destruct (put_new id new_request s) as [Hb1 Ho1]; [done..|]. pose proof (put_lookup id new_request s) as Hid1.
  set (s1 := put_request id new_request s) in *. cbn zeta.
  destruct (hs_ready s1 && negb (hs_stopping s1)) eqn:Eready; cbn [negb]; [|by apply (refuse_well x id new_request)].
  apply andb_prop in Eready as [Eready Estopping%negb_true_iff]. destruct (_ || _); [by apply (refuse_well x id new_request)|].
  set (start := HttpRequest path method [] [] _ _ _ _ _ _ _ _ _). destruct (put_same id new_request start s1) as [Hb2 Ho2]; [done|done|by split|done|done|].
  pose proof (only_trans _ _ _ _ Ho1 Ho2) as Ho12. pose proof (put_lookup id start s1) as Hid2. set (s2 := put_request id start s1) in *.
  destruct (negb _ && _) eqn:Emethod; [by apply (refuse_well x id start)|].
  destruct (headers_refused _ _ _) as [status|] eqn:Eh; [apply (refuse_well x id start); try done; by eapply headers_status|].
  destruct (authenticate _ _ _) as [[bearer authorized] s3] eqn:Ea. apply authenticate_spec in Ea as [[auth ->] Haccept].
  set (r := HttpRequest path method (secret_text _) _ _ _ _ _ _ _ _ _ _).
  assert (Hb3 : balanced (with_auth auth s2)) by (by eapply balanced_ext). assert (Hid3 : hs_requests (with_auth auth s2) !! id = Some start) by done.
  destruct (put_same id start r (with_auth auth s2)) as [Hb4 Ho4]; [done|done|by split|done|done|].
  assert (Ho : only id s (put_request id r (with_auth auth s2))).
  { eapply only_trans; [|done]. eapply only_trans; [done|]. apply only_ext; try done. }
  pose proof (put_lookup id r (with_auth auth s2)) as Hid4. set (s4 := put_request id r _) in *.
  destruct (negb _ && negb authorized) eqn:Epub; [by apply (refuse_well x id r)|].
  destruct (arguments _ _ _ _ _ _ _) as [ok s5] eqn:Eargs. eapply arguments_spec in Eargs as (Hb5&Ho5&body&cap&reply&Hid5&Hok); [|done|done|done|by apply http_error_ok|apply Hx].
  pose proof (only_trans _ _ _ _ Ho Ho5) as Ho6. destruct ok.
  - intros [= <- <-]. split_and!; [done|done|]. intros _. eexists. split; [done|]. subst reply. split; try done; cbn.
    + destruct (text_is method "GET"), (text_is method "POST"); auto.
    + destruct (is_public (text_is method "POST") path); [by right|]. left. destruct authorized; [|done]. split; [done|].
      eexists. split; [done|]. split; [done|]. split; [done|]. split_and!; [done|done|done|]. by apply Haccept.
  - intros Hrun. eapply handled_after; [done|]. apply ended_well. eapply send_reply_spec; [done|done|apply Hok|done|done].
Qed.

Lemma access_upload_spec {h} x id r upload v s s' : balanced s → hs_requests s !! id = Some r → open_request h id r →
  access_upload x id upload s = (v, s') → handled_well id s (open_request h id) v s'.
Proof.
  intros Hb Hid Hr. unfold access_upload. rewrite (the_request_lookup _ _ _ Hid). cbn zeta. pose proof (only_live _ _ _ Hid) as Ho.
  destruct (negb (text_is _ _)); [intros [= <- <-]; by apply ended_well|].
  destruct (Z.eqb_spec (re_status (hr_reply r)) 0) as [Es|Es]; cbn [negb]; [|intros [= <- <-]; by apply ended_well].
  destruct Hr as [Hr|[_ _ [_ [? _]]]]; [|done]. pose proof (zlen_nonneg (hr_body r)). pose proof (zlen_nonneg upload).
  destruct (_ >? _).
  { intros [= <- <-]. apply ended_well. by edestruct (set_reply id r). }
  destruct (reserve_body _ _ _ _) as [ok s1] eqn:Er. eapply reserve_body_spec in Er as (Hb1&Ho1&cap&Hid1&Hcap&Hneed); [|done|done|lia].
  rewrite (the_request_lookup _ _ _ Hid1). intros Hrun. eapply (handled_after id s s1); [done|]. revert Hrun. destruct ok; intros [= <- <-].
  - destruct (fill_body id _ (hr_body r ++ upload) s1 Hb1 Hid1) as [Hb2 Ho2]; [rewrite zlen_app; apply Hneed; done|]. split_and!; [done|done|]. intros _.
    eexists. split; [apply put_lookup|]. left. destruct Hr. by split.
  - apply ended_well. by edestruct (set_reply id _ (wadb_http_error 429 (xi_text x 429) (xi_strdup x)) s1 Hb1 Hid1).
Qed.
Lemma set_cookie_spec id r session clear s : balanced s → hs_requests s !! id = Some r →
  balanced (set_cookie id session clear s) ∧ only id s (set_cookie id session clear s) ∧
  ∃ text, hs_requests (set_cookie id session clear s) !! id = Some (with_cookie text r).
Proof.
  intros Hb Hid. unfold set_cookie. rewrite (the_request_lookup _ _ _ Hid). destruct (bl_requests _ Hb _ _ Hid).
  set (text := snprintf _ _). destruct (put_same id r (with_cookie text r) s) as [Hb1 Ho1]; [done|done|by split|done|done|].
  split_and!; [done|done|]. exists text. apply put_lookup.
Qed.
Lemma logout_reply_ok : reply_ok (Reply 200 (Some LOGOUT_BODY) 11).
Proof. split; [by vm_compute|]. split; [done|]. by intros b [= <-]. Qed.
Lemma session_reply_ok x s status c : input_ok x → reply_ok (session_reply x s status c).
Proof.
  intros [Hx _]. unfold session_reply. cbn zeta. destruct (_ >=? 400) eqn:E; [|apply Hx].
  match goal with |- reply_ok (with_status _ ?a) => assert (Ha : reply_ok a) by apply Hx end. destruct Ha as (?&?&?). split; [done|]. split; [cbn; lia|done].
Qed.
(** The rest of a call that answers, after some steps that left the request [r]. *)
Lemma reply_well x id r answer s s1 Q v s' : only id s s1 → balanced s1 → hs_requests s1 !! id = Some r → hr_charge r = 0 → reply_ok answer →
  reply_with x id answer s1 = (v, s') → handled_well id s Q v s'.
Proof. intros Ho Hb Hid Hc Ha Hrun. eapply handled_after; [done|]. by eapply ended_well, reply_with_spec. Qed.
Lemma session_action_spec x id r Q v s s' : balanced s → hs_requests s !! id = Some r → hr_charge r = 0 → input_ok x →
  session_action x id s = (v, s') → handled_well id s Q v s'.
Proof.
  intros Hb Hid Hc Hx. unfold session_action. rewrite (the_request_lookup _ _ _ Hid). cbn zeta. pose proof (only_live _ _ _ Hid) as Ho.
  assert (Hauth : ∀ a, balanced (with_auth a s) ∧ only id s (with_auth a s) ∧ hs_requests (with_auth a s) !! id = Some r).
  { intros a. split_and!; [by eapply balanced_ext|by apply only_ext|done]. }
  assert (Hcookie : ∀ a session clear, balanced (set_cookie id session clear (with_auth a s)) ∧ only id s (set_cookie id session clear (with_auth a s)) ∧
    ∃ text, hs_requests (set_cookie id session clear (with_auth a s)) !! id = Some (with_cookie text r)).
  { intros a session clear. destruct (Hauth a) as (Hb1&Ho1&Hid1). destruct (set_cookie_spec id r session clear _ Hb1 Hid1) as (?&?&?).
    split_and!; [done|by eapply only_trans|done]. }
  destruct (text_is (hr_path r) _).
  - destruct (wadb_auth_logout _ _) as [u a]. destruct (Hcookie a [] true) as (Hb1&Ho1&text&Hid1). destruct (xi_strdup x).
    + eapply reply_well; try done. apply logout_reply_ok.
    + intros [= <- <-]. apply ended_well. rewrite (the_request_lookup _ _ _ Hid1).
      edestruct (set_reply id _ (Reply 200 None 11) _ Hb1 Hid1) as [Hb2 Ho2]. split_and!; [done|by eapply only_trans|done].
  - destruct (xi_parsed _ _) as [root|e]; [|eapply reply_well; try done; apply Hx].
    destruct (text_is (hr_method r) "POST"); (destruct (wadb_json_allowed _ _) as [u|e]; [|eapply reply_well; try done; by apply session_reply_ok]).
    + destruct (wadb_auth_login _ _ _ _) as [[c|e] a]; [destruct (Hcookie a (cr_session c) false) as (Hb1&Ho1&text&Hid1)|destruct (Hauth a) as (Hb1&Ho1&Hid1)];
        (eapply reply_well; [done|done|done|done|by apply session_reply_ok]).
    + destruct (wadb_auth_session _ _ _ _) as [[[c|]|e] a]; destruct (Hauth a) as (Hb1&Ho1&Hid1); (eapply reply_well; [done|done|done|done|by apply session_reply_ok]).
Qed.
Lemma static_response_spec x id r Q v s s' : balanced s → hs_requests s !! id = Some r → hr_charge r = 0 → input_ok x →
  static_response x id s = (v, s') → handled_well id s Q v s'.
Proof.
  intros Hb Hid Hc Hx. unfold static_response. rewrite (the_request_lookup _ _ _ Hid). cbn zeta. pose proof (only_live _ _ _ Hid) as Ho.
  destruct (_ || _); [|by eapply refuse_well]. intros [= <- <-]. apply ended_well. split_and!; [done|done|by case_match].
Qed.

(** ** The ring of the queue *)

Record ring_ok (q : work_queue) : Prop := {
  ri_length : zlen (wq_ring q) = QUEUE_LIMIT;
  ri_head : 0 ≤ wq_head q < QUEUE_LIMIT;
  ri_count : 0 ≤ wq_count q ≤ QUEUE_LIMIT;
}.
Lemma queue_push_spec id q : ring_ok q → wq_count q < QUEUE_LIMIT → ring_ok (queue_push id q) ∧ queue_items (queue_push id q) = queue_items q ++ [id].
Proof.
  unfold QUEUE_LIMIT. intros [Hl Hh Hc] Hlt. unfold QUEUE_LIMIT in *. split.
  { split; cbn; rewrite ?zlen_wr; unfold QUEUE_LIMIT; lia. }
  pose proof (Z.mod_pos_bound (wq_head q + wq_count q) 32 eq_refl). unfold queue_items, queue_push, QUEUE_LIMIT.
  cbn [wq_ring wq_head wq_count]. rewrite seqZ_app, map_app, Z.add_0_l by lia. f_equal.
  - apply map_ext_in. intros i Hi%list_elem_of_In%elem_of_seqZ. apply rd_wr_ne; [lia|apply Z.mod_pos_bound; lia|].
    rewrite !Z.mod_eq by lia. nia.
  - rewrite seqZ_cons, seqZ_nil by lia. cbn [map]. rewrite rd_wr_eq by lia. done.
Qed.
Lemma queue_pop_spec q : ring_ok q → wq_count q ≠ 0 → ring_ok (queue_pop q).2 ∧ queue_items q = (queue_pop q).1 :: queue_items (queue_pop q).2.
Proof.
  intros [Hl Hh Hc] Hne. unfold QUEUE_LIMIT in *. pose proof (Z.mod_pos_bound (wq_head q + 1) 32 eq_refl). split.
  { split; cbn; unfold QUEUE_LIMIT; lia. }
  unfold queue_items, queue_pop, QUEUE_LIMIT. cbn [wq_ring wq_head wq_count fst snd].
  rewrite seqZ_cons by lia. cbn [map]. f_equal; [rewrite Z.add_0_r, Z.mod_small by lia; done|].
  change (Z.succ 0) with (1 + 0). rewrite <-fmap_add_seqZ, map_map. apply map_ext. intros i.
  rewrite Zplus_mod_idemp_l. by rewrite Z.add_assoc.
Qed.

(** ** The state between calls *)

Record http_ok (h : gmap Z arrival) (t : http_state) : Prop := {
  ho_balanced : balanced t.1;
  ho_ring : ring_ok (hs_queue t.1);
  ho_once : NoDup (queue_items (hs_queue t.1) ++ hs_working t.1);
  ho_streams : zlen (hs_streams t.1) ≤ STREAM_LIMIT;
  ho_suspended id : suspended t.1 id → (id ∉ t.2) ∧ ∃ r, hs_requests t.1 !! id = Some r ∧ waiting h id r;
  ho_open id r : hs_requests t.1 !! id = Some r → ¬ suspended t.1 id → id ∉ t.2 → open_request h id r;
}.
Lemma handled_ok {h} id v s a s' : http_ok h (s, a) → ¬ suspended s id → handled_well id s (open_request h id) v s' → http_ok h (s', noted v id a).
Proof.
  intros [Hb Hring Honce Hstr Hsus Hopen] Hns (Hb'&[Hoth Hlive Hq Hw Hst]&Hcont). cbn [fst snd] in *.
  assert (Hnoted : ∀ k, k ≠ id → k ∈ noted v id a ↔ k ∈ a) by (intros k Hk; destruct v; cbn; set_solver).
  split; cbn [fst snd]; unfold suspended; rewrite ?Hq, ?Hw, ?Hst; [done|done|done|done| |].
  - intros k Hk. assert (Hki : k ≠ id) by (by intros ->). rewrite Hoth, Hnoted by done. by apply Hsus.
  - intros k r Hk Hk1 Hk2. destruct (decide (k = id)) as [->|Hki].
    + destruct v; cbn in Hk2; [set_solver..|]. destruct (Hcont eq_refl) as (r'&Hr'&?). by simplify_eq.
    + rewrite Hoth in Hk by done. rewrite Hnoted in Hk2 by done. by eapply Hopen.
Qed.
Lemma streams_ok {h} s a v id l : http_ok h (s, a) → ¬ suspended s id → zlen l ≤ STREAM_LIMIT → http_ok h (with_streams l s, noted v id a).
Proof.
  intros [Hb Hring Honce Hstr Hsus Hopen] Hns Hl. split; cbn [fst snd] in *; try done; [by eapply balanced_ext| |].
  - intros k Hk. destruct (Hsus k Hk) as [Hka Hr]. split; [|done]. assert (k ≠ id) by (by intros ->). destruct v; cbn; set_solver.
  - intros k r Hk Hk1 Hk2. apply (Hopen k); [done|done|]. destruct v; cbn in Hk2; set_solver.
Qed.
Lemma stream_request_ok {h} x id r v s a s' : http_ok h (s, a) → ¬ suspended s id → hs_requests s !! id = Some r → hr_charge r = 0 → input_ok x →
  stream_request x id s = (v, s') → http_ok h (s', noted v id a).
Proof.
  intros Hok Hns Hid Hc Hx. unfold stream_request. rewrite (the_request_lookup _ _ _ Hid). cbn zeta. pose proof (only_live _ _ _ Hid) as Ho.
  pose proof (ho_balanced _ _ Hok) as Hb. cbn [fst] in Hb.
  assert (Hwell : handled_well id s (open_request h id) v s' → http_ok h (s', noted v id a)) by (by apply handled_ok).
  destruct (negb (xi_socket x)); [intros Hrun; apply Hwell; revert Hrun; by apply (refuse_well x id r)|]. destruct (negb (xi_alloc x)); [intros Hrun; apply Hwell; revert Hrun; by apply (refuse_well x id r)|].
  match goal with |- context [match ?p with Ok _ => _ | Err e => _ end] => destruct p as [u|e] end;
    [|intros Hrun; apply Hwell; revert Hrun; apply (reply_well x id r); try done; apply Hx].
  destruct (_ || _) eqn:Efull; [intros Hrun; apply Hwell; revert Hrun; by apply (refuse_well x id r)|].
  destruct (_ && _); intros [= <- <-]; [|apply Hwell; by apply ended_well].
  apply streams_ok; [done|done|]. rewrite zlen_cons. unfold STREAM_LIMIT in *. lia.
Qed.

(** What the queue may get: a public request has been answered on the way. *)
Lemma not_public {h id} r : fresh h id r → text_is (hr_path r) "/api/v1/session" = false →
  negb (bytes_eqb (take 5 (hr_path r)) (cstr "/api/")) && text_is (hr_method r) "GET" = false → granted h id r.
Proof.
  intros [_ _ _ Hm [Hg|Hp]] Hs Hst; [done|exfalso]. unfold is_public in Hp. rewrite Hs, andb_false_r, orb_false_r in Hp.
  apply andb_prop in Hp as [Hpost Hpath]. assert (HG : text_is (hr_method r) "GET" = true).
  { destruct Hm as [?|Hm]; [done|]. by rewrite Hm in Hpost. }
  rewrite HG, andb_true_r in Hst. apply negb_false_iff, bool_decide_eq_true in Hst. unfold text_is, bytes_eqb in Hpath.
  repeat (apply orb_prop in Hpath as [Hpath|Hpath]); apply bool_decide_eq_true in Hpath; by rewrite Hpath in Hst.
Qed.
Lemma reply_limit_bound method path : 0 < wadb_api_reply_limit method path ≤ WADB_HTTP_REPLY_LIMIT.
Proof. unfold wadb_api_reply_limit. unfold_budgets. repeat case_match; lia. Qed.
Lemma admit_work_ok {h} x id r v s a s' : http_ok h (s, a) → id ∉ a → ¬ suspended s id → hs_requests s !! id = Some r → fresh h id r → granted h id r → input_ok x →
  admit_work x id s = (v, s') → http_ok h (s', noted v id a).
Proof.
  intros Hok Hida Hns Hid Hr Hg Hx. unfold admit_work. rewrite (the_request_lookup _ _ _ Hid). cbn zeta. pose proof (ho_balanced _ _ Hok) as Hb. cbn [fst] in Hb.
  pose proof (only_live _ _ _ Hid) as Ho. pose proof (fr_charge _ _ _ Hr) as Hc. pose proof (balanced_nonneg _ Hb) as (?&?&_). pose proof (bl_response_max _ Hb).
  pose proof (reply_limit_bound (hr_method r) (hr_path r)) as Hlim. set (limit := wadb_api_reply_limit _ _) in *.
  rewrite (u64_id (RESPONSE_BUDGET - _)) by (unfold_budgets; lia).
  destruct (_ || _ || _) eqn:Efull; [intros Hrun; apply (handled_ok id v s a); [done|done|]; revert Hrun; by apply (refuse_well x id r)|].
  apply orb_false_elim in Efull as [[_ Hcount]%orb_false_elim Hroom]. intros [= <- <-].
  assert (Hsum : u64 (hs_response_bytes s + limit) = hs_response_bytes s + limit) by (apply u64_id; unfold_budgets; lia).
  set (r' := with_flags true _ _). destruct Hok as [_ Hring Honce Hstr Hsus Hopen]. cbn [fst snd] in *.
  destruct (queue_push_spec id (hs_queue s) Hring) as [Hring' Hitems]; [lia|]. destruct (bl_requests _ Hb _ _ Hid) as [? ?].
  set (s' := with_queue _ _ _). assert (Hs' : ∀ k, suspended s' k ↔ k = id ∨ suspended s k).
  { intros k. unfold suspended. cbn [s' with_queue hs_queue hs_working]. rewrite Hitems. set_solver. }
  split; cbn [fst snd noted].
  - eapply (balanced_update s s' id r r'); [done|done|split; cbn; lia|done|done|cbn; lia|cbn; rewrite Hsum; lia|apply Hb|cbn; rewrite Hsum; lia].
  - done.
  - cbn [s' with_queue hs_queue hs_working]. rewrite Hitems, <-app_assoc. cbn [app]. rewrite <-Permutation_middle. constructor; done.
  - done.
  - intros k [->|Hk]%Hs'.
    + split; [done|]. exists r'. split; [apply put_lookup|]. destruct Hr. by split.
    + destruct (Hsus k Hk) as (Hka&rk&Hrk&Hw). split; [done|]. exists rk. split; [|done]. cbn. rewrite lookup_insert_ne; [done|]. by intros ->.
  - intros k rk Hk Hk1 Hk2. rewrite Hs' in Hk1. cbn in Hk. rewrite lookup_insert_ne in Hk by naive_solver. apply (Hopen k); naive_solver.
Qed.
Lemma access_complete_ok {h} x id r v s a s' : http_ok h (s, a) → id ∉ a → ¬ suspended s id → hs_requests s !! id = Some r → input_ok x →
  access_complete x id s = (v, s') → http_ok h (s', noted v id a).
Proof.
  intros Hok Hida Hns Hid Hx. pose proof (ho_open _ _ Hok id r Hid Hns Hida) as Hopen. pose proof (ho_balanced _ _ Hok) as Hb. cbn [fst] in Hb.
  unfold access_complete. rewrite (the_request_lookup _ _ _ Hid). cbn zeta. pose proof (only_live _ _ _ Hid) as Ho.
  assert (Hwell : handled_well id s (open_request h id) v s' → http_ok h (s', noted v id a)) by (by apply handled_ok).
  destruct Hopen as [Hr|[Hready Hcharge [Hlen _]]].
  2: { rewrite Hready. cbn [orb]. intros Hrun. apply Hwell, ended_well. by eapply send_reply_spec in Hrun. }
  destruct (Hr) as [Hready Hstatus Hc _ _]. rewrite Hready, Hstatus. cbn [orb negb Z.eqb].
  destruct (hs_stopping s); [intros Hrun; apply Hwell; revert Hrun; by apply (refuse_well x id r)|].
  destruct (text_is (hr_path r) "/api/v1/session") eqn:Esession; [intros Hrun; by eapply Hwell, session_action_spec|].
  destruct (_ && _); [intros Hrun; by eapply Hwell, session_action_spec|].
  destruct (_ && _); [by eapply stream_request_ok|].
  destruct (negb _ && _) eqn:Estatic; [intros Hrun; by eapply Hwell, static_response_spec|].
  eapply admit_work_ok; try done. by apply not_public.
Qed.

(** ** Every step *)

Lemma completed_ok {h} id s a : http_ok h (s, a) → ¬ suspended s id → http_ok h (completed id s, a ∖ {[id]}).
Proof.
  intros [Hb Hring Honce Hstr Hsus Hopen] Hns. cbn [fst snd] in *. unfold completed. destruct (hs_requests s !! id) as [r|] eqn:Hid.
  2: { split; cbn [fst snd]; try done.
       - intros k Hk. destruct (Hsus k Hk). split; [set_solver|done].
       - intros k rk Hk Hk1 Hk2. apply (Hopen k); [done|done|]. assert (k ≠ id) by congruence. set_solver. }
  pose proof (balanced_nonneg _ Hb) as (?&?&_). destruct Hb as [Hr Hh Hu Hum Hp Hpm]. destruct (Hr _ _ Hid) as [? ?]. pose proof (zlen_nonneg (hr_body r)).
  pose proof (total_delete hr_capacity _ _ _ Hid) as Hcap. pose proof (total_delete hr_charge _ _ _ Hid) as Hchg. pose proof (sum_nonneg _ Hh).
  assert (Hcap0 : 0 ≤ total hr_capacity (delete id (hs_requests s))).
  { apply total_nonneg. intros k rk [_ Hk]%lookup_delete_Some. destruct (Hr _ _ Hk). pose proof (zlen_nonneg (hr_body rk)). cbn. lia. }
  assert (Hchg0 : 0 ≤ total hr_charge (delete id (hs_requests s))).
  { apply total_nonneg. intros k rk [_ Hk]%lookup_delete_Some. apply (Hr _ _ Hk). }
  split; cbn [fst snd]; try done.
  - split; cbn; rewrite ?u64_id by (unfold_budgets; lia); try done; try lia. intros k rk [_ Hk]%lookup_delete_Some. by eapply Hr.
  - intros k Hk. destruct (Hsus k Hk) as (Hka&rk&Hrk&Hw). assert (k ≠ id) by (by intros ->). split; [set_solver|]. exists rk. split; [|done].
    cbn. by rewrite lookup_delete_ne.
  - intros k rk Hk Hk1 Hk2. cbn in Hk. apply lookup_delete_Some in Hk as [Hne Hk]. apply (Hopen k); [done|done|set_solver].
Qed.
(** Nothing about requests and the queue changes. *)
Lemma unrelated_ok {h} s a s' : http_ok h (s, a) → balanced s' → hs_requests s' = hs_requests s → hs_queue s' = hs_queue s → hs_working s' = hs_working s →
  zlen (hs_streams s') ≤ STREAM_LIMIT → http_ok h (s', a).
Proof.
  intros [Hb Hring Honce Hstr Hsus Hopen] Hb' Er Eq Ew Hs. cbn [fst snd] in *.
  split; cbn [fst snd]; unfold suspended; rewrite ?Er, ?Eq, ?Ew; done.
Qed.
Lemma released_balanced i s : balanced s → balanced (response_released i s).
Proof.
  intros Hb. unfold response_released. destruct (hs_held s !! i) as [reserved|] eqn:Ei; [|done].
  pose proof (balanced_nonneg _ Hb) as (?&?&?). destruct Hb as [Hr Hh Hu Hum Hp Hpm]. pose proof (sum_delete _ _ _ Ei).
  pose proof (Forall_delete _ _ i Hh) as Hh'.
  pose proof (sum_nonneg _ Hh'). assert (0 ≤ reserved) by (by eapply Forall_lookup in Hh).
  split; cbn; rewrite ?u64_id by (unfold_budgets; lia); try done; lia.
Qed.
Lemma worker_take_ok {h} id s a s' : http_ok h (s, a) → worker_take s = Some (id, s') → http_ok h (s', a).
Proof.
  intros [Hb Hring Honce Hstr Hsus Hopen]. cbn [fst snd] in *. unfold worker_take. destruct (Z.eqb_spec (wq_count (hs_queue s)) 0) as [|Hne]; [done|].
  destruct (queue_pop_spec _ Hring Hne) as [Hring' Hitems]. destruct (queue_pop (hs_queue s)) as [k q]. cbn [fst snd] in *. intros [= -> <-].
  assert (Hperm : queue_items (hs_queue s) ++ hs_working s ≡ₚ queue_items q ++ id :: hs_working s).
  { rewrite Hitems. by rewrite <-Permutation_middle. }
  split; cbn [fst snd with_queue hs_queue hs_working hs_requests hs_streams]; unfold suspended in *; cbn [fst snd with_queue hs_queue hs_working]; [| | | | |].
  - by eapply balanced_ext.
  - done.
  - by rewrite <-Hperm.
  - done.
  - intros k. rewrite <-Hperm. apply Hsus.
  - intros k r. rewrite <-Hperm. apply Hopen.
Qed.
Lemma worker_done_ok {h} id reply s a : http_ok h (s, a) → id ∈ hs_working s → reply_ok reply →
  re_length reply ≤ wadb_api_reply_limit (hr_method (the_request id s)) (hr_path (the_request id s)) → http_ok h (worker_done id reply s, a).
Proof.
  intros [Hb Hring Honce Hstr Hsus Hopen] Hin Hreply. cbn [fst snd] in *.
  destruct (Hsus id) as (Hida&r&Hid&[Hready Hcharge Hg]); [unfold suspended; set_solver|].
  unfold worker_done. rewrite (the_request_lookup _ _ _ Hid). cbn zeta. rewrite <-Hcharge. intros Hle.
  pose proof (balanced_nonneg _ Hb) as (?&?&_). pose proof (bl_response_max _ Hb). destruct (bl_requests _ Hb _ _ Hid) as [? ?]. pose proof Hreply as (Hlen&_).
  assert (Hshare : hr_charge r ≤ hs_response_bytes s).
  { destruct Hb as [Hr Hh _ _ -> _]. rewrite (total_delete hr_charge _ _ _ Hid). pose proof (sum_nonneg _ Hh).
    assert (0 ≤ total hr_charge (delete id (hs_requests s))); [|lia]. apply total_nonneg. intros k rk [_ Hk]%lookup_delete_Some. apply (Hr _ _ Hk). }
  rewrite (u64_id (hr_charge r - _)) by (unfold_budgets; lia).
  assert (Hu : u64 (hs_response_bytes s - (hr_charge r - re_length reply)) = hs_response_bytes s - (hr_charge r - re_length reply))
    by (apply u64_id; unfold_budgets; lia).
  set (r' := with_flags _ true _). set (s' := with_queue _ _ _). apply NoDup_app in Honce as (Hq&Hqw&Hw).
  assert (Hs' : ∀ k, suspended s' k ↔ suspended s k ∧ k ≠ id).
  { intros k. unfold suspended. cbn [s' with_queue hs_queue hs_working]. rewrite !elem_of_app, list_elem_of_filter. split; [|naive_solver].
    intros [Hk|Hk]; [|naive_solver]. split; [by left|]. intros ->. by apply (Hqw id). }
  split; cbn [fst snd].
  - eapply (balanced_update s s' id r r'); [done|done|split; cbn; lia|done|done|cbn; lia|cbn; rewrite Hu; lia|apply Hb|cbn; rewrite Hu; lia].
  - done.
  - cbn [s' with_queue hs_queue hs_working]. apply NoDup_app. split_and!; [done| |].
    + intros k Hk [_ Hk']%list_elem_of_filter. by apply (Hqw k).
    + by apply NoDup_filter.
  - done.
  - intros k [Hk Hne]%Hs'. destruct (Hsus k Hk) as (Hka&rk&Hrk&?). split; [done|]. exists rk. split; [|done]. cbn. by rewrite lookup_insert_ne.
  - intros k rk Hk Hk1 Hk2. cbn in Hk. apply lookup_insert_Some in Hk as [[<- <-]|[Hne Hk]]; [right; by split|].
    apply (Hopen k); [done| |done]. intros ?. apply Hk1, Hs'. by split.
Qed.

(** A request comes in under an address that is free. *)
Lemma recorded_ok h s a id came : http_ok h (s, a) → hs_requests s !! id = None → http_ok (<[id := came]> h) (s, a).
Proof.
  intros [Hb Hring Honce Hstr Hsus Hopen] Hid. split; try done; cbn [fst snd] in *.
  - intros k Hk. destruct (Hsus k Hk) as (Hka&r&Hr&Hw). split; [done|]. exists r. split; [done|]. apply waiting_record; [congruence|done].
  - intros k r Hr Hk Hka. apply open_record; [congruence|]. by apply Hopen.
Qed.
Lemma begin_ok h x id path method cn v s a s' : http_ok h (s, a) → hs_requests s !! id = None → xi_alloc x = true → input_ok x →
  access_begin x id path method cn s = (v, s') → http_ok (<[id := Arrival s path method cn]> h) (s', noted v id a).
Proof.
  intros Hok Hid Halloc Hx Hrun. apply (recorded_ok _ _ _ id (Arrival s path method cn)) in Hok; [|done].
  assert (Hns : ¬ suspended s id). { intros Hs. destruct (ho_suspended _ _ Hok id Hs) as (_&r&Hr&_). cbn in Hr. congruence. }
  apply (handled_ok id v s a); [done|done|].
  eapply access_begin_spec in Hrun as (?&?&Hc); [|apply Hok|done..|apply lookup_insert_eq]. split_and!; [done|done|].
  intros Ev. destruct (Hc Ev) as (r&?&?). exists r. split; [done|by left].
Qed.
Lemma http_ok_step h label t t' : http_ok h t → http_step label t t' → http_ok (record_arrival label h) t'.
Proof.
  intros Hok Hstep. inversion Hstep; subst; clear Hstep; pose proof (ho_balanced _ _ Hok) as Hb; cbn [fst record_arrival] in *.
  - by eapply begin_ok.
  - destruct H as [r Hr]. apply (handled_ok id v s answered); [done|done|]. eapply access_upload_spec; try done. by apply (ho_open _ _ Hok id r).
  - destruct H as [r Hr]. by eapply access_complete_ok.
  - by apply completed_ok.
  - eapply unrelated_ok; [done|by apply released_balanced|..]; unfold response_released; destruct (hs_held s !! i); try done; apply Hok.
  - by eapply worker_take_ok.
  - by apply worker_done_ok.
  - eapply unrelated_ok; [done|by eapply balanced_ext|done|done|done|]. pose proof (ho_streams _ _ Hok) as Hs. cbn in *. unfold zlen in *.
    pose proof (length_filter (λ k, k ≠ id) (hs_streams s)). lia.
  - eapply unrelated_ok; [done|by eapply balanced_ext|done|done|done|apply Hok].
Qed.
Lemma http_ok_start origin host boot_id secure auth : http_ok ∅ (with_lifecycle true false (new_server origin host boot_id secure auth), ∅).
Proof.
  split; cbn [fst snd].
  - split; cbn; try done; constructor.
  - by split; vm_compute.
  - constructor.
  - by vm_compute.
  - intros id Hs. cbn in Hs. by apply elem_of_nil in Hs.
  - done.
Qed.
Lemma http_history_ok h t : http_history h t → http_ok h t.
Proof. induction 1; [apply http_ok_start|by eapply http_ok_step]. Qed.
Lemma http_reachable_ok t : http_reachable t → ∃ h, http_ok h t.
Proof. intros [h Hh]%reachable_history. exists h. by apply http_history_ok. Qed.

(** ** What the server guarantees *)

(** C6: memory accounting of the HTTP server. In every state that calls of the library,
    the workers and a stop can lead to, in any order, the upload counter is the sum of the
    blocks of all requests and at most 64 MiB, a body fits its block and the block is at most
    4 MiB, the response counter is the sum of what requests have reserved and of what
    the library still holds and at most 32 MiB; no unsigned subtraction of these counters
    wraps. The queue has at most 32 requests and there are at most 8 streams; a request is
    queued or worked on at most once, and it is alive then. *)
Theorem http_accounted s answered : http_reachable (s, answered) →
  (hs_upload_bytes s = total hr_capacity (hs_requests s) ∧ hs_upload_bytes s ≤ UPLOAD_BUDGET) ∧
  (hs_response_bytes s = total hr_charge (hs_requests s) + sum (hs_held s) ∧ hs_response_bytes s ≤ RESPONSE_BUDGET) ∧
  (∀ id r, hs_requests s !! id = Some r → 0 ≤ hr_charge r ∧ zlen (hr_body r) ≤ hr_capacity r ≤ WADB_HTTP_BODY_LIMIT) ∧
  Forall (λ x, 0 ≤ x) (hs_held s) ∧
  zlen (queue_items (hs_queue s)) ≤ QUEUE_LIMIT ∧ zlen (hs_streams s) ≤ STREAM_LIMIT ∧
  NoDup (queue_items (hs_queue s) ++ hs_working s) ∧
  (∀ id, suspended s id → is_Some (hs_requests s !! id)).
Proof.
  intros [h [Hb Hring Honce Hstr Hsus _]]%http_reachable_ok. cbn [fst snd] in *. destruct Hb as [Hr Hh Hu Hum Hp Hpm]. split_and!; try done.
  - intros id r Hid. by destruct (Hr id r Hid).
  - unfold queue_items. unfold zlen. rewrite length_map, length_seqZ. destruct Hring. lia.
  - intros id Hs. destruct (Hsus id Hs) as (_&r&Hid&_). by exists r.
Qed.

(** C4: no request reaches the queue or a worker unless the server has accepted its
    client. For every request that is queued or worked on, look at how it came in: the
    latest first call for its address, which had its path and its method. The server was
    ready then and not stopping, the headers of that very call passed every check (one Host,
    which is the configured one, and no foreign Origin), and they carried the administrator's
    token or the token of a session that was live at that moment, with the CSRF token of that
    session if the request is a POST. *)
Theorem queued_authorized h s answered id : http_history h (s, answered) → suspended s id →
  ∃ r a, hs_requests s !! id = Some r ∧ h !! id = Some a ∧ ar_method a = hr_method r ∧ ar_path a = hr_path r ∧
    hs_ready (ar_server a) = true ∧ hs_stopping (ar_server a) = false ∧
    headers_refused (ar_server a) (text_is (hr_method r) "POST") (ar_connection a) = None ∧
    accepted (hs_auth (ar_server a)) (text_is (hr_method r) "POST") (ar_connection a).
Proof.
  intros Hok%http_history_ok Hs. destruct (ho_suspended _ _ Hok id Hs) as (_&r&Hid&[_ _ (_&a&Ha&Hm&Hp&Hadm)]). exists r, a. by rewrite <-Hm.
Qed.

(** C27: work that was done is reported. When a worker has made the reply of a request and
    the library asks for it, the reply goes out whatever other clients hold: the
    reservation made before the work covers it, so a commit never becomes an overload
    response. What fails then is only an allocation or the library itself. *)
Theorem finished_work_reported x s answered id r : http_reachable (s, answered) → hs_requests s !! id = Some r → hr_ready r = true →
  ¬ suspended s id → id ∉ answered → xi_delivery x = Delivery true true true →
  ∃ s', access_complete x id s = (Answered, s') ∧ hs_held s' = hs_held s ++ [re_length (hr_reply r)] ∧
    hs_response_bytes s' = hs_response_bytes s ∧ hs_requests s' = <[id := with_reply no_reply 0 r]> (hs_requests s).
Proof.
  intros [h Hok]%http_reachable_ok Hid Hready Hns Hna Hd. destruct (ho_open _ _ Hok id r Hid Hns Hna) as [[Hr _ _ _ _]|[_ Hc [Hlen _]]]; [congruence|].
  unfold access_complete, send_reply. rewrite (the_request_lookup _ _ _ Hid), Hready, Hd. cbn [orb dl_holder dl_response dl_queued negb].
  destruct (ho_balanced _ _ Hok) as [_ _ _ _ _ Hpm]. pose proof (balanced_nonneg _ (ho_balanced _ _ Hok)) as (_&?&_). cbn [fst] in *.
  rewrite (u64_id (RESPONSE_BUDGET - _)) by (unfold_budgets; lia). rewrite <-Hc. destruct (Z.eqb_spec (hr_charge r) 0) as [E|E].
  - rewrite E. destruct (Z.gtb_spec 0 (RESPONSE_BUDGET - hs_response_bytes s)); [lia|]. cbn [andb].
    rewrite (the_request_lookup id (with_reply (hr_reply r) 0 r)) by apply put_lookup. eexists. split; [done|]. cbn.
    split_and!; [done|rewrite Z.add_0_r; apply u64_id; unfold_budgets; lia|by rewrite insert_insert_eq].
  - cbn [andb]. rewrite (the_request_lookup _ _ _ Hid). apply Z.eqb_neq in E. rewrite E. by eexists.
Qed.

(** ** A server at work *)

Definition hx_server : server :=
  with_lifecycle true false (new_server (cstr "http://db") (cstr "db") (zrep 32 97) false (new_auth au_token, au_os 5)).
Definition hx_input : access_input :=
  AccessInput true (λ _, None) true (Delivery true true true) true (Ok tt) [] [] (λ _, Ok None) (λ _ _, Reply 200 (Some (cstr "{}")) 2) true.
Definition hx_connection : connection :=
  Connection [(cstr "Host", Some (cstr "db"))] (cstr "db") None None None None None (Some (cstr "Bearer " ++ au_token)) None None [].
Definition hx_fresh : server := (access_begin hx_input 1 (cstr "/api/v1/stats") (cstr "GET") hx_connection hx_server).2.
Definition hx_queued : server := (access_complete hx_input 1 hx_fresh).2.
Definition hx_working : server := match worker_take hx_queued with Some (_, s) => s | None => hx_queued end.
Definition hx_finished : server := worker_done 1 (Reply 200 (Some (cstr "{}")) 2) hx_working.
Lemma hx_input_ok : input_ok hx_input.
Proof. split; [|done]. intros status l. split; [by vm_compute|]. split; [done|]. by intros b [= <-]. Qed.
Definition hx_history : gmap Z arrival := {[1 := Arrival hx_server (cstr "/api/v1/stats") (cstr "GET") hx_connection]}.
Lemma hx_step_begin : http_step (Some (1, Arrival hx_server (cstr "/api/v1/stats") (cstr "GET") hx_connection)) (hx_server, ∅) (hx_fresh, ∅).
Proof.
  apply (step_begin hx_input 1 (cstr "/api/v1/stats") (cstr "GET") hx_connection Continue); [done|done|apply hx_input_ok|].
  unfold hx_fresh. rewrite surjective_pairing at 1. by f_equal.
Qed.
Lemma hx_step_complete : http_step None (hx_fresh, ∅) (hx_queued, ∅).
Proof.
  apply (step_complete hx_input 1 Continue); [vm_compute; eauto| |set_solver|apply hx_input_ok|].
  - unfold suspended. apply (bool_decide_unpack (1 ∉ _)). by vm_compute.
  - unfold hx_queued. rewrite surjective_pairing at 1. by f_equal.
Qed.
Lemma hx_history_queued : http_history hx_history (hx_queued, ∅).
Proof.
  apply (history_next hx_history None (hx_fresh, ∅)); [|apply hx_step_complete].
  apply (history_next ∅ (Some (1, Arrival hx_server (cstr "/api/v1/stats") (cstr "GET") hx_connection)) (hx_server, ∅)); [|apply hx_step_begin].
  apply history_started.
Qed.
Lemma hx_reachable_queued : http_reachable (hx_queued, ∅).
Proof.
  eapply http_next; [|apply hx_step_complete]. eapply (http_next _ (hx_server, ∅)); [|apply hx_step_begin]. apply http_started.
Qed.
Lemma hx_reachable_finished : http_reachable (hx_finished, ∅).
Proof.
  eapply (http_next None (hx_working, ∅)); [eapply (http_next None (hx_queued, ∅)); [apply hx_reachable_queued|]|].
  - apply (step_take 1). by vm_compute.
  - apply (step_done 1); [apply (bool_decide_unpack (1 ∈ _)); by vm_compute| |by vm_compute].
    split; [by vm_compute|]. split; [done|]. by intros b [= <-].
Qed.
Lemma http_accounted_witness :
  wq_count (hs_queue hx_queued) = 1 ∧ hs_response_bytes hx_queued = WADB_HTTP_REPLY_LIMIT ∧ hs_upload_bytes hx_queued = 4096 ∧
  total hr_capacity (hs_requests hx_queued) = 4096.
Proof.
  split; [by vm_compute|]. split; [by vm_compute|]. split; [by vm_compute|].
  destruct (http_accounted hx_queued ∅ hx_reachable_queued) as [[H _] _]. rewrite <-H. by vm_compute.
Defined.
Lemma queued_authorized_witness :
  headers_refused hx_server false hx_connection = None ∧ accepted (hs_auth hx_server) false hx_connection ∧
  hr_path (the_request 1 hx_queued) = cstr "/api/v1/stats".
Proof.
  destruct (queued_authorized hx_history hx_queued ∅ 1 hx_history_queued) as (r&a&Hr&Ha&Hm&Hp&_&_&H1&H2).
  - unfold suspended. apply (bool_decide_unpack (1 ∈ _)). by vm_compute.
  - unfold hx_history in Ha. rewrite lookup_singleton_eq in Ha. injection Ha as <-. cbn [ar_server ar_path ar_method ar_connection] in *.
    rewrite <-Hm in H1, H2. split; [exact H1|]. split; [exact H2|]. by vm_compute.
Defined.
Lemma finished_work_reported_witness : ∃ s', access_complete hx_input 1 hx_finished = (Answered, s') ∧ hs_held s' = [2].
Proof.
  assert (Hheld : hs_held hx_finished = []) by (by vm_compute). assert (Hlen : re_length (hr_reply (the_request 1 hx_finished)) = 2) by (by vm_compute).
  destruct (finished_work_reported hx_input hx_finished ∅ 1 (the_request 1 hx_finished) hx_reachable_finished) as (s'&E&H&_).
  - by vm_compute.
  - by vm_compute.
  - unfold suspended. apply (bool_decide_unpack (1 ∉ _)). by vm_compute.
  - apply not_elem_of_empty.
  - done.
  - exists s'. split; [exact E|]. rewrite H, Hheld, Hlen. done.
Defined.
