(* ===== verification/Main.v ===== *)
(** * The program (src/main.c)

    The command line, and what the two commands do: [serve] opens the database and runs the
    server until a signal comes, [check] verifies every table. The exit status is all that
    is modelled of the output. *)

From Stdlib Require Import String.
From stdpp Require Import base numbers list list_numbers gmap.
From S2P Require Import Prelude Encoding Files Engine Integrity Database Cursors Auth JsonMemory Json Feed Jobs Api Http.

(** ** The command line *)

Record command := Command {
  cm_directory : list Z;
  cm_token : option (list Z);
  cm_bind : list Z;
  cm_port : Z;
  cm_origin : option (list Z);
  cm_integrity : wadb_integrity_options;
}.
Definition default_command : command :=
  Command (cstr "data") None (cstr "127.0.0.1") 8080 None wadb_integrity_options_default.
(** The branches for one option, in their order; [None] refuses it. *)
Definition set_option (serve check : bool) (option value : list Z) (c : command) : Datatypes.option command :=
  let number := wadb_decimal_u64 value in
  if text_is option "--data" then Some (Command value (cm_token c) (cm_bind c) (cm_port c) (cm_origin c) (cm_integrity c))
  else if serve && text_is option "--bind" then Some (Command (cm_directory c) (cm_token c) value (cm_port c) (cm_origin c) (cm_integrity c))
  else if serve && text_is option "--origin" then
    Some (Command (cm_directory c) (cm_token c) (cm_bind c) (cm_port c) (Some value) (cm_integrity c))
  else if serve && text_is option "--token-file" then
    Some (Command (cm_directory c) (Some value) (cm_bind c) (cm_port c) (cm_origin c) (cm_integrity c))
  else
    match number with
    | None => None
    | Some n =>
        let with_integrity i := Some (Command (cm_directory c) (cm_token c) (cm_bind c) (cm_port c) (cm_origin c) i) in
        if serve && text_is option "--port" && (n <=? 65535) then
          Some (Command (cm_directory c) (cm_token c) (cm_bind c) n (cm_origin c) (cm_integrity c))
        else if check && text_is option "--max-scan-bytes" && negb (n =? 0) then
          with_integrity (IntegrityOptions n (io_timeout_ms (cm_integrity c)))
        else if check && text_is option "--timeout-ms" && negb (n =? 0) && (n <=? UINT32_MAX) then
          with_integrity (IntegrityOptions (io_max_scan_bytes (cm_integrity c)) n)
        else None
    end.
(** What the loop over the arguments ends with: the exit status of the program, or the
    command to run. *)
Fixpoint parse_options (serve check : bool) (args : list (list Z)) (c : command) : Z + command :=
  match args with
  | [] => inr c
  | option :: rest =>
      if text_is option "--help" then inl 0
      else
        match rest with
        | [] => inl 2
        | value :: rest' =>
            match set_option serve check option value c with
            | Some c => parse_options serve check rest' c
            | None => inl 2
            end
        end
  end.

(** ** The check of all tables *)

Definition check_table (o : wadb_integrity_options) (t : Z) : M database wadb_status :=
  r ← mtry (wadb_integrity_check t o []);
  mret (match r with Ok (_, Ok _) => WADB_OK | Ok (_, Err e) | Err e => e end).
Fixpoint check_tables (o : wadb_integrity_options) (l : list Z) (exit_status : Z) : M database Z :=
  match l with
  | [] => mret exit_status
  | t :: l' =>
      result ← check_table o t;
      check_tables o l' (if decide (result = WADB_OK) then exit_status else 1)
  end.
Definition run_check (o : wadb_integrity_options) : M database Z :=
  g ← get_database;
  match (wadb_list_tables g (Some 1024)).2 with
  | Err _ => mret 1
  | Ok l => check_tables o l 0
  end.

(** ** The server *)

(** What the environment decides: if signals could be blocked, what [realpath] and
    [inet_pton] return, the memory for the path of the token, the calls of
    [wadb_server_start], and if [sigwait] succeeded. *)
Record main_input := MainInput {
  mi_signals : bool;
  mi_resolved : option path;
  mi_address : list Z → option Z;
  mi_token_alloc : bool;
  mi_start : start_input;
  mi_waited : bool;
}.
Definition token_path (i : main_input) (c : command) : option path :=
  match cm_token c with
  | Some t => Some t
  | None => if mi_token_alloc i then Some (cm_directory c ++ cstr "/admin.token") else None
  end.
Definition run_serve (i : main_input) (c : command) : M os Z :=
  server ← mtry (wadb_server_start (mi_start i) (mi_address i (cm_bind c)) (cm_bind c) (cm_origin c) (token_path i c));
  mret (match server with Ok _ => if mi_waited i then 0 else 1 | Err _ => 1 end).
Definition in_opened {A} (g : database) (m : M database A) : M os A := λ _, let '(r, g') := m g in (r, g_os g').
Definition run_command (i : main_input) (serve : bool) (c : command) : M os Z :=
  if serve && negb (mi_signals i) then mret 1
  else
    db ← mtry (wadb_open (cm_directory c) wadb_options_default (mi_resolved i));
    match db with
    | Err _ => mret 1
    | Ok g => if serve then in_opened g (g_step (run_serve i c)) else in_opened g (run_check (cm_integrity c))
    end.
(** [args] are the arguments after the name of the program. *)
Definition main (i : main_input) (args : list (list Z)) : M os Z :=
  match args with
  | [] => mret 0
  | name :: rest =>
      if text_is name "--help" || text_is name "help" then mret 0
      else
        let serve := text_is name "serve" in
        let check := text_is name "check" in
        if negb serve && negb check then mret 2
        else match parse_options serve check rest default_command with
             | inl status => mret status
             | inr c => run_command i serve c
             end
  end.

(** ** What a command line can ask for *)

Record command_ok (c : command) : Prop := {
  ck_port : 0 ≤ cm_port c ≤ 65535;
  ck_bytes : 0 < io_max_scan_bytes (cm_integrity c) ≤ UINT64_MAX;
  ck_timeout : 0 < io_timeout_ms (cm_integrity c) ≤ UINT32_MAX;
}.
Lemma set_option_ok serve check option value c c' : bytes value → command_ok c → set_option serve check option value c = Some c' → command_ok c'.
Proof.
  intros Hb [Hp Hs Ht]. unfold set_option. cbn zeta.
  destruct (text_is option "--data"); [intros [= <-]; by split|]. do 3 (destruct (serve && _); [intros [= <-]; by split|]).
  destruct (wadb_decimal_u64 value) as [n|] eqn:En; [|done]. apply decimal_u64_spec in En as (_&Hd&Hv&Hmax); [|done].
  assert (0 ≤ n) by (rewrite <-Hv; by apply decimal_value_mono).
  repeat (case_match; [intros [= <-]; split; cbn; lia|]). done.
Qed.
(** Every command line that is accepted names a port and budgets that fit their types. *)
Theorem parsed_command_ok serve check args c0 c : command_ok c0 → Forall bytes args → parse_options serve check args c0 = inr c → command_ok c.
Proof.
  revert c0. induction args as [args IH] using (induction_ltof1 _ (@length _)). intros c0 H0 Hb.
  destruct args as [|option [|value rest]]; cbn [parse_options]; [by intros [= <-]|by destruct (text_is _ _)|].
  destruct (text_is _ _); [done|]. destruct (set_option _ _ _ _ _) as [c1|] eqn:E; [|done].
  rewrite !Forall_cons in Hb. destruct Hb as (_&Hv&Hb). apply IH; [unfold ltof; cbn; lia|by eapply set_option_ok|done].
Qed.

(** ** The exit status of a check *)

Fixpoint check_statuses (o : wadb_integrity_options) (l : list Z) : M database (list wadb_status) :=
  match l with
  | [] => mret []
  | t :: l' =>
      e ← check_table o t;
      es ← check_statuses o l';
      mret (e :: es)
  end.
Lemma check_table_total o t g : ∃ e g', check_table o t g = (Ok e, g').
Proof. unfold check_table, mtry, mbind, M_bind. destruct (wadb_integrity_check t o [] g) as [r g']. eauto. Qed.
Lemma check_tables_spec o l n g : ∃ es g', check_statuses o l g = (Ok es, g') ∧ length es = length l ∧
  check_tables o l n g = (Ok (if decide (Forall (eq WADB_OK) es) then n else 1), g').
Proof.
  revert n g. induction l as [|t l IH]; intros n g; [exists [], g; split_and!; [done|done|by rewrite decide_True by constructor]|].
  destruct (check_table_total o t g) as (e&g1&E). destruct (IH (if decide (e = WADB_OK) then n else 1) g1) as (es&g2&E1&Hl&E2).
  exists (e :: es), g2. cbn [check_statuses check_tables]. unfold mbind, M_bind. rewrite E, E1. split_and!; [done|cbn; lia|]. rewrite E2. do 3 f_equal.
  destruct (decide (Forall (eq WADB_OK) (e :: es))) as [H|H]; rewrite Forall_cons in H.
  - destruct H as [<- H]. by rewrite !decide_True.
  - destruct (decide (e = WADB_OK)) as [->|]; [rewrite decide_False by naive_solver; done|by destruct (decide _)].
Qed.
(** The check always ends with an exit status, which is 0 exactly when the database has at
    most 1024 tables and every one of them was verified, one after the other; a table that
    fails does not keep the others from being checked. *)
Theorem check_exit_exact o g : ∃ n g', run_check o g = (Ok n, g') ∧ (n = 0 ∨ n = 1) ∧
  (n = 0 ↔ zlen (g_tables g) ≤ 1024 ∧ ∃ es, check_statuses o (seqZ 0 (zlen (g_tables g))) g = (Ok es, g') ∧ Forall (eq WADB_OK) es).
Proof.
  unfold run_check, get_database, mbind, M_bind. cbn [wadb_list_tables snd].
  destruct (Z.ltb_spec 1024 (zlen (g_tables g))); [exists 1, g; split_and!; [done|by right|split; [done|lia]]|].
  destruct (check_tables_spec o (seqZ 0 (zlen (g_tables g))) 0 g) as (es&g'&E&_&E'). exists (if decide (Forall (eq WADB_OK) es) then 0 else 1), g'.
  split; [done|]. destruct (decide (Forall (eq WADB_OK) es)) as [H'|H'].
  - split; [by left|]. split; [|done]. intros _. split; [lia|]. by exists es.
  - split; [by right|]. split; [done|]. intros (_&es'&E1&?). rewrite E in E1. injection E1 as <-. done.
Qed.

(** ** Runs of the program *)

Definition mx_input : main_input :=
  MainInput true (Some (cstr "/db")) (λ _, Some (Z.shiftl 127 24 + 1)) true
    (StartInput true true true true (zrep 32 17) (Some (zrep 32 97)) (Ok tt) (Some 8080) [true; true; true; true] true) true.
Definition mx_os : os := Os ∅ {[cstr "/"]} [] [] [] [].
Definition mx_exit (i : main_input) (args : list string) : result Z := (main i (map cstr args) mx_os).1.
Example check_new_database : mx_exit mx_input ["check"; "--data"; "/db"; "--timeout-ms"; "5000"]%string = Ok 0.
Proof. vm_compute. reflexivity. Qed.
Example serve_loopback : mx_exit mx_input ["serve"; "--data"; "/db"; "--port"; "0"]%string = Ok 0.
Proof. vm_compute. reflexivity. Qed.
(** A binding to another address needs an HTTPS origin. *)
Definition mx_remote : main_input :=
  MainInput true (Some (cstr "/db")) (λ _, Some 0) true (mi_start mx_input) true.
Example serve_remote :
  mx_exit mx_remote ["serve"; "--data"; "/db"; "--bind"; "0.0.0.0"]%string = Ok 1 ∧
  mx_exit mx_remote ["serve"; "--data"; "/db"; "--bind"; "0.0.0.0"; "--origin"; "https://db.example"]%string = Ok 0.
Proof. vm_compute. done. Qed.
Example refused_options :
  mx_exit mx_input ["serve"; "--port"; "65536"]%string = Ok 2 ∧ mx_exit mx_input ["check"; "--port"; "80"]%string = Ok 2 ∧
  mx_exit mx_input ["check"; "--data"]%string = Ok 2 ∧ mx_exit mx_input ["check"; "--help"]%string = Ok 0.
Proof. vm_compute. done. Qed.
